(* ===== verification/_CoqProject ===== *)
-Q . S2P
Prelude.v
PyDict.v
PyStr.v
PyVal.v
Regex.v
Json.v
Logging.v
Endpoint.v
RequestStats.v
RequestWindow.v
EngineStats.v
Metrics.v
HashTrie.v
Routing.v
RoutingPriority.v
RoutingKv.v
RoutingPrefix.v
RoutingRegistry.v
RouterInterface.v
Utils.v
ServiceDiscovery.v
ServiceDiscoveryK8s.v
DiscoveryRegistry.v
HttpBackend.v
FileStorage.v
BatchService.v
ProcessRequest.v
RouteRequest.v
ExternalProviders.v
ProviderModels.v
Multipart.v
RequestLifecycle.v
LoadRouting.v
Disaggregated.v
SleepRouting.v
DynamicConfig.v
ConfigFile.v
Tracing.v
SemanticCache.v
Pii.v
MainRouter.v
Routes.v
Startup.v
RouterInUse.v
CommandLine.v
Application.v
