(* ===== verification/Prelude.v ===== *)
(** * A verification of the vLLM production-stack router

    This library models the router of the vLLM production stack, the Python program under
    src/src/vllm_router/, as executable Rocq definitions, and proves what makes it correct.
    The router accepts OpenAI-style HTTP requests, keeps a list of the inference engines
    that run (service discovery) and of their load (statistics), chooses an engine for
    each request (routing logic), forwards the request and relays the answer (request
    service).  Around this core it serves a few endpoints of its own, stores files and
    batches, sends some models to external providers, and reloads its configuration.

    ** Parts and sources

    File names are relative to src/src/vllm_router/.

    - Prelude: this file: the exceptions and the state-and-exception monad in which the
      Python code is written, the invariant rules of that monad, rationals, stable sorting,
      arg-min.  PyDict: dictionaries in insertion order.  PyStr: strings.  PyVal: dynamic
      values and the interface [JsonCodec] of [json.loads] and [json.dumps].  Regex: regular
      expressions, their matcher and their search between word boundaries.  Json: the text
      that [json.dumps] prints.
    - Endpoint (service_discovery.py, data part): models, engines, labels.
    - RequestStats, RequestWindow (stats/request_stats.py): the monitor's state and event
      handlers; the ledger that specifies them, the simulation, the sliding windows.
      EngineStats (stats/engine_stats.py): the scraper and its thread.
    - HashTrie (prefix/hashtrie.py): the prefix trie as a heap of nodes, its concurrent
      insertions lock by lock, and the specification by paths.
    - Routing, RoutingPriority, RoutingKv, RoutingPrefix, RoutingRegistry
      (routers/routing_logic.py): round robin and session routing; priority and
      disaggregated-prefill routing; cache-aware and load-aware routing; prefix-aware
      routing; the registry of router singletons.  RouterInterface: the class [Router] of
      what a router promises to the request service, [TotalRouter] for the routers that
      always answer, and an instance for every router.
    - Utils (utils.py, with the configuration strings): URLs, health probes, header and
      body rewriting.
    - ServiceDiscovery, ServiceDiscoveryK8s, DiscoveryRegistry (service_discovery.py):
      static discovery, the two Kubernetes watchers as handlers of event streams, and the
      module-level instance.
    - HttpBackend (aiohttp_client.py and the error responses of
      services/request_service/request.py): timeouts, headers, error bodies.
    - ProcessRequest, RouteRequest, Multipart, Disaggregated, SleepRouting,
      RequestLifecycle (services/request_service/request.py): one attempt on one engine;
      the handler of the inference endpoints with its failover loop; form requests and
      transcriptions; the two disaggregated-prefill flows; sleep and wake-up; and any
      number of requests interleaved hook by hook.
    - LoadRouting: where the routers meet the monitor.  The states are those that
      RequestLifecycle's steps reach, the statistics those read in them, and the choice
      that of the priority, load-aware or session router; [serve_one] reads, chooses and
      counts the new request, as the handler does between two awaits.
    - ExternalProviders, ProviderModels (external_providers/): configuration, index,
      retries, handler; the adapters' sessions, the model lists they fetch, validation.
    - FileStorage (services/files_service/, routers/files_router.py): the file system as a
      tree in which paths are walked name by name (class [OS] for the directory the process
      runs in), the storage on it, its endpoints.  BatchService (services/batch_service/,
      routers/batches_router.py).
    - DynamicConfig (dynamic_config.py, services/callbacks_service/callbacks.py): the
      watcher.  ConfigFile (parsers/yaml_utils.py): flattening the YAML file.  CommandLine
      (parsers/parser.py): the flags as data, and how flags, file and defaults combine.
      Startup (app.py, the checks of parsers/parser.py, experimental/feature_gates.py): the
      command line's checks, building and closing the components.
    - MainRouter (routers/main_router.py, protocols.py): models, engines, health, rerank.
      Routes (routers/): which handler answers which method and path.
    - Application (app.py, aiohttp_client.py, services/request_service/rewriter.py): the
      whole of [main] and of the lifespan around the first and the last request.
    - RouterInUse (request.app.state.router): the inference handler on the application's
      state, while the watcher replaces the router and other requests ask it, also between
      the test of the router's class and the call that depends on it.
    - Tracing (experimental/otel/tracing.py, and its uses in the request service): the
      inference handler with its spans, next to the one without.
    - Pii (experimental/pii/): the middleware against any analyzer (class [PIIAnalyzer]),
      the regular expressions, Presidio around its engine, configuration and factory.
    - SemanticCache (experimental/semantic_cache/, experimental/semantic_cache_integration.py):
      the vector database with its files, the cache, and chat completions behind it.
    - Metrics (routers/metrics_router.py, stats/log_stats.py, services/metrics_service/):
      the gauges.  Logging (log.py): redaction, handlers and streams.

    ** How the code is read

    A method that mutates its object is a computation of type [M S A], from a state to a
    state and a result; an exception keeps the state reached when it was raised.  Values
    that may have any JSON type are [pyval], and the type errors of the source are
    results.  Python dictionaries whose order matters are association lists; sets and
    maps whose order does not are stdpp's.  Integers are unbounded, as Python's are;
    floats are read as exact rationals.  Coroutines that interleave are step relations or
    sequences of events in which a step is the code between two awaits (HashTrie,
    RequestLifecycle, BatchService); a thread that loops is the sequence of its turns
    (EngineStats, DynamicConfig, the Kubernetes watchers).

    What is not in the sources is a parameter: the engines' behaviour ([Backend] values or
    an answer function), the Kubernetes API, the LMCache controller, the tokenizer, the
    hash ring and the digests, the metrics parser, the embedding model and the vector
    index, Presidio's engine, the tracer's exporter, the clock, fresh identifiers, the
    environment and the operating system's limits, the size and time of a directory, user
    callbacks, and the formatting of
    floats.  The laws assumed of a
    parameter are fields of a class or hypotheses of the theorem: [HashRing] (a node that
    is found is in the ring), [JsonCodec] (a dumped dictionary parses back), [VectorIndex]
    (the nearest vector has the largest inner product).

    Recursion is structural.  Three functions take fuel: the failover loop (and its traced
    version), whose fuel is its number of attempts, as in the code; [pos_to_str], given
    more steps than a number has digits; and [chunks], given the request's length, which is
    at least its number of chunks.  Regular expressions are matched by derivatives on the structure of the
    string.

    ** What is proved

    - Routing under load: an urgent request goes to an engine to which no more requests
      are being proxied than to any other, and urgent requests keep the load level; the
      load-aware router weighs the cached prompt against the requests really in flight; a
      request without a session goes to an engine that was asked least in the last window.
    - Statistics: the reported counts are those of the ledger, requests are conserved,
      terminal hooks are final, the QPS is the arrivals in the window over its length; the
      scraper holds what the engines listed in its last good round answered in it, and
      nothing of the others.
    - Prefix trie: every interleaving of insertions gives the sequential result, a match
      is the longest one, and what was inserted is matched.
    - Routing: fairness of round robin and of the two prefill pools; session affinity;
      urgent requests go to the least loaded engine; the cache-aware routers choose live
      engines, follow the longest match and the best score; the registry holds one router.
    - Discovery: the listing is exactly the serving pods, through every stream the watcher
      gets, or the healthy backends in the order of the configuration; the installed
      discovery is replaced atomically.
    - Requests: every attempt ends in one terminal hook; interleaved requests leave no
      trace in the statistics; the failover ends within its attempts, contacts each engine
      once, and reaches a live engine when one always answers, the others fail in a way that
      is retried and the attempts suffice; unroutable
      requests touch nothing; a hand-over posts once to each side; form requests are
      attempted once; a pod's label follows a sleep or wake-up only after the engine accepted
      it.
    - External providers: the index holds what is configured, and after startup what the
      providers serve; a request is posted within the retry bound and reports its last
      error.
    - Files and batches: the storage refines a map from user and id to files as long as
      users and ids are plain names; a batch is run at most once whatever the interleaving, the queue is drained in order, and a
      created batch is given back.
    - Configuration: accepted command lines are exactly the well-formed ones; startup
      builds what was asked for; a reload keeps everything, replaces everything, or stops
      between the discovery, the router and the callbacks in the stated mixed states and is
      tried again; the first turn of the watcher on the startup file changes nothing.
    - The model list names every model once, by its first description.
    - A run from the command line to the last request: what was asked for is started, the
      handlers find one open client however the configuration changes, and stopping closes
      the components, but leaves the prefill and decode clients' sessions open.
    - Requests survive reloads: whatever happens to the router before and between the
      attempts of a request, the contract of the failover holds, and with routers that
      always answer a live engine is found.
    - Tracing: the traced handler does what the untraced one does; every attempt's span is
      ended, the request's own exactly once when it is answered, unless a pre_request
      callback answers it, and nothing is recorded on other spans.
    - Personal data: a request is blocked exactly when its printed body holds a match of a
      requested type (lemmas of Pii, which no route installs).
    - A YAML file's models reach static discovery without loss; a flag beats the file and
      the file beats the default.
    - The semantic cache answers only with the nearest stored entry of the model; a page
      of metrics shows the ledger; up to INFO the headers among the arguments of a log
      record are redacted, the message and other arguments are not looked at.

    Examples run the definitions on concrete inputs, among them the failures that the
    model brought to light: labels given on the command line are matched as substrings, a
    reload drops options of the router, a cancelled batch can no longer be listed, a null
    usage block fails a complete response, an accepted sleep is lost with static discovery.

    ** Not modelled

    Splitting the command line is argparse's work and parsing YAML a library's: the model
    starts from the flags given and from the document.  Links, permissions and failures of
    the disk are not part of the file system.  A router's constructor that is given a
    configuration value of another type, which the code stores and a request stumbles
    over, raises in the model; the theorem on reloads leaves such values out.  TLS, sockets, matching a request
    against the routes and the web server are below the handlers.  The trace context in the
    headers is OpenTelemetry's.  Where a match of personal data is and its score reach logs
    and histograms only.  experimental/semantic_cache.py is shadowed by the package of the
    same name, so the program never runs it.  Abstract base classes (the storage, the
    batch processor, the providers' adapter) and getters of module-level instances appear
    through what implements them.  Waiting between the turns of a thread is not counted.
    Tests, benchmarks, charts and the Kubernetes operator, which is another program, are
    left out.

    What is left of the router's own files is docstrings, logging and calls into libraries.
    The interleavings stop at two points: a call of a router is one step against reloads,
    and form requests and the disaggregated flows, which ask the router once, are stated
    for the router they find. *)

From stdpp Require Export base tactics option list gmap strings sets fin_maps sorting.
From Stdlib Require Export ZArith QArith Lia Lqa.
From Stdlib Require Import Permutation Sorted.

(** stdpp opens [nat_scope] last in its own files; [QArith] opens [Q_scope] on
    import.  The development writes rational arithmetic with an explicit [%Q]. *)
#[export] Set Warnings "-clear-no-such-hyp".
Close Scope Q_scope.
Open Scope stdpp_scope.
Open Scope nat_scope.

(* ------------------------------------------------------------------ *)
(** ** Exceptions and the state-and-exception monad *)

(** The Python exceptions the router's code raises, catches or lets through.
    [CancelledError] and [GeneratorExit] derive from [BaseException] and are not
    caught by an [except Exception] clause. *)
Inductive exn : Type :=
| ValueError (msg : string)
| KeyError (key : string)
| IndexError
| TypeError
| AttributeError (name : string)
| AssertionError
| UnboundLocalError (name : string)
| JSONDecodeError
| HTTPException (status_code : Z) (detail : string)
| ConnectionTimeoutError
| ClientConnectorError
| ServerTimeoutError
| TimeoutError
| ClientResponseError (status : Z) (message : string)
| ContentTypeError
| ClientError (message : string)
| ApiException
| OtherException (name : string)
| CancelledError
| GeneratorExit.

#[global] Instance exn_eq_dec : EqDecision exn.
Proof. solve_decision. Defined.

(** [isinstance(e, Exception)]. *)
Definition is_Exception (e : exn) : bool :=
  match e with CancelledError | GeneratorExit => false | _ => true end.

Inductive res (A : Type) : Type :=
| Ok (a : A)
| Err (e : exn).
Arguments Ok {A} a.
Arguments Err {A} e.

#[global] Instance res_eq_dec `{EqDecision A} : EqDecision (res A).
Proof. solve_decision. Defined.

(** A Python computation on a mutable state: the state survives an exception. *)
Definition M (S A : Type) : Type := S → S * res A.

Section monad.
Context {S : Type}.

Definition ret {A} (a : A) : M S A := λ s, (s, Ok a).
Definition raise {A} (e : exn) : M S A := λ s, (s, Err e).
Definition bind {A B} (m : M S A) (f : A → M S B) : M S B := λ s,
  match m s with
  | (s', Ok a) => f a s'
  | (s', Err e) => (s', Err e)
  end.
Definition gets {A} (f : S → A) : M S A := λ s, (s, Ok (f s)).
Definition modify (f : S → S) : M S unit := λ s, (f s, Ok tt).
Definition lift {A} (r : res A) : M S A := λ s, (s, r).

(** [try: m except ...: h e]; the handler decides which exceptions it takes. *)
Definition try_except {A} (m : M S A) (h : exn → M S A) : M S A := λ s,
  match m s with
  | (s', Ok a) => (s', Ok a)
  | (s', Err e) => h e s'
  end.

(** [try: m finally: f]; an exception of [f] replaces the outcome of [m]. *)
Definition try_finally {A} (m : M S A) (f : M S unit) : M S A := λ s,
  let '(s', r) := m s in
  match f s' with
  | (s'', Ok _) => (s'', r)
  | (s'', Err e) => (s'', Err e)
  end.

(** [for x in l: f x]. *)
Fixpoint for_each {A} (l : list A) (f : A → M S unit) : M S unit :=
  match l with
  | [] => ret tt
  | x :: l' => bind (f x) (λ _, for_each l' f)
  end.

(** [await asyncio.gather(...)] on coroutines that each take effect in one step, in
    the order they finish: all run, the first exception is raised. *)
Fixpoint gather (ms : list (M S unit)) : M S unit :=
  match ms with
  | [] => ret tt
  | m :: ms' => λ s,
      let '(s1, r) := m s in
      let '(s2, r') := gather ms' s1 in
      (s2, match r with Err e => Err e | Ok _ => r' end)
  end.
End monad.

(** Computations on one half of a pair of states. *)
Definition on_fst {S1 S2 A} (m : M S1 A) : M (S1 * S2) A := λ s, let '(s1, r) := m s.1 in ((s1, s.2), r).
Definition on_snd {S1 S2 A} (m : M S2 A) : M (S1 * S2) A := λ s, let '(s2, r) := m s.2 in ((s.1, s2), r).

Declare Scope py_scope.
Delimit Scope py_scope with py.
Notation "x <- m ;; k" := (bind m (λ x, k))
  (at level 100, m at next level, right associativity) : py_scope.
Notation "m ;;; k" := (bind m (λ _, k))
  (at level 100, right associativity) : py_scope.

(** Error-only computations: [res] as a monad. *)
Definition rbind {A B} (m : res A) (f : A → res B) : res B :=
  match m with Ok a => f a | Err e => Err e end.
Definition of_option {A} (e : exn) (o : option A) : res A :=
  match o with Some a => Ok a | None => Err e end.
Definition is_ok {A} (r : res A) : bool := match r with Ok _ => true | Err _ => false end.

Fixpoint mapM_res {A B} (f : A → res B) (l : list A) : res (list B) :=
  match l with
  | [] => Ok []
  | x :: l' => rbind (f x) (λ y, rbind (mapM_res f l') (λ ys, Ok (y :: ys)))
  end.

Lemma rbind_Ok {A B} (m : res A) (f : A → res B) b :
  rbind m f = Ok b → ∃ a, m = Ok a ∧ f a = Ok b.
Proof. destruct m as [a|e]; simpl; [|done]. intros Hf. by exists a. Qed.
Lemma Ok_inj {A} (a b : A) : Ok a = Ok b → a = b.
Proof. by intros [= ->]. Qed.

Section monad_laws.
Context {S : Type}.

Lemma bind_ret_l {A B} (a : A) (f : A → M S B) s : bind (ret a) f s = f a s.
Proof. done. Qed.
Lemma bind_ret_r {A} (m : M S A) s : bind m ret s = m s.
Proof. unfold bind. by destruct (m s) as [s' []]. Qed.
Lemma bind_assoc {A B C} (m : M S A) (f : A → M S B) (g : B → M S C) s :
  bind (bind m f) g s = bind m (λ a, bind (f a) g) s.
Proof. unfold bind. by destruct (m s) as [s' []]. Qed.
Lemma bind_inv_Ok {A B} (m : M S A) (f : A → M S B) s s2 b :
  bind m f s = (s2, Ok b) → ∃ s1 a, m s = (s1, Ok a) ∧ f a s1 = (s2, Ok b).
Proof. unfold bind. destruct (m s) as [s1 [a|e]]; naive_solver. Qed.
Lemma for_each_app {A} (l k : list A) (f : A → M S unit) s :
  for_each (l ++ k) f s = bind (for_each l f) (λ _, for_each k f) s.
Proof.
  revert s. induction l as [|x l IH]; intros s; [done|]. cbn [for_each app].
  unfold bind in *. destruct (f x s) as [s1 [[]|e]]; [apply IH|done].
Qed.
End monad_laws.

(** A computation keeps an invariant, whether it returns or raises. *)
Definition preserves {S A} (P : S → Prop) (m : M S A) : Prop := ∀ s, P s → P (m s).1.

Section preserves.
Context {S : Type} (P : S → Prop).

Lemma preserves_ret {A} (a : A) : preserves P (ret a).
Proof. by intros s. Qed.
Lemma preserves_raise {A} e : preserves P (@raise S A e).
Proof. by intros s. Qed.
Lemma preserves_lift {A} (r : res A) : preserves P (lift r).
Proof. by intros s. Qed.
Lemma preserves_gets {A} (f : S → A) : preserves P (gets f).
Proof. by intros s. Qed.
Lemma preserves_modify (f : S → S) : (∀ s, P s → P (f s)) → preserves P (modify f).
Proof. intros Hf s. apply Hf. Qed.
Lemma preserves_bind {A B} (m : M S A) (f : A → M S B) :
  preserves P m → (∀ a, preserves P (f a)) → preserves P (bind m f).
Proof.
  intros Hm Hf s Hs. unfold bind. specialize (Hm s Hs). destruct (m s) as [s' [a|e]]; [|done].
  by apply Hf.
Qed.
Lemma preserves_try_except {A} (m : M S A) h :
  preserves P m → (∀ e, preserves P (h e)) → preserves P (try_except m h).
Proof.
  intros Hm Hh s Hs. unfold try_except. specialize (Hm s Hs).
  destruct (m s) as [s' [a|e]]; [done|]. by apply Hh.
Qed.
Lemma preserves_try_finally {A} (m : M S A) f :
  preserves P m → preserves P f → preserves P (try_finally m f).
Proof.
  intros Hm Hf s Hs. unfold try_finally. specialize (Hm s Hs).
  destruct (m s) as [s' r]. specialize (Hf s' Hm). by destruct (f s') as [s'' []].
Qed.
Lemma preserves_for_each {A} (l : list A) f :
  (∀ x, preserves P (f x)) → preserves P (for_each l f).
Proof.
  intros Hf. induction l as [|x l IH]; simpl; [apply preserves_ret|].
  by apply preserves_bind.
Qed.
Lemma preserves_gather ms : Forall (preserves P) ms → preserves P (gather ms).
Proof.
  induction 1 as [|m ms Hm Hms IH]; simpl; [apply preserves_ret|].
  intros s Hs. specialize (Hm s Hs). destruct (m s) as [s1 r].
  specialize (IH s1 Hm). by destruct (gather ms s1).
Qed.
Lemma preserves_if {A} (b : bool) (m m' : M S A) :
  preserves P m → preserves P m' → preserves P (if b then m else m').
Proof. by destruct b. Qed.
End preserves.

(** [Decide]s a boolean guard of the source and keeps the equation. *)
Ltac split_if :=
  match goal with
  | |- context [if ?b then _ else _] => destruct b eqn:?
  | H : context [if ?b then _ else _] |- _ => destruct b eqn:?
  end.

(** Turns the boolean guards of the hypotheses into propositions. *)
Ltac bool_to_prop :=
  repeat match goal with
  | H : bool_decide _ = true |- _ => apply bool_decide_eq_true_1 in H
  | H : bool_decide _ = false |- _ => apply bool_decide_eq_false_1 in H
  | H : negb _ = true |- _ => apply negb_true_iff in H
  | H : negb _ = false |- _ => apply negb_false_iff in H
  | H : _ && _ = true |- _ => apply andb_true_iff in H as [??]
  | H : _ || _ = false |- _ => apply orb_false_iff in H as [??]
  | H : Z.leb _ _ = true |- _ => apply Z.leb_le in H
  | H : Z.leb _ _ = false |- _ => apply Z.leb_gt in H
  | H : Z.ltb _ _ = true |- _ => apply Z.ltb_lt in H
  | H : Z.ltb _ _ = false |- _ => apply Z.ltb_ge in H
  end.

(* ------------------------------------------------------------------ *)
(** ** Rationals: the exact reading of the source's floats *)

Definition Qltb (a b : Q) : bool := negb (Qle_bool b a).

Lemma Qltb_lt a b : Qltb a b = true ↔ (a < b)%Q.
Proof.
  unfold Qltb. rewrite negb_true_iff, <-not_true_iff_false, Qle_bool_iff.
  split; [apply Qnot_le_lt|apply Qlt_not_le].
Qed.
Lemma Qltb_ge a b : Qltb a b = false ↔ (b <= a)%Q.
Proof. unfold Qltb. rewrite negb_false_iff. apply Qle_bool_iff. Qed.

Definition Qsum (l : list Q) : Q := foldr Qplus 0%Q l.

Lemma Qsum_app l k : (Qsum (l ++ k) == Qsum l + Qsum k)%Q.
Proof. induction l as [|x l IH]; simpl; [ring|]. rewrite IH. ring. Qed.

Lemma Qsum_replicate n x : (Qsum (replicate n x) == inject_Z (Z.of_nat n) * x)%Q.
Proof.
  induction n as [|n IH]; simpl; [change (inject_Z (Z.of_nat 0)) with 0%Q; ring|].
  rewrite IH, Nat2Z.inj_succ. unfold Z.succ. rewrite inject_Z_plus. ring.
Qed.

(* ------------------------------------------------------------------ *)
(** ** [sorted(l, key=...)]: a stable sort by a string key *)

Section py_sorted.
Context {A : Type} (key : A → string).

Fixpoint insert_by (x : A) (l : list A) : list A :=
  match l with
  | [] => [x]
  | y :: l' => if decide (String.le (key x) (key y)) then x :: y :: l'
               else y :: insert_by x l'
  end.
Definition py_sorted (l : list A) : list A := foldr insert_by [] l.

Lemma insert_by_Permutation x l : insert_by x l ≡ₚ x :: l.
Proof.
  induction l as [|y l IH]; simpl; [done|]. case_decide; [done|].
  rewrite IH. apply Permutation_swap.
Qed.
Lemma py_sorted_Permutation l : py_sorted l ≡ₚ l.
Proof. induction l as [|x l IH]; simpl; [done|]. by rewrite insert_by_Permutation, IH. Qed.

Definition key_le (x y : A) : Prop := String.le (key x) (key y).

Lemma insert_by_sorted x l :
  StronglySorted key_le l → StronglySorted key_le (insert_by x l).
Proof.
  induction 1 as [|y l Hs IH Hf]; simpl; [by repeat constructor|].
  case_decide as Hle.
  - repeat constructor; [done..| |]; [done|].
    eapply Forall_impl; [done|]. intros z Hz. unfold key_le in *. by etrans.
  - constructor; [done|]. rewrite insert_by_Permutation. constructor; [|done].
    unfold key_le. by destruct (total String.le (key x) (key y)).
Qed.
Lemma py_sorted_sorted l : StronglySorted key_le (py_sorted l).
Proof. induction l; simpl; [constructor|]. by apply insert_by_sorted. Qed.

Lemma insert_by_stable k x l :
  filter (λ y, key y = k) (insert_by x l) = filter (λ y, key y = k) (x :: l).
Proof.
  induction l as [|y l IH]; [done|]. cbn [insert_by]. case_decide as Hle; [done|].
  destruct (decide (key y = k)) as [Hy|Hy]; destruct (decide (key x = k)) as [Hx|Hx].
  - by rewrite Hx, Hy in Hle.
  - rewrite filter_cons_True, IH, !filter_cons_False, filter_cons_True by done. done.
  - rewrite filter_cons_False, IH by done.
    by rewrite !(filter_cons_True _ x), (filter_cons_False _ y) by done.
  - rewrite filter_cons_False, IH by done. by rewrite !filter_cons_False by done.
Qed.
(** Equal keys keep their order, as CPython's sort guarantees. *)
Lemma py_sorted_stable k l :
  filter (λ y, key y = k) (py_sorted l) = filter (λ y, key y = k) l.
Proof.
  induction l as [|x l IH]; [done|]. cbn [py_sorted foldr].
  rewrite insert_by_stable. destruct (decide (key x = k)).
  - by rewrite !filter_cons_True, <-IH by done.
  - by rewrite !filter_cons_False, <-IH by done.
Qed.
Lemma length_py_sorted l : length (py_sorted l) = length l.
Proof. by rewrite py_sorted_Permutation. Qed.
Lemma elem_of_py_sorted x l : x ∈ py_sorted l ↔ x ∈ l.
Proof. by rewrite py_sorted_Permutation. Qed.
End py_sorted.

(** Sorting strings forgets the order of the argument. *)
Lemma py_sorted_id_perm (l k : list string) : l ≡ₚ k → py_sorted id l = py_sorted id k.
Proof.
  intros Hp. apply (StronglySorted_unique String.le).
  - apply (py_sorted_sorted id).
  - apply (py_sorted_sorted id).
  - by rewrite !py_sorted_Permutation.
Qed.

(* ------------------------------------------------------------------ *)
(** ** Rotation: [l[idx % len(l)]] for consecutive values of [idx] *)

Lemma mod_shift n i j :
  i < n → j < n → (i + j) mod n = if decide (i + j < n) then i + j else i + j - n.
Proof.
  intros Hi Hj. case_decide; [by apply Nat.mod_small|].
  rewrite <-(Nat.mod_small (i + j - n) n) by lia.
  rewrite <-(Nat.Div0.mod_add (i + j - n) 1 n). f_equal. lia.
Qed.

(** As many consecutive picks as there are elements pick each element once. *)
Lemma rotation_Permutation {A} (l us : list A) idx :
  length us = length l →
  (∀ j u, us !! j = Some u → l !! ((idx + j) mod length l) = Some u) →
  us ≡ₚ l.
Proof.
  intros Hlen Hus. destruct (decide (length l = 0)) as [H0|H0].
  { destruct l, us; done. }
  set (i := idx mod length l). assert (Hi : i < length l) by (by apply Nat.mod_upper_bound).
  trans (drop i l ++ take i l); [|by rewrite Permutation_app_comm, take_drop].
  apply reflexive_eq.
  apply list_eq. intros j. destruct (us !! j) as [u|] eqn:Eu.
  - apply lookup_lt_Some in Eu as Hj. apply Hus in Eu.
    rewrite <-Nat.Div0.add_mod_idemp_l in Eu. fold i in Eu.
    rewrite mod_shift in Eu by lia. symmetry. case_decide.
    + rewrite lookup_app_l by (rewrite length_drop; lia). by rewrite lookup_drop.
    + rewrite lookup_app_r by (rewrite length_drop; lia).
      rewrite length_drop, lookup_take_lt by lia. rewrite <-Eu. f_equal. lia.
  - symmetry. apply lookup_ge_None. apply lookup_ge_None in Eu.
    rewrite length_app, length_drop, length_take. lia.
Qed.

(* ------------------------------------------------------------------ *)
(** ** [min]/[max] with a key: the first best element *)

Section argbest.
Context {A B : Type} (lt : B → B → bool) (key : A → B).

(** [lt a b]: a strictly improves on b. *)
Definition argbest_from (x : A) (l : list A) : A :=
  foldl (λ c y, if lt (key y) (key c) then y else c) x l.
Definition argbest (l : list A) : option A :=
  match l with [] => None | x :: l' => Some (argbest_from x l') end.

Context (lt_asym : ∀ a b, lt a b = true → lt b a = false).
Context (lt_cotrans : ∀ a b c, lt a c = true → lt a b = true ∨ lt b c = true).

Lemma argbest_from_elem x l : argbest_from x l ∈ x :: l.
Proof.
  revert x. induction l as [|y l IH]; intros x; [constructor|].
  unfold argbest_from; simpl. fold (argbest_from (if lt (key y) (key x) then y else x) l).
  destruct (lt _ _); rewrite !elem_of_cons in *.
  - specialize (IH y). rewrite elem_of_cons in IH. naive_solver.
  - specialize (IH x). rewrite elem_of_cons in IH. naive_solver.
Qed.

(** Nothing beats the running best, and the running best only improves. *)
Lemma argbest_from_best x l y :
  y ∈ x :: l → lt (key y) (key (argbest_from x l)) = false.
Proof.
  revert x y. induction l as [|z l IH]; intros x y Hy.
  - apply list_elem_of_singleton in Hy as ->. destruct (lt (key x) (key x)) eqn:E; [|done].
    by rewrite (lt_asym _ _ E) in E.
  - unfold argbest_from; simpl. fold (argbest_from (if lt (key z) (key x) then z else x) l).
    destruct (lt (key z) (key x)) eqn:E.
    + apply elem_of_cons in Hy as [->|Hy]; [|by apply IH].
      apply not_true_iff_false; intros Ht.
      assert (Hz : lt (key z) (key (argbest_from z l)) = false) by (apply IH; set_solver).
      destruct (lt_cotrans _ (key (argbest_from z l)) _ E) as [?|H]; [congruence|].
      apply lt_asym in H. congruence.
    + assert (Hx : lt (key x) (key (argbest_from x l)) = false) by (apply IH; set_solver).
      apply elem_of_cons in Hy as [->|[->|Hy]%elem_of_cons]; [done| |by apply IH; set_solver].
      apply not_true_iff_false; intros Ht.
      destruct (lt_cotrans _ (key x) _ Ht); congruence.
Qed.

(** The winner strictly improves on everything listed before it. *)
Lemma argbest_from_first x l :
  ∃ l1 l2, x :: l = l1 ++ argbest_from x l :: l2 ∧
    ∀ y, y ∈ l1 → lt (key (argbest_from x l)) (key y) = true.
Proof.
  assert (lt_trans : ∀ a b c, lt a b = true → lt b c = true → lt a c = true).
  { intros a b c Hab Hbc. destruct (lt_cotrans _ c _ Hab) as [?|Hcb]; [done|].
    apply lt_asym in Hcb. congruence. }
  assert (Hgo : ∀ l pre x, (∀ y, y ∈ pre → lt (key x) (key y) = true) →
    ∀ mid, (∀ y, y ∈ mid → lt (key y) (key x) = false) →
    ∃ l1 l2, pre ++ x :: mid ++ l = l1 ++ argbest_from x l :: l2 ∧
      ∀ y, y ∈ l1 → lt (key (argbest_from x l)) (key y) = true).
  { clear x l. induction l as [|z l IH]; intros pre x Hpre mid Hmid.
    { exists pre, mid. rewrite app_nil_r. done. }
    unfold argbest_from; simpl. fold (argbest_from (if lt (key z) (key x) then z else x) l).
    destruct (lt (key z) (key x)) eqn:E.
    - destruct (IH (pre ++ x :: mid) z) with (mid := @nil A) as (l1 & l2 & Hl & H1).
      + intros y [Hy|[->|Hy]%elem_of_cons]%elem_of_app; eauto.
        destruct (lt_cotrans _ (key y) _ E) as [?|?]; [done|]. rewrite Hmid in *; done.
      + set_solver.
      + exists l1, l2. split; [|done]. rewrite <-Hl. by rewrite <-app_assoc.
    - destruct (IH pre x Hpre (mid ++ [z])) as (l1 & l2 & Hl & H1).
      + intros y [Hy| ->%list_elem_of_singleton]%elem_of_app; auto.
      + exists l1, l2. split; [|done]. rewrite <-Hl. by rewrite <-app_assoc. }
  destruct (Hgo l [] x ltac:(set_solver) [] ltac:(set_solver)) as (l1 & l2 & Hl & H1).
  by exists l1, l2.
Qed.
End argbest.

(** Instances of the comparison: Python's [min] and [max] on integers and the
    strict [>] update of a running best on rationals. *)
Lemma Zltb_asym a b : Z.ltb a b = true → Z.ltb b a = false.
Proof. rewrite Z.ltb_lt, Z.ltb_ge. lia. Qed.
Lemma Zltb_cotrans a b c : Z.ltb a c = true → Z.ltb a b = true ∨ Z.ltb b c = true.
Proof. rewrite !Z.ltb_lt. lia. Qed.
Lemma Zgtb_asym a b : Z.gtb a b = true → Z.gtb b a = false.
Proof. rewrite !Z.gtb_ltb. apply Zltb_asym. Qed.
Lemma Zgtb_cotrans a b c : Z.gtb a c = true → Z.gtb a b = true ∨ Z.gtb b c = true.
Proof. rewrite !Z.gtb_ltb, !Z.ltb_lt. lia. Qed.
Lemma Qltb_asym a b : Qltb a b = true → Qltb b a = false.
Proof. rewrite Qltb_lt, Qltb_ge. lra. Qed.
Lemma Qltb_cotrans a b c : Qltb a c = true → Qltb a b = true ∨ Qltb b c = true.
Proof.
  rewrite !Qltb_lt. intros H. destruct (Qlt_le_dec a b); [by left|right].
  lra.
Qed.

Create HintDb py.
#[export] Hint Resolve Zltb_asym Zltb_cotrans Zgtb_asym Zgtb_cotrans
  Qltb_asym Qltb_cotrans : py.
#[export] Hint Resolve preserves_ret preserves_raise preserves_lift preserves_gets
  preserves_bind preserves_try_except preserves_try_finally preserves_for_each
  preserves_gather preserves_if : py.
#[export] Hint Resolve py_sorted_Permutation py_sorted_sorted : py.
