(* ===== verification/PyDict.v ===== *)
(** * Python dictionaries

    A [dict] keeps its keys in insertion order: assigning to a present key
    replaces the value in place, assigning to an absent key appends, deleting and
    assigning again moves the key to the end.  The router relies on that order in
    [list(d.values())], in inverted dictionaries where the last writer wins and in
    [json.dumps].  Where the order is never observed the components use [gmap]. *)

From S2P Require Import Prelude.

Abbreviation dict K V := (list (K * V)).

Section dict.
Context {K V : Type} `{EqDecision K}.
#[local] Abbreviation dict := (list (K * V)).

Fixpoint dget (k : K) (d : dict) : option V :=
  match d with
  | [] => None
  | (k', v) :: d' => if decide (k = k') then Some v else dget k d'
  end.
Fixpoint dset (k : K) (v : V) (d : dict) : dict :=
  match d with
  | [] => [(k, v)]
  | (k', v') :: d' => if decide (k = k') then (k, v) :: d' else (k', v') :: dset k v d'
  end.
Fixpoint ddel (k : K) (d : dict) : dict :=
  match d with
  | [] => []
  | (k', v') :: d' => if decide (k = k') then d' else (k', v') :: ddel k d'
  end.
Definition dkeys (d : dict) : list K := d.*1.
Definition dvalues (d : dict) : list V := d.*2.
Definition din (k : K) (d : dict) : bool := bool_decide (is_Some (dget k d)).
Definition dget_or (k : K) (dflt : V) (d : dict) : V := default dflt (dget k d).
(** [d.update(d2)] and [{k: v for k, v in l}]. *)
Definition dupdate (d d2 : dict) : dict := foldl (λ acc kv, dset kv.1 kv.2 acc) d d2.
Definition dict_of (l : list (K * V)) : dict := dupdate [] l.

Definition dict_wf (d : dict) : Prop := NoDup (dkeys d).

Lemma dget_dset_eq k v d : dget k (dset k v d) = Some v.
Proof. induction d as [|[k' v'] d IH]; simpl; repeat (case_decide; simpl); naive_solver. Qed.
Lemma dget_dset_ne k k' v d : k ≠ k' → dget k (dset k' v d) = dget k d.
Proof.
  intros Hne. induction d as [|[k2 v2] d IH]; simpl; repeat (case_decide; simpl);
    naive_solver.
Qed.
Lemma dget_dset k k' v d :
  dget k (dset k' v d) = if decide (k = k') then Some v else dget k d.
Proof. case_decide; subst; [apply dget_dset_eq|by apply dget_dset_ne]. Qed.
Lemma dkeys_dset k v d :
  dkeys (dset k v d) = if din k d then dkeys d else dkeys d ++ [k].
Proof.
  unfold din. induction d as [|[k' v'] d IH]; simpl; [done|].
  destruct (decide (k = k')) as [->|]; simpl; [done|].
  unfold dkeys in *. rewrite IH. by case_bool_decide.
Qed.
Lemma dkeys_cons k v d : dkeys ((k, v) :: d) = k :: dkeys d.
Proof. done. Qed.
Lemma dget_None k d : dget k d = None ↔ k ∉ dkeys d.
Proof.
  induction d as [|[k' v'] d IH]; [set_solver|].
  rewrite dkeys_cons, not_elem_of_cons. simpl. case_decide; naive_solver.
Qed.
Lemma dget_is_Some k d : is_Some (dget k d) ↔ k ∈ dkeys d.
Proof.
  rewrite <-not_eq_None_Some, dget_None. split; [|naive_solver].
  intros H. by destruct (decide (k ∈ dkeys d)).
Qed.
Lemma din_spec k d : din k d = true ↔ k ∈ dkeys d.
Proof. unfold din. by rewrite bool_decide_eq_true, dget_is_Some. Qed.
Lemma din_false k d : din k d = false ↔ dget k d = None.
Proof. unfold din. rewrite bool_decide_eq_false, eq_None_not_Some. done. Qed.
Lemma dset_wf k v d : dict_wf d → dict_wf (dset k v d).
Proof.
  unfold dict_wf. intros Hd. rewrite dkeys_dset. destruct (din k d) eqn:E; [done|].
  apply NoDup_app; split_and!; [done| |apply NoDup_singleton].
  apply din_false, dget_None in E. set_solver.
Qed.
Lemma dkeys_ddel_incl k k' d : k ∈ dkeys (ddel k' d) → k ∈ dkeys d.
Proof.
  induction d as [|[k2 v2] d IH]; [done|]. cbn [ddel]. case_decide.
  - rewrite dkeys_cons, elem_of_cons. auto.
  - rewrite !dkeys_cons, !elem_of_cons. naive_solver.
Qed.
Lemma ddel_wf k d : dict_wf d → dict_wf (ddel k d).
Proof.
  unfold dict_wf. induction d as [|[k' v'] d IH]; [done|]. rewrite dkeys_cons.
  inversion_clear 1 as [|?? Hn Hd]. cbn [ddel]. case_decide; [done|].
  rewrite dkeys_cons. constructor; [|by apply IH].
  contradict Hn. by apply dkeys_ddel_incl in Hn.
Qed.
Lemma dget_ddel_ne k k' d : k ≠ k' → dget k (ddel k' d) = dget k d.
Proof.
  intros Hne. induction d as [|[k2 v2] d IH]; simpl; [done|].
  repeat (case_decide; simpl); naive_solver.
Qed.
Lemma dget_ddel_eq k d : dict_wf d → dget k (ddel k d) = None.
Proof.
  unfold dict_wf. induction d as [|[k' v'] d IH]; simpl; [done|].
  inversion_clear 1 as [|?? Hn Hd]. case_decide; subst; simpl.
  - by apply dget_None.
  - case_decide; naive_solver.
Qed.
Lemma dget_elem k v d : dget k d = Some v → (k, v) ∈ d.
Proof.
  induction d as [|[k' v'] d IH]; simpl; [done|].
  case_decide; intros; simplify_eq; [by left|right; auto].
Qed.
Lemma elem_dget k v d : dict_wf d → (k, v) ∈ d → dget k d = Some v.
Proof.
  unfold dict_wf. induction d as [|[k' v'] d IH]; simpl; [set_solver|].
  inversion_clear 1 as [|?? Hn Hd]. rewrite elem_of_cons. intros [[= -> ->]|Hin].
  - by rewrite decide_True.
  - rewrite decide_False; [by apply IH|].
    intros ->. apply Hn. unfold dkeys. apply list_elem_of_fmap. by exists (k', v).
Qed.
Lemma ddel_absent k d : dget k d = None → ddel k d = d.
Proof.
  induction d as [|[k' v'] d IH]; simpl; [done|].
  case_decide; [done|]. intros Hk. by rewrite IH.
Qed.
Lemma dset_present k v d :
  dget k d = Some v → dset k v d = d.
Proof.
  induction d as [|[k' v'] d IH]; simpl; [done|]. case_decide; intros; simplify_eq; [done|].
  by rewrite IH.
Qed.
Lemma dset_dset k v1 v2 d : dset k v2 (dset k v1 d) = dset k v2 d.
Proof.
  induction d as [|[k' v'] d IH]; simpl; repeat (case_decide; simpl); try done.
  by rewrite IH.
Qed.

Lemma dupdate_wf d d2 : dict_wf d → dict_wf (dupdate d d2).
Proof.
  unfold dupdate. revert d. induction d2 as [|[k v] d2 IH]; simpl; intros d Hd; [done|].
  by apply IH, dset_wf.
Qed.
(** The last binding of a key in the updating list wins. *)
Lemma dget_dupdate k d d2 :
  dget k (dupdate d d2) =
    match dget k (reverse d2) with Some v => Some v | None => dget k d end.
Proof.
  unfold dupdate. revert d. induction d2 as [|[k' v'] d2 IH] using rev_ind; intros d; [done|].
  rewrite foldl_app, reverse_app. simpl. rewrite dget_dset. case_decide; [done|].
  apply IH.
Qed.
End dict.

#[export] Hint Resolve dset_wf ddel_wf dupdate_wf : py.

Lemma dict_wf_nil {K V} : @dict_wf K V [].
Proof. constructor. Qed.
#[export] Hint Resolve dict_wf_nil : py.
Lemma dict_of_wf {K V} `{EqDecision K} (l : list (K * V)) : dict_wf (dict_of l).
Proof. apply dupdate_wf, dict_wf_nil. Qed.
#[export] Hint Resolve dict_of_wf : py.
