(* ===== verification/PyStr.v ===== *)
(** * Python strings

    A [str] is a [string] of code points below 256.  The functions are the [str]
    methods the router calls: [split], [join], [lower], [strip], [startswith],
    [endswith], [partition], [in], [int] and [str] on integers. *)

From S2P Require Import Prelude.
From Stdlib Require Import Ascii.

Fixpoint list_ascii (s : string) : list ascii :=
  match s with EmptyString => [] | String c s' => c :: list_ascii s' end.
Fixpoint of_ascii (l : list ascii) : string :=
  match l with [] => EmptyString | c :: l' => String c (of_ascii l') end.

Lemma of_list_ascii s : of_ascii (list_ascii s) = s.
Proof. induction s; f_equal/=; auto. Qed.
Lemma list_of_ascii l : list_ascii (of_ascii l) = l.
Proof. induction l; f_equal/=; auto. Qed.
Lemma of_ascii_app l k : of_ascii (l ++ k) = of_ascii l +:+ of_ascii k.
Proof. induction l; simpl; [done|]. by rewrite IHl. Qed.
Lemma list_ascii_app s t : list_ascii (s +:+ t) = list_ascii s ++ list_ascii t.
Proof. induction s; simpl; [done|]. unfold String.app. simpl. by f_equal. Qed.
Lemma str_app_nil_r s : s +:+ "" = s.
Proof. induction s; [done|]. unfold String.app in *. simpl. by f_equal. Qed.
Lemma str_app_assoc s t u : s +:+ (t +:+ u) = (s +:+ t) +:+ u.
Proof. induction s; [done|]. unfold String.app in *. simpl. by f_equal. Qed.
Lemma str_app_cons c s t : String c s +:+ t = String c (s +:+ t).
Proof. done. Qed.

Definition slen (s : string) : nat := String.length s.

Definition newline : string := String "010" "".

(** [s.startswith(p)] and [s.endswith(p)]. *)
Definition startswith (p s : string) : bool := String.prefix p s.
Definition endswith (p s : string) : bool := String.prefix (String.rev p) (String.rev s).

(** [p in s]. *)
Fixpoint contains (p s : string) : bool :=
  startswith p s || match s with EmptyString => false | String _ s' => contains p s' end.

(** [s.split(sep)]; [skip] counts the characters of a separator still to drop. *)
Fixpoint split_go (sep : string) (skip : nat) (acc s : string) : list string :=
  match s with
  | EmptyString => [acc]
  | String c s' =>
      match skip with
      | S k => split_go sep k acc s'
      | O => if startswith sep s then acc :: split_go sep (slen sep - 1) "" s'
             else split_go sep 0 (acc +:+ String c "") s'
      end
  end.
Definition split (sep s : string) : list string := split_go sep 0 "" s.

(** [sep.join(l)]. *)
Fixpoint join (sep : string) (l : list string) : string :=
  match l with
  | [] => ""
  | [s] => s
  | s :: l' => s +:+ sep +:+ join sep l'
  end.

(** [c.lower()] on ASCII letters, the alphabet of header names and media types. *)
Definition lower_ascii (c : ascii) : ascii :=
  let n := nat_of_ascii c in
  if (65 <=? n) && (n <=? 90) then ascii_of_nat (n + 32) else c.
Fixpoint lower (s : string) : string :=
  match s with EmptyString => "" | String c s' => String (lower_ascii c) (lower s') end.

Fixpoint lstrip (s : string) : string :=
  match s with
  | EmptyString => ""
  | String c s' => if Ascii.is_space c then lstrip s' else s
  end.
Definition strip (s : string) : string := String.rev (lstrip (String.rev (lstrip s))).

(** [s.partition(sep)[0]]: what precedes the first separator, or all of [s]. *)
Definition partition_head (sep s : string) : string :=
  match split sep s with [] => "" | h :: _ => h end.

(** [int(s)] on a decimal literal with an optional sign, surrounding space and
    single underscores between digits; [prev] says the last character was a digit. *)
Fixpoint digits_to_Z (acc : Z) (prev : bool) (s : string) : option Z :=
  match s with
  | EmptyString => if prev then Some acc else None
  | String c s' =>
      match Ascii.is_nat c with
      | Some d => digits_to_Z (10 * acc + Z.of_nat d) true s'
      | None => if prev && bool_decide (c = "_"%char) then digits_to_Z acc false s' else None
      end
  end.
Definition int_of_str (s : string) : option Z :=
  match strip s with
  | EmptyString => None
  | String "-" s' => option_map Z.opp (digits_to_Z 0 false s')
  | String "+" s' => digits_to_Z 0 false s'
  | s' => digits_to_Z 0 false s'
  end.

(** [str(n)]. *)
Definition digit_ascii (d : Z) : ascii := ascii_of_nat (48 + Z.to_nat d).
Fixpoint pos_to_str (fuel : nat) (n : Z) (acc : string) : string :=
  match fuel with
  | O => acc
  | S f =>
      let acc' := String (digit_ascii (n mod 10)) acc in
      if (n <? 10)%Z then acc' else pos_to_str f (n / 10)%Z acc'
  end.
Definition str_of_int (n : Z) : string :=
  if (n <? 0)%Z then String "-" (pos_to_str (S (Z.to_nat (Z.log2 (- n)))) (- n) "")
  else pos_to_str (S (Z.to_nat (Z.log2 n))) n "".

(* ------------------------------------------------------------------ *)
(** ** Splitting on a separator is inverted by joining *)

Lemma startswith_split p s :
  startswith p s = true → ∃ t, s = p +:+ t.
Proof.
  unfold startswith. revert s. induction p as [|c p IH]; intros s.
  { intros _. exists s. reflexivity. }
  destruct s as [|c' s]; simpl; [done|]. destruct (ascii_dec c c') as [->|]; [|done].
  intros [t ->]%IH. by exists t.
Qed.

Lemma split_go_cons sep k acc s : ∃ h t, split_go sep k acc s = h :: t.
Proof.
  revert k acc. induction s as [|c s IH]; intros [|k] acc; cbn [split_go]; eauto.
  destruct (startswith _ _); eauto.
Qed.

Lemma join_cons sep s l : l ≠ [] → join sep (s :: l) = s +:+ sep +:+ join sep l.
Proof. by destruct l. Qed.

Fixpoint sdrop (n : nat) (s : string) : string :=
  match n, s with
  | S n', String _ s' => sdrop n' s'
  | _, _ => s
  end.

Lemma sdrop_app p t : sdrop (slen p) (p +:+ t) = t.
Proof. induction p; simpl; auto. Qed.

Lemma join_split_go sep k acc s :
  sep ≠ "" → join sep (split_go sep k acc s) = acc +:+ sdrop k s.
Proof.
  intros Hsep. revert k acc. induction s as [|c s IH]; intros [|k] acc; cbn [split_go].
  - simpl. by rewrite str_app_nil_r.
  - simpl. by rewrite str_app_nil_r.
  - destruct (startswith sep (String c s)) eqn:E.
    + apply startswith_split in E as [t E]. destruct sep as [|c' sep]; [done|].
      rewrite str_app_cons in E. injection E as -> ->.
      destruct (split_go_cons (String c' sep) (slen (String c' sep) - 1) "" (sep +:+ t))
        as (h & l & Hl).
      rewrite join_cons by (by rewrite Hl). rewrite IH.
      replace (slen (String c' sep) - 1) with (slen sep) by (simpl; lia).
      by rewrite sdrop_app.
    + rewrite IH. simpl. by rewrite <-str_app_assoc.
  - by rewrite IH.
Qed.

(** [sep.join(s.split(sep)) == s]. *)
Lemma join_split sep s : sep ≠ "" → join sep (split sep s) = s.
Proof. intros. unfold split. by rewrite join_split_go. Qed.

(** No piece of a split on one character contains that character. *)
Definition has_char (c : ascii) (s : string) : Prop := c ∈ list_ascii s.

Lemma split_go_no_sep c acc s :
  ¬ has_char c acc → Forall (λ p, ¬ has_char c p) (split_go (String c "") 0 acc s).
Proof.
  unfold has_char. revert acc. induction s as [|c' s IH]; intros acc Hacc; cbn [split_go].
  { by constructor. }
  unfold startswith. cbn [String.prefix slen]. destruct (ascii_dec c c') as [->|Hne].
  - replace (String.prefix "" s) with true by (by destruct s). constructor; [done|].
    simpl. apply IH. set_solver.
  - apply IH. rewrite list_ascii_app. set_solver.
Qed.
Lemma split_char_no_sep c s : Forall (λ p, ¬ has_char c p) (split (String c "") s).
Proof. apply split_go_no_sep. unfold has_char. set_solver. Qed.
Lemma split_nonempty sep s : split sep s ≠ [].
Proof. unfold split. destruct (split_go_cons sep 0 "" s) as (? & ? & ->). done. Qed.

(** Splitting what was joined on one character gives back the pieces that do not contain it. *)
Lemma split_go_app c acc p s :
  ¬ has_char c p → split_go (String c "") 0 acc (p +:+ s) = split_go (String c "") 0 (acc +:+ p) s.
Proof.
  revert acc. induction p as [|a p IH]; intros acc Hp; [by rewrite str_app_nil_r|].
  rewrite str_app_cons. cbn [split_go]. unfold startswith. cbn [String.prefix].
  destruct (ascii_dec c a) as [->|Hne].
  - exfalso. apply Hp. unfold has_char. simpl. by left.
  - rewrite IH by (intros H; apply Hp; unfold has_char in *; simpl; by right). f_equal.
    by rewrite <-str_app_assoc.
Qed.
Lemma split_join c l :
  l ≠ [] → Forall (λ p, ¬ has_char c p) l → split (String c "") (join (String c "") l) = l.
Proof.
  intros Hl Hf. unfold split. destruct l as [|p l]; [done|]. clear Hl. revert p Hf.
  induction l as [|q l IH]; intros p Hf; apply Forall_cons in Hf as [Hp Hf].
  - cbn [join]. rewrite <-(str_app_nil_r p) at 1. by rewrite split_go_app.
  - rewrite join_cons by done. rewrite split_go_app by done. cbn [String.append].
    rewrite str_app_cons. cbn [split_go].
    unfold startswith. cbn [String.prefix]. destruct (ascii_dec c c) as [_|]; [|done].
    match goal with |- context [String.prefix "" ?x] => replace (String.prefix "" x) with true by (by destruct x) end.
    f_equal. apply (IH q Hf).
Qed.

Lemma lower_ascii_idem c : lower_ascii (lower_ascii c) = lower_ascii c.
Proof. destruct c as [[] [] [] [] [] [] [] []]; vm_compute; reflexivity. Qed.
Lemma lower_idem s : lower (lower s) = lower s.
Proof. induction s; simpl; [done|]. by rewrite lower_ascii_idem, IHs. Qed.

#[export] Hint Resolve split_nonempty split_char_no_sep : py.

Example split_ex : split ":" "http://10.0.0.1:8000" = ["http"; "//10.0.0.1"; "8000"].
Proof. reflexivity. Qed.
Example int_ex : int_of_str " -42 " = Some (-42)%Z ∧ int_of_str "4x" = None ∧ int_of_str "1_000" = Some 1000%Z ∧
  int_of_str "1__0" = None ∧ int_of_str "-" = None ∧
  str_of_int (-105) = "-105" ∧ strip " a b " = "a b" ∧ lower "Content-Type" = "content-type".
Proof. by vm_compute. Qed.

(** [endswith] on a string that ends with another one. *)
Lemma list_ascii_inj s t : list_ascii s = list_ascii t → s = t.
Proof. intros H. by rewrite <-(of_list_ascii s), H, of_list_ascii. Qed.
Lemma list_ascii_rev s : list_ascii (String.rev s) = reverse (list_ascii s).
Proof.
  assert (Hgo : ∀ s t, list_ascii (String.rev_app s t) = reverse (list_ascii s) ++ list_ascii t).
  { clear s. induction s as [|c s IH]; intros t; [done|]. simpl. rewrite IH, reverse_cons, <-app_assoc. done. }
  unfold String.rev. rewrite Hgo. by rewrite app_nil_r.
Qed.
Lemma startswith_char c s : startswith (String c "") s = true ↔ ∃ t, s = String c t.
Proof.
  split; [intros [t ->]%startswith_split; by exists t|]. intros [t ->]. unfold startswith. simpl.
  destruct (ascii_dec c c); [|done]. by destruct t.
Qed.
Lemma endswith_char c s : endswith (String c "") s = true ↔ ∃ t, s = t +:+ String c "".
Proof.
  unfold endswith. change (String.rev (String c "")) with (String c "").
  fold (startswith (String c "") (String.rev s)). rewrite startswith_char. split.
  - intros [t Ht]. exists (String.rev t). apply list_ascii_inj.
    rewrite list_ascii_app, list_ascii_rev. apply (f_equal list_ascii) in Ht.
    rewrite list_ascii_rev in Ht. simpl in *. rewrite <-(reverse_involutive (list_ascii s)), Ht.
    by rewrite reverse_cons.
  - intros [t ->]. exists (String.rev t). apply list_ascii_inj.
    rewrite list_ascii_rev, list_ascii_app, reverse_app. simpl. by rewrite list_ascii_rev.
Qed.

(* ------------------------------------------------------------------ *)
(** ** [float(s)] and [urlparse(s).hostname] *)

(** The longest prefix without a character of [stops], and the rest. *)
Fixpoint span_until (stops : list ascii) (s : string) : string * string :=
  match s with
  | EmptyString => ("", "")
  | String c s' =>
      if decide (c ∈ stops) then ("", s)
      else let '(h, t) := span_until stops s' in (String c h, t)
  end.

Definition is_digit (c : ascii) : bool := bool_decide (is_Some (Ascii.is_nat c)).
Definition is_alpha (c : ascii) : bool :=
  let n := nat_of_ascii (lower_ascii c) in (97 <=? n) && (n <=? 122).

(** A group of digits of a float literal: its value and its number of digits. *)
Definition digit_group (s : string) : option (Z * nat) :=
  match s with
  | EmptyString => Some (0%Z, 0)
  | _ => (λ z, (z, length (filter (λ c, is_digit c = true) (list_ascii s)))) <$>
           digits_to_Z 0 false s
  end.
Definition signed_digits (s : string) : option Z :=
  match s with
  | String "-" s' => Z.opp <$> digits_to_Z 0 false s'
  | String "+" s' => digits_to_Z 0 false s'
  | _ => digits_to_Z 0 false s
  end.
Definition scale10 (q : Q) (e : Z) : Q :=
  if (e <? 0)%Z then (q / inject_Z (10 ^ (- e)))%Q else (q * inject_Z (10 ^ e))%Q.
Definition unsigned_float (s : string) : option Q :=
  let '(mant, e) := span_until ["e"%char] (lower s) in
  ex ← match e with String _ e' => signed_digits e' | EmptyString => Some 0%Z end;
  let '(ip, fp) := span_until ["."%char] mant in
  '(iv, il) ← digit_group ip;
  '(fv, fl) ← digit_group match fp with String _ f => f | EmptyString => "" end;
  if decide (il + fl = 0) then None
  else Some (scale10 (inject_Z (iv * 10 ^ Z.of_nat fl + fv)) (ex - Z.of_nat fl)).

(** [float(s)] on a finite decimal literal, [None] where it raises [ValueError];
    the infinities and NaN have no rational value and are not parsed. *)
Definition float_of_str (s : string) : option Q :=
  match strip s with
  | String "-" s' => Qopp <$> unsigned_float s'
  | String "+" s' => unsigned_float s'
  | s' => unsigned_float s'
  end.

(** [urlsplit]'s scheme: letters, digits, [+], [-] and [.] after a letter, before a
    colon; the text after it, or all of the text without one. *)
Definition after_scheme (s : string) : string :=
  let '(h, t) := span_until [":"%char] s in
  match h, t with
  | String c h', String _ t' =>
      if is_alpha c && forallb (λ c, is_alpha c || is_digit c ||
           bool_decide (c ∈ ["+"%char; "-"%char; "."%char])) (list_ascii h')
      then t' else s
  | _, _ => s
  end.
Definition netloc (s : string) : string :=
  match after_scheme s with
  | String "/" (String "/" t) => (span_until ["/"%char; "?"%char; "#"%char] t).1
  | _ => ""
  end.
(** [urlparse(s).hostname]: no user information, no port, lower case, brackets off. *)
Definition url_hostname (s : string) : option string :=
  let hostinfo := match reverse (split "@" (netloc s)) with h :: _ => h | [] => "" end in
  let host :=
    match span_until ["["%char] hostinfo with
    | (_, String _ t) => (span_until ["]"%char] t).1
    | (h, EmptyString) => (span_until [":"%char] h).1
    end in
  if decide (host = "") then None else Some (lower host).

Example float_ex : float_of_str " -1.50 " = Some (-(150#100))%Q ∧ float_of_str "2e-1" = Some (2#10)%Q ∧
  float_of_str "." = None ∧ float_of_str "x" = None ∧ float_of_str ".5" = Some (5#10)%Q ∧
  float_of_str "1e3" = Some (inject_Z 1000).
Proof. by vm_compute. Qed.
Example hostname_ex : url_hostname "http://Host-A:8000/v1" = Some "host-a" ∧
  url_hostname "//10.0.0.1" = Some "10.0.0.1" ∧ url_hostname "http://u:p@[::1]:80" = Some "::1" ∧
  url_hostname "host:80" = None.
Proof. by vm_compute. Qed.
