(* ===== verification/PyVal.v ===== *)
(** * Dynamic Python values

    The values of a parsed JSON body, of a configuration file and of a dictionary
    the router builds: [None], booleans, integers, floats (as rationals), strings,
    lists and dictionaries with string keys in insertion order.  [JsonCodec] is the
    interface the components use for [json.loads] and [json.dumps]. *)

From S2P Require Import Prelude PyDict PyStr.

#[warnings="-register-all"]
Inductive pyval : Type :=
| PNone
| PBool (b : bool)
| PInt (z : Z)
| PFloat (q : Q)
| PStr (s : string)
| PList (l : list pyval)
| PDict (d : list (string * pyval)).

(** [bool(v)]. *)
Definition truthy (v : pyval) : bool :=
  match v with
  | PNone => false
  | PBool b => b
  | PInt z => negb (Z.eqb z 0)
  | PFloat q => negb (Qeq_bool q 0)
  | PStr s => bool_decide (s ≠ "")
  | PList l => match l with [] => false | _ => true end
  | PDict d => match d with [] => false | _ => true end
  end.

(** A value used as a string. *)
Definition as_str (v : pyval) : res string :=
  match v with PStr s => Ok s | _ => Err TypeError end.

Definition is_none (v : pyval) : bool := match v with PNone => true | _ => false end.

(** [v == z] for an integer [z]: booleans and floats compare by value. *)
Definition eq_int (v : pyval) (z : Z) : bool :=
  match v with
  | PInt z' => Z.eqb z' z
  | PBool b => Z.eqb (if b then 1 else 0) z
  | PFloat q => Qeq_bool q (inject_Z z)
  | _ => false
  end.

(** [v == s] for a string [s]. *)
Definition eq_str (v : pyval) (s : string) : bool :=
  match v with PStr s' => bool_decide (s' = s) | _ => false end.

(** ["k" in v] on a JSON value. *)
Definition py_in (k : string) (v : pyval) : res bool :=
  match v with
  | PDict d => Ok (din k d)
  | PList l => Ok (existsb (λ x, eq_str x k) l)
  | PStr s => Ok (contains k s)
  | _ => Err TypeError
  end.

(** [for x in v]. *)
Definition iterate (v : pyval) : res (list pyval) :=
  match v with
  | PList l => Ok l
  | PStr s => Ok ((λ c, PStr (String c "")) <$> list_ascii s)
  | PDict d => Ok (PStr <$> dkeys d)
  | _ => Err TypeError
  end.
(** [f"{v}"]; [py_str] is [str(v)] of a value that is no string. *)
Definition format_value (py_str : pyval → string) (v : pyval) : string :=
  match v with PStr s => s | _ => py_str v end.
(** [v.get(k, dflt)] on a value that may be no dictionary. *)
Definition get_method (k : string) (dflt v : pyval) : res pyval :=
  match v with PDict d => Ok (dget_or k dflt d) | _ => Err (AttributeError "get") end.

(** [json.loads] and [json.dumps] on a body type: parsing may fail, and a dumped
    dictionary parses back to itself. *)
Class JsonCodec (body : Type) : Type := {
  json_loads : body → option pyval;
  json_dumps : pyval → body;
  json_roundtrip : ∀ d, json_loads (json_dumps (PDict d)) = Some (PDict d)
}.

(** The identity codec: bodies already parsed. *)
#[export] Instance pyval_codec : JsonCodec pyval := {
  json_loads := Some;
  json_dumps := id;
  json_roundtrip := λ d, eq_refl
}.
