(* ===== verification/Regex.v ===== *)
(** * Regular expressions

    The expressions the router writes with [re]: their languages ([re_in]), a matcher by
    derivatives that decides them ([fullmatch], [fullmatch_spec]), and searching a text for
    a match that may have to begin and end at a word boundary ([occurs], [occurs_spec]).
    Capturing and the choice among several matches are not modelled: the router only asks
    whether there is one. *)

From S2P Require Import Prelude PyDict PyStr.
From Stdlib Require Import Ascii.

(* ------------------------------------------------------------------ *)
(** ** Expressions and the matcher *)


Inductive re : Type :=
| REmpty
| REps
| RChar (p : ascii → bool)
| RSeq (r1 r2 : re)
| RAlt (r1 r2 : re)
| RStar (r : re).

Inductive re_in : string → re → Prop :=
| in_eps : re_in "" REps
| in_char p c : p c = true → re_in (String c "") (RChar p)
| in_seq s1 s2 r1 r2 : re_in s1 r1 → re_in s2 r2 → re_in (s1 +:+ s2) (RSeq r1 r2)
| in_alt_l s r1 r2 : re_in s r1 → re_in s (RAlt r1 r2)
| in_alt_r s r1 r2 : re_in s r2 → re_in s (RAlt r1 r2)
| in_star_nil r : re_in "" (RStar r)
| in_star_app s1 s2 r : re_in s1 r → re_in s2 (RStar r) → re_in (s1 +:+ s2) (RStar r).

Fixpoint nullable (r : re) : bool :=
  match r with
  | REmpty | RChar _ => false
  | REps | RStar _ => true
  | RSeq r1 r2 => nullable r1 && nullable r2
  | RAlt r1 r2 => nullable r1 || nullable r2
  end.
Fixpoint derive (c : ascii) (r : re) : re :=
  match r with
  | REmpty | REps => REmpty
  | RChar p => if p c then REps else REmpty
  | RSeq r1 r2 =>
      if nullable r1 then RAlt (RSeq (derive c r1) r2) (derive c r2) else RSeq (derive c r1) r2
  | RAlt r1 r2 => RAlt (derive c r1) (derive c r2)
  | RStar r => RSeq (derive c r) (RStar r)
  end.
(** [re.fullmatch]. *)
Fixpoint fullmatch (r : re) (s : string) : bool :=
  match s with EmptyString => nullable r | String c s' => fullmatch (derive c r) s' end.

(** Derived forms. *)
Fixpoint RLit (s : string) : re :=
  match s with
  | EmptyString => REps
  | String c s' => RSeq (RChar (λ c', bool_decide (c' = c))) (RLit s')
  end.
Definition ROpt (r : re) : re := RAlt r REps.
Definition RPlus (r : re) : re := RSeq r (RStar r).
Fixpoint RTimes (n : nat) (r : re) : re :=
  match n with 0 => REps | S n => RSeq r (RTimes n r) end.
(** Between [n] and [n + m] repetitions. *)
Fixpoint RUpTo (m : nat) (r : re) : re :=
  match m with 0 => REps | S m => ROpt (RSeq r (RUpTo m r)) end.
Definition RRange (n m : nat) (r : re) : re := RSeq (RTimes n r) (RUpTo (m - n) r).

(** Searching.  [\w] and [\s] on ASCII characters. *)
Definition is_word (c : ascii) : bool := is_alpha c || is_digit c || bool_decide (c = "_"%char).
Definition is_blank (c : ascii) : bool :=
  let n := nat_of_ascii c in ((9 <=? n)%nat && (n <=? 13)%nat) || ((28 <=? n)%nat && (n <=? 32)%nat).
Definition word_at (o : option ascii) : bool := match o with Some c => is_word c | None => false end.
(** [\b] between two characters, or a character and an end of the text. *)
Definition boundary (prev next : option ascii) : bool := xorb (word_at prev) (word_at next).
Definition head_char (s : string) : option ascii := match s with String c _ => Some c | EmptyString => None end.
(** The last character of [s], or the one before it. *)
Fixpoint last_char (prev : option ascii) (s : string) : option ascii :=
  match s with EmptyString => prev | String c s' => last_char (Some c) s' end.

(** A pattern: an expression, between two [\b] or not. *)
Record pattern : Type := mkPattern {
  p_bounded : bool;
  p_re : re
}.
(** Whether [r] matches a prefix of [s] that ends where the pattern allows; [prev] is the
    character before [s]. *)
Fixpoint match_prefix (bounded : bool) (r : re) (prev : option ascii) (s : string) : bool :=
  (nullable r && (negb bounded || boundary prev (head_char s))) ||
  match s with EmptyString => false | String c s' => match_prefix bounded (derive c r) (Some c) s' end.
Fixpoint occurs_from (p : pattern) (prev : option ascii) (s : string) : bool :=
  ((negb p.(p_bounded) || boundary prev (head_char s)) && match_prefix p.(p_bounded) p.(p_re) prev s) ||
  match s with EmptyString => false | String c s' => occurs_from p (Some c) s' end.
(** Whether [pattern.finditer(text)] yields a match. *)
Definition occurs (p : pattern) (text : string) : bool := occurs_from p None text.

(** A match of [p] in [text], which follows the character [prev]: where it stands and what
    the boundaries ask. *)
Definition matches_at (p : pattern) (prev : option ascii) (pre m post : string) : Prop :=
  re_in m p.(p_re) ∧
  (p.(p_bounded) = true →
     boundary (last_char prev pre) (head_char (m +:+ post)) = true ∧
     boundary (last_char (last_char prev pre) m) (head_char post) = true).

(* ------------------------------------------------------------------ *)
(** ** Properties *)

Lemma str_app_nil s1 s2 : s1 +:+ s2 = "" → s1 = "" ∧ s2 = "".
Proof. by destruct s1. Qed.
Lemma nullable_sound r : nullable r = true → re_in "" r.
Proof.
  induction r; simpl; intros Hn; try done; [constructor| | |constructor].
  - apply andb_true_iff in Hn as [??]. change "" with ("" +:+ ""). constructor; auto.
  - apply orb_true_iff in Hn as [?|?]; [apply in_alt_l|apply in_alt_r]; auto.
Qed.
Lemma nullable_complete s r : re_in s r → s = "" → nullable r = true.
Proof.
  induction 1; intros E; simpl; try done.
  - apply str_app_nil in E as [-> ->]. by rewrite IHre_in1, IHre_in2.
  - by rewrite IHre_in.
  - rewrite IHre_in by done. apply orb_true_r.
Qed.
Lemma derive_sound c s r : re_in s (derive c r) → re_in (String c s) r.
Proof.
  revert s. induction r as [| |p|r1 IH1 r2 IH2|r1 IH1 r2 IH2|r IH]; simpl; intros s Hs.
  - inversion Hs.
  - inversion Hs.
  - destruct (p c) eqn:E; inversion Hs; subst. by constructor.
  - destruct (nullable r1) eqn:E.
    + inversion Hs as [| | |? ? ? Ha|? ? ? Hb| |]; subst.
      * inversion Ha; subst. rewrite <-str_app_cons. constructor; auto.
      * change (String c s) with ("" +:+ String c s).
        constructor; [by apply nullable_sound|auto].
    + inversion Hs; subst. rewrite <-str_app_cons. constructor; auto.
  - inversion Hs; subst; [apply in_alt_l|apply in_alt_r]; auto.
  - inversion Hs; subst. rewrite <-str_app_cons. constructor; auto.
Qed.
Lemma derive_complete s' r : re_in s' r → ∀ c s, s' = String c s → re_in s (derive c r).
Proof.
  induction 1 as [|p c' Hp|s1 s2 r1 r2 H1 IH1 H2 IH2|s0 r1 r2 H1 IH1|s0 r1 r2 H1 IH1|r|s1 s2 r H1 IH1 H2 IH2];
    intros c s E; simpl.
  - done.
  - injection E as -> <-. rewrite Hp. constructor.
  - destruct s1 as [|c1 s1].
    + rewrite (nullable_complete _ _ H1 eq_refl). apply in_alt_r. by apply IH2.
    + rewrite str_app_cons in E. injection E as -> <-. specialize (IH1 _ _ eq_refl).
      destruct (nullable r1); [apply in_alt_l|]; by constructor.
  - apply in_alt_l. by apply IH1.
  - apply in_alt_r. by apply IH1.
  - done.
  - destruct s1 as [|c1 s1]; [by apply IH2|].
    rewrite str_app_cons in E. injection E as -> <-. constructor; [by apply IH1|done].
Qed.
(** The matcher decides the language. *)
Lemma fullmatch_spec r s : fullmatch r s = true ↔ re_in s r.
Proof.
  revert r. induction s as [|c s IH]; intros r; simpl.
  - split; [apply nullable_sound|]. intros Hr. by eapply nullable_complete.
  - rewrite IH. split; [apply derive_sound|]. intros Hr. by eapply derive_complete.
Qed.

Lemma re_in_seq s r1 r2 :
  re_in s (RSeq r1 r2) ↔ ∃ s1 s2, s = s1 +:+ s2 ∧ re_in s1 r1 ∧ re_in s2 r2.
Proof. split; [inversion 1; subst; eauto|]. intros (s1 & s2 & -> & ? & ?). by constructor. Qed.
Lemma re_in_alt s r1 r2 : re_in s (RAlt r1 r2) ↔ re_in s r1 ∨ re_in s r2.
Proof. split; [inversion 1; subst; eauto|]. intros [?|?]; [by apply in_alt_l|by apply in_alt_r]. Qed.
Lemma re_in_eps s : re_in s REps ↔ s = "".
Proof. split; [by inversion 1|]. intros ->. constructor. Qed.
Lemma re_in_opt s r : re_in s (ROpt r) ↔ s = "" ∨ re_in s r.
Proof. unfold ROpt. rewrite re_in_alt, re_in_eps. tauto. Qed.
Lemma re_in_char s p : re_in s (RChar p) ↔ ∃ c, s = String c "" ∧ p c = true.
Proof. split; [inversion 1; subst; eauto|]. intros (c & -> & ?). by constructor. Qed.
Lemma re_in_lit s t : re_in s (RLit t) ↔ s = t.
Proof.
  revert s. induction t as [|c t IH]; intros s; simpl; [apply re_in_eps|].
  rewrite re_in_seq. setoid_rewrite re_in_char. setoid_rewrite IH. split.
  - intros (s1 & s2 & -> & (c' & -> & Hc) & ->). apply bool_decide_eq_true in Hc. by subst.
  - intros ->. exists (String c ""), t. split; [done|]. split; [|done]. exists c.
    by rewrite bool_decide_true.
Qed.
Lemma re_in_star_char s p :
  re_in s (RStar (RChar p)) ↔ Forall (λ c, p c = true) (list_ascii s).
Proof.
  split.
  - intros Hs. remember (RStar (RChar p)) as r eqn:E. revert E.
    induction Hs as [| | | | | |s1 s2 r H1 _ H2 IH]; intros E; simplify_eq/=; [constructor|].
    apply re_in_char in H1 as (c & -> & Hc). constructor; [done|]. by apply IH.
  - induction s as [|c s IH]; simpl; [constructor|]. intros [Hc Hs]%Forall_cons.
    change (String c s) with (String c "" +:+ s). constructor; [by constructor|by apply IH].
Qed.
Lemma re_in_plus_char s p :
  re_in s (RPlus (RChar p)) ↔ s ≠ "" ∧ Forall (λ c, p c = true) (list_ascii s).
Proof.
  unfold RPlus. rewrite re_in_seq. setoid_rewrite re_in_char. setoid_rewrite re_in_star_char. split.
  - intros (s1 & s2 & -> & (c & -> & Hc) & Hs). split; [done|]. by constructor.
  - intros [Hn Hs]. destruct s as [|c s]; [done|]. apply Forall_cons in Hs as [Hc Hs].
    exists (String c ""), s. eauto.
Qed.

(** *** Searching *)

Lemma derive_spec c s r : re_in s (derive c r) ↔ re_in (String c s) r.
Proof. split; [apply derive_sound|]. intros Hr. by eapply derive_complete. Qed.
Lemma nullable_spec r : nullable r = true ↔ re_in "" r.
Proof. split; [apply nullable_sound|]. intros Hr. by eapply nullable_complete. Qed.
Lemma orb_allowed b c : negb b || c = true ↔ (b = true → c = true).
Proof. destruct b, c; naive_solver. Qed.

Lemma match_prefix_spec b r prev s :
  match_prefix b r prev s = true ↔
  ∃ m post, s = m +:+ post ∧ re_in m r ∧ (b = true → boundary (last_char prev m) (head_char post) = true).
Proof.
  revert r prev. induction s as [|c s IH]; intros r prev; cbn -[boundary];
    rewrite orb_true_iff, ?andb_true_iff, nullable_spec, ?orb_allowed.
  - split.
    + intros [[Hr Hb]|?]; [|done]. by exists "", "".
    + intros (m & post & E & Hm & Hb). left. symmetry in E. by apply str_app_nil in E as [-> ->].
  - rewrite IH. setoid_rewrite derive_spec. split.
    + intros [[Hr Hb]|(m & post & -> & Hm & Hb)]; [by exists "", (String c s)|].
      by exists (String c m), post.
    + intros (m & post & E & Hm & Hb). destruct m as [|c' m]; [left; change ("" +:+ post) with post in E; by subst|right].
      rewrite str_app_cons in E. injection E as <- ->. eauto.
Qed.

Lemma occurs_from_spec p prev s :
  occurs_from p prev s = true ↔ ∃ pre m post, s = pre +:+ m +:+ post ∧ matches_at p prev pre m post.
Proof.
  unfold matches_at. revert prev. induction s as [|c s IH]; intros prev; cbn -[boundary match_prefix];
    rewrite orb_true_iff, andb_true_iff, orb_allowed, match_prefix_spec.
  - split.
    + intros [[Hb (m & post & E & Hm & He)]|?]; [|done]. exists "", m, post. cbn. rewrite <-E. naive_solver.
    + intros (pre & m & post & E & Hm & Hb). left. symmetry in E. apply str_app_nil in E as [-> E].
      cbn in Hb. rewrite E in Hb. split; [naive_solver|]. exists m, post. naive_solver.
  - rewrite IH. split.
    + intros [[Hb (m & post & E & Hm & He)]|(pre & m & post & -> & Hm & Hb)].
      * exists "", m, post. cbn. rewrite <-E. naive_solver.
      * by exists (String c pre), m, post.
    + intros (pre & m & post & E & Hm & Hb). destruct pre as [|c' pre]; [left|right].
      * change ("" +:+ m +:+ post) with (m +:+ post) in E. cbn in Hb. rewrite <-E in Hb.
        split; [naive_solver|]. exists m, post. naive_solver.
      * rewrite str_app_cons in E. injection E as <- ->. by exists pre, m, post.
Qed.
(** Searching finds a match exactly when the text has one. *)
Lemma occurs_spec p text :
  occurs p text = true ↔ ∃ pre m post, text = pre +:+ m +:+ post ∧ matches_at p None pre m post.
Proof. apply occurs_from_spec. Qed.
