(* ===== verification/Json.v ===== *)
(** * Printing JSON

    [json.dumps] with its default arguments, on the values of PyVal.v: keys in order, the
    separators [", "] and [": "], and every character that is not printable ASCII escaped.
    Strings hold code points up to 255, so an escape is [\u00XX].  How a float is printed
    is a parameter.  JsonCodec (PyVal.v) is the abstract interface the request handlers
    use; this printer serves the components that look inside the printed text. *)

From stdpp Require Import pretty.
From S2P Require Import Prelude PyDict PyStr PyVal.
From Stdlib Require Import Ascii.

Definition quote_char : ascii := "034"%char.
Definition backslash : ascii := "\"%char.
(** [' '] to ['~']. *)
Definition is_printable (c : ascii) : bool :=
  let n := nat_of_ascii c in ((32 <=? n)%nat && (n <=? 126)%nat).

Definition hex_digit (n : nat) : ascii :=
  default "0"%char (list_ascii "0123456789abcdef" !! n).
Definition escape_with (c : ascii) : string := String backslash (String c "").
Definition escape_char (c : ascii) : string :=
  if decide (c = quote_char) then escape_with quote_char
  else if decide (c = backslash) then escape_with backslash
  else if is_printable c then String c ""
  else if decide (c = "010"%char) then escape_with "n"
  else if decide (c = "013"%char) then escape_with "r"
  else if decide (c = "009"%char) then escape_with "t"
  else if decide (c = "012"%char) then escape_with "f"
  else if decide (c = "008"%char) then escape_with "b"
  else escape_with "u" +:+ "00" +:+
       String (hex_digit (nat_of_ascii c / 16)) (String (hex_digit (nat_of_ascii c mod 16)) "").
Fixpoint escape (s : string) : string :=
  match s with EmptyString => "" | String c s' => escape_char c +:+ escape s' end.
Definition json_string (s : string) : string := String quote_char "" +:+ escape s +:+ String quote_char "".

Section dumps.
Context (float_repr : Q → string).

(** [json.dumps(v)]. *)
Fixpoint dumps (v : pyval) : string :=
  match v with
  | PNone => "null"
  | PBool b => if b then "true" else "false"
  | PInt z => pretty z
  | PFloat q => float_repr q
  | PStr s => json_string s
  | PList l => "[" +:+ join ", " (dumps <$> l) +:+ "]"
  | PDict d => "{" +:+ join ", " ((λ kv, json_string kv.1 +:+ ": " +:+ dumps kv.2) <$> d) +:+ "}"
  end.

(** Only printable ASCII. *)
Definition printable (s : string) : Prop := Forall (λ c, is_printable c = true) (list_ascii s).
End dumps.

(* ------------------------------------------------------------------ *)
(** ** Properties *)

(** The induction principle that goes through lists and dictionaries. *)
Lemma pyval_induction (P : pyval → Prop) :
  P PNone → (∀ b, P (PBool b)) → (∀ z, P (PInt z)) → (∀ q, P (PFloat q)) → (∀ s, P (PStr s)) →
  (∀ l, Forall P l → P (PList l)) → (∀ d, Forall (λ kv, P kv.2) d → P (PDict d)) → ∀ v, P v.
Proof.
  intros HN HB HI HF HS HL HD. fix go 1. intros [|b|z|q|s|l|d].
  - apply HN.
  - apply HB.
  - apply HI.
  - apply HF.
  - apply HS.
  - apply HL. induction l as [|v l IH]; constructor; [apply go|apply IH].
  - apply HD. induction d as [|[k v] d IH]; constructor; [apply go|apply IH].
Qed.

Lemma printable_app s t : printable (s +:+ t) ↔ printable s ∧ printable t.
Proof. unfold printable. rewrite list_ascii_app. apply Forall_app. Qed.
Lemma printable_join sep l : printable sep → Forall printable l → printable (join sep l).
Proof.
  intros Hs. induction 1 as [|x l Hx Hl IH]; [constructor|]. destruct l as [|y l]; [done|].
  rewrite join_cons, !printable_app by done. auto.
Qed.

Lemma escape_char_printable c : printable (escape_char c).
Proof.
  assert (H : bool_decide (Forall (λ c, is_printable c = true) (list_ascii (escape_char c))) = true).
  { destruct c as [[] [] [] [] [] [] [] []]; vm_compute; reflexivity. }
  by apply bool_decide_eq_true in H.
Qed.
Lemma escape_printable s : printable (escape s).
Proof.
  induction s as [|c s IH]; simpl; [constructor|]. apply printable_app. split; [apply escape_char_printable|done].
Qed.
Lemma json_string_printable s : printable (json_string s).
Proof.
  unfold json_string. rewrite !printable_app. split_and!; [by repeat constructor|apply escape_printable|by repeat constructor].
Qed.

Lemma pretty_N_go_printable x s : printable s → printable (pretty_N_go x s).
Proof.
  revert s. induction (N.lt_wf_0 x) as [x _ IH]; intros s Hs.
  destruct (decide (x = 0%N)) as [->|Hx]; [by rewrite pretty_N_go_0|].
  rewrite pretty_N_go_step by lia. apply IH; [apply N.div_lt; lia|].
  constructor; [|done]. unfold pretty_N_char. by repeat case_match.
Qed.
Lemma pretty_N_printable (x : N) : printable (pretty x).
Proof.
  unfold pretty, pretty_N. case_decide; [by repeat constructor|]. apply pretty_N_go_printable. constructor.
Qed.
Lemma pretty_Z_printable (z : Z) : printable (pretty z).
Proof.
  destruct z as [|p|p].
  - by repeat constructor.
  - apply (pretty_N_printable (Npos p)).
  - change (printable (String "-" "" +:+ pretty (Npos p))). apply printable_app.
    split; [by repeat constructor|apply pretty_N_printable].
Qed.

(** Printed JSON is printable ASCII, whatever the strings of the value hold. *)
Lemma dumps_printable float_repr v : (∀ q, printable (float_repr q)) → printable (dumps float_repr v).
Proof.
  intros Hq. induction v as [|[]|z|q|s|l IH|d IH] using pyval_induction; cbn [dumps];
    rewrite ?printable_app; try (by repeat constructor).
  - apply pretty_Z_printable.
  - apply json_string_printable.
  - split_and!; try (by repeat constructor). apply printable_join; [by repeat constructor|].
    by apply Forall_fmap.
  - split_and!; try (by repeat constructor). apply printable_join; [by repeat constructor|].
    apply Forall_fmap. eapply Forall_impl; [exact IH|]. intros [k v] Hv. cbn in *.
    rewrite !printable_app. split_and!; [apply json_string_printable|by repeat constructor|done].
Qed.

Lemma pretty_N_go_nonempty x s : (s ≠ "" ∨ x ≠ 0%N) → pretty_N_go x s ≠ "".
Proof.
  revert s. induction (N.lt_wf_0 x) as [x _ IH]; intros s Hs.
  destruct (decide (x = 0%N)) as [->|Hx]; [rewrite pretty_N_go_0; naive_solver|].
  rewrite pretty_N_go_step by lia. apply IH; [apply N.div_lt; lia|]. by left.
Qed.
(** Nothing prints as the empty text. *)
Lemma dumps_nonempty float_repr v : (∀ q, float_repr q ≠ "") → dumps float_repr v ≠ "".
Proof.
  intros Hq. destruct v as [|[]|[|p|p]|q|s|l|d]; try done; [|apply Hq].
  apply pretty_N_go_nonempty. by right.
Qed.
