(* ===== verification/Logging.v ===== *)
(** * Logging (src/src/vllm_router/log.py)

    Loggers write informational records to the standard output and warnings and errors to
    the standard error stream; a filter of the first redacts credentials in request
    headers.  Python's [logging] is modelled as far as the module uses it: levels, handlers
    with a level, a formatter and filters, which run in order on a record they may change. *)

From S2P Require Import Prelude PyDict PyStr.

Local Open Scope py_scope.
Set Default Proof Using "Type".

(* ------------------------------------------------------------------ *)
(** ** Redaction *)

Definition SENSITIVE_HEADERS : list string :=
  ["authorization"; "x-api-key"; "api-key"; "x-auth-token"; "auth-token"; "x-access-token"; "access-token"; "cookie";
   "set-cookie"].
Definition AUTH_SCHEMES : list string := ["bearer"; "basic"; "token"; "digest"; "oauth"; "apikey"].

(** The word before the first space, when it is a known scheme. *)
Definition scheme_of (value : string) : option string :=
  if contains " " value then
    let scheme := partition_head " " value in
    if decide (lower scheme ∈ AUTH_SCHEMES) then Some scheme else None
  else None.
Definition redact_value (value : string) : string :=
  match scheme_of value with
  | Some scheme => scheme +:+ " ****"
  | None => if 4 <? slen value then String.substring 0 4 value +:+ "****" else "****"
  end.

(** The arguments of a record: Starlette's headers, a dictionary, or anything else, by its
    text; [record.args] is a tuple, or the only argument when that is a mapping. *)
Inductive arg : Type :=
| AHeaders (items : list (string * string))
| ADict (d : dict string string)
| AText (s : string).
Inductive args : Type :=
| ATuple (l : list arg)
| ASingle (a : arg).
Record record : Type := mkRecord {
  levelno : Z;
  msg : string;
  r_args : args
}.

Definition is_sensitive (key : string) : bool := bool_decide (lower key ∈ SENSITIVE_HEADERS).
Definition redact_item (kv : string * string) : string * string :=
  (kv.1, if is_sensitive kv.1 then redact_value kv.2 else kv.2).
(** Headers with a sensitive one become a dictionary; other arguments stay. *)
Definition redact_arg (a : arg) : arg :=
  match a with
  | AHeaders items => if existsb (λ kv, is_sensitive kv.1) items then ADict (dict_of (redact_item <$> items)) else a
  | _ => a
  end.
Definition redact_args (x : args) : args :=
  match x with ATuple l => ATuple (redact_arg <$> l) | ASingle a => ASingle (redact_arg a) end.

(* ------------------------------------------------------------------ *)
(** ** Loggers *)

Definition DEBUG : Z := 10.
Definition INFO : Z := 20.
Definition WARNING : Z := 30.
Definition ERROR : Z := 40.
Definition CRITICAL : Z := 50.
Definition LEVEL_NAME_MAP : dict string Z :=
  [("critical", CRITICAL); ("error", ERROR); ("warning", WARNING); ("info", INFO); ("debug", DEBUG); ("trace", DEBUG)].

Inductive stream : Type := Stdout | Stderr.
#[global] Instance stream_eq_dec : EqDecision stream.
Proof. solve_decision. Defined.
Inductive Formatter : Type := CustomFormatter | JsonFormatter.
Inductive Filter : Type := MaxLevelFilter (max_level : Z) | TokenRedactionFilter.

(** [filter(record)]: whether the record passes, and the record as the filter leaves it. *)
Definition run_filter (f : Filter) (r : record) : bool * record :=
  match f with
  | MaxLevelFilter max_level => ((r.(levelno) <=? max_level)%Z, r)
  | TokenRedactionFilter => (true, mkRecord r.(levelno) r.(msg) (redact_args r.(r_args)))
  end.
Fixpoint run_filters (fs : list Filter) (r : record) : bool * record :=
  match fs with
  | [] => (true, r)
  | f :: fs => let '(ok, r) := run_filter f r in if ok : bool then run_filters fs r else (false, r)
  end.

Record handler : Type := mkHandler {
  h_stream : stream;
  h_level : Z;
  h_formatter : Formatter;
  h_filters : list Filter
}.
Record logger : Type := mkLogger {
  l_level : Z;
  l_handlers : list handler
}.

(** The module: its globals and the loggers by name; [_loggers] lists the names. *)
Record logging : Type := mkLogging {
  LOG_LEVEL : Z;
  LOG_FORMAT : string;
  log_names : list string;
  loggers : gmap string logger
}.
Definition logging_init : logging := mkLogging INFO "text" [] ∅.

Definition stdout_handler (level : Z) (f : Formatter) : handler :=
  mkHandler Stdout level f [MaxLevelFilter INFO; TokenRedactionFilter].
Definition stderr_handler (f : Formatter) : handler := mkHandler Stderr WARNING f [].

(** [init_logger]; a name that has a logger already gets two more handlers. *)
Definition init_logger (name : string) (log_level : option Z) (s : logging) : logging :=
  let level := default s.(LOG_LEVEL) log_level in
  let formatter := if decide (s.(LOG_FORMAT) = "json") then JsonFormatter else CustomFormatter in
  let handlers := match s.(loggers) !! name with Some l => l.(l_handlers) | None => [] end in
  mkLogging s.(LOG_LEVEL) s.(LOG_FORMAT) (s.(log_names) ++ [name])
    (<[name := mkLogger level (handlers ++ [stdout_handler level formatter; stderr_handler formatter])]> s.(loggers)).

Definition set_handler_level (level : Z) (h : handler) : handler :=
  if decide (h.(h_stream) = Stdout) then mkHandler h.(h_stream) level h.(h_formatter) h.(h_filters) else h.
Definition set_log_level (level_str : string) (s : logging) : logging :=
  let level := dget_or (lower level_str) INFO LEVEL_NAME_MAP in
  mkLogging level s.(LOG_FORMAT) s.(log_names)
    (foldl (λ m name, alter (λ l, mkLogger level (set_handler_level level <$> l.(l_handlers))) name m)
       s.(loggers) s.(log_names)).
Definition set_handler_format (format : string) (h : handler) : handler :=
  if decide (format = "json") then mkHandler h.(h_stream) h.(h_level) JsonFormatter h.(h_filters)
  else match h.(h_formatter) with
       | JsonFormatter => mkHandler h.(h_stream) h.(h_level) CustomFormatter h.(h_filters)
       | CustomFormatter => h
       end.
Definition set_log_format (format_str : string) (s : logging) : logging :=
  let format := lower format_str in
  mkLogging s.(LOG_LEVEL) format s.(log_names)
    (foldl (λ m name, alter (λ l, mkLogger l.(l_level) (set_handler_format format <$> l.(l_handlers))) name m)
       s.(loggers) s.(log_names)).

(* ------------------------------------------------------------------ *)
(** ** Emitting a record *)

Section emit.
(** What a formatter makes of a record. *)
Context (format : Formatter → record → string).

(** The handlers see the record one after the other, each as the ones before left it. *)
Fixpoint call_handlers (hs : list handler) (r : record) : list (stream * string) :=
  match hs with
  | [] => []
  | h :: hs =>
      if (h.(h_level) <=? r.(levelno))%Z then
        let '(ok, r) := run_filters h.(h_filters) r in
        if ok : bool then (h.(h_stream), format h.(h_formatter) r) :: call_handlers hs r else call_handlers hs r
      else call_handlers hs r
  end.
Definition log (name : string) (r : record) (s : logging) : list (stream * string) :=
  match s.(loggers) !! name with
  | Some l => if (l.(l_level) <=? r.(levelno))%Z then call_handlers l.(l_handlers) r else []
  | None => []
  end.
End emit.

(* ------------------------------------------------------------------ *)
(** ** What a redacted value discloses *)

(** Two values a reader of the log cannot tell apart: the same scheme with other
    credentials, or the same first four characters, or both too short to show any. *)
Inductive same_public : string → string → Prop :=
| public_scheme v w scheme :
    scheme_of v = Some scheme → scheme_of w = Some scheme → same_public v w
| public_head v w :
    scheme_of v = None → scheme_of w = None → 4 < slen v → 4 < slen w →
    String.substring 0 4 v = String.substring 0 4 w → same_public v w
| public_nothing v w :
    scheme_of v = None → scheme_of w = None → slen v ≤ 4 → slen w ≤ 4 → same_public v w.

Lemma redact_same_public v w : same_public v w → redact_value v = redact_value w.
Proof.
  unfold redact_value. destruct 1 as [v w scheme -> ->|v w -> -> Hv Hw ->|v w -> -> Hv Hw]; [done|..].
  - apply Nat.ltb_lt in Hv, Hw. by rewrite Hv, Hw.
  - apply Nat.ltb_ge in Hv, Hw. by rewrite Hv, Hw.
Qed.
(** A value that carries a scheme is hidden after it, whatever follows. *)
Lemma split_head c s t : ¬ has_char c s → partition_head (String c "") (s +:+ String c t) = s.
Proof.
  intros Hs. unfold partition_head, split. rewrite split_go_app by done. cbn [split_go].
  unfold startswith. cbn [String.prefix]. destruct (Ascii.ascii_dec c c) as [_|]; [|done].
  by replace (String.prefix "" t) with true by (by destruct t).
Qed.
Lemma contains_char c s t : contains (String c "") (s +:+ String c t) = true.
Proof.
  induction s as [|a s IH]; [|rewrite str_app_cons; cbn [contains]; by rewrite IH, orb_true_r].
  change ("" +:+ String c t) with (String c t). cbn [contains]. unfold startswith. cbn [String.prefix].
  destruct (Ascii.ascii_dec c c) as [_|]; [|done]. by replace (String.prefix "" t) with true by (by destruct t).
Qed.
Lemma scheme_value_hidden scheme credentials :
  lower scheme ∈ AUTH_SCHEMES → ¬ has_char (Ascii.ascii_of_nat 32) scheme →
  redact_value (scheme +:+ " " +:+ credentials) = scheme +:+ " ****".
Proof.
  intros Hs Hc. set (sp := Ascii.ascii_of_nat 32) in *.
  assert (H1 : contains " " (scheme +:+ " " +:+ credentials) = true) by apply (contains_char sp scheme credentials).
  assert (H2 : partition_head " " (scheme +:+ " " +:+ credentials) = scheme) by by apply (split_head sp).
  unfold redact_value, scheme_of. rewrite H1, H2. by rewrite decide_True.
Qed.

(** Arguments that differ only in what sensitive headers hide. *)
Definition same_item (x y : string * string) : Prop :=
  x.1 = y.1 ∧ (x.2 = y.2 ∨ is_sensitive x.1 = true ∧ same_public x.2 y.2).
Inductive same_arg : arg → arg → Prop :=
| same_headers l k : Forall2 same_item l k → same_arg (AHeaders l) (AHeaders k)
| same_other a : same_arg a a.
Inductive same_args : args → args → Prop :=
| same_tuple l k : Forall2 same_arg l k → same_args (ATuple l) (ATuple k)
| same_single a b : same_arg a b → same_args (ASingle a) (ASingle b).

Lemma redact_same_item x y : same_item x y → redact_item x = redact_item y.
Proof.
  destruct x as [k v], y as [k' v']. intros [Hk H]. cbn in *. subst k'. unfold redact_item. cbn. f_equal.
  destruct H as [->|[-> H]]; [done|]. by apply redact_same_public.
Qed.
Lemma redact_same_headers l k : Forall2 same_item l k → redact_arg (AHeaders l) = redact_arg (AHeaders k).
Proof.
  intros H. cbn [redact_arg].
  assert (Hs : existsb (λ kv, is_sensitive kv.1) l = existsb (λ kv, is_sensitive kv.1) k).
  { induction H as [|x y l k [Hx _] _ IH]; [done|]. cbn. by rewrite Hx, IH. }
  assert (Hm : redact_item <$> l = redact_item <$> k).
  { clear Hs. induction H as [|x y l k Hx _ IH]; [done|]. by rewrite !fmap_cons, (redact_same_item x y Hx), IH. }
  rewrite Hs, Hm. destruct (existsb _ k) eqn:E; [done|]. f_equal.
  clear Hm. induction H as [|x y l k [Hk Hx] _ IH]; [done|]. cbn in Hs, E. apply orb_false_iff in E as [E1 E2].
  rewrite IH by (rewrite ?E2 in *; by apply orb_false_iff in Hs as [_ ->] || done). f_equal.
  destruct x, y; cbn in *. subst. destruct Hx as [->|[Hx _]]; [done|congruence].
Qed.
Lemma redact_same_args x y : same_args x y → redact_args x = redact_args y.
Proof.
  assert (Ha : ∀ a b, same_arg a b → redact_arg a = redact_arg b)
    by (intros a b []; [by apply redact_same_headers|done]).
  destruct 1 as [l k H|a b H]; cbn; f_equal; [|by apply Ha].
  induction H as [|a b l k H _ IH]; [done|]. by rewrite !fmap_cons, (Ha a b H), IH.
Qed.

(* ------------------------------------------------------------------ *)
(** ** The handlers a logger can have *)

Inductive handler_ok : handler → Prop :=
| ok_stdout level f : handler_ok (stdout_handler level f)
| ok_stderr f : handler_ok (stderr_handler f).
Definition logging_ok (s : logging) : Prop :=
  ∀ name l, s.(loggers) !! name = Some l → Forall handler_ok l.(l_handlers).

Inductive reachable : logging → Prop :=
| reach_start : reachable logging_init
| reach_init name level s : reachable s → reachable (init_logger name level s)
| reach_level level s : reachable s → reachable (set_log_level level s)
| reach_format format s : reachable s → reachable (set_log_format format s).

Lemma set_handler_level_ok level h : handler_ok h → handler_ok (set_handler_level level h).
Proof. destruct 1; constructor. Qed.
Lemma set_handler_format_ok format h : handler_ok h → handler_ok (set_handler_format format h).
Proof. destruct 1 as [level []|[]]; unfold set_handler_format; cbn; case_decide; constructor. Qed.
(** Setting the level or the format changes the handlers of loggers one by one. *)
Lemma alter_all_ok (f : logger → logger) (names : list string) (m : gmap string logger) :
  (∀ l, Forall handler_ok l.(l_handlers) → Forall handler_ok (f l).(l_handlers)) →
  (∀ name l, m !! name = Some l → Forall handler_ok l.(l_handlers)) →
  ∀ name l, foldl (λ m name, alter f name m) m names !! name = Some l → Forall handler_ok l.(l_handlers).
Proof.
  intros Hf. revert m. induction names as [|n names IH]; intros m Hm; [done|]. cbn [foldl]. apply IH.
  intros name l. destruct (decide (n = name)) as [->|Hne].
  - rewrite lookup_alter_eq. intros (l' & Hl & ->)%fmap_Some. eauto.
  - rewrite lookup_alter_ne by done. apply Hm.
Qed.
Lemma reachable_ok s : reachable s → logging_ok s.
Proof.
  induction 1 as [|name level s _ IH|level s _ IH|format s _ IH].
  - intros name l. cbn. by rewrite lookup_empty.
  - intros name' l. cbn. destruct (decide (name = name')) as [->|Hne].
    + rewrite lookup_insert_eq. intros [= <-]. cbn. apply Forall_app. split.
      * destruct (loggers s !! name') as [l|] eqn:E; [by eapply IH|constructor].
      * repeat constructor.
    + rewrite lookup_insert_ne by done. apply IH.
  - intros name l. apply alter_all_ok; [|exact IH]. clear name l. intros l Hl. cbn. apply Forall_fmap. eapply Forall_impl; [done|].
    apply set_handler_level_ok.
  - intros name l. apply alter_all_ok; [|exact IH]. clear name l. intros l Hl. cbn. apply Forall_fmap. eapply Forall_impl; [done|].
    apply set_handler_format_ok.
Qed.

(* ------------------------------------------------------------------ *)
(** ** What reaches the streams *)

Section out.
Context (format : Formatter → record → string).

(** Up to INFO the handlers of the standard output write, others those of the error stream. *)
Lemma call_stream hs r st line :
  Forall handler_ok hs → (st, line) ∈ call_handlers format hs r →
  st = (if (r.(levelno) <=? INFO)%Z then Stdout else Stderr) .
Proof.
  intros Hok. revert r. induction Hok as [|h hs Hh _ IH]; intros r; [intros []%elem_of_nil|]. cbn [call_handlers].
  destruct (h_level h <=? levelno r)%Z eqn:Hl; [|apply IH]. destruct Hh as [level f|f].
  - cbn [h_filters stdout_handler run_filters run_filter]. destruct (levelno r <=? INFO)%Z eqn:Hi; [|intros H; apply IH in H; by rewrite Hi in H].
    cbn. intros [[= -> ->]|H]%elem_of_cons; [done|]. apply IH in H. cbn in H. by rewrite Hi in H.
  - cbn [h_filters stderr_handler run_filters]. cbn in Hl. intros [[= -> ->]|H]%elem_of_cons; [|by apply IH].
    destruct (levelno r <=? INFO)%Z eqn:Hi; [|done]. bool_to_prop. unfold WARNING, INFO in *. lia.
Qed.

Lemma call_same hs r1 r2 :
  Forall handler_ok hs → (r1.(levelno) <= INFO)%Z →
  r1.(levelno) = r2.(levelno) → r1.(msg) = r2.(msg) → redact_args r1.(r_args) = redact_args r2.(r_args) →
  call_handlers format hs r1 = call_handlers format hs r2.
Proof.
  intros Hok. revert r1 r2. induction Hok as [|h hs Hh _ IH]; intros [n m a1] [n2 m2 a2] Hn He Hm Ha; [done|]. cbn in *. subst n2 m2.
  destruct (h_level h <=? n)%Z eqn:Hl; [|by apply IH]. destruct Hh as [level f|f].
  - cbn. apply Z.leb_le in Hn as Hb. rewrite Hb. rewrite Ha. done.
  - cbn in Hl. bool_to_prop. unfold WARNING, INFO in *. lia.
Qed.

(** A second redaction finds nothing to do. *)
Lemma redact_arg_twice a : redact_arg (redact_arg a) = redact_arg a.
Proof. destruct a as [items| |]; cbn; [|done..]. destruct (existsb _ items) eqn:E; cbn; [done|by rewrite E]. Qed.
Lemma redact_args_twice x : redact_args (redact_args x) = redact_args x.
Proof.
  destruct x as [l|a]; cbn; f_equal; [|apply redact_arg_twice].
  induction l as [|a l IH]; [done|]. by rewrite !fmap_cons, redact_arg_twice, IH.
Qed.
(** Up to INFO every line is formatted from the redacted record. *)
Lemma call_redacted hs level m a st line :
  Forall handler_ok hs → (level <= INFO)%Z → (st, line) ∈ call_handlers format hs (mkRecord level m a) →
  st = Stdout ∧ ∃ f, line = format f (mkRecord level m (redact_args a)).
Proof.
  intros Hok Hl. revert a. induction Hok as [|h hs Hh _ IH]; intros a; [intros []%elem_of_nil|]. cbn [call_handlers levelno].
  destruct (h_level h <=? level)%Z eqn:Hlv; [|apply IH]. destruct Hh as [lv f|f].
  - cbn. apply Z.leb_le in Hl as ->. intros [[= -> ->]|H]%elem_of_cons; [split; [done|by exists f]|].
    apply IH in H. by rewrite redact_args_twice in H.
  - cbn in Hlv. bool_to_prop. unfold WARNING, INFO in *. lia.
Qed.
End out.

(** A logger initialised once writes a record of its level or above on exactly one stream,
    except between INFO and WARNING. *)
Lemma fresh_logger_lines format name level s r :
  s.(loggers) !! name = None →
  let f := if decide (s.(LOG_FORMAT) = "json") then JsonFormatter else CustomFormatter in
  let l := default s.(LOG_LEVEL) level in
  log format name r (init_logger name level s) =
    if negb (l <=? r.(levelno))%Z then []
    else if (r.(levelno) <=? INFO)%Z
         then [(Stdout, format f (mkRecord r.(levelno) r.(msg) (redact_args r.(r_args))))]
    else if (WARNING <=? r.(levelno))%Z then [(Stderr, format f r)]
    else [].
Proof.
  intros Hn f l. unfold log, init_logger. cbn [loggers]. rewrite lookup_insert_eq, Hn. fold f l. cbn [l_level l_handlers app].
  destruct (l <=? levelno r)%Z eqn:Hl; [|done]. cbn. rewrite Hl.
  destruct (levelno r <=? INFO)%Z eqn:Hi; cbn; [|by destruct (WARNING <=? levelno r)%Z].
  destruct (WARNING <=? levelno r)%Z eqn:Hw; [|done]. bool_to_prop. unfold WARNING, INFO in *. lia.
Qed.

(** C10. Header arguments are redacted: however the loggers were set up, every line of a record
    up to INFO is on the standard output and formatted from the record in which the
    Starlette [Headers] among the arguments were redacted, so records whose arguments
    differ only in what sensitive headers of such objects hold after a known scheme, or
    after their first four characters, give the same lines.  The filter looks at nothing
    else: a plain dictionary and the text of the message are written as they are. *)
Theorem header_arguments_are_redacted format s name level m a :
  reachable s → (level <= INFO)%Z →
  (∀ st line, (st, line) ∈ log format name (mkRecord level m a) s →
     st = Stdout ∧ ∃ f, line = format f (mkRecord level m (redact_args a))) ∧
  ∀ b, same_args a b → log format name (mkRecord level m a) s = log format name (mkRecord level m b) s.
Proof.
  intros Hs Hl. apply reachable_ok in Hs. unfold log. destruct (loggers s !! name) as [l|] eqn:E.
  - cbn [levelno]. destruct (l_level l <=? level)%Z; [|split; [by intros ? ? []%elem_of_nil|done]]. split.
    + intros st line. apply call_redacted; [by eapply Hs|done].
    + intros b Hb. apply call_same; [by eapply Hs|done..|]. by apply redact_same_args.
  - split; [|done]. by intros ? ? []%elem_of_nil.
Qed.

(** Warnings and errors pass no filter: the header's value is written as it is. *)
Definition first_value (f : Formatter) (r : record) : string :=
  match r.(r_args) with
  | ASingle (AHeaders ((_, v) :: _)) | ASingle (ADict ((_, v) :: _)) => v
  | _ => r.(msg)
  end.
Definition headers_example (token : string) : args := ASingle (AHeaders [("authorization", "Bearer " +:+ token); ("accept", "*/*")]).
Definition logging_example : logging := set_log_level "debug" (init_logger "vllm_router.app" None logging_init).
Example warnings_show_credentials :
  log first_value "vllm_router.app" (mkRecord WARNING "%s" (headers_example "sk-1234")) logging_example
    = [(Stderr, "Bearer sk-1234")] ∧
  log first_value "vllm_router.app" (mkRecord INFO "%s" (headers_example "sk-1234")) logging_example
    = [(Stdout, "Bearer ****")].
Proof. split; vm_compute; reflexivity. Qed.

(** Headers that the message itself shows, as the debug line of the request service does, pass
    unchanged, and so does a plain dictionary. *)
Example formatted_headers_are_shown :
  log first_value "vllm_router.app" (mkRecord DEBUG "Request headers: Bearer sk-1234" (ATuple [])) logging_example
    = [(Stdout, "Request headers: Bearer sk-1234")] ∧
  log first_value "vllm_router.app" (mkRecord DEBUG "%s" (ASingle (ADict [("authorization", "Bearer sk-1234")]))) logging_example
    = [(Stdout, "Bearer sk-1234")].
Proof. split; vm_compute; reflexivity. Qed.

Lemma header_arguments_witness :
  reachable logging_example ∧
  log first_value "vllm_router.app" (mkRecord INFO "%s" (headers_example "sk-1234")) logging_example =
  log first_value "vllm_router.app" (mkRecord INFO "%s" (headers_example "xyz")) logging_example.
Proof.
  assert (Hr : reachable logging_example) by (apply reach_level, reach_init, reach_start).
  split; [exact Hr|].
  destruct (header_arguments_are_redacted first_value logging_example "vllm_router.app" INFO "%s" (headers_example "sk-1234") Hr)
    as [_ H]; [unfold INFO; lia|]. apply H.
  apply same_single, same_headers. constructor.
  - split; [reflexivity|right]. split; [reflexivity|]. by apply (public_scheme _ _ "Bearer").
  - constructor; [|constructor]. split; [reflexivity|]. by left.
Defined.
