(* ===== verification/Endpoint.v ===== *)
(** * Endpoints and models (src/src/vllm_router/service_discovery.py, data part)

    [ModelInfo] and [EndpointInfo], the records that service discovery hands to the
    routing logic, with their conversions and queries. *)

From S2P Require Import Prelude PyDict PyStr PyVal.

Definition MODEL_INFO_KNOWN_FIELDS : list string :=
  ["id"; "object"; "created"; "owned_by"; "root"; "parent"].

Record ModelInfo : Type := mkModelInfo {
  mi_id : pyval;
  mi_object : pyval;
  mi_created : pyval;
  mi_owned_by : pyval;
  mi_root : pyval;
  mi_parent : pyval;
  mi_is_adapter : bool;
  mi_extra_fields : option (dict string pyval)
}.

(** [{k: v for k, v in data.items() if k not in _MODEL_INFO_KNOWN_FIELDS}]. *)
Definition unknown_fields (data : dict string pyval) : dict string pyval :=
  filter (λ kv, kv.1 ∉ MODEL_INFO_KNOWN_FIELDS) data.

(** [ModelInfo.from_dict]; [now] is [int(time.time())]. *)
Definition from_dict (now : Z) (data : dict string pyval) : ModelInfo :=
  mkModelInfo
    (dget_or "id" PNone data)
    (dget_or "object" (PStr "model") data)
    (dget_or "created" (PInt now) data)
    (dget_or "owned_by" (PStr "vllm") data)
    (dget_or "root" PNone data)
    (dget_or "parent" PNone data)
    (negb (is_none (dget_or "parent" PNone data)))
    (Some (unknown_fields data)).

Definition to_dict (m : ModelInfo) : dict string pyval :=
  let data := [("id", m.(mi_id)); ("object", m.(mi_object)); ("created", m.(mi_created));
               ("owned_by", m.(mi_owned_by)); ("root", m.(mi_root));
               ("parent", m.(mi_parent))] in
  match m.(mi_extra_fields) with
  | Some ((_ :: _) as extra) => dupdate data extra
  | _ => data
  end.

Record EndpointInfo : Type := mkEndpoint {
  url : string;
  model_names : list string;
  Id : string;
  added_timestamp : Z;
  model_label : option string;
  sleep : bool;
  healthy : bool;
  pod_name : option string;
  service_name : option string;
  namespace : option string;
  model_info : option (dict string ModelInfo)
}.

(** The labels of a pool: the command line passes them as one text, the dynamic
    configuration as the list its commas separate. *)
Inductive labels : Type :=
| LabelList (l : list string)
| LabelText (s : string).

(** [label in labels]: membership in a list, a substring test on a text. *)
Definition label_in (label : option string) (ls : labels) : res bool :=
  match label, ls with
  | Some l, LabelList ls => Ok (bool_decide (l ∈ ls))
  | None, LabelList _ => Ok false
  | Some l, LabelText s => Ok (contains l s)
  | None, LabelText _ => Err TypeError
  end.

Definition get_base_models (e : EndpointInfo) : list string :=
  match e.(model_info) with
  | None => []
  | Some mi => (filter (λ kv, truthy kv.2.(mi_parent) = false) mi).*1
  end.
Definition get_adapters (e : EndpointInfo) : list string :=
  match e.(model_info) with
  | None => []
  | Some mi => (filter (λ kv, truthy kv.2.(mi_parent) = true) mi).*1
  end.
Definition get_adapters_for_model (e : EndpointInfo) (base_model : string) : list string :=
  match e.(model_info) with
  | None => []
  | Some mi => (filter (λ kv, eq_str kv.2.(mi_parent) base_model = true) mi).*1
  end.
Definition has_model (e : EndpointInfo) (model_id : string) : bool :=
  bool_decide (model_id ∈ e.(model_names)).
Definition get_model_info (e : EndpointInfo) (model_id : string) : option ModelInfo :=
  e.(model_info) ≫= dget model_id.

(* ------------------------------------------------------------------ *)
(** ** Lemmas *)

Lemma dget_reverse_wf {V} (d : dict string V) k :
  dict_wf d → dget k (reverse d) = dget k d.
Proof.
  intros Hd. destruct (dget k d) as [v|] eqn:E.
  - apply elem_dget.
    + unfold dict_wf, dkeys. by rewrite fmap_reverse, reverse_Permutation.
    + apply elem_of_reverse. by apply dget_elem.
  - apply dget_None in E. apply dget_None. unfold dkeys in *.
    by rewrite fmap_reverse, elem_of_reverse.
Qed.

Lemma dget_unknown_fields k d :
  dget k (unknown_fields d) =
    if decide (k ∉ MODEL_INFO_KNOWN_FIELDS) then dget k d else None.
Proof.
  unfold unknown_fields. induction d as [|[k' v] d IH]; [by case_decide|].
  destruct (decide (k' ∉ MODEL_INFO_KNOWN_FIELDS)).
  - rewrite filter_cons_True by done. simpl. rewrite IH. repeat case_decide; naive_solver.
  - rewrite filter_cons_False by done. rewrite IH. simpl. repeat case_decide; naive_solver.
Qed.

Lemma unknown_fields_wf d : dict_wf d → dict_wf (unknown_fields d).
Proof. intros Hd. eapply sublist_NoDup; [done|]. apply fmap_sublist, sublist_filter. Qed.

(** The value of a key of [to_dict]: known fields come from the record. *)
Definition default_field (now : Z) (k : string) : option pyval :=
  if decide (k = "object") then Some (PStr "model")
  else if decide (k = "created") then Some (PInt now)
  else if decide (k = "owned_by") then Some (PStr "vllm")
  else if decide (k ∈ ["id"; "root"; "parent"]) then Some PNone
  else None.

Lemma to_dict_dupdate m :
  to_dict m = dupdate [("id", m.(mi_id)); ("object", m.(mi_object)); ("created", m.(mi_created));
    ("owned_by", m.(mi_owned_by)); ("root", m.(mi_root)); ("parent", m.(mi_parent))]
    (default [] m.(mi_extra_fields)).
Proof. unfold to_dict. by destruct (mi_extra_fields m) as [[]|]. Qed.

(** ** Properties *)

(** [to_dict] inverts [from_dict]: a field of the upstream model description is
    reported unchanged, known or not, and an absent known field is reported with the
    documented default. *)
Theorem model_info_roundtrip now data k :
  dict_wf data →
  dget k (to_dict (from_dict now data)) =
    match dget k data with Some v => Some v | None => default_field now k end.
Proof.
  intros Hd. rewrite to_dict_dupdate, dget_dupdate. simpl.
  rewrite dget_reverse_wf by (by apply unknown_fields_wf).
  rewrite dget_unknown_fields.
  destruct (decide (k ∉ MODEL_INFO_KNOWN_FIELDS)) as [Hk|Hk].
  - destruct (dget k data); [done|]. unfold default_field, MODEL_INFO_KNOWN_FIELDS in *.
    repeat (case_decide; [set_solver|]). done.
  - apply dec_stable in Hk. unfold MODEL_INFO_KNOWN_FIELDS in Hk. unfold dget_or, default_field.
    rewrite !elem_of_cons, elem_of_nil in Hk.
    destruct_or! Hk; subst; simpl; by destruct (dget _ data).
Qed.

Lemma model_info_roundtrip_witness :
  dget "max_model_len" (to_dict (from_dict 1700 [("id", PStr "m"); ("max_model_len", PInt 4096)]))
    = Some (PInt 4096).
Proof.
  rewrite (model_info_roundtrip 1700 [("id", PStr "m"); ("max_model_len", PInt 4096)]
    "max_model_len"); [reflexivity|].
  repeat constructor; set_solver.
Defined.

(** The models of an endpoint are split into base models and adapters: every
    listed model is in exactly one of the two lists, each keeps its multiplicity,
    and the adapters of a model are adapters. *)
Theorem base_models_and_adapters_partition e mi :
  e.(model_info) = Some mi →
  get_base_models e ++ get_adapters e ≡ₚ dkeys mi ∧
  (∀ m, m ∈ get_base_models e → m ∈ get_adapters e → ¬ dict_wf mi) ∧
  (∀ base, base ≠ "" → get_adapters_for_model e base ⊆ get_adapters e).
Proof.
  intros Hm. unfold get_base_models, get_adapters, get_adapters_for_model. rewrite Hm.
  split_and!.
  - rewrite <-fmap_app. apply fmap_Permutation. clear Hm.
    induction mi as [|[k v] mi IH]; [done|]. destruct (truthy (mi_parent v)) eqn:E.
    + rewrite filter_cons_False, filter_cons_True by (simpl; congruence).
      by rewrite <-Permutation_middle, IH.
    + rewrite filter_cons_True, filter_cons_False by (simpl; congruence). simpl. by rewrite IH.
  - intros m Hb Ha Hwf. apply list_elem_of_fmap in Hb as ([k v] & -> & [Hv Hin]%list_elem_of_filter).
    apply list_elem_of_fmap in Ha as ([k' v'] & E & [Hv' Hin']%list_elem_of_filter).
    simpl in *. subst k'. apply (elem_dget _ _ _ Hwf) in Hin, Hin'. congruence.
  - intros base Hb m. rewrite !list_elem_of_fmap.
    intros ([k v] & -> & [Hv Hin]%list_elem_of_filter). exists (k, v). split; [done|].
    apply list_elem_of_filter. split; [|done]. simpl in *. unfold eq_str in Hv.
    destruct (mi_parent v); simplify_eq/=. apply bool_decide_eq_true in Hv. subst.
    by rewrite bool_decide_true.
Qed.

Definition endpoint_example : EndpointInfo :=
  mkEndpoint "http://a:8000" ["base"; "lora"] "id" 0 None false true None None None
    (Some [("base", from_dict 0 [("id", PStr "base")]);
           ("lora", from_dict 0 [("id", PStr "lora"); ("parent", PStr "base")])]).

Lemma base_models_and_adapters_witness :
  get_base_models endpoint_example ++ get_adapters endpoint_example ≡ₚ ["base"; "lora"].
Proof.
  exact (proj1 (base_models_and_adapters_partition endpoint_example
    (from_option id [] endpoint_example.(model_info)) eq_refl)).
Defined.
