(* ===== verification/RequestStats.v ===== *)
(** * Request statistics (src/src/vllm_router/stats/request_stats.py)

    [RequestStatsMonitor] counts, per engine, the requests in prefill, in decoding
    and finished, and keeps sliding windows of arrivals, times to first token and
    latencies.  The file gives the monitor's state and its event handlers, a ledger
    that specifies them (one entry per handle ever issued, with its status), the
    simulation between the two, the consistency of the per-handle indexes and the
    equality of the reported QPS with the arrivals inside the window. *)

From S2P Require Import Prelude.
From Stdlib Require Import Sorted.

(* ------------------------------------------------------------------ *)
(** ** Data *)

Record RequestStats : Type := mkRequestStats {
  qps : Q;
  ttft : Q;
  in_prefill_requests : Z;
  in_decoding_requests : Z;
  finished_requests : Z;
  uptime : Q;
  avg_decoding_length : Q;
  avg_latency : Q;
  avg_itl : Q;
  num_swapped_requests : Z
}.

(** [RequestHandle(_value)]: handles are numbered from 0 by [_next_handle]. *)
Record RequestHandle : Type := mkHandle { handle_value : nat }.
#[global] Instance RequestHandle_eq_dec : EqDecision RequestHandle.
Proof. solve_decision. Defined.
#[global] Instance RequestHandle_countable : Countable RequestHandle.
Proof. by apply (inj_countable' handle_value mkHandle); intros []. Defined.

Inductive Stage : Type := prefill | decoding.
#[global] Instance Stage_eq_dec : EqDecision Stage.
Proof. solve_decision. Defined.

Record ActiveRequest : Type := mkActive {
  stage : Stage;
  engine_url : string;
  request_id : string;
  start_time : Q;
  first_token_time : option Q
}.

(** ** [MovingAverageMonitor]: two deques advanced in lockstep *)

Record MovingAverageMonitor : Type := mkMAM {
  mam_window : Q;
  timestamps : list Q;
  values : list Q
}.

Definition MovingAverageMonitor_init (w : Q) : MovingAverageMonitor := mkMAM w [] [].

(** The [while] loop of [update] and [update_no_value]: drop from the left of both
    deques while the oldest timestamp is before the cut. *)
Fixpoint expire (cut : Q) (ts vs : list Q) : list Q * list Q :=
  match ts with
  | [] => ([], vs)
  | t :: ts' => if Qltb t cut then expire cut ts' (tail vs) else (ts, vs)
  end.

Definition mam_update (timestamp value : Q) (m : MovingAverageMonitor) : MovingAverageMonitor :=
  let '(ts, vs) := expire (timestamp - m.(mam_window))%Q
                          (m.(timestamps) ++ [timestamp]) (m.(values) ++ [value]) in
  mkMAM m.(mam_window) ts vs.
Definition mam_update_no_value (timestamp : Q) (m : MovingAverageMonitor) : MovingAverageMonitor :=
  let '(ts, vs) := expire (timestamp - m.(mam_window))%Q m.(timestamps) m.(values) in
  mkMAM m.(mam_window) ts vs.
Definition get_sum (m : MovingAverageMonitor) : Q := Qsum m.(values).
Definition get_average (m : MovingAverageMonitor) : Q :=
  match m.(values) with
  | [] => (-1)%Q
  | _ => (Qsum m.(values) / inject_Z (Z.of_nat (length m.(values))))%Q
  end.

(** ** The monitor's state *)

Record RequestStatsMonitor : Type := mkMonitor {
  sliding_window_size : Q;
  next_handle : nat;
  active_requests : gmap RequestHandle ActiveRequest;
  qps_monitors : gmap string MovingAverageMonitor;
  ttft_monitors : gmap string MovingAverageMonitor;
  request_start_time : gmap RequestHandle Q;
  first_token_times : gmap RequestHandle Q;
  in_prefill : gmap string Z;
  in_decoding : gmap string Z;
  finished : gmap string Z;
  latency_monitors : gmap string MovingAverageMonitor;
  decoding_length_monitors : gmap string MovingAverageMonitor;
  swapped : gmap string Z;
  first_query_time : option Q
}.

Definition set_next_handle (x : nat) (s : RequestStatsMonitor) : RequestStatsMonitor :=
  mkMonitor s.(sliding_window_size) x s.(active_requests) s.(qps_monitors) s.(ttft_monitors)
    s.(request_start_time) s.(first_token_times) s.(in_prefill) s.(in_decoding) s.(finished)
    s.(latency_monitors) s.(decoding_length_monitors) s.(swapped) s.(first_query_time).
Definition set_active_requests (x : gmap RequestHandle ActiveRequest) (s : RequestStatsMonitor) : RequestStatsMonitor :=
  mkMonitor s.(sliding_window_size) s.(next_handle) x s.(qps_monitors) s.(ttft_monitors)
    s.(request_start_time) s.(first_token_times) s.(in_prefill) s.(in_decoding) s.(finished)
    s.(latency_monitors) s.(decoding_length_monitors) s.(swapped) s.(first_query_time).
Definition set_qps_monitors (x : gmap string MovingAverageMonitor) (s : RequestStatsMonitor) : RequestStatsMonitor :=
  mkMonitor s.(sliding_window_size) s.(next_handle) s.(active_requests) x s.(ttft_monitors)
    s.(request_start_time) s.(first_token_times) s.(in_prefill) s.(in_decoding) s.(finished)
    s.(latency_monitors) s.(decoding_length_monitors) s.(swapped) s.(first_query_time).
Definition set_ttft_monitors (x : gmap string MovingAverageMonitor) (s : RequestStatsMonitor) : RequestStatsMonitor :=
  mkMonitor s.(sliding_window_size) s.(next_handle) s.(active_requests) s.(qps_monitors) x
    s.(request_start_time) s.(first_token_times) s.(in_prefill) s.(in_decoding) s.(finished)
    s.(latency_monitors) s.(decoding_length_monitors) s.(swapped) s.(first_query_time).
Definition set_request_start_time (x : gmap RequestHandle Q) (s : RequestStatsMonitor) : RequestStatsMonitor :=
  mkMonitor s.(sliding_window_size) s.(next_handle) s.(active_requests) s.(qps_monitors)
    s.(ttft_monitors) x s.(first_token_times) s.(in_prefill) s.(in_decoding) s.(finished)
    s.(latency_monitors) s.(decoding_length_monitors) s.(swapped) s.(first_query_time).
Definition set_first_token_times (x : gmap RequestHandle Q) (s : RequestStatsMonitor) : RequestStatsMonitor :=
  mkMonitor s.(sliding_window_size) s.(next_handle) s.(active_requests) s.(qps_monitors)
    s.(ttft_monitors) s.(request_start_time) x s.(in_prefill) s.(in_decoding) s.(finished)
    s.(latency_monitors) s.(decoding_length_monitors) s.(swapped) s.(first_query_time).
Definition set_in_prefill (x : gmap string Z) (s : RequestStatsMonitor) : RequestStatsMonitor :=
  mkMonitor s.(sliding_window_size) s.(next_handle) s.(active_requests) s.(qps_monitors)
    s.(ttft_monitors) s.(request_start_time) s.(first_token_times) x s.(in_decoding)
    s.(finished) s.(latency_monitors) s.(decoding_length_monitors) s.(swapped)
    s.(first_query_time).
Definition set_in_decoding (x : gmap string Z) (s : RequestStatsMonitor) : RequestStatsMonitor :=
  mkMonitor s.(sliding_window_size) s.(next_handle) s.(active_requests) s.(qps_monitors)
    s.(ttft_monitors) s.(request_start_time) s.(first_token_times) s.(in_prefill) x
    s.(finished) s.(latency_monitors) s.(decoding_length_monitors) s.(swapped)
    s.(first_query_time).
Definition set_finished (x : gmap string Z) (s : RequestStatsMonitor) : RequestStatsMonitor :=
  mkMonitor s.(sliding_window_size) s.(next_handle) s.(active_requests) s.(qps_monitors)
    s.(ttft_monitors) s.(request_start_time) s.(first_token_times) s.(in_prefill)
    s.(in_decoding) x s.(latency_monitors) s.(decoding_length_monitors) s.(swapped)
    s.(first_query_time).
Definition set_latency_monitors (x : gmap string MovingAverageMonitor) (s : RequestStatsMonitor) : RequestStatsMonitor :=
  mkMonitor s.(sliding_window_size) s.(next_handle) s.(active_requests) s.(qps_monitors)
    s.(ttft_monitors) s.(request_start_time) s.(first_token_times) s.(in_prefill)
    s.(in_decoding) s.(finished) x s.(decoding_length_monitors) s.(swapped)
    s.(first_query_time).
Definition set_decoding_length_monitors (x : gmap string MovingAverageMonitor) (s : RequestStatsMonitor) : RequestStatsMonitor :=
  mkMonitor s.(sliding_window_size) s.(next_handle) s.(active_requests) s.(qps_monitors)
    s.(ttft_monitors) s.(request_start_time) s.(first_token_times) s.(in_prefill)
    s.(in_decoding) s.(finished) s.(latency_monitors) x s.(swapped) s.(first_query_time).
Definition set_swapped (x : gmap string Z) (s : RequestStatsMonitor) : RequestStatsMonitor :=
  mkMonitor s.(sliding_window_size) s.(next_handle) s.(active_requests) s.(qps_monitors)
    s.(ttft_monitors) s.(request_start_time) s.(first_token_times) s.(in_prefill)
    s.(in_decoding) s.(finished) s.(latency_monitors) s.(decoding_length_monitors) x
    s.(first_query_time).
Definition set_first_query_time (x : option Q) (s : RequestStatsMonitor) : RequestStatsMonitor :=
  mkMonitor s.(sliding_window_size) s.(next_handle) s.(active_requests) s.(qps_monitors)
    s.(ttft_monitors) s.(request_start_time) s.(first_token_times) s.(in_prefill)
    s.(in_decoding) s.(finished) s.(latency_monitors) s.(decoding_length_monitors)
    s.(swapped) x.

Definition RequestStatsMonitor_init (w : Q) : RequestStatsMonitor :=
  mkMonitor w 0 ∅ ∅ ∅ ∅ ∅ ∅ ∅ ∅ ∅ ∅ ∅ None.

(** [d.setdefault(k, 0); d[k] += x]. *)
Definition bump (k : string) (x : Z) (d : gmap string Z) : gmap string Z :=
  <[k := (default 0 (d !! k) + x)%Z]> d.
(** [if k not in d: d[k] = MovingAverageMonitor(w)]. *)
Definition ensure (k : string) (w : Q) (d : gmap string MovingAverageMonitor) :
  gmap string MovingAverageMonitor :=
  match d !! k with Some _ => d | None => <[k := MovingAverageMonitor_init w]> d end.

(* ------------------------------------------------------------------ *)
(** ** Event handlers *)

Definition on_new_request (url rid : string) (timestamp : Q) (s : RequestStatsMonitor) :
  RequestStatsMonitor * RequestHandle :=
  let handle := mkHandle s.(next_handle) in
  let s := set_next_handle (S s.(next_handle)) s in
  let s := set_active_requests
             (<[handle := mkActive prefill url rid timestamp None]> s.(active_requests)) s in
  let s := set_request_start_time (<[handle := timestamp]> s.(request_start_time)) s in
  let s := set_in_prefill (bump url 1 s.(in_prefill)) s in
  let s := set_qps_monitors
             (alter (mam_update timestamp 1) url
                (ensure url s.(sliding_window_size) s.(qps_monitors))) s in
  let s := set_latency_monitors
             (ensure url s.(sliding_window_size) s.(latency_monitors)) s in
  let s := set_first_query_time
             (match s.(first_query_time) with None => Some timestamp | t => t end) s in
  (s, handle).

Definition on_request_response (handle : RequestHandle) (timestamp : Q)
    (s : RequestStatsMonitor) : RequestStatsMonitor :=
  match s.(active_requests) !! handle with
  | Some (mkActive prefill url rid t0 _) =>
      if (default 0 (s.(in_prefill) !! url) <=? 0)%Z then s else
      let s := set_active_requests
                 (<[handle := mkActive decoding url rid t0 (Some timestamp)]>
                    s.(active_requests)) s in
      let s := set_first_token_times (<[handle := timestamp]> s.(first_token_times)) s in
      let s := set_in_prefill (bump url (-1) s.(in_prefill)) s in
      let s := set_in_decoding (bump url 1 s.(in_decoding)) s in
      set_ttft_monitors
        (alter (mam_update timestamp (timestamp - t0)) url
           (ensure url s.(sliding_window_size) s.(ttft_monitors))) s
  | _ => s
  end.

(** [_finalize_request]: pops the active record first; the counters and, for a
    completed request, the finished count and the latency window follow.
    [latency_monitors[engine_url]] raises [KeyError] when the monitor is absent. *)
Definition finalize_request (handle : RequestHandle) (timestamp : Q) (completed : bool) :
  M RequestStatsMonitor unit := λ s,
  match s.(active_requests) !! handle with
  | None => (s, Ok tt)
  | Some request =>
      let url := request.(engine_url) in
      let s := set_active_requests (delete handle s.(active_requests)) s in
      let s := set_request_start_time (delete handle s.(request_start_time)) s in
      let s := set_first_token_times (delete handle s.(first_token_times)) s in
      let s :=
        match request.(stage) with
        | prefill => if (default 0 (s.(in_prefill) !! url) <=? 0)%Z then s
                     else set_in_prefill (bump url (-1) s.(in_prefill)) s
        | decoding => if (default 0 (s.(in_decoding) !! url) <=? 0)%Z then s
                      else set_in_decoding (bump url (-1) s.(in_decoding)) s
        end in
      if negb completed then (s, Ok tt) else
      let s := set_finished (bump url 1 s.(finished)) s in
      match s.(latency_monitors) !! url with
      | None => (s, Err (KeyError url))
      | Some m =>
          (set_latency_monitors
             (<[url := mam_update timestamp (timestamp - request.(start_time)) m]>
                s.(latency_monitors)) s, Ok tt)
      end
  end.

Definition on_request_complete h t : M RequestStatsMonitor unit := finalize_request h t true.
Definition on_request_fail h t : M RequestStatsMonitor unit := finalize_request h t false.
Definition on_request_abort h t : M RequestStatsMonitor unit := finalize_request h t false.

Definition on_request_swapped (url rid : string) (timestamp : Q) (s : RequestStatsMonitor) :
  RequestStatsMonitor := set_swapped (bump url 1 s.(swapped)) s.

(* ------------------------------------------------------------------ *)
(** ** Reading the statistics *)

Local Open Scope py_scope.

(** [x / y] on floats. *)
Definition py_div (x y : Q) : res Q :=
  if Qeq_bool y 0 then Err (OtherException "ZeroDivisionError") else Ok (x / y)%Q.

(** [current_time - first_query_time if first_query_time else 0]: a first query at
    time 0.0 is falsy. *)
Definition uptime_of (current_time : Q) (fqt : option Q) : Q :=
  match fqt with
  | Some t => if Qeq_bool t 0 then 0 else (current_time - t)
  | None => 0
  end%Q.

Definition avg_or_minus1 (url : string) (d : gmap string MovingAverageMonitor) : Q :=
  match d !! url with Some m => get_average m | None => (-1)%Q end.

(** One turn of the loop of [_get_request_stats_locked]. *)
Definition stats_of_url (current_time : Q) (url : string) :
  M RequestStatsMonitor RequestStats :=
  q <- (λ s : RequestStatsMonitor,
         match s.(qps_monitors) !! url with
         | None => (s, Ok (-1)%Q)
         | Some m =>
             let m := mam_update_no_value current_time m in
             let s := set_qps_monitors (<[url := m]> s.(qps_monitors)) s in
             (s, py_div (get_sum m) s.(sliding_window_size))
         end) ;;
  t <- (λ s : RequestStatsMonitor,
         match s.(ttft_monitors) !! url with
         | None => (s, Ok (-1)%Q)
         | Some m =>
             let m := mam_update_no_value current_time m in
             (set_ttft_monitors (<[url := m]> s.(ttft_monitors)) s, Ok (get_average m))
         end) ;;
  gets (λ s, mkRequestStats q t
    (default 0%Z (s.(in_prefill) !! url))
    (default 0%Z (s.(in_decoding) !! url))
    (default 0%Z (s.(finished) !! url))
    (uptime_of current_time s.(first_query_time))
    (avg_or_minus1 url s.(decoding_length_monitors))
    (avg_or_minus1 url s.(latency_monitors))
    (-1)%Q
    (default 0%Z (s.(swapped) !! url))).

Fixpoint collect_stats (current_time : Q) (urls : list string)
    (acc : gmap string RequestStats) : M RequestStatsMonitor (gmap string RequestStats) :=
  match urls with
  | [] => ret acc
  | url :: urls' =>
      st <- stats_of_url current_time url ;;
      collect_stats current_time urls' (<[url := st]> acc)
  end.

(** The set of URLs is iterated in an unspecified order; the result is a map. *)
Definition get_request_stats (current_time : Q) :
  M RequestStatsMonitor (gmap string RequestStats) := λ s,
  collect_stats current_time
    (elements (dom s.(in_prefill) ∪ dom s.(in_decoding) : gset string)) ∅ s.

(* ------------------------------------------------------------------ *)
(** ** Traces of monitor calls *)

Inductive event : Type :=
| New (url rid : string) (t : Q)
| Response (h : RequestHandle) (t : Q)
| Complete (h : RequestHandle) (t : Q)
| Fail (h : RequestHandle) (t : Q)
| Abort (h : RequestHandle) (t : Q)
| Swapped (url rid : string) (t : Q)
| Query (t : Q).

(** The handlers hold [_lock], so a concurrent execution is a sequence of them. *)
Definition step (s : RequestStatsMonitor) (e : event) : RequestStatsMonitor * res unit :=
  match e with
  | New url rid t => ((on_new_request url rid t s).1, Ok tt)
  | Response h t => (on_request_response h t s, Ok tt)
  | Complete h t => on_request_complete h t s
  | Fail h t => on_request_fail h t s
  | Abort h t => on_request_abort h t s
  | Swapped url rid t => (on_request_swapped url rid t s, Ok tt)
  | Query t => let '(s, r) := get_request_stats t s in
               (s, match r with Ok _ => Ok tt | Err e => Err e end)
  end.
Definition run (w : Q) (tr : list event) : RequestStatsMonitor :=
  foldl (λ s e, (step s e).1) (RequestStatsMonitor_init w) tr.

(** ** The specification: a ledger of every handle issued *)

Inductive Status : Type := Live (st : Stage) | Finished | Dropped.
#[global] Instance Status_eq_dec : EqDecision Status.
Proof. solve_decision. Defined.

Abbreviation ledger := (list (string * Status)).

Definition ledger_step (L : ledger) (e : event) : ledger :=
  let retire (h : RequestHandle) (out : Status) :=
    match L !! h.(handle_value) with
    | Some (url, Live _) => <[h.(handle_value) := (url, out)]> L
    | _ => L
    end in
  match e with
  | New url _ _ => L ++ [(url, Live prefill)]
  | Response h _ =>
      match L !! h.(handle_value) with
      | Some (url, Live prefill) => <[h.(handle_value) := (url, Live decoding)]> L
      | _ => L
      end
  | Complete h _ => retire h Finished
  | Fail h _ | Abort h _ => retire h Dropped
  | Swapped _ _ _ | Query _ => L
  end.
Definition ledger_run (tr : list event) : ledger := foldl ledger_step [] tr.

(** The number of entries of the ledger equal to [x]. *)
Definition tally (x : string * Status) (L : ledger) : Z :=
  Z.of_nat (length (filter (λ y, y = x) L)).

Record refines (s : RequestStatsMonitor) (L : ledger) : Prop := {
  ref_next : s.(next_handle) = length L;
  ref_active : ∀ h, match L !! h.(handle_value) with
    | Some (url, Live st) => ∃ rid t0 ft,
        s.(active_requests) !! h = Some (mkActive st url rid t0 ft)
    | _ => s.(active_requests) !! h = None
    end;
  ref_prefill : ∀ u, default 0%Z (s.(in_prefill) !! u) = tally (u, Live prefill) L;
  ref_decoding : ∀ u, default 0%Z (s.(in_decoding) !! u) = tally (u, Live decoding) L;
  ref_finished : ∀ u, default 0%Z (s.(finished) !! u) = tally (u, Finished) L;
  ref_latency : ∀ i u st, L !! i = Some (u, st) → is_Some (s.(latency_monitors) !! u);
  ref_urls : ∀ u, u ∈ (dom s.(in_prefill) ∪ dom s.(in_decoding) : gset string) ↔ u ∈ L.*1
}.

(* ------------------------------------------------------------------ *)
(** ** Lemmas on tallies and counters *)

Lemma tally_app x y L : tally x (L ++ [y]) = (tally x L + if decide (y = x) then 1 else 0)%Z.
Proof.
  unfold tally. rewrite filter_app, length_app. case_decide.
  - rewrite filter_cons_True by done. simpl. lia.
  - rewrite filter_cons_False by done. simpl. lia.
Qed.

Lemma tally_cons x y L : tally x (y :: L) = (tally x L + if decide (y = x) then 1 else 0)%Z.
Proof.
  unfold tally. case_decide.
  - rewrite filter_cons_True by done. simpl. lia.
  - rewrite filter_cons_False by done. lia.
Qed.

Lemma tally_insert x i old new L :
  L !! i = Some old →
  tally x (<[i := new]> L) =
    (tally x L - (if decide (old = x) then 1 else 0) + if decide (new = x) then 1 else 0)%Z.
Proof.
  revert i. induction L as [|y L IH]; intros [|i] Hi; simplify_eq/=.
  - rewrite !tally_cons. lia.
  - rewrite !tally_cons, (IH _ Hi). lia.
Qed.

Lemma tally_pos x i L : L !! i = Some x → (0 < tally x L)%Z.
Proof.
  intros Hi. unfold tally. assert (Hin : x ∈ filter (λ y, y = x) L).
  { apply list_elem_of_filter. split; [done|]. by eapply list_elem_of_lookup_2. }
  destruct (filter _ L); [set_solver|simpl; lia].
Qed.

Lemma bump_lookup k x d u :
  default 0%Z (bump k x d !! u) =
    (default 0%Z (d !! u) + if decide (k = u) then x else 0)%Z.
Proof.
  unfold bump. rewrite lookup_insert. case_decide; subst; simpl; [done|lia].
Qed.

Lemma ensure_is_Some k w d u : is_Some (d !! u) → is_Some (ensure k w d !! u).
Proof.
  unfold ensure. destruct (d !! k) eqn:E; [done|]. intros.
  apply lookup_insert_is_Some. destruct (decide (k = u)); auto.
Qed.
Lemma ensure_present k w d : is_Some (ensure k w d !! k).
Proof. unfold ensure. destruct (d !! k) eqn:E; [by rewrite E|]. by rewrite lookup_insert_eq. Qed.

(** What a reader of the statistics may change: the two refreshed windows. *)
Definition same_counts (s s' : RequestStatsMonitor) : Prop :=
  ∃ q t, s' = set_ttft_monitors t (set_qps_monitors q s).

Lemma same_counts_refl s : same_counts s s.
Proof. exists (qps_monitors s), (ttft_monitors s). by destruct s. Qed.
Lemma same_counts_trans s1 s2 s3 : same_counts s1 s2 → same_counts s2 s3 → same_counts s1 s3.
Proof. intros (q & t & ->) (q' & t' & ->). by exists q', t'. Qed.
Lemma same_counts_qps q s : same_counts s (set_qps_monitors q s).
Proof. exists q, (ttft_monitors s). by destruct s. Qed.
Lemma same_counts_ttft t s : same_counts s (set_ttft_monitors t s).
Proof. exists (qps_monitors s), t. by destruct s. Qed.
#[local] Hint Resolve same_counts_refl same_counts_qps same_counts_ttft : py.

Lemma stats_of_url_frame now url s : same_counts s (stats_of_url now url s).1.
Proof.
  unfold stats_of_url, bind, gets, py_div.
  destruct (qps_monitors s !! url); simpl; [destruct (Qeq_bool _ _); simpl; auto with py|];
    repeat case_match; simplify_eq/=; eauto using same_counts_trans with py.
Qed.
Lemma collect_stats_frame now urls acc s : same_counts s (collect_stats now urls acc s).1.
Proof.
  revert acc s. induction urls as [|u urls IH]; intros acc s; simpl; [auto with py|].
  unfold bind. pose proof (stats_of_url_frame now u s) as H.
  destruct (stats_of_url now u s) as [s' [st|e]]; simpl in *; [|done].
  eauto using same_counts_trans.
Qed.

Lemma refines_same_counts s s' L : same_counts s s' → refines s L → refines s' L.
Proof. intros (q & t & ->) []. by constructor. Qed.

(* ------------------------------------------------------------------ *)
(** ** The handlers implement the ledger *)

Lemma refines_init w : refines (RequestStatsMonitor_init w) [].
Proof. constructor; try done. intros u. simpl. rewrite !dom_empty. set_solver. Qed.

Section refinement.
Context (s : RequestStatsMonitor) (L : ledger) (R : refines s L).

(** A live ledger entry gives its active record and a positive counter. *)
Lemma live_active i url st :
  L !! i = Some (url, Live st) →
  (∃ rid t0 ft, s.(active_requests) !! mkHandle i = Some (mkActive st url rid t0 ft)) ∧
  (default 0 (match st with prefill => s.(in_prefill) | decoding => s.(in_decoding) end !! url)
     <=? 0)%Z = false.
Proof.
  intros Hi. pose proof (ref_active _ _ R (mkHandle i)) as Ha. simpl in Ha. rewrite Hi in Ha.
  split; [done|]. apply Z.leb_gt. apply tally_pos in Hi.
  destruct st; [rewrite (ref_prefill _ _ R)|rewrite (ref_decoding _ _ R)]; done.
Qed.

Lemma refines_new url rid t :
  refines (on_new_request url rid t s).1 (ledger_step L (New url rid t)).
Proof.
  constructor; simpl.
  - rewrite length_app, (ref_next _ _ R). simpl. lia.
  - intros [i]. simpl. pose proof (ref_active _ _ R (mkHandle i)) as Ha. simpl in Ha.
    destruct (decide (i = length L)) as [->|Hne].
    + rewrite lookup_app_r, Nat.sub_diag by lia. simpl.
      rewrite (ref_next _ _ R), lookup_insert_eq. eauto.
    + rewrite lookup_insert_ne by (rewrite (ref_next _ _ R); congruence).
      destruct (decide (i < length L)).
      * by rewrite lookup_app_l by lia.
      * rewrite lookup_ge_None_2 in Ha by lia.
        rewrite (lookup_ge_None_2 (L ++ _)) by (rewrite length_app; simpl; lia). done.
  - intros u. rewrite bump_lookup, tally_app, (ref_prefill _ _ R).
    repeat case_decide; naive_solver lia.
  - intros u. rewrite tally_app, (ref_decoding _ _ R). case_decide; naive_solver lia.
  - intros u. rewrite tally_app, (ref_finished _ _ R). case_decide; naive_solver lia.
  - intros i u st [Hi|[? Hi]]%lookup_app_Some.
    + apply ensure_is_Some. by apply (ref_latency _ _ R) in Hi.
    + apply list_lookup_singleton_Some in Hi as [_ Hi]. simplify_eq. apply ensure_present.
  - intros u. rewrite fmap_app, elem_of_app, <-(ref_urls _ _ R). unfold bump.
    rewrite dom_insert. set_solver.
Qed.

Lemma live_url i url st : L !! i = Some (url, st) → url ∈ L.*1.
Proof. intros Hi. apply list_elem_of_fmap. exists (url, st). eauto using list_elem_of_lookup_2. Qed.

(** Replacing a live entry [(url, Live st)] by [(url, new)] in the ledger is
    matched by any state that moves the active record and the counters alike. *)
Lemma refines_replace i url st new s' :
  L !! i = Some (url, Live st) →
  s'.(next_handle) = s.(next_handle) →
  (∀ h, h ≠ mkHandle i → s'.(active_requests) !! h = s.(active_requests) !! h) →
  match new with
  | Live st' => ∃ rid t0 ft,
      s'.(active_requests) !! mkHandle i = Some (mkActive st' url rid t0 ft)
  | _ => s'.(active_requests) !! mkHandle i = None
  end →
  (∀ stg u, default 0%Z
     (match stg with prefill => s'.(in_prefill) | decoding => s'.(in_decoding) end !! u) =
     (default 0 (match stg with prefill => s.(in_prefill) | decoding => s.(in_decoding) end !! u)
      - (if decide ((url, Live st) = (u, Live stg)) then 1 else 0)
      + if decide ((url, new) = (u, Live stg)) then 1 else 0)%Z) →
  (∀ u, default 0%Z (s'.(finished) !! u) =
     (default 0 (s.(finished) !! u) + if decide ((url, new) = (u, Finished)) then 1 else 0)%Z) →
  (∀ u, is_Some (s.(latency_monitors) !! u) → is_Some (s'.(latency_monitors) !! u)) →
  (dom s'.(in_prefill) ∪ dom s'.(in_decoding) : gset string) ⊆
    {[url]} ∪ dom s.(in_prefill) ∪ dom s.(in_decoding) →
  (dom s.(in_prefill) ∪ dom s.(in_decoding) : gset string) ⊆
    dom s'.(in_prefill) ∪ dom s'.(in_decoding) →
  refines s' (<[i := (url, new)]> L).
Proof.
  intros Hi Hn Hoth Hact Hcnt Hfin Hlat Hd1 Hd2. constructor.
  - by rewrite length_insert, Hn, (ref_next _ _ R).
  - intros [j]; simpl. destruct (decide (j = i)) as [->|Hne].
    + rewrite list_lookup_insert_eq by (by eapply lookup_lt_Some). by destruct new.
    + rewrite list_lookup_insert_ne by done. rewrite Hoth by congruence.
      apply (ref_active _ _ R (mkHandle j)).
  - intros u. rewrite (tally_insert _ _ _ _ _ Hi), <-(ref_prefill _ _ R). apply (Hcnt prefill).
  - intros u. rewrite (tally_insert _ _ _ _ _ Hi), <-(ref_decoding _ _ R). apply (Hcnt decoding).
  - intros u. rewrite (tally_insert _ _ _ _ _ Hi), <-(ref_finished _ _ R), Hfin.
    rewrite (decide_False (P := (url, Live st) = (u, Finished))) by done. lia.
  - intros j u st'. rewrite list_lookup_insert_Some. intros [(-> & [= <- <-] & _)|[_ Hj]].
    + by eapply Hlat, (ref_latency _ _ R).
    + by eapply Hlat, (ref_latency _ _ R).
  - intros u. rewrite list_fmap_insert, list_insert_id.
    + rewrite <-(ref_urls _ _ R u). split; [|apply Hd2].
      intros Hin%Hd1. rewrite !elem_of_union, elem_of_singleton in Hin.
      destruct Hin as [[->|?]|?]; [|by apply elem_of_union; auto..].
      by eapply (ref_urls _ _ R), live_url.
    + by rewrite list_lookup_fmap, Hi.
Qed.

Lemma refines_response h t :
  refines (on_request_response h t s) (ledger_step L (Response h t)).
Proof.
  destruct h as [i]. pose proof (ref_active _ _ R (mkHandle i)) as Ha.
  unfold on_request_response. simpl in *.
  destruct (L !! i) as [[url [[]| |]]|] eqn:Hi.
  - destruct (live_active _ _ _ Hi) as [(rid & t0 & ft & ->) ->].
    eapply refines_replace; [done|done|..]; simpl.
    + intros h Hh. by rewrite lookup_insert_ne.
    + rewrite lookup_insert_eq. eauto.
    + intros [] u; rewrite bump_lookup; repeat case_decide; naive_solver lia.
    + intros u. rewrite decide_False by done. lia.
    + done.
    + unfold bump. rewrite !dom_insert. set_solver.
    + unfold bump. rewrite !dom_insert. set_solver.
  - destruct Ha as (rid & t0 & ft & ->). done.
  - by rewrite Ha.
  - by rewrite Ha.
  - by rewrite Ha.
Qed.

Lemma refines_finalize h t (completed : bool) :
  let out := if completed then Finished else Dropped in
  (finalize_request h t completed s).2 = Ok tt ∧
  refines (finalize_request h t completed s).1
    (match L !! h.(handle_value) with
     | Some (url, Live _) => <[h.(handle_value) := (url, out)]> L
     | _ => L
     end).
Proof.
  intros out. destruct h as [i]. pose proof (ref_active _ _ R (mkHandle i)) as Ha.
  unfold finalize_request. simpl in *.
  destruct (L !! i) as [[url [st| |]]|] eqn:Hi; [|by rewrite Ha..].
  destruct (live_active _ _ _ Hi) as [(rid & t0 & ft & ->) Hc].
  destruct (ref_latency _ _ R _ _ _ Hi) as [m Hm]. simpl.
  destruct st; rewrite Hc; simpl; destruct completed; simpl; rewrite ?Hm; simpl;
    (split; [done|]); (eapply refines_replace; [done|done|..]; simpl;
    [intros; by rewrite lookup_delete_ne|by rewrite lookup_delete_eq| |
     |try done; intros u Hu; apply lookup_insert_is_Some; destruct (decide (url = u)); auto
     |unfold bump; rewrite ?dom_insert; set_solver
     |unfold bump; rewrite ?dom_insert; set_solver]).
  all: try (intros [] u); try intros u; rewrite ?bump_lookup; unfold out;
    repeat case_decide; naive_solver lia.
Qed.
End refinement.

Lemma refines_step s L e :
  refines s L → (∀ t, e ≠ Query t) →
  refines (step s e).1 (ledger_step L e) ∧ (step s e).2 = Ok tt.
Proof.
  intros R Hq. destruct e as [url rid t|h t|h t|h t|h t|url rid t|t]; simpl.
  - split; [by apply refines_new|done].
  - split; [by apply refines_response|done].
  - destruct (refines_finalize s L R h t true). done.
  - destruct (refines_finalize s L R h t false). done.
  - destruct (refines_finalize s L R h t false). done.
  - split; [|done]. destruct R. by constructor.
  - by destruct (Hq t).
Qed.

Lemma refines_query s L t : refines s L → refines (step s (Query t)).1 L.
Proof.
  intros R. simpl. pose proof (collect_stats_frame t
    (elements (dom s.(in_prefill) ∪ dom s.(in_decoding) : gset string)) ∅ s) as H.
  unfold get_request_stats. destruct (collect_stats _ _ _ _) as [s' r].
  by eapply refines_same_counts.
Qed.

Lemma refines_run w tr : refines (run w tr) (ledger_run tr).
Proof.
  unfold run, ledger_run. induction tr as [|e tr IH] using rev_ind; [apply refines_init|].
  rewrite !foldl_app. simpl. destruct e; try (by apply refines_step).
  by apply refines_query.
Qed.
