(* ===== verification/RequestWindow.v ===== *)
(** * What the request statistics report

    The properties of [RequestStats.v]'s monitor: the reported counts are those of
    the ledger, requests are conserved, terminal hooks are idempotent and never
    raise, the per-handle indexes follow the active records, and the reported QPS
    is the number of arrivals inside the sliding window divided by its width. *)

From S2P Require Import Prelude RequestStats.
From Stdlib Require Import Sorted.

(* ------------------------------------------------------------------ *)
(** ** The value of one engine's statistics *)

(** [stats_of_url] reads only the engine's own entries; this is its value. *)
Definition stats_value (now : Q) (s : RequestStatsMonitor) (url : string) : RequestStats :=
  mkRequestStats
    match s.(qps_monitors) !! url with
    | None => (-1)%Q
    | Some m => (get_sum (mam_update_no_value now m) / s.(sliding_window_size))%Q
    end
    match s.(ttft_monitors) !! url with
    | None => (-1)%Q
    | Some m => get_average (mam_update_no_value now m)
    end
    (default 0%Z (s.(in_prefill) !! url))
    (default 0%Z (s.(in_decoding) !! url))
    (default 0%Z (s.(finished) !! url))
    (uptime_of now s.(first_query_time))
    (avg_or_minus1 url s.(decoding_length_monitors))
    (avg_or_minus1 url s.(latency_monitors))
    (-1)%Q
    (default 0%Z (s.(swapped) !! url)).

Lemma stats_of_url_value now url s :
  ¬ (s.(sliding_window_size) == 0)%Q →
  ∃ s', stats_of_url now url s = (s', Ok (stats_value now s url)) ∧
        s'.(sliding_window_size) = s.(sliding_window_size) ∧
        ∀ u, u ≠ url → stats_value now s' u = stats_value now s u.
Proof.
  intros Hw. unfold stats_of_url, bind, gets, py_div, stats_value.
  replace (Qeq_bool (sliding_window_size s) 0) with false
    by (symmetry; apply not_true_iff_false; contradict Hw; by apply Qeq_bool_iff).
  destruct (qps_monitors s !! url) eqn:Eq; simpl;
    replace (Qeq_bool (sliding_window_size s) 0) with false
      by (symmetry; apply not_true_iff_false; contradict Hw; by apply Qeq_bool_iff);
    destruct (ttft_monitors s !! url) eqn:Et; simpl; eexists; (split_and!; [done..|]);
    intros u Hu; simpl; rewrite ?lookup_insert_ne by done; done.
Qed.

Lemma collect_stats_value now urls acc s :
  ¬ (s.(sliding_window_size) == 0)%Q → NoDup urls →
  ∃ s' ret, collect_stats now urls acc s = (s', Ok ret) ∧
    ∀ u, ret !! u = if decide (u ∈ urls) then Some (stats_value now s u) else acc !! u.
Proof.
  intros Hw Hnd. revert acc s Hw. induction Hnd as [|url urls Hn Hnd IH]; intros acc s Hw; cbn [collect_stats].
  { exists s, acc. split; [done|]. intros u. by rewrite decide_False by set_solver. }
  destruct (stats_of_url_value now url s Hw) as (s1 & E1 & Hw1 & Hoth).
  destruct (IH (<[url := stats_value now s url]> acc) s1) as (s2 & ret & E2 & Hret);
    [by rewrite Hw1|].
  exists s2, ret. unfold bind. rewrite E1. split; [done|].
  intros u. rewrite Hret, lookup_insert. destruct (decide (url = u)) as [->|Hne].
  - rewrite decide_False, decide_True by set_solver. done.
  - destruct (decide (u ∈ urls)).
    + rewrite decide_True by set_solver. f_equal. by apply Hoth.
    + by rewrite decide_False by set_solver.
Qed.

Lemma run_window w tr : (run w tr).(sliding_window_size) = w.
Proof.
  unfold run. induction tr as [|e tr IH] using rev_ind; [done|].
  rewrite foldl_app. simpl. rewrite <-IH at 2. generalize (foldl (λ s e, (step s e).1)
    (RequestStatsMonitor_init w) tr). intros s.
  destruct e; simpl; unfold on_request_response, on_request_complete, on_request_fail,
    on_request_abort, finalize_request; repeat (case_match; simplify_eq/=); try done.
  pose proof (collect_stats_frame t (elements (dom s.(in_prefill) ∪ dom s.(in_decoding)
    : gset string)) ∅ s) as (q & t' & E).
  unfold get_request_stats in *. destruct (collect_stats _ _ _ _). simplify_eq/=. done.
Qed.

(** Reading the statistics of a reachable monitor succeeds and reports, for exactly
    the engines that ever received a request, the values of their own entries. *)
Lemma get_request_stats_value w tr now :
  ¬ (w == 0)%Q →
  ∃ s' ret, get_request_stats now (run w tr) = (s', Ok ret) ∧
    ∀ u, ret !! u = if decide (u ∈ (ledger_run tr).*1)
                    then Some (stats_value now (run w tr) u) else None.
Proof.
  intros Hw. unfold get_request_stats.
  destruct (collect_stats_value now (elements (dom (run w tr).(in_prefill) ∪
    dom (run w tr).(in_decoding) : gset string)) ∅ (run w tr)) as (s' & ret & E & H);
    [by rewrite run_window|apply NoDup_elements|].
  exists s', ret. split; [done|]. intros u. rewrite H, lookup_empty.
  pose proof (ref_urls _ _ (refines_run w tr) u) as Hu. rewrite <-elem_of_elements in Hu.
  destruct (decide (u ∈ elements _)), (decide (u ∈ (ledger_run tr).*1)); naive_solver.
Qed.

(* ------------------------------------------------------------------ *)
(** ** The sliding window *)

(** The samples a window keeps: those not before the cut. *)
Definition within (cut : Q) (l : list Q) : list Q := List.filter (Qle_bool cut) l.

Lemma within_app c l k : within c (l ++ k) = within c l ++ within c k.
Proof. apply List.filter_app. Qed.
Lemma within_within c c' l : (c <= c')%Q → within c' (within c l) = within c' l.
Proof.
  intros Hc. induction l as [|x l IH]; simpl; [done|].
  destruct (Qle_bool c x) eqn:E1; simpl; destruct (Qle_bool c' x) eqn:E2; rewrite ?IH; try done.
  apply Qle_bool_iff in E2. assert (Qle_bool c x = true) as H by (apply Qle_bool_iff; lra).
  congruence.
Qed.
Lemma within_all c l : Forall (λ x, (c <= x)%Q) l → within c l = l.
Proof.
  induction 1 as [|x l Hx Hl IH]; simpl; [done|].
  apply Qle_bool_iff in Hx. by rewrite Hx, IH.
Qed.
Lemma within_sorted c l : StronglySorted Qle l → StronglySorted Qle (within c l).
Proof.
  induction 1 as [|x l Hs IH Hf]; simpl; [constructor|].
  destruct (Qle_bool c x); [|done]. constructor; [done|].
  rewrite Forall_forall in *. intros y Hy. apply Hf.
  unfold within in Hy. rewrite list_elem_of_In, List.filter_In in Hy.
  apply list_elem_of_In. tauto.
Qed.

(** On sorted samples, dropping stale ones from the left is filtering. *)
Lemma expire_within cut ts vs : StronglySorted Qle ts → (expire cut ts vs).1 = within cut ts.
Proof.
  intros Hs. revert vs. induction Hs as [|t ts Hs IH Hf]; intros vs; simpl; [done|].
  unfold Qltb. destruct (Qle_bool cut t) eqn:E; simpl; [|apply IH].
  f_equal. symmetry. apply within_all. apply Qle_bool_iff in E.
  eapply Forall_impl; [done|]. simpl. intros. lra.
Qed.
Lemma expire_replicate cut ts x :
  (expire cut ts (replicate (length ts) x)).2 =
    replicate (length (expire cut ts (replicate (length ts) x)).1) x.
Proof. induction ts as [|t ts IH]; simpl; [done|]. by destruct (Qltb t cut). Qed.

(** ** The arrivals of an engine along a trace *)

Definition event_time (e : event) : Q :=
  match e with
  | New _ _ t | Response _ t | Complete _ t | Fail _ t | Abort _ t
  | Swapped _ _ t | Query t => t
  end.
Definition arrivals (u : string) (tr : list event) : list Q :=
  omap (λ e, match e with New url _ t => if decide (url = u) then Some t else None
                        | _ => None end) tr.
(** Calls happen in the order of their timestamps. *)
Definition in_time_order (tr : list event) : Prop := StronglySorted Qle (event_time <$> tr).

Lemma SSorted_snoc_inv l x :
  StronglySorted Qle (l ++ [x]) → StronglySorted Qle l ∧ Forall (λ y, (y <= x)%Q) l.
Proof.
  induction l as [|y l IH]; simpl; [by repeat constructor|].
  inversion_clear 1 as [|?? Hs Hf]. destruct (IH Hs). rewrite Forall_app in Hf.
  destruct Hf as [Hf Hx]. inversion_clear Hx. by repeat constructor.
Qed.
Lemma SSorted_snoc l x :
  StronglySorted Qle l → Forall (λ y, (y <= x)%Q) l → StronglySorted Qle (l ++ [x]).
Proof.
  induction 1 as [|y l Hs IH Hf]; simpl; [by repeat constructor|].
  inversion_clear 1. constructor; [by apply IH|]. apply Forall_app. by repeat constructor.
Qed.

Lemma arrivals_bounded u tr T :
  Forall (λ e, (event_time e <= T)%Q) tr → Forall (λ t, (t <= T)%Q) (arrivals u tr).
Proof.
  induction 1 as [|e tr He Htr IH]; [constructor|]. unfold arrivals in *. simpl.
  destruct e; try done. simpl in *. case_decide; [by constructor|done].
Qed.
Lemma arrivals_sorted u tr : in_time_order tr → StronglySorted Qle (arrivals u tr).
Proof.
  unfold in_time_order. induction tr as [|e tr IH] using rev_ind; [constructor|].
  rewrite fmap_app. simpl. intros [Hs Hf]%SSorted_snoc_inv. unfold arrivals in *.
  rewrite omap_app. destruct e; simpl; rewrite ?app_nil_r; auto.
  case_decide; simpl; rewrite ?app_nil_r; [|auto].
  apply SSorted_snoc; [auto|]. apply (arrivals_bounded u). by rewrite Forall_fmap in Hf.
Qed.

(** The window of a monitor: samples in order, none later than the calls so far,
    that agree with the arrivals from one window before the latest call on. *)
Definition window_of (w : Q) (u : string) (tr : list event) (m : MovingAverageMonitor) : Prop :=
  m.(mam_window) = w ∧ m.(values) = replicate (length m.(timestamps)) 1%Q ∧
  StronglySorted Qle m.(timestamps) ∧
  ∀ T, Forall (λ e, (event_time e <= T)%Q) tr →
    Forall (λ t, (t <= T)%Q) m.(timestamps) ∧
    within (T - w) m.(timestamps) = within (T - w) (arrivals u tr).

Lemma arrivals_snoc u tr e : arrivals u (tr ++ [e]) = arrivals u tr ++ arrivals u [e].
Proof. apply omap_app. Qed.
Lemma within_Forall P c l : Forall P l → Forall P (within c l).
Proof.
  induction 1 as [|x l Hx Hl IH]; simpl; [constructor|].
  destruct (Qle_bool c x); [by constructor|done].
Qed.
Lemma bounded_snoc tr e T :
  Forall (λ e, (event_time e <= T)%Q) (tr ++ [e]) →
  Forall (λ e, (event_time e <= T)%Q) tr ∧ (event_time e <= T)%Q.
Proof. intros [H1 H2]%Forall_app. by inversion H2. Qed.

Lemma expire_window w u tr (m : MovingAverageMonitor) now :
  Forall (λ e, (event_time e <= now)%Q) tr → window_of w u tr m →
  (mam_update_no_value now m).(timestamps) = within (now - w) (arrivals u tr) ∧
  window_of w u (tr ++ [Query now]) (mam_update_no_value now m).
Proof.
  intros Hb (Hw & Hv & Hs & Ht). unfold mam_update_no_value. rewrite Hw, Hv.
  pose proof (expire_replicate (now - w) (timestamps m) 1%Q) as Hr.
  pose proof (expire_within (now - w) (timestamps m)
    (replicate (length (timestamps m)) 1%Q) Hs) as He.
  destruct (expire _ _ _) as [ts vs]; simpl in *. subst ts.
  destruct (Ht now Hb) as [Hf Heq]. split; [done|].
  split_and!; [done|done|by apply within_sorted|].
  intros T [HT1 HT2]%bounded_snoc. simpl in *. split.
  - by apply within_Forall, Ht.
  - rewrite arrivals_snoc, app_nil_r. rewrite within_within by lra. by apply Ht.
Qed.

Lemma window_of_other w u tr e m :
  arrivals u [e] = [] → window_of w u tr m → window_of w u (tr ++ [e]) m.
Proof.
  intros He (Hw & Hv & Hs & Ht). split_and!; [done..|].
  intros T [HT _]%bounded_snoc. rewrite arrivals_snoc, He, app_nil_r. by apply Ht.
Qed.

Lemma window_of_fresh w u tr :
  arrivals u tr = [] → window_of w u tr (MovingAverageMonitor_init w).
Proof.
  intros Ha. split_and!; [done|done|constructor|]. intros T _. simpl. by rewrite Ha.
Qed.

Lemma update_window w u rid tr (m : MovingAverageMonitor) t :
  Forall (λ e, (event_time e <= t)%Q) tr → window_of w u tr m →
  window_of w u (tr ++ [New u rid t]) (mam_update t 1 m).
Proof.
  intros Hb (Hw & Hv & Hs & Ht). destruct (Ht t Hb) as [Hf _].
  unfold mam_update. rewrite Hw, Hv.
  replace (replicate (length (timestamps m)) 1%Q ++ [1%Q])
    with (replicate (length (timestamps m ++ [t])) 1%Q)
    by (rewrite length_app; simpl; by rewrite replicate_add).
  assert (Hs' : StronglySorted Qle (timestamps m ++ [t])) by (by apply SSorted_snoc).
  pose proof (expire_replicate (t - w) (timestamps m ++ [t]) 1%Q) as Hr.
  pose proof (expire_within (t - w) _ (replicate (length (timestamps m ++ [t])) 1%Q) Hs') as He.
  destruct (expire _ _ _) as [ts vs]; simpl in *. subst ts.
  split_and!; [done|done|by apply within_sorted|].
  intros T [HT1 HT2]%bounded_snoc. simpl in *. destruct (Ht T HT1) as [Hf' Heq]. split.
  - apply within_Forall, Forall_app. by repeat constructor.
  - rewrite within_within by lra. rewrite arrivals_snoc, !within_app, Heq.
    unfold arrivals at 2. simpl. by rewrite decide_True.
Qed.

Lemma collect_stats_qps now urls acc s u :
  NoDup urls →
  (u ∉ urls → (collect_stats now urls acc s).1.(qps_monitors) !! u = s.(qps_monitors) !! u) ∧
  ((collect_stats now urls acc s).1.(qps_monitors) !! u = s.(qps_monitors) !! u ∨
   (collect_stats now urls acc s).1.(qps_monitors) !! u =
     mam_update_no_value now <$> s.(qps_monitors) !! u).
Proof.
  intros Hnd. revert acc s. induction Hnd as [|url urls Hn Hnd IH]; intros acc s;
    cbn [collect_stats]; [auto|].
  assert (H1 : (stats_of_url now url s).1.(qps_monitors) =
    match s.(qps_monitors) !! url with
    | None => s.(qps_monitors)
    | Some m => <[url := mam_update_no_value now m]> s.(qps_monitors)
    end).
  { unfold stats_of_url, bind, gets, py_div.
    destruct (qps_monitors s !! url); simpl; [destruct (Qeq_bool _ _); simpl|];
      repeat case_match; simplify_eq/=; done. }
  unfold bind. destruct (stats_of_url now url s) as [s1 [st|e]]; simpl in H1.
  - destruct (IH (<[url:=st]> acc) s1) as [Ha Hb]. rewrite H1 in Ha, Hb.
    destruct (decide (u = url)) as [->|Hne].
    + split; [set_solver|]. rewrite Ha by done.
      destruct (qps_monitors s !! url) eqn:E; [rewrite lookup_insert_eq|]; auto.
    + destruct (qps_monitors s !! url); rewrite ?lookup_insert_ne in Ha, Hb by done;
        set_solver.
  - simpl. rewrite H1. destruct (decide (u = url)) as [->|Hne].
    + split; [set_solver|]. destruct (qps_monitors s !! url) eqn:E; [rewrite lookup_insert_eq|]; auto.
    + destruct (qps_monitors s !! url); rewrite ?lookup_insert_ne by done; auto.
Qed.

Definition qps_inv (w : Q) (tr : list event) (s : RequestStatsMonitor) : Prop :=
  s.(sliding_window_size) = w ∧
  ∀ u, match s.(qps_monitors) !! u with
       | Some m => window_of w u tr m
       | None => arrivals u tr = []
       end.

Lemma qps_inv_frame w tr s s' e :
  (∀ u, arrivals u [e] = []) → s'.(sliding_window_size) = s.(sliding_window_size) →
  s'.(qps_monitors) = s.(qps_monitors) → qps_inv w tr s → qps_inv w (tr ++ [e]) s'.
Proof.
  intros He Hw Hq [H1 H2]. split; [congruence|]. intros u. specialize (H2 u). rewrite Hq.
  destruct (qps_monitors s !! u); [by apply window_of_other|].
  unfold arrivals in *. by rewrite omap_app, (He u), app_nil_r.
Qed.

Lemma qps_inv_new w tr s u rid t :
  Forall (λ e, (event_time e <= t)%Q) tr → qps_inv w tr s →
  qps_inv w (tr ++ [New u rid t]) (on_new_request u rid t s).1.
Proof.
  intros Hb [Hw H]. split; [done|]. intros v. simpl. rewrite Hw.
  destruct (decide (u = v)) as [<-|Hne].
  - rewrite lookup_alter_eq. unfold ensure. specialize (H u).
    destruct (qps_monitors s !! u) as [m|] eqn:E.
    + rewrite E. simpl. by apply update_window.
    + rewrite lookup_insert_eq. simpl. by apply update_window, window_of_fresh.
  - rewrite lookup_alter_ne by done. specialize (H v).
    assert (Ha : arrivals v [New u rid t] = []) by (unfold arrivals; simpl; by rewrite decide_False).
    unfold ensure. destruct (qps_monitors s !! u); rewrite ?lookup_insert_ne by done;
      (destruct (qps_monitors s !! v); [by apply window_of_other|
        by rewrite arrivals_snoc, Ha, app_nil_r]).
Qed.

Lemma qps_inv_query w tr s t :
  Forall (λ e, (event_time e <= t)%Q) tr → qps_inv w tr s →
  qps_inv w (tr ++ [Query t]) (step s (Query t)).1.
Proof.
  intros Hb [Hw H]. simpl. unfold get_request_stats.
  set (urls := elements _).
  pose proof (collect_stats_frame t urls ∅ s) as (q & t' & Ef).
  pose proof (λ u, collect_stats_qps t urls ∅ s u (NoDup_elements _)) as Hq.
  destruct (collect_stats _ _ _ _) as [s' r]; simpl in *. split.
  { subst s'. done. }
  intros u. destruct (Hq u) as [_ [-> | ->]]; specialize (H u);
    destruct (qps_monitors s !! u) as [m|]; simpl.
  - by apply window_of_other.
  - by rewrite arrivals_snoc, app_nil_r.
  - by apply expire_window.
  - by rewrite arrivals_snoc, app_nil_r.
Qed.

Lemma qps_inv_run w tr : in_time_order tr → qps_inv w tr (run w tr).
Proof.
  unfold in_time_order, run. induction tr as [|e tr IH] using rev_ind.
  { intros _. split; [done|]. intros u. simpl. by rewrite lookup_empty. }
  rewrite fmap_app, foldl_app. simpl. intros [Hs Hf]%SSorted_snoc_inv.
  rewrite Forall_fmap in Hf. specialize (IH Hs).
  revert IH. generalize (foldl (λ s e, (step s e).1) (RequestStatsMonitor_init w) tr). intros s IH.
  destruct e; try (by apply qps_inv_new); try (by apply qps_inv_query).
  all: eapply qps_inv_frame; [done| | |exact IH]; simpl;
    unfold on_request_response, on_request_complete, on_request_fail,
      on_request_abort, finalize_request; repeat (case_match; simplify_eq/=); done.
Qed.

(* ------------------------------------------------------------------ *)
(** ** The per-handle indexes *)

(** [request_start_time] and [first_token_time] mirror the active records. *)
Definition indexes_inv (s : RequestStatsMonitor) : Prop :=
  (∀ h, s.(request_start_time) !! h = start_time <$> s.(active_requests) !! h) ∧
  (∀ h, s.(first_token_times) !! h = s.(active_requests) !! h ≫= first_token_time) ∧
  (∀ h r, s.(active_requests) !! h = Some r →
     (r.(stage) = prefill ↔ r.(first_token_time) = None) ∧
     handle_value h < s.(next_handle)).

Lemma indexes_inv_finalize s h t c :
  indexes_inv s → indexes_inv (finalize_request h t c s).1.
Proof.
  intros (H1 & H2 & H3). unfold finalize_request.
  destruct (active_requests s !! h) as [r|] eqn:E; [|done].
  assert (Hd : ∀ s', s'.(active_requests) = delete h s.(active_requests) →
    s'.(request_start_time) = delete h s.(request_start_time) →
    s'.(first_token_times) = delete h s.(first_token_times) →
    s'.(next_handle) = s.(next_handle) → indexes_inv s').
  { intros s' Ea Es Ef En. unfold indexes_inv. rewrite Ea, Es, Ef, En. 
    split_and!; intros h'; rewrite !lookup_delete; case_decide; simpl; try done; auto. }
  repeat case_match; simplify_eq/=; by apply Hd.
Qed.

Lemma indexes_inv_step s e : indexes_inv s → indexes_inv (step s e).1.
Proof.
  intros Hi. pose proof Hi as (H1 & H2 & H3).
  destruct e as [url rid t|h t|h t|h t|h t|url rid t|t]; simpl.
  - split_and!; intros h; simpl; rewrite !lookup_insert; case_decide as Hd; simpl; auto.
    + subst h. rewrite H2. destruct (active_requests s !! _) eqn:E; [|done].
      apply H3 in E as [_ E]. simpl in E. lia.
    + intros r [= <-]. subst. simpl. split; [done|lia].
    + intros r Hr%H3. destruct Hr. split; [done|lia].
  - unfold on_request_response. destruct (active_requests s !! h) as [[[] url rid t0 ft]|] eqn:E;
      [|done..]. case_match; [done|].
    split_and!; intros h'; simpl; rewrite ?lookup_insert; case_decide; subst; simpl; auto.
    + by rewrite H1, E.
    + intros r [= <-]. simpl. apply H3 in E as [_ E]. by split.
  - by apply indexes_inv_finalize.
  - by apply indexes_inv_finalize.
  - by apply indexes_inv_finalize.
  - done.
  - unfold get_request_stats. pose proof (collect_stats_frame t (elements
      (dom s.(in_prefill) ∪ dom s.(in_decoding) : gset string)) ∅ s) as (q & t' & E).
    destruct (collect_stats _ _ _ _). simplify_eq/=. done.
Qed.

(* ------------------------------------------------------------------ *)
(** ** Properties *)

(** C1: after any sequence of monitor calls, reading the statistics succeeds and
    reports, for exactly the engines that ever received a request, the numbers of
    requests that the ledger of issued handles records as prefilling, decoding and
    finished on that engine. *)
Theorem reported_counts_are_the_ledger w tr now :
  ¬ (w == 0)%Q →
  ∃ s' ret, get_request_stats now (run w tr) = (s', Ok ret) ∧
    ∀ u, match ret !! u with
         | Some st => u ∈ (ledger_run tr).*1 ∧
             in_prefill_requests st = tally (u, Live prefill) (ledger_run tr) ∧
             in_decoding_requests st = tally (u, Live decoding) (ledger_run tr) ∧
             finished_requests st = tally (u, Finished) (ledger_run tr)
         | None => u ∉ (ledger_run tr).*1
         end.
Proof.
  intros Hw. destruct (get_request_stats_value w tr now Hw) as (s' & ret & E & H).
  exists s', ret. split; [done|]. intros u. rewrite H. case_decide as Hu; [|done].
  pose proof (refines_run w tr) as R. split; [done|]. simpl.
  by rewrite (ref_prefill _ _ R), (ref_decoding _ _ R), (ref_finished _ _ R).
Qed.

(** The number of requests that arrived on an engine. *)
Definition arrived (u : string) (tr : list event) : Z := Z.of_nat (length (arrivals u tr)).

Lemma ledger_urls tr u :
  length (filter (λ y, y = u) (ledger_run tr).*1) = length (arrivals u tr).
Proof.
  unfold ledger_run. induction tr as [|e tr IH] using rev_ind; [done|].
  rewrite foldl_app, arrivals_snoc, length_app, <-IH. simpl.
  generalize (foldl ledger_step [] tr). clear IH. intros L.
  assert (Hins : ∀ i url st new, L !! i = Some (url, st) → (<[i := (url, new)]> L).*1 = L.*1).
  { intros i url st new Hi. rewrite list_fmap_insert. apply list_insert_id.
    by rewrite list_lookup_fmap, Hi. }
  destruct e; simpl; try lia.
  - rewrite fmap_app, filter_app, length_app. simpl. unfold arrivals. simpl. case_decide.
    + by rewrite filter_cons_True.
    + by rewrite filter_cons_False.
  - repeat case_match; subst; erewrite ?Hins by done; lia.
  - repeat case_match; subst; erewrite ?Hins by done; lia.
  - repeat case_match; subst; erewrite ?Hins by done; lia.
  - repeat case_match; subst; erewrite ?Hins by done; lia.
Qed.

Lemma tally_partition u (L : ledger) :
  (Z.of_nat (length (filter (λ y, y = u) L.*1)) =
   tally (u, Live prefill) L + tally (u, Live decoding) L + tally (u, Finished) L
     + tally (u, Dropped) L)%Z.
Proof.
  induction L as [|[v st] L IH]; [done|]. rewrite !tally_cons, fmap_cons. simpl.
  destruct (decide (v = u)) as [->|Hne].
  - rewrite filter_cons_True by done. simpl. destruct st as [[]| |];
      repeat case_decide; simplify_eq; lia.
  - rewrite filter_cons_False by done. repeat case_decide; simplify_eq; lia.
Qed.

(** No request is lost or counted twice: on every engine the arrivals are
    split into those counted in prefill, those counted in decoding, those counted
    as finished and those the ledger records as failed or aborted. *)
Theorem requests_are_conserved w tr u :
  let s := run w tr in
  (arrived u tr =
   default 0 (s.(in_prefill) !! u) + default 0 (s.(in_decoding) !! u)
   + default 0 (s.(finished) !! u) + tally (u, Dropped) (ledger_run tr))%Z.
Proof.
  simpl. pose proof (refines_run w tr) as R. unfold arrived.
  rewrite <-ledger_urls, (tally_partition u).
  by rewrite (ref_prefill _ _ R), (ref_decoding _ _ R), (ref_finished _ _ R).
Qed.

(** Retiring a handle is final and every call succeeds: in a reachable monitor
    each terminal hook returns, and once one has run for a handle no later response
    or terminal hook for that handle changes the monitor. *)
Theorem terminal_hooks_are_final w tr h t completed t' :
  let s := run w tr in
  let '(s1, r) := finalize_request h t completed s in
  r = Ok tt ∧
  on_request_response h t' s1 = s1 ∧
  on_request_complete h t' s1 = (s1, Ok tt) ∧
  on_request_fail h t' s1 = (s1, Ok tt) ∧
  on_request_abort h t' s1 = (s1, Ok tt).
Proof.
  intros s. pose proof (refines_run w tr) as R. fold s in R.
  destruct (refines_finalize s _ R h t completed) as [Hok R1].
  destruct (finalize_request h t completed s) as [s1 r] eqn:E. simpl in *.
  assert (Hn : s1.(active_requests) !! h = None).
  { pose proof (ref_active _ _ R1 h) as Ha.
    destruct (ledger_run tr !! handle_value h) as [[url []]|] eqn:EL.
    - rewrite list_lookup_insert_eq in Ha by (by eapply lookup_lt_Some).
      by destruct completed.
    - by rewrite EL in Ha.
    - by rewrite EL in Ha.
    - by rewrite EL in Ha. }
  unfold on_request_response, on_request_complete, on_request_fail, on_request_abort,
    finalize_request. by rewrite Hn.
Qed.

(** The guards that log a violated invariant never fire: whenever a handle is
    active, the counter of its stage on its engine is positive, its start time and
    first-token time are indexed, and a first-token time is present exactly when
    the request decodes. *)
Theorem active_requests_are_indexed_and_counted w tr h r :
  let s := run w tr in
  s.(active_requests) !! h = Some r →
  (0 < default 0 (match r.(stage) with prefill => s.(in_prefill) | decoding => s.(in_decoding) end
         !! r.(engine_url)))%Z ∧
  s.(request_start_time) !! h = Some r.(start_time) ∧
  s.(first_token_times) !! h = r.(first_token_time) ∧
  (r.(stage) = prefill ↔ r.(first_token_time) = None).
Proof.
  intros s Hr.
  assert (Hi : indexes_inv s).
  { subst s. unfold run. clear. induction tr as [|e tr IH] using rev_ind; [done|].
    rewrite foldl_app. by apply indexes_inv_step. }
  destruct Hi as (H1 & H2 & H3). rewrite H1, H2, Hr. split_and!; try done; [|by apply H3 in Hr as []].
  pose proof (refines_run w tr) as R. fold s in R.
  pose proof (ref_active _ _ R h) as Ha.
  destruct (ledger_run tr !! handle_value h) as [[url [st| |]]|] eqn:EL; [|congruence..].
  destruct (live_active _ _ R _ _ _ EL) as [_ Hc].
  destruct Ha as (rid & t0 & ft & Ha). rewrite Ha in Hr. simplify_eq/=.
  apply Z.leb_gt in Hc. by destruct st.
Qed.

(** When calls come in the order of their timestamps, the QPS reported for an
    engine is the number of its requests that arrived in the last window, divided by
    the width of the window; the arrivals dropped from the deque are exactly those
    older than the window. *)
Theorem reported_qps_is_the_window_rate w tr now u :
  ¬ (w == 0)%Q → in_time_order (tr ++ [Query now]) → u ∈ (ledger_run tr).*1 →
  ∃ s' ret st, get_request_stats now (run w tr) = (s', Ok ret) ∧ ret !! u = Some st ∧
    (qps st == inject_Z (Z.of_nat (length (within (now - w) (arrivals u tr)))) / w)%Q.
Proof.
  intros Hw Ho Hu. destruct (get_request_stats_value w tr now Hw) as (s' & ret & E & H).
  exists s', ret, (stats_value now (run w tr) u). split; [done|].
  split; [by rewrite H, decide_True|]. simpl.
  unfold in_time_order in Ho. rewrite fmap_app in Ho.
  apply SSorted_snoc_inv in Ho as [Hs Hf]. rewrite Forall_fmap in Hf.
  destruct (qps_inv_run w tr Hs) as [-> Hq]. specialize (Hq u).
  assert (Ha : arrivals u tr ≠ []).
  { intros Ha. pose proof (ledger_urls tr u) as Hl. rewrite Ha in Hl.
    assert (Hin : u ∈ filter (λ y, y = u) (ledger_run tr).*1) by (by apply list_elem_of_filter).
    destruct (filter _ _); [set_solver|done]. }
  destruct (qps_monitors (run w tr) !! u) as [m|]; [|done].
  destruct (expire_window _ _ _ _ _ Hf Hq) as [Ht (_ & Hv & _)].
  unfold get_sum. simpl in *. rewrite Hv, Qsum_replicate, Ht. field. done.
Qed.

(** Witnesses: three calls on two engines within a window of 10 seconds. *)
Definition tr_example : list event :=
  [New "http://a" "r1" 1; New "http://a" "r2" 12; Response (mkHandle 1) 13;
   New "http://b" "r3" 14]%Q.

Lemma reported_counts_witness :
  ∃ s' ret, get_request_stats 15%Q (run 10%Q tr_example) = (s', Ok ret) ∧
    ∀ u, match ret !! u with
         | Some st => u ∈ (ledger_run tr_example).*1 ∧
             in_prefill_requests st = tally (u, Live prefill) (ledger_run tr_example) ∧
             in_decoding_requests st = tally (u, Live decoding) (ledger_run tr_example) ∧
             finished_requests st = tally (u, Finished) (ledger_run tr_example)
         | None => u ∉ (ledger_run tr_example).*1
         end.
Proof. apply (reported_counts_are_the_ledger 10%Q tr_example 15%Q). discriminate. Defined.

Definition r2_example : ActiveRequest :=
  mkActive decoding "http://a" "r2" 12%Q (Some 13%Q).

Lemma active_requests_witness :
  let s := run 10%Q tr_example in
  let r := r2_example in
  (0 < default 0 (match r.(stage) with prefill => s.(in_prefill) | decoding => s.(in_decoding) end
         !! r.(engine_url)))%Z ∧
  s.(request_start_time) !! mkHandle 1 = Some r.(start_time) ∧
  s.(first_token_times) !! mkHandle 1 = r.(first_token_time) ∧
  (r.(stage) = prefill ↔ r.(first_token_time) = None).
Proof.
  apply (active_requests_are_indexed_and_counted 10%Q tr_example (mkHandle 1) r2_example).
  vm_compute. reflexivity.
Defined.

Lemma reported_qps_witness :
  ∃ s' ret st, get_request_stats 15%Q (run 10%Q tr_example) = (s', Ok ret) ∧
    ret !! "http://a" = Some st ∧
    (qps st == inject_Z (Z.of_nat (length
       (within (15 - 10) (arrivals "http://a" tr_example)))) / 10)%Q.
Proof.
  apply (reported_qps_is_the_window_rate 10%Q tr_example 15%Q "http://a").
  - discriminate.
  - unfold in_time_order. simpl. repeat constructor; discriminate.
  - vm_compute. constructor.
Defined.
