(* ===== verification/EngineStats.v ===== *)
(** * Engine statistics (src/src/vllm_router/stats/engine_stats.py)

    A background thread asks every listed engine for its Prometheus metrics, round
    after round, and keeps the newest figures of the engines that answered.  The
    Prometheus text parser is the parameter [families]; what an engine answers may
    differ from request to request. *)

From S2P Require Import Prelude PyDict PyStr PyVal Endpoint.

Local Open Scope py_scope.

(** [EngineStats]; every figure comes from a float sample. *)
Record EngineStats : Type := mkEngineStats {
  num_running_requests : Q;
  num_queuing_requests : Q;
  gpu_prefix_cache_hit_rate : Q;
  gpu_prefix_cache_hits_total : Q;
  gpu_prefix_cache_queries_total : Q;
  gpu_cache_usage_perc : Q
}.

Abbreviation sample := (string * Q)%type.

(** The chain of [elif]s on a sample's name. *)
Definition read_sample (s : EngineStats) (x : sample) : EngineStats :=
  let '(name, value) := x in
  let '(mkEngineStats running queuing rate hits queries usage) := s in
  if decide (name = "vllm:num_requests_running") then
    mkEngineStats value queuing rate hits queries usage
  else if decide (name = "vllm:num_requests_waiting") then
    mkEngineStats running value rate hits queries usage
  else if decide (name = "vllm:gpu_prefix_cache_hit_rate") then
    mkEngineStats running queuing value hits queries usage
  else if decide (name = "vllm:gpu_prefix_cache_hits_total") then
    mkEngineStats running queuing rate value queries usage
  else if decide (name = "vllm:gpu_prefix_cache_queries_total") then
    mkEngineStats running queuing rate hits value usage
  else if decide (name = "vllm:gpu_cache_usage_perc") then
    mkEngineStats running queuing rate hits queries value
  else s.

Definition read_samples (l : list sample) : EngineStats :=
  foldl read_sample (mkEngineStats 0 0 0 0 0 0) l.

(** The scraper: its figures, its flag and whether its thread is alive. *)
Record scraper : Type := mkScraper {
  engine_stats : gmap string EngineStats;
  running : bool;
  alive : bool
}.
Definition scraper_init : scraper := mkScraper ∅ true true.

Section scraper.
(** The samples of all families of a page, or the parser's error. *)
Context (families : string → res (list sample)).

Definition from_vllm_scrape (vllm_scrape : string) : res EngineStats :=
  rbind (families vllm_scrape) (λ samples, Ok (read_samples samples)).

(** [_scrape_one_endpoint]: [answer] is what [requests.get] gives, a status and a
    text; an ordinary exception is logged and gives [None]. *)
Definition scrape_one_endpoint (answer : res (Z * string)) : res (option EngineStats) :=
  let stats :=
    rbind answer (λ '(status, text),
    if (400 <=? status)%Z && (status <? 600)%Z then Err (OtherException "HTTPError")
    else from_vllm_scrape text) in
  match stats with
  | Ok s => Ok (Some s)
  | Err e => if is_Exception e then Ok None else Err e
  end.

(** A round: what the listing gives, and what the i-th request of the round gives. *)
Record round : Type := mkRound {
  r_endpoints : res (list EndpointInfo);
  r_get : nat → string → res (Z * string)
}.

(** The loop of [_scrape_metrics] from the i-th engine on. *)
Fixpoint collect (get : nat → string → res (Z * string)) (i : nat) (endpoints : list EndpointInfo)
    (acc : gmap string EngineStats) : res (gmap string EngineStats) :=
  match endpoints with
  | [] => Ok acc
  | info :: rest =>
      rbind (scrape_one_endpoint (get i (info.(url) +:+ "/metrics"))) (λ o,
      collect get (S i) rest
        (match o with Some stats => <[info.(url) := stats]> acc | None => acc end))
  end.

(** The update under the lock: stale engines are deleted, then every new figure is
    assigned. *)
Definition drop_stale (collected old : gmap string EngineStats) : gmap string EngineStats :=
  foldr (λ old_url m, match collected !! old_url with None => delete old_url m | Some _ => m end)
    old (map_to_list old).*1.
Definition store (collected old : gmap string EngineStats) : gmap string EngineStats :=
  foldr (λ kv m, <[kv.1 := kv.2]> m) (drop_stale collected old) (map_to_list collected).

Definition scrape_metrics (r : round) : M scraper unit :=
  endpoints <- lift r.(r_endpoints) ;;
  collected <- lift (collect r.(r_get) 0 endpoints ∅) ;;
  modify (λ s, mkScraper (store collected s.(engine_stats)) s.(running) s.(alive)).

(** The thread's loop over the rounds it is given: an exception ends the thread. *)
Definition scrape_turn (r : round) : M scraper unit := λ s,
  if s.(running) && s.(alive) then
    match scrape_metrics r s with
    | (s', Ok _) => (s', Ok tt)
    | (s', Err _) => (mkScraper s'.(engine_stats) s'.(running) false, Ok tt)
    end
  else (s, Ok tt).
Definition scrape_worker (rounds : list round) : M scraper unit := for_each rounds scrape_turn.

Definition get_engine_stats (s : scraper) : gmap string EngineStats := s.(engine_stats).
Definition get_health (s : scraper) : bool := s.(alive).
(** [close]: the loop ends and the thread is joined. *)
Definition close (s : scraper) : scraper := mkScraper s.(engine_stats) false false.

(* ------------------------------------------------------------------ *)
(** ** Properties *)

(** The last sample of a name, or zero. *)
Definition last_value (name : string) (l : list sample) : Q :=
  default 0%Q (snd <$> last (filter (λ x, x.1 = name) l)).

Lemma last_value_snoc name l x :
  last_value name (l ++ [x]) = if decide (x.1 = name) then x.2 else last_value name l.
Proof.
  unfold last_value. rewrite filter_app. case_decide.
  - rewrite filter_cons_True, filter_nil by done. by rewrite last_snoc.
  - rewrite filter_cons_False, filter_nil by done. by rewrite app_nil_r.
Qed.

(** Every figure is the last sample of its metric, whatever else the page holds. *)
Lemma read_samples_spec l :
  read_samples l = mkEngineStats
    (last_value "vllm:num_requests_running" l) (last_value "vllm:num_requests_waiting" l)
    (last_value "vllm:gpu_prefix_cache_hit_rate" l) (last_value "vllm:gpu_prefix_cache_hits_total" l)
    (last_value "vllm:gpu_prefix_cache_queries_total" l) (last_value "vllm:gpu_cache_usage_perc" l).
Proof.
  induction l as [|[n v] l IH] using rev_ind; [done|].
  unfold read_samples in *. rewrite foldl_app, IH, !last_value_snoc. cbn [foldl read_sample fst snd].
  repeat (case_decide; [by simplify_eq|]). done.
Qed.

Lemma drop_stale_lookup collected old u st :
  drop_stale collected old !! u = Some st → is_Some (collected !! u).
Proof.
  unfold drop_stale. intros Hu.
  assert (Hin : ∀ l (m : gmap string EngineStats), foldr (λ old_url m, match collected !! old_url with
      None => delete old_url m | Some _ => m end) m l !! u = Some st →
      m !! u = Some st ∧ (u ∈ l → is_Some (collected !! u))).
  { induction l as [|x l IHl]; intros m; simpl; [set_solver|].
    destruct (collected !! x) as [y|] eqn:Ex.
    - intros [Hm Hl]%IHl. split; [done|]. intros [->|?]%elem_of_cons; eauto.
    - intros [Hne Hl]%lookup_delete_Some. apply IHl in Hl as [Hm Hl]. split; [done|].
      intros [->|?]%elem_of_cons; [done|auto]. }
  apply Hin in Hu as [Ho Hu]. apply Hu. apply list_elem_of_fmap.
  exists (u, st). split; [done|]. by apply elem_of_map_to_list.
Qed.

(** The update in place leaves exactly the collected figures. *)
Lemma store_spec collected old : store collected old = collected.
Proof.
  unfold store. change (map_to_list collected) with (id (map_to_list collected)).
  transitivity (list_to_map (map_to_list collected) ∪ drop_stale collected old).
  - generalize (drop_stale collected old) as m. intros m.
    induction (map_to_list collected) as [|[k v] l IH]; simpl; [by rewrite (left_id_L ∅ _)|].
    unfold id in IH. rewrite IH. by rewrite insert_union_l.
  - rewrite list_to_map_to_list. apply map_eq. intros u.
    destruct (collected !! u) as [st|] eqn:Eu; [by apply lookup_union_Some_l|].
    rewrite lookup_union_None. split; [done|]. apply eq_None_ne_Some. intros st Hst.
    apply drop_stale_lookup in Hst. rewrite Eu in Hst. by apply is_Some_None in Hst.
Qed.

(** What a round collects. *)
Definition round_stats (r : round) : res (gmap string EngineStats) :=
  rbind r.(r_endpoints) (λ endpoints, collect r.(r_get) 0 endpoints ∅).

Lemma scrape_metrics_spec r s :
  scrape_metrics r s =
    match round_stats r with
    | Ok m => (mkScraper m s.(running) s.(alive), Ok tt)
    | Err e => (s, Err e)
    end.
Proof.
  unfold scrape_metrics, round_stats, bind, lift, modify. destruct (r_endpoints r) as [eps|]; [|done].
  simpl. destruct (collect _ _ _ _) as [m|]; [|done]. by rewrite store_spec.
Qed.

(** The i-th engine of a round answered with these figures. *)
Definition scraped (r : round) (endpoints : list EndpointInfo) (i : nat) (u : string)
    (st : EngineStats) : Prop :=
  ∃ e, endpoints !! i = Some e ∧ e.(url) = u ∧
    scrape_one_endpoint (r.(r_get) i (u +:+ "/metrics")) = Ok (Some st).

Lemma collect_spec r endpoints pre acc m :
  collect r.(r_get) (length pre) endpoints acc = Ok m →
  (∀ u st, acc !! u = Some st ↔ ∃ i, scraped r pre i u st ∧
     ∀ j st', i < j → ¬ scraped r pre j u st') →
  ∀ u st, m !! u = Some st ↔ ∃ i, scraped r (pre ++ endpoints) i u st ∧
     ∀ j st', i < j → ¬ scraped r (pre ++ endpoints) j u st'.
Proof.
  revert pre acc. induction endpoints as [|e rest IH]; intros pre acc; simpl.
  { intros [= ->] Hacc. by rewrite app_nil_r. }
  destruct (scrape_one_endpoint _) as [o|] eqn:Eo; simpl; [|done].
  rewrite cons_middle, app_assoc. intros Hc Hacc.
  eapply (IH (pre ++ [e])); [rewrite length_app, Nat.add_comm; exact Hc|]. clear IH Hc rest.
  assert (Hlen : ∀ i u st, scraped r (pre ++ [e]) i u st →
    (i < length pre ∧ scraped r pre i u st) ∨ (i = length pre ∧ e.(url) = u ∧ o = Some st)).
  { intros i u st (x & Hx & Hu & Hs). destruct (decide (i < length pre)).
    - left. split; [done|]. rewrite lookup_app_l in Hx by done. by exists x.
    - right. apply lookup_lt_Some in Hx as Hl. rewrite length_app in Hl. simpl in Hl.
      assert (i = length pre) as -> by lia. split; [done|].
      rewrite lookup_app_r, Nat.sub_diag in Hx by lia. simpl in Hx. simplify_eq. split; [done|].
      rewrite Eo in Hs. by simplify_eq. }
  assert (Hold : ∀ i u st, scraped r pre i u st → i < length pre ∧ scraped r (pre ++ [e]) i u st).
  { intros i u st (x & Hx & Hs). apply lookup_lt_Some in Hx as Hl. split; [done|].
    exists x. split; [by rewrite lookup_app_l|done]. }
  assert (Hnew : ∀ st, o = Some st → scraped r (pre ++ [e]) (length pre) e.(url) st).
  { intros st ->. exists e. rewrite lookup_app_r, Nat.sub_diag by lia. done. }
  intros u st. destruct o as [st0|]; [destruct (decide (e.(url) = u)) as [Hu|Hu]|].
  - rewrite Hu, lookup_insert_eq. split.
    + intros [= ->]. exists (length pre). split; [rewrite <-Hu; by apply Hnew|].
      intros j st' Hj [[??]|[-> ?]]%Hlen; lia.
    + intros (i & Hi & Hlast). apply Hlen in Hi as [[Hi _]|(-> & _ & [= ->])]; [|done].
      exfalso. eapply Hlast; [done|]. rewrite <-Hu. by apply Hnew.
  - rewrite lookup_insert_ne by done. rewrite Hacc. split; intros (i & Hi & Hlast); exists i.
    + split; [by apply Hold|]. intros j st' Hj [[_ Hs]|(_ & ? & _)]%Hlen; [|done]. by eapply Hlast.
    + apply Hlen in Hi as [[_ Hi]|(_ & ? & _)]; [|done]. split; [done|].
      intros j st' Hj Hs. eapply Hlast; [done|]. by apply Hold.
  - rewrite Hacc. split; intros (i & Hi & Hlast); exists i.
    + split; [by apply Hold|]. intros j st' Hj [[_ Hs]|(_ & _ & ?)]%Hlen; [|done]. by eapply Hlast.
    + apply Hlen in Hi as [[_ Hi]|(_ & _ & ?)]; [|done]. split; [done|].
      intros j st' Hj Hs. eapply Hlast; [done|]. by apply Hold.
Qed.

(** A scraper whose thread is dead stays as it is. *)
Lemma dead_thread rounds s : s.(alive) = false → scrape_worker rounds s = (s, Ok tt).
Proof.
  intros Hs. induction rounds as [|r rounds IH]; [done|]. unfold scrape_worker in *. cbn [for_each].
  unfold bind at 1, scrape_turn at 1. rewrite Hs, andb_false_r. exact IH.
Qed.

Lemma worker_app l k s : scrape_worker (l ++ k) s = scrape_worker k (scrape_worker l s).1.
Proof.
  unfold scrape_worker. revert s. induction l as [|r l IH]; intros s; [done|]. cbn [for_each app].
  assert (Ht : ∃ s', scrape_turn r s = (s', Ok tt)).
  { unfold scrape_turn. destruct (_ && _); [|eauto]. destruct (scrape_metrics r s) as [? []]; eauto. }
  destruct Ht as (s' & E). unfold bind at 1 2. rewrite E. apply IH.
Qed.

Definition figures (rounds : list round) (old : gmap string EngineStats) : gmap string EngineStats :=
  foldl (λ m r, match round_stats r with Ok m' => m' | Err _ => m end) old rounds.

Lemma worker_ok rounds s :
  s.(running) = true → s.(alive) = true → Forall (λ r, is_ok (round_stats r) = true) rounds →
  scrape_worker rounds s = (mkScraper (figures rounds s.(engine_stats)) true true, Ok tt).
Proof.
  intros Hr Ha Hok. revert s Hr Ha. induction Hok as [|r rounds Hr Hok IH]; intros s Hrun Ha.
  { destruct s; simpl in *; by subst. }
  unfold scrape_worker in *. cbn [for_each]. unfold bind at 1, scrape_turn at 1.
  rewrite Hrun, Ha, scrape_metrics_spec. simpl. destruct (round_stats r) as [m|]; [|done].
  by rewrite IH.
Qed.

(** The rounds before the first that raises. *)
Fixpoint good_rounds (rounds : list round) : list round :=
  match rounds with
  | [] => []
  | r :: rounds => if is_ok (round_stats r) then r :: good_rounds rounds else []
  end.
Lemma good_rounds_ok rounds : Forall (λ r, is_ok (round_stats r) = true) (good_rounds rounds).
Proof. induction rounds as [|r rounds IH]; [done|]. simpl. destruct (is_ok (round_stats r)) eqn:E; by constructor. Qed.
Lemma good_rounds_split rounds :
  ∃ post, rounds = good_rounds rounds ++ post ∧
    (post = [] ∨ ∃ bad rest, post = bad :: rest ∧ is_ok (round_stats bad) = false).
Proof.
  induction rounds as [|r rounds (post & E & Hpost)]; [exists []; split; [done|by left]|]. simpl.
  destruct (is_ok (round_stats r)) eqn:Er.
  - exists post. split; [by rewrite E at 1|done].
  - exists (r :: rounds). split; [done|]. right. by exists r, rounds.
Qed.

(** The thread runs the good rounds and dies in the next one. *)
Lemma worker_spec rounds s :
  s.(running) = true → s.(alive) = true →
  (scrape_worker rounds s).1 =
    mkScraper (figures (good_rounds rounds) s.(engine_stats)) true (bool_decide (length (good_rounds rounds) = length rounds)).
Proof.
  intros Hr Ha. destruct (good_rounds_split rounds) as (post & E & Hpost). set (good := good_rounds rounds) in *.
  assert (Hw : scrape_worker rounds s = scrape_worker post (mkScraper (figures good s.(engine_stats)) true true)).
  { rewrite E, worker_app, (worker_ok good) by (done || apply good_rounds_ok). done. }
  assert (El : length rounds = length good + length post) by (rewrite E at 1; by rewrite length_app).
  rewrite Hw, El. destruct Hpost as [->|(bad & rest & -> & Hbad)].
  - rewrite bool_decide_true by (simpl; lia). done.
  - rewrite bool_decide_false by (simpl; lia).
    unfold scrape_worker. cbn [for_each]. unfold bind, scrape_turn at 1. cbn [running alive andb].
    rewrite scrape_metrics_spec. destruct (round_stats bad) as [|e]; [done|].
    fold (scrape_worker rest). by rewrite dead_thread by done.
Qed.

Lemma round_stats_spec r m :
  round_stats r = Ok m →
  ∃ endpoints, r.(r_endpoints) = Ok endpoints ∧
    ∀ u st, m !! u = Some st ↔
      ∃ i, scraped r endpoints i u st ∧ ∀ j st', i < j → ¬ scraped r endpoints j u st'.
Proof.
  unfold round_stats. destruct (r_endpoints r) as [endpoints|]; [|done]. intros Em. exists endpoints. split; [done|].
  apply (collect_spec r endpoints [] ∅ m Em). intros u st. rewrite lookup_empty. split; [done|].
  by intros (i & (x & Hx & _) & _).
Qed.

(** C4: the scraper follows the fleet: whatever rounds the thread is given, its figures are
    those of the last round before the first that raises.  For an engine listed in that
    round they are what it answered last in that round; an engine that has left, or that
    did not answer in that round, has none.  Without such a round, the first one having
    raised or none having taken place, the figures are as they were.  A round raises when
    the engines cannot be listed or something that is not an [Exception] escapes from a
    request; that ends the thread for good, and the scraper is healthy as long as no round
    has raised. *)
Theorem scraper_follows_the_fleet rounds s :
  s.(running) = true → s.(alive) = true →
  let s' := (scrape_worker rounds s).1 in
  match last (good_rounds rounds) with
  | None => get_engine_stats s' = get_engine_stats s
  | Some r => ∃ endpoints, r.(r_endpoints) = Ok endpoints ∧
      ∀ u st, get_engine_stats s' !! u = Some st ↔
        ∃ i, scraped r endpoints i u st ∧ ∀ j st', i < j → ¬ scraped r endpoints j u st'
  end ∧
  (get_health s' = true ↔ Forall (λ r, is_ok (round_stats r) = true) rounds).
Proof.
  intros Hr Ha s'. unfold s'. rewrite worker_spec by done. cbn [get_engine_stats get_health engine_stats alive]. split.
  - pose proof (good_rounds_ok rounds) as Hok. destruct (good_rounds rounds) as [|r l _] eqn:E using rev_ind; [done|].
    rewrite last_snoc. apply Forall_app in Hok as [_ Hok]. rewrite Forall_singleton in Hok.
    unfold figures. rewrite foldl_app. simpl. destruct (round_stats r) as [m|] eqn:Em; [|done]. by apply round_stats_spec.
  - rewrite bool_decide_eq_true. destruct (good_rounds_split rounds) as (post & E & _). split.
    + intros El. apply (f_equal length) in E as Ep. rewrite length_app in Ep. destruct post; [|simpl in Ep; lia].
      rewrite E, app_nil_r. apply good_rounds_ok.
    + clear. induction 1 as [|r rounds Hr Hok IH]; [done|]. simpl. rewrite Hr. simpl. by rewrite IH.
Qed.
End scraper.

(* ------------------------------------------------------------------ *)
(** ** Concrete rounds *)

(** One metric per line, [name=running] figures already parsed. *)
Definition families_example (text : string) : res (list sample) :=
  if bool_decide (text = "busy") then Ok [("vllm:num_requests_running", 3%Q); ("other", 1%Q)]
  else Err (ValueError "parse").
Definition engine_example (u : string) : EndpointInfo :=
  mkEndpoint u ["m"] u 0 None false true None None None None.
Definition round_example (us : list string) (down : string) : round :=
  mkRound (Ok (engine_example <$> us))
    (λ _ u, if bool_decide (u = down +:+ "/metrics") then Err ClientConnectorError else Ok (200%Z, "busy")).
Definition bad_round_example : round := mkRound (Err (ValueError "not initialized")) (λ _ _, Err TypeError).

(** The engine that left and the one that went down have no figures; the round that could
    not be listed ends the thread, and the one after it does not take place. *)
Lemma scraper_witness :
  let rounds := [round_example ["http://a"; "http://b"; "http://c"] ""; round_example ["http://a"; "http://b"] "http://b";
                 bad_round_example; round_example ["http://d"] ""] in
  let s' := (scrape_worker families_example rounds scraper_init).1 in
  is_Some (get_engine_stats s' !! "http://a") ∧ get_engine_stats s' !! "http://b" = None ∧
  get_engine_stats s' !! "http://c" = None ∧ get_engine_stats s' !! "http://d" = None ∧ get_health s' ≠ true.
Proof.
  intros rounds s'. destruct (scraper_follows_the_fleet families_example rounds scraper_init eq_refl eq_refl) as [H Hh].
  fold s' in H, Hh. change (last (good_rounds families_example rounds)) with
    (Some (round_example ["http://a"; "http://b"] "http://b")) in H. destruct H as (eps & [= <-] & H).
  assert (Hno : ∀ u, (∀ i e, (engine_example <$> ["http://a"; "http://b"]) !! i = Some e → e.(url) = u →
      is_ok ((round_example ["http://a"; "http://b"] "http://b").(r_get) i (u +:+ "/metrics")) = false) →
    get_engine_stats s' !! u = None).
  { intros u Hu. apply eq_None_not_Some. intros [st Hst]. apply H in Hst as (i & (e & He & Hurl & Hs) & _).
    specialize (Hu i e He Hurl). destruct (r_get _ i _) as [|e']; [done|].
    cbn in Hs. by destruct (is_Exception e'). }
  split; [|split; [|split; [|split]]].
  - eexists. apply H. exists 0. split; [eexists; split; [reflexivity|]; split; [reflexivity|vm_compute; reflexivity]|].
    intros [|[|j]] st' Hj (e & He & Hu & _); [lia| |discriminate He]. injection He as <-. discriminate Hu.
  - apply Hno. intros i e _ _. vm_compute. reflexivity.
  - apply Hno. intros [|[|i]] e He Hu; try (injection He as <-; discriminate Hu); discriminate He.
  - apply Hno. intros [|[|i]] e He Hu; try (injection He as <-; discriminate Hu); discriminate He.
  - intros Hc. apply Hh in Hc. do 2 apply Forall_inv_tail in Hc. apply Forall_inv in Hc. discriminate Hc.
Defined.

Example figures_of_the_fleet :
  let s' := (scrape_worker families_example
    [round_example ["http://a"; "http://b"; "http://c"] ""; round_example ["http://a"; "http://b"] "http://b"]
    scraper_init).1 in
  (map_to_list (get_engine_stats s')).*1 = ["http://a"] ∧
  num_running_requests <$> (get_engine_stats s' !! "http://a") = Some 3%Q ∧ get_health s' = true.
Proof. vm_compute. done. Qed.
