(* ===== verification/Metrics.v ===== *)
(** * Exported metrics (src/src/vllm_router/routers/metrics_router.py,
      src/src/vllm_router/stats/log_stats.py and
      src/src/vllm_router/services/metrics_service/__init__.py)

    The metrics endpoint clears the gauges that carry a server label and fills them from
    the request statistics, the scraper and the service discovery; the logging thread sets
    some of them as well.  A gauge holds one float per server.  The text the thread logs is
    left out; the machine's own figures (psutil) are arguments. *)

From S2P Require Import Prelude PyDict PyStr PyVal Endpoint RequestStats RequestWindow.
From S2P Require EngineStats.

Local Open Scope py_scope.

(** The gauges labelled with a server. *)
Inductive Gauge : Type :=
| g_current_qps
| g_avg_decoding_length
| g_num_prefill_requests
| g_num_decoding_requests
| g_num_requests_running
| g_num_requests_waiting
| g_avg_latency
| g_avg_itl
| g_num_requests_swapped
| g_gpu_prefix_cache_hit_rate
| g_gpu_prefix_cache_hits_total
| g_gpu_prefix_cache_queries_total
| g_healthy_pods_total.
#[global] Instance Gauge_eq_dec : EqDecision Gauge.
Proof. solve_decision. Defined.

Definition LABEL_GAUGES : list Gauge :=
  [g_current_qps; g_avg_decoding_length; g_num_prefill_requests; g_num_decoding_requests; g_num_requests_running;
   g_num_requests_waiting; g_avg_latency; g_avg_itl; g_num_requests_swapped; g_gpu_prefix_cache_hit_rate;
   g_gpu_prefix_cache_hits_total; g_gpu_prefix_cache_queries_total; g_healthy_pods_total].
Definition gauge_index (g : Gauge) : nat := default 0 (fst <$> list_find (λ g', g' = g) LABEL_GAUGES).
#[global] Instance Gauge_countable : Countable Gauge.
Proof. refine (inj_countable gauge_index (λ n, LABEL_GAUGES !! n) _). by intros []. Defined.

Abbreviation labelled := (gmap (Gauge * string) Q).
Abbreviation setting := (Gauge * string * Q)%type.

(** [gauge.labels(server=server).set(value)], one after the other. *)
Definition set_gauge (gs : labelled) (x : setting) : labelled := <[x.1 := x.2]> gs.
Definition set_gauges (l : list setting) (gs : labelled) : labelled := foldl set_gauge gs l.

Definition clear (g : Gauge) (gs : labelled) : labelled := filter (λ kv, kv.1.1 ≠ g) gs.
Definition clear_label_gauges (gs : labelled) : labelled := foldl (λ gs g, clear g gs) gs LABEL_GAUGES.

Definition request_settings (server : string) (stat : RequestStats) : list setting :=
  [((g_current_qps, server), stat.(qps));
   ((g_avg_decoding_length, server), stat.(avg_decoding_length));
   ((g_num_prefill_requests, server), inject_Z stat.(in_prefill_requests));
   ((g_num_decoding_requests, server), inject_Z stat.(in_decoding_requests));
   ((g_num_requests_running, server), inject_Z (stat.(in_prefill_requests) + stat.(in_decoding_requests)));
   ((g_avg_latency, server), stat.(avg_latency));
   ((g_avg_itl, server), stat.(avg_itl));
   ((g_num_requests_swapped, server), inject_Z stat.(num_swapped_requests))].
Definition engine_settings (server : string) (stat : EngineStats.EngineStats) : list setting :=
  [((g_gpu_prefix_cache_hit_rate, server), EngineStats.gpu_prefix_cache_hit_rate stat);
   ((g_gpu_prefix_cache_hits_total, server), EngineStats.gpu_prefix_cache_hits_total stat);
   ((g_gpu_prefix_cache_queries_total, server), EngineStats.gpu_prefix_cache_queries_total stat)].
Definition health_setting (ep : EndpointInfo) : setting :=
  ((g_healthy_pods_total, ep.(url)), if ep.(healthy) then 1%Q else 0%Q).
(** [for server, stat in d.items()]: the order of the servers does not matter. *)
Definition for_items {A} (f : string → A → list setting) (d : gmap string A) : list setting :=
  mjoin ((λ kv, f kv.1 kv.2) <$> map_to_list d).

(** The registry and the statistics it is filled from. *)
Record mstate : Type := mkMetrics {
  gauges : labelled;
  cpu_usage_percent : Q;
  memory_usage_percent : Q;
  disk_usage_percent : Q;
  monitor : RequestStatsMonitor
}.
Definition set_labelled (f : labelled → labelled) : M mstate unit := modify (λ s,
  mkMetrics (f s.(gauges)) s.(cpu_usage_percent) s.(memory_usage_percent) s.(disk_usage_percent) s.(monitor)).
Definition set_usage (cpu memory disk : Q) : M mstate unit := modify (λ s,
  mkMetrics s.(gauges) cpu memory disk s.(monitor)).
Definition read_stats (now : Q) : M mstate (gmap string RequestStats) := λ s,
  let '(m, r) := get_request_stats now s.(monitor) in
  (mkMetrics s.(gauges) s.(cpu_usage_percent) s.(memory_usage_percent) s.(disk_usage_percent) m, r).

(** The handler of [/metrics]; [engine_stats] is what the scraper holds and [endpoints] what
    [get_service_discovery().get_endpoint_info()] gives. *)
Definition metrics (cpu memory disk now : Q) (engine_stats : gmap string EngineStats.EngineStats)
    (endpoints : res (list EndpointInfo)) : M mstate labelled :=
  set_labelled clear_label_gauges ;;;
  set_usage cpu memory disk ;;;
  stats <- read_stats now ;;
  set_labelled (set_gauges (for_items request_settings stats)) ;;;
  set_labelled (set_gauges (for_items engine_settings engine_stats)) ;;;
  endpoints <- lift endpoints ;;
  set_labelled (set_gauges (health_setting <$> endpoints)) ;;;
  gets gauges.

(** One turn of [log_stats]. *)
Definition log_endpoint (engine_stats : gmap string EngineStats.EngineStats) (request_stats : gmap string RequestStats)
    (endpoint : EndpointInfo) : list setting :=
  match engine_stats !! endpoint.(url) with Some es => engine_settings endpoint.(url) es | None => [] end ++
  match request_stats !! endpoint.(url) with Some rs => request_settings endpoint.(url) rs | None => [] end.
Definition log_turn (now : Q) (engine_stats : gmap string EngineStats.EngineStats)
    (endpoints : res (list EndpointInfo)) : M mstate unit :=
  endpoints <- lift endpoints ;;
  request_stats <- read_stats now ;;
  set_labelled (set_gauges (mjoin (log_endpoint engine_stats request_stats <$> endpoints))).
(** The thread: what a turn raises ends it. *)
Definition log_stats (turns : list (Q * gmap string EngineStats.EngineStats * res (list EndpointInfo))) : M mstate unit :=
  for_each turns (λ '(now, engine_stats, endpoints), log_turn now engine_stats endpoints).

(* ------------------------------------------------------------------ *)
(** ** What the gauges hold *)

(** The last setting of a key wins. *)
Definition last_setting (k : Gauge * string) (l : list setting) : option Q :=
  snd <$> last (filter (λ x, x.1 = k) l).
Lemma last_setting_app k l1 l2 :
  last_setting k (l1 ++ l2) = match last_setting k l2 with Some v => Some v | None => last_setting k l1 end.
Proof.
  unfold last_setting. rewrite filter_app, last_app. by destruct (last (filter _ l2)).
Qed.
Lemma last_setting_Some k l v : last_setting k l = Some v → (k, v) ∈ l.
Proof.
  unfold last_setting. intros ([k' v'] & Hl & ->)%fmap_Some. apply last_Some_elem_of in Hl.
  by apply list_elem_of_filter in Hl as [<- Hl].
Qed.
Lemma last_setting_None k l : last_setting k l = None ↔ ∀ v, (k, v) ∉ l.
Proof.
  unfold last_setting. rewrite fmap_None, last_None. split.
  - intros Hf v Hv. assert (H : (k, v) ∈ filter (λ x, x.1 = k) l) by (by apply list_elem_of_filter).
    rewrite Hf in H. by apply elem_of_nil in H.
  - intros H. apply elem_of_nil_inv. intros [k' v'] [<- Hl]%list_elem_of_filter. by eapply H.
Qed.
Lemma set_gauges_lookup l gs k :
  set_gauges l gs !! k = match last_setting k l with Some v => Some v | None => gs !! k end.
Proof.
  revert gs. induction l as [|x l IH] using rev_ind; intros gs; [done|].
  unfold set_gauges in *. rewrite foldl_app. cbn [foldl]. unfold set_gauge at 1. rewrite last_setting_app.
  unfold last_setting at 1. destruct (decide (x.1 = k)) as [<-|Hne].
  - rewrite lookup_insert_eq, filter_cons_True, filter_nil by done. done.
  - rewrite lookup_insert_ne, filter_cons_False, filter_nil by done. apply IH.
Qed.

(** Settings that name their own server: a server's gauge comes from its own entry. *)
Definition own {A} (f : string → A → list setting) : Prop := ∀ u a k v, (k, v) ∈ f u a → k.2 = u.
Lemma own_other {A} (f : string → A → list setting) u' a g u :
  own f → u' ≠ u → last_setting (g, u) (f u' a) = None.
Proof. intros Hf Hu. apply last_setting_None. intros v Hv%Hf. cbn in Hv. congruence. Qed.
Lemma last_setting_join {A} (f : string → A → list setting) (l : list (string * A)) g u :
  own f → NoDup l.*1 →
  last_setting (g, u) (mjoin ((λ kv, f kv.1 kv.2) <$> l)) =
  (a ← (list_to_map l : gmap string A) !! u; last_setting (g, u) (f u a)).
Proof.
  intros Hf. induction l as [|[u' a'] l IH]; intros Hl; [done|].
  apply NoDup_cons in Hl as [Hn Hl]. rewrite fmap_cons. cbn [fst snd].
  match goal with |- context [mjoin (f u' a' :: ?k)] => change (mjoin (f u' a' :: k)) with (f u' a' ++ mjoin k) end. rewrite last_setting_app, IH by done.
  cbn [list_to_map foldr fst snd uncurry]. destruct (decide (u' = u)) as [->|Hne].
  - rewrite lookup_insert_eq, not_elem_of_list_to_map_1 by done. done.
  - rewrite lookup_insert_ne by done. destruct (_ ≫= _); [done|]. by apply own_other.
Qed.
Lemma last_setting_items {A} (f : string → A → list setting) (d : gmap string A) g u :
  own f → last_setting (g, u) (for_items f d) = (a ← d !! u; last_setting (g, u) (f u a)).
Proof.
  intros Hf. etrans; [apply (last_setting_join f (map_to_list d) g u Hf), NoDup_fst_map_to_list|].
  by rewrite list_to_map_to_list.
Qed.
Lemma own_request : own request_settings.
Proof. intros u a k v. unfold request_settings. rewrite !elem_of_cons, elem_of_nil. naive_solver. Qed.
Lemma own_engine : own engine_settings.
Proof. intros u a k v. unfold engine_settings. rewrite !elem_of_cons, elem_of_nil. naive_solver. Qed.

(** The value of a gauge in the settings of a server's statistics. *)
Definition request_gauge (g : Gauge) (st : RequestStats) : option Q :=
  match g with
  | g_current_qps => Some st.(qps)
  | g_avg_decoding_length => Some st.(avg_decoding_length)
  | g_num_prefill_requests => Some (inject_Z st.(in_prefill_requests))
  | g_num_decoding_requests => Some (inject_Z st.(in_decoding_requests))
  | g_num_requests_running => Some (inject_Z (st.(in_prefill_requests) + st.(in_decoding_requests)))
  | g_avg_latency => Some st.(avg_latency)
  | g_avg_itl => Some st.(avg_itl)
  | g_num_requests_swapped => Some (inject_Z st.(num_swapped_requests))
  | _ => None
  end.
Definition engine_gauge (g : Gauge) (st : EngineStats.EngineStats) : option Q :=
  match g with
  | g_gpu_prefix_cache_hit_rate => Some (EngineStats.gpu_prefix_cache_hit_rate st)
  | g_gpu_prefix_cache_hits_total => Some (EngineStats.gpu_prefix_cache_hits_total st)
  | g_gpu_prefix_cache_queries_total => Some (EngineStats.gpu_prefix_cache_queries_total st)
  | _ => None
  end.
Ltac filter_settings :=
  repeat first [rewrite filter_cons_True by done|rewrite filter_cons_False by (cbn; congruence)].
Lemma last_setting_request g u st : last_setting (g, u) (request_settings u st) = request_gauge g st.
Proof.
  unfold last_setting, request_settings. destruct g; cbn [request_gauge];
    filter_settings; done.
Qed.
Lemma last_setting_engine g u st : last_setting (g, u) (engine_settings u st) = engine_gauge g st.
Proof.
  unfold last_setting, engine_settings. destruct g; cbn [engine_gauge];
    filter_settings; done.
Qed.
(** The health gauge of a server is that of the last endpoint listed with its URL. *)
Definition health_gauge (u : string) (endpoints : list EndpointInfo) : option Q :=
  (λ ep, if ep.(healthy) then 1%Q else 0%Q) <$> last (filter (λ ep, ep.(url) = u) endpoints).
Lemma last_setting_health g u endpoints :
  last_setting (g, u) (health_setting <$> endpoints) =
  match g with g_healthy_pods_total => health_gauge u endpoints | _ => None end.
Proof.
  unfold last_setting, health_gauge. induction endpoints as [|ep l IH] using rev_ind; [by destruct g|].
  rewrite fmap_app, !filter_app. cbn [fmap list_fmap]. rewrite !last_app.
  destruct (decide (ep.(url) = u)) as [<-|Hne]; [destruct g|];
    filter_settings;
    rewrite ?filter_nil; cbn; try done; apply IH.
Qed.

Lemma clear_label_gauges_empty gs : clear_label_gauges gs = ∅.
Proof.
  apply map_eq. intros [g u]. rewrite lookup_empty.
  assert (Hnone : ∀ l gs, gs !! (g, u) = None → foldl (λ gs g, clear g gs) gs l !! (g, u) = None).
  { induction l as [|g' l IH]; intros gs' Hgs; [done|]. cbn [foldl]. apply IH. unfold clear.
    apply map_lookup_filter_None. by left. }
  assert (H : ∀ l gs, g ∈ l → foldl (λ gs g, clear g gs) gs l !! (g, u) = None).
  { induction l as [|g' l IH]; intros gs' Hg; [by apply elem_of_nil in Hg|]. cbn [foldl].
    apply elem_of_cons in Hg as [<-|Hg]; [|by apply IH]. apply Hnone. unfold clear.
    apply map_lookup_filter_None. right. intros x _ Hx. by apply Hx. }
  apply H. destruct g; unfold LABEL_GAUGES; set_solver.
Qed.

(** What a page of the endpoint shows of a server. *)
Definition shown (stats : gmap string RequestStats) (engine_stats : gmap string EngineStats.EngineStats)
    (endpoints : list EndpointInfo) (g : Gauge) (u : string) : option Q :=
  match g with
  | g_healthy_pods_total => health_gauge u endpoints
  | g_gpu_prefix_cache_hit_rate | g_gpu_prefix_cache_hits_total | g_gpu_prefix_cache_queries_total =>
      st ← engine_stats !! u; engine_gauge g st
  | _ => st ← stats !! u; request_gauge g st
  end.
Lemma page_lookup stats engine_stats endpoints gs g u :
  set_gauges (health_setting <$> endpoints) (set_gauges (for_items engine_settings engine_stats)
    (set_gauges (for_items request_settings stats) (clear_label_gauges gs))) !! (g, u) =
  shown stats engine_stats endpoints g u.
Proof.
  rewrite clear_label_gauges_empty, !set_gauges_lookup, last_setting_health, lookup_empty.
  rewrite (last_setting_items _ _ _ _ own_engine), (last_setting_items _ _ _ _ own_request).
  destruct (stats !! u) as [st|] eqn:Es, (engine_stats !! u) as [est|] eqn:Ee; cbn [mbind option_bind];
    rewrite ?last_setting_request, ?last_setting_engine;
    unfold shown; rewrite ?Es, ?Ee; destruct g; try done; by destruct (health_gauge u endpoints).
Qed.

(** The endpoint's page: what the gauges held before does not matter. *)
Lemma metrics_eq cpu memory disk now engine_stats endpoints s :
  metrics cpu memory disk now engine_stats endpoints s =
  let '(m, r) := get_request_stats now s.(monitor) in
  match r with
  | Err e => (mkMetrics (clear_label_gauges s.(gauges)) cpu memory disk m, Err e)
  | Ok stats =>
      let gs := set_gauges (for_items engine_settings engine_stats)
                  (set_gauges (for_items request_settings stats) (clear_label_gauges s.(gauges))) in
      match endpoints with
      | Err e => (mkMetrics gs cpu memory disk m, Err e)
      | Ok endpoints => let page := set_gauges (health_setting <$> endpoints) gs in
                        (mkMetrics page cpu memory disk m, Ok page)
      end
  end.
Proof.
  unfold metrics, bind, set_labelled, set_usage, modify, read_stats, lift, gets. cbn [monitor gauges].
  destruct (get_request_stats now (monitor s)) as [m [stats|e]]; [|done]. by destruct endpoints.
Qed.

(** C9. Whatever the gauges held, a page of the metrics endpoint is determined gauge by gauge
    and server by server.  A server that ever received a request, and no other one, shows
    how many of the requests issued are prefilling, decoding and either on it, by the
    ledger, and the rates and averages that the monitor reports at that moment.  A server
    that the scraper holds, and no other one, shows its three cache figures; a listed one,
    and no other one, its health.  The number of waiting requests is shown for none.  So no
    figure of an engine that is gone is left. *)
Theorem metrics_show_the_ledger w tr cpu memory disk now engine_stats endpoints gs c m d :
  ¬ (w == 0)%Q →
  let L := ledger_run tr in
  let prefilling u := inject_Z (tally (u, Live prefill) L) in
  let decodes u := inject_Z (tally (u, Live decoding) L) in
  let running u := inject_Z (tally (u, Live prefill) L + tally (u, Live decoding) L) in
  ∃ s page mon stats,
    metrics cpu memory disk now engine_stats (Ok endpoints) (mkMetrics gs c m d (run w tr)) = (s, Ok page) ∧
    s.(gauges) = page ∧ get_request_stats now (run w tr) = (mon, Ok stats) ∧
    ∀ g u, page !! (g, u) =
      match g with
      | g_num_prefill_requests => if decide (u ∈ L.*1) then Some (prefilling u) else None
      | g_num_decoding_requests => if decide (u ∈ L.*1) then Some (decodes u) else None
      | g_num_requests_running => if decide (u ∈ L.*1) then Some (running u) else None
      | g_num_requests_waiting => None
      | g_current_qps => if decide (u ∈ L.*1) then qps <$> stats !! u else None
      | g_avg_decoding_length => if decide (u ∈ L.*1) then avg_decoding_length <$> stats !! u else None
      | g_avg_latency => if decide (u ∈ L.*1) then avg_latency <$> stats !! u else None
      | g_avg_itl => if decide (u ∈ L.*1) then avg_itl <$> stats !! u else None
      | g_num_requests_swapped => if decide (u ∈ L.*1) then (λ st, inject_Z st.(num_swapped_requests)) <$> stats !! u else None
      | g_gpu_prefix_cache_hit_rate => EngineStats.gpu_prefix_cache_hit_rate <$> engine_stats !! u
      | g_gpu_prefix_cache_hits_total => EngineStats.gpu_prefix_cache_hits_total <$> engine_stats !! u
      | g_gpu_prefix_cache_queries_total => EngineStats.gpu_prefix_cache_queries_total <$> engine_stats !! u
      | g_healthy_pods_total => health_gauge u endpoints
      end.
Proof.
  intros Hw L prefilling decodes running. destruct (get_request_stats_value w tr now Hw) as (mon & stats & E & H).
  pose proof (refines_run w tr) as R. rewrite metrics_eq. cbn [monitor Metrics.gauges]. rewrite E. cbn zeta.
  eexists _, _, mon, stats. split; [done|]. split; [done|]. split; [done|]. intros g u. rewrite page_lookup.
  unfold shown, L, prefilling, decodes, running. destruct (engine_stats !! u), g; try done; rewrite H; case_decide; try done;
    cbn; by rewrite ?(ref_prefill _ _ R), ?(ref_decoding _ _ R).
Qed.

(** The number of waiting requests is exported, and cleared, but never set. *)
Lemma waiting_is_never_shown cpu memory disk now engine_stats endpoints s s' page u :
  metrics cpu memory disk now engine_stats endpoints s = (s', Ok page) →
  page !! (g_num_requests_waiting, u) = None.
Proof.
  rewrite metrics_eq. destruct (get_request_stats _ _) as [m [stats|e]]; [|done]. destruct endpoints as [l|]; [|done].
  intros [= _ <-]. rewrite page_lookup. cbn. by destruct (stats !! u).
Qed.

(* ------------------------------------------------------------------ *)
(** ** The logging thread *)

Definition logged (stats : gmap string RequestStats) (engine_stats : gmap string EngineStats.EngineStats)
    (g : Gauge) (u : string) : option Q :=
  match g with g_healthy_pods_total => None | _ => shown stats engine_stats [] g u end.
Lemma log_endpoint_lookup engine_stats stats ep g u :
  last_setting (g, u) (log_endpoint engine_stats stats ep) =
  if decide (ep.(url) = u) then logged stats engine_stats g u else None.
Proof.
  unfold log_endpoint. rewrite last_setting_app. case_decide as Hu.
  - subst. destruct (stats !! url ep) as [st|] eqn:Es, (engine_stats !! url ep) as [est|] eqn:Ee;
      rewrite ?last_setting_request, ?last_setting_engine; unfold logged, shown; rewrite ?Es, ?Ee; by destruct g.
  - destruct (stats !! url ep), (engine_stats !! url ep);
      rewrite ?(own_other _ _ _ _ _ own_request), ?(own_other _ _ _ _ _ own_engine) by done; done.
Qed.
(** A turn sets the figures of the engines listed at its start, and leaves every other
    gauge alone: those of an engine that left since come back until the next page. *)
Lemma log_turn_lookup now engine_stats endpoints s m stats :
  get_request_stats now s.(monitor) = (m, Ok stats) →
  (log_turn now engine_stats (Ok endpoints) s).2 = Ok tt ∧
  ∀ g u, (log_turn now engine_stats (Ok endpoints) s).1.(gauges) !! (g, u) =
    if decide (u ∈ url <$> endpoints)
    then match logged stats engine_stats g u with Some v => Some v | None => s.(gauges) !! (g, u) end
    else s.(gauges) !! (g, u).
Proof.
  intros E. unfold log_turn, bind, lift, read_stats, set_labelled, modify. rewrite E. split; [done|].
  intros g u. cbn [fst gauges]. rewrite set_gauges_lookup.
  assert (H : last_setting (g, u) (mjoin (log_endpoint engine_stats stats <$> endpoints)) =
    if decide (u ∈ url <$> endpoints) then logged stats engine_stats g u else None).
  { induction endpoints as [|ep l IH]; [done|]. rewrite !fmap_cons.
    match goal with |- context [mjoin (?x :: ?k)] => change (mjoin (x :: k)) with (x ++ mjoin k) end.
    rewrite last_setting_app, IH, log_endpoint_lookup. destruct (decide (u ∈ url <$> l)).
    - rewrite (decide_True (P := u ∈ url ep :: (url <$> l))) by (by right).
      destruct (logged stats engine_stats g u); [done|]. by case_decide.
    - destruct (decide (url ep = u)) as [<-|].
      + by rewrite decide_True by (by left).
      + rewrite decide_False; [done|]. rewrite elem_of_cons. naive_solver. }
  rewrite H. by case_decide.
Qed.

(* ------------------------------------------------------------------ *)
(** ** Concrete runs *)

Lemma metrics_show_the_ledger_witness :
  ¬ (10 == 0)%Q ∧
  ∃ s page, metrics 1 2 3 15%Q ∅ (Ok []) (mkMetrics {[ (g_current_qps, "http://gone") := 7%Q ]} 0 0 0 (run 10%Q tr_example))
    = (s, Ok page) ∧
    page !! (g_num_requests_running, "http://a") =
      Some (inject_Z (tally ("http://a", Live prefill) (ledger_run tr_example) +
                      tally ("http://a", Live decoding) (ledger_run tr_example))) ∧
    page !! (g_current_qps, "http://gone") = None ∧
    ∀ u, page !! (g_gpu_prefix_cache_hits_total, u) = None.
Proof.
  split; [discriminate|].
  destruct (metrics_show_the_ledger 10%Q tr_example 1 2 3 15%Q ∅ [] {[ (g_current_qps, "http://gone") := 7%Q ]} 0 0 0)
    as (s & page & mon & stats & H1 & _ & _ & H2).
  - discriminate.
  - exists s, page. split; [exact H1|]. split; [|split].
    + rewrite H2, decide_True; [reflexivity|]. apply (bool_decide_unpack _). vm_compute. exact I.
    + rewrite H2, decide_False; [reflexivity|]. apply (bool_decide_unpack _). vm_compute. exact I.
    + intros u. rewrite H2. by rewrite lookup_empty.
Defined.
