(* ===== verification/HashTrie.v ===== *)
(** * The prefix trie (src/src/vllm_router/prefix/hashtrie.py)

    A request is cut into chunks of [chunk_size] characters; each chunk is hashed
    and the hashes are a path in a trie whose nodes record the endpoints that have
    been sent a request with that prefix.  Nodes are mutable objects shared by
    concurrent coroutines, so the trie is a heap of nodes.  The file gives the
    sequential operations, the interleaved execution of any number of [insert]
    coroutines (each [async with node.lock] block is one atomic step), an abstract
    specification of what a trie holds, and the proof that every interleaving
    produces it and that [longest_prefix_match] answers from it. *)

From S2P Require Import Prelude PyStr.

(* ------------------------------------------------------------------ *)
(** ** Data and operations *)

Record TrieNode : Type := mkNode {
  children : gmap Z nat;
  endpoints : gset string
}.
Definition TrieNode_init : TrieNode := mkNode ∅ ∅.

(** [root] is the node at address 0. *)
Record HashTrie : Type := mkTrie {
  nodes : list TrieNode;
  chunk_size : nat
}.
Definition HashTrie_init (chunk_size : nat) : HashTrie := mkTrie [TrieNode_init] chunk_size.

Fixpoint stake (n : nat) (s : string) : string :=
  match n, s with
  | S n', String c s' => String c (stake n' s')
  | _, _ => ""
  end.

Section hashtrie.
(** [xxhash.xxh64(chunk).intdigest()]. *)
Context (xxh64 : string → Z).

(** [request[i : i + chunk_size] for i in range(0, len(request), chunk_size)]; one
    turn consumes at least one character, so [len(request)] turns suffice. *)
Fixpoint chunks (fuel n : nat) (request : string) : list string :=
  match fuel, request with
  | S fuel', String _ _ => stake n request :: chunks fuel' n (sdrop n request)
  | _, _ => []
  end.
(** [range] refuses a zero step. *)
Definition chunk_and_hash (n : nat) (request : string) : res (list Z) :=
  if bool_decide (n = 0) then Err (ValueError "range() arg 3 must not be zero")
  else Ok (xxh64 <$> chunks (slen request) n request).

(** [node.endpoints.add(endpoint)]. *)
Definition add_endpoint (hp : list TrieNode) (l : nat) (ep : string) : list TrieNode :=
  alter (λ n, mkNode n.(children) ({[ep]} ∪ n.(endpoints))) l hp.

(** [if chunk_hash not in node.children: node.children[chunk_hash] = TrieNode()]
    and [node = node.children[chunk_hash]]. *)
Definition get_or_create (hp : list TrieNode) (l : nat) (h : Z) : list TrieNode * nat :=
  match hp !! l ≫= λ n, n.(children) !! h with
  | Some c => (hp, c)
  | None => (alter (λ n, mkNode (<[h := length hp]> n.(children)) n.(endpoints)) l hp
               ++ [TrieNode_init], length hp)
  end.

Fixpoint insert_walk (hp : list TrieNode) (l : nat) (hs : list Z) (ep : string) :
  list TrieNode :=
  match hs with
  | [] => hp
  | h :: hs' =>
      let '(hp1, c) := get_or_create hp l h in
      insert_walk (add_endpoint hp1 c ep) c hs' ep
  end.

Definition insert (request endpoint : string) : M HashTrie unit := λ t,
  let hp := add_endpoint t.(nodes) 0 endpoint in
  match chunk_and_hash t.(chunk_size) request with
  | Err e => (mkTrie hp t.(chunk_size), Err e)
  | Ok hs => (mkTrie (insert_walk hp 0 hs endpoint) t.(chunk_size), Ok tt)
  end.

Fixpoint match_walk (n : nat) (hp : list TrieNode) (l : nat) (hs : list Z)
    (match_length : nat) (selected : gset string) : nat * gset string :=
  match hs with
  | [] => (match_length, selected)
  | h :: hs' =>
      match hp !! l ≫= λ nd, nd.(children) !! h with
      | None => (match_length, selected)
      | Some c =>
          let eps := from_option endpoints ∅ (hp !! c) in
          let intersection := eps ∩ selected in
          if decide (intersection = ∅) then (match_length, selected)
          else match_walk n hp c hs' (match_length + n) intersection
      end
  end.

Definition longest_prefix_match (request : string) (available : gset string)
    (t : HashTrie) : res (nat * gset string) :=
  rbind (chunk_and_hash t.(chunk_size) request) (λ hs,
    Ok (match_walk t.(chunk_size) t.(nodes) 0 hs 0 available)).
End hashtrie.

(* ------------------------------------------------------------------ *)
(** ** Interleaved insertions *)

(** An [insert] coroutine between two lock-protected blocks: [c_node] is its [node],
    [c_pos] the number of chunks already walked; in phase [adding] it is about to
    add its endpoint to [c_node], otherwise to move to the next child. *)
Record coroutine : Type := mkCo {
  c_hashes : list Z;
  c_ep : string;
  c_pos : nat;
  c_node : nat;
  c_adding : bool
}.

Record machine : Type := mkMachine {
  m_heap : list TrieNode;
  m_cos : list coroutine
}.
Definition machine_init : machine := mkMachine [TrieNode_init] [].

Definition c_done (c : coroutine) : Prop :=
  c.(c_adding) = false ∧ c.(c_pos) = length c.(c_hashes).

Inductive mstep : machine → machine → Prop :=
| step_spawn hp cs hs ep :
    mstep (mkMachine hp cs) (mkMachine hp (cs ++ [mkCo hs ep 0 0 true]))
| step_add hp cs i hs ep k l :
    cs !! i = Some (mkCo hs ep k l true) →
    mstep (mkMachine hp cs)
          (mkMachine (add_endpoint hp l ep) (<[i := mkCo hs ep k l false]> cs))
| step_child hp cs i hs ep k l h hp' c :
    cs !! i = Some (mkCo hs ep k l false) →
    hs !! k = Some h →
    get_or_create hp l h = (hp', c) →
    mstep (mkMachine hp cs) (mkMachine hp' (<[i := mkCo hs ep (S k) c true]> cs)).

(** ** The specification: which endpoints hold a prefix *)

Fixpoint node_from (hp : list TrieNode) (l : nat) (p : list Z) : option nat :=
  match p with
  | [] => Some l
  | h :: p' => hp !! l ≫= λ n, n.(children) !! h ≫= λ c, node_from hp c p'
  end.
Definition node_at (hp : list TrieNode) (p : list Z) : option nat := node_from hp 0 p.

(** The endpoints recorded at a path; nothing where the trie has no such node. *)
Definition holders_at (hp : list TrieNode) (p : list Z) : gset string :=
  from_option endpoints ∅ (node_at hp p ≫= λ l, hp !! l).

(** A coroutine has added its endpoint at [p]; it has created the node at [p]. *)
Definition visited (c : coroutine) (p : list Z) : Prop :=
  p `prefix_of` c.(c_hashes) ∧
  (length p < c.(c_pos) ∨ length p = c.(c_pos) ∧ c.(c_adding) = false).
Definition created (c : coroutine) (p : list Z) : Prop :=
  p `prefix_of` c.(c_hashes) ∧ length p ≤ c.(c_pos).

Record trie_inv (m : machine) : Prop := {
  inv_root : 0 < length m.(m_heap);
  inv_bound : ∀ l n h c, m.(m_heap) !! l = Some n → n.(children) !! h = Some c →
    c < length m.(m_heap);
  inv_tree : ∀ p q l, node_at m.(m_heap) p = Some l → node_at m.(m_heap) q = Some l → p = q;
  inv_created : ∀ p, is_Some (node_at m.(m_heap) p) ↔ p = [] ∨ ∃ c, c ∈ m.(m_cos) ∧ created c p;
  inv_holders : ∀ p ep, ep ∈ holders_at m.(m_heap) p ↔
    ∃ c, c ∈ m.(m_cos) ∧ c.(c_ep) = ep ∧ visited c p;
  inv_cos : ∀ i c, m.(m_cos) !! i = Some c →
    c.(c_pos) ≤ length c.(c_hashes) ∧
    node_at m.(m_heap) (take c.(c_pos) c.(c_hashes)) = Some c.(c_node)
}.

(* ------------------------------------------------------------------ *)
(** ** Paths in the heap *)

Lemma prefix_take_eq {A} (p hs : list A) : p `prefix_of` hs → p = take (length p) hs.
Proof. intros [k ->]. by rewrite take_app_length. Qed.

Lemma node_from_snoc hp l p h :
  node_from hp l (p ++ [h]) =
    node_from hp l p ≫= λ l', hp !! l' ≫= λ n, n.(children) !! h.
Proof.
  revert l. induction p as [|x p IH]; intros l; simpl.
  - destruct (hp !! l) as [n|]; simpl; [|done]. by destruct (children n !! h).
  - destruct (hp !! l) as [n|]; simpl; [|done]. destruct (children n !! x); simpl; [apply IH|done].
Qed.
Lemma node_at_snoc hp p h :
  node_at hp (p ++ [h]) = node_at hp p ≫= λ l', hp !! l' ≫= λ n, n.(children) !! h.
Proof. apply node_from_snoc. Qed.

Lemma node_from_same hp hp' l p :
  (∀ i, children <$> hp' !! i = children <$> hp !! i) → node_from hp' l p = node_from hp l p.
Proof.
  intros Hc. revert l. induction p as [|x p IH]; intros l; simpl; [done|].
  specialize (Hc l). destruct (hp !! l) as [n|], (hp' !! l) as [n'|]; simplify_eq/=; [|done].
  rewrite Hc. destruct (children n !! x); simpl; [apply IH|done].
Qed.

Lemma add_endpoint_children hp l ep i :
  children <$> add_endpoint hp l ep !! i = children <$> hp !! i.
Proof.
  unfold add_endpoint. rewrite list_lookup_alter. case_decide; subst; [|done].
  by destruct (hp !! i).
Qed.
Lemma node_at_add_endpoint hp l ep p : node_at (add_endpoint hp l ep) p = node_at hp p.
Proof. apply node_from_same. apply add_endpoint_children. Qed.
Lemma length_add_endpoint hp l ep : length (add_endpoint hp l ep) = length hp.
Proof. apply length_alter. Qed.

(** Adding an endpoint at the node of [q] changes what is held at [q] only. *)
Lemma holders_add_endpoint hp l ep q p :
  (∀ p q l, node_at hp p = Some l → node_at hp q = Some l → p = q) →
  node_at hp q = Some l → l < length hp →
  holders_at (add_endpoint hp l ep) p =
    if decide (p = q) then {[ep]} ∪ holders_at hp p else holders_at hp p.
Proof.
  intros Htree Hq Hl. unfold holders_at. rewrite node_at_add_endpoint.
  unfold add_endpoint. case_decide as Hp.
  - subst. rewrite Hq. simpl. rewrite list_lookup_alter_eq.
    apply lookup_lt_is_Some_2 in Hl as [n ->]. done.
  - destruct (node_at hp p) as [l'|] eqn:E; simpl; [|done].
    rewrite list_lookup_alter_ne; [done|]. intros ->. eauto.
Qed.

(** ** Creating a child *)

Section create.
Context (hp : list TrieNode) (q : list Z) (l : nat) (h : Z).
Context (Hq : node_at hp q = Some l).
Context (Htree : ∀ p q l, node_at hp p = Some l → node_at hp q = Some l → p = q).
Context (Hbnd : ∀ p l, node_at hp p = Some l → l < length hp).
Context (Habs : node_at hp (q ++ [h]) = None).

Let hp' : list TrieNode :=
  alter (λ n, mkNode (<[h := length hp]> n.(children)) n.(endpoints)) l hp ++ [TrieNode_init].

Lemma create_lookup i :
  i < length hp →
  hp' !! i = (λ n, if decide (i = l) then mkNode (<[h := length hp]> n.(children)) n.(endpoints)
                   else n) <$> hp !! i.
Proof.
  intros Hi. unfold hp'. rewrite lookup_app_l by (by rewrite length_alter).
  rewrite list_lookup_alter. destruct (decide (l = i)), (decide (i = l)); subst; try done.
  by destruct (hp !! i).
Qed.
Lemma create_new : hp' !! length hp = Some TrieNode_init.
Proof. unfold hp'. rewrite lookup_app_r; rewrite length_alter; [|done]. by rewrite Nat.sub_diag. Qed.

Lemma node_at_create p :
  node_at hp' p = if decide (p = q ++ [h]) then Some (length hp) else node_at hp p.
Proof.
  induction p as [|x p IH] using rev_ind.
  { rewrite decide_False; [done|]. by destruct q. }
  rewrite !node_at_snoc, IH. destruct (decide (p = q ++ [h])) as [->|Hp]; simpl.
  { rewrite create_new. simpl. rewrite lookup_empty, Habs. simpl.
    rewrite decide_False; [done|]. intros E%(f_equal length).
    rewrite !length_app in E. simpl in E. lia. }
  destruct (node_at hp p) as [l'|] eqn:E; simpl.
  - rewrite create_lookup by eauto. destruct (decide (l' = l)) as [->|Hl].
    + assert (p = q) as -> by eauto.
      assert (Hl : is_Some (hp !! l)) by (apply lookup_lt_is_Some; eauto).
      destruct Hl as [n Hn]. rewrite Hn. simpl. rewrite lookup_insert.
      destruct (decide (h = x)) as [->|Hx].
      * by rewrite decide_True.
      * rewrite decide_False; [done|]. intros [_ [= ->]]%app_inj_tail. done.
    + rewrite decide_False.
      * by destruct (hp !! l').
      * intros [-> [= ->]]%app_inj_tail. congruence.
  - rewrite decide_False; [done|]. intros [-> _]%app_inj_tail. congruence.
Qed.

Lemma holders_create p : holders_at hp' p = holders_at hp p.
Proof.
  unfold holders_at. rewrite node_at_create. case_decide as Hp.
  - subst. simpl. by rewrite create_new, Habs.
  - destruct (node_at hp p) as [l'|] eqn:E; simpl; [|done].
    rewrite create_lookup by eauto. destruct (hp !! l'); simpl; [|done]. by case_decide.
Qed.
End create.

(* ------------------------------------------------------------------ *)
(** ** The invariant holds along every interleaving *)

Lemma node_at_bound hp p l :
  0 < length hp →
  (∀ l n h c, hp !! l = Some n → n.(children) !! h = Some c → c < length hp) →
  node_at hp p = Some l → l < length hp.
Proof.
  intros H0 Hb. destruct p as [|x p _] using rev_ind; [intros [= <-]; done|].
  rewrite node_at_snoc. intros (l' & _ & (n & Hn & Hc)%bind_Some)%bind_Some. eauto.
Qed.

(** Advancing one coroutine changes what the list has visited or created there only. *)
Lemma exists_insert {A} (cs : list A) i c0 c1 (P : A → Prop) :
  cs !! i = Some c0 → (P c0 → P c1) →
  (∃ c, c ∈ <[i := c1]> cs ∧ P c) ↔ (∃ c, c ∈ cs ∧ P c) ∨ P c1.
Proof.
  intros Hi Hmono. split.
  - intros (c & [j Hj]%list_elem_of_lookup & HP). apply list_lookup_insert_Some in Hj
      as [(-> & -> & _)|[_ Hj]]; [by right|left]. exists c. eauto using list_elem_of_lookup_2.
  - intros [(c & [j Hj]%list_elem_of_lookup & HP)|HP].
    + destruct (decide (j = i)) as [->|Hne].
      * simplify_eq. exists c1. split; [|auto]. apply list_elem_of_lookup. exists i.
        apply list_lookup_insert_eq. by eapply lookup_lt_Some.
      * exists c. split; [|done]. apply list_elem_of_lookup. exists j.
        by rewrite list_lookup_insert_ne.
    + exists c1. split; [|done]. apply list_elem_of_lookup. exists i.
      apply list_lookup_insert_eq. by eapply lookup_lt_Some.
Qed.

Lemma trie_inv_init : trie_inv machine_init.
Proof.
  assert (Hn : ∀ p, node_at [TrieNode_init] p = if decide (p = []) then Some 0 else None).
  { intros p. induction p as [|x p IH] using rev_ind; [done|].
    rewrite node_at_snoc, IH. destruct p; simpl; done. }
  split; simpl.
  - lia.
  - intros [|l] n h c Hl Hc; by simplify_eq/=.
  - intros p q l. rewrite !Hn. repeat case_decide; naive_solver.
  - intros p. rewrite Hn. case_decide; [naive_solver|].
    split; [by intros [? ?]|]. intros [?|(c & Hc & _)]; [done|set_solver].
  - intros p ep. unfold holders_at. rewrite Hn. case_decide; simpl; set_solver.
  - intros i c Hc. by rewrite lookup_nil in Hc.
Qed.

Section step_preserves.
Context (hp : list TrieNode) (cs : list coroutine).
Context (I : trie_inv (mkMachine hp cs)).

Lemma inv_node_bound p l : node_at hp p = Some l → l < length hp.
Proof. apply node_at_bound; [apply (inv_root _ I)|apply (inv_bound _ I)]. Qed.

Lemma inv_spawn hs ep : trie_inv (mkMachine hp (cs ++ [mkCo hs ep 0 0 true])).
Proof.
  destruct I as [Ir Ib It Ic Ih Io]. split; simpl in *; try done.
  - intros p. rewrite Ic. split.
    + intros [?|(c & ? & ?)]; [by left|right]. exists c. rewrite elem_of_app. auto.
    + intros [?|(c & [?|Hc]%elem_of_app & Hcr)]; [by left|right; eauto|].
      apply list_elem_of_singleton in Hc as ->. destruct Hcr as [_ Hl]. simpl in Hl.
      left. destruct p; [done|simpl in Hl; lia].
  - intros p e. rewrite Ih. split.
    + intros (c & ? & ? & ?). exists c. rewrite elem_of_app. auto.
    + intros (c & [?|Hc]%elem_of_app & He & Hv); [eauto|].
      apply list_elem_of_singleton in Hc as ->. destruct Hv as [_ [?|[_ ?]]]; simpl in *; [lia|done].
  - intros i c [Hc|[_ Hc]]%lookup_app_Some; [by eapply Io|].
    apply list_lookup_singleton_Some in Hc as [_ <-]. simpl. split; [lia|done].
Qed.

Lemma inv_add i hs ep k l :
  cs !! i = Some (mkCo hs ep k l true) →
  trie_inv (mkMachine (add_endpoint hp l ep) (<[i := mkCo hs ep k l false]> cs)).
Proof.
  intros Hi. destruct (inv_cos _ I _ _ Hi) as [Hk Hn]. simpl in Hk, Hn.
  pose proof (inv_node_bound _ _ Hn) as Hl.
  destruct I as [Ir Ib It Ic Ih Io]. split; simpl in *.
  - by rewrite length_add_endpoint.
  - intros l' n h c Hl' Hc. rewrite length_add_endpoint.
    pose proof (add_endpoint_children hp l ep l') as E. rewrite Hl' in E. simpl in E.
    destruct (hp !! l') as [n'|] eqn:En; simplify_eq/=. rewrite E in Hc. eauto.
  - intros p q l'. rewrite !node_at_add_endpoint. apply It.
  - intros p. rewrite node_at_add_endpoint, Ic.
    rewrite (exists_insert cs i _ (mkCo hs ep k l false) (λ c, created c p) Hi) by done.
    split; [naive_solver|]. intros [?|[?|?]]; [by left|by right|right].
    exists (mkCo hs ep k l true). eauto using list_elem_of_lookup_2.
  - intros p e. rewrite (holders_add_endpoint _ _ _ _ _ It Hn Hl).
    rewrite (exists_insert cs i _ (mkCo hs ep k l false)
      (λ c, c_ep c = e ∧ visited c p) Hi).
    2:{ intros [? [? Hv]]. split; [done|]. split; [done|]. simpl in *. tauto. }
    case_decide as Hp.
    + subst p. rewrite elem_of_union, elem_of_singleton, Ih. split.
      * intros [->|?]; [right|by left]. split; [done|]. split; [apply prefix_take|].
        right. simpl. rewrite length_take. split; [lia|done].
      * intros [?|[He _]]; [by right|left]. done.
    + rewrite Ih. split; [by left|]. intros [?|[He [Hpre Hlen]]]; [done|]. simpl in *.
      exists (mkCo hs ep k l true). split; [eauto using list_elem_of_lookup_2|].
      split; [done|]. split; [done|]. destruct Hlen as [?|[Hlen _]]; [by left|].
      destruct Hp. rewrite <-Hlen. by apply prefix_take_eq.
  - intros j c [(<- & <- & _)|[Hne Hj]]%list_lookup_insert_Some; simpl;
      rewrite node_at_add_endpoint; [done|]. by eapply Io.
Qed.

(** Moving coroutine [i] to the node of its next chunk, once the heap has it. *)
Lemma inv_advance hp' i hs ep k l h c :
  cs !! i = Some (mkCo hs ep k l false) → hs !! k = Some h →
  0 < length hp' →
  (∀ l n h c, hp' !! l = Some n → n.(children) !! h = Some c → c < length hp') →
  (∀ p q l, node_at hp' p = Some l → node_at hp' q = Some l → p = q) →
  (∀ p, holders_at hp' p = holders_at hp p) →
  (∀ p, p ≠ take (S k) hs → node_at hp' p = node_at hp p) →
  (∀ p l', node_at hp p = Some l' → node_at hp' p = Some l') →
  node_at hp' (take (S k) hs) = Some c →
  trie_inv (mkMachine hp' (<[i := mkCo hs ep (S k) c true]> cs)).
Proof.
  intros Hi Hh H0 Hb Ht Hho Hno Hmono Hc. destruct (inv_cos _ I _ _ Hi) as [Hk Hn].
  simpl in Hk, Hn. apply lookup_lt_Some in Hh as Hlt.
  destruct I as [Ir Ib It Ic Ih Io]. split; simpl in *; try done.
  - intros p. rewrite (exists_insert cs i _ (mkCo hs ep (S k) c true) (λ c, created c p) Hi).
    2:{ intros [? ?]. split; [done|]. simpl in *. lia. }
    destruct (decide (p = take (S k) hs)) as [->|Hp].
    + rewrite Hc. split; [intros _|naive_solver]. right; right.
      split; [apply prefix_take|]. simpl. rewrite length_take. lia.
    + rewrite Hno, Ic by done. split; [naive_solver|].
      intros [?|[?|[Hpre Hlen]]]; [by left|by right|right]. simpl in *.
      exists (mkCo hs ep k l false). split; [eauto using list_elem_of_lookup_2|].
      split; [done|]. simpl. destruct (decide (length p = S k)) as [E|]; [|lia].
      destruct Hp. rewrite <-E. by apply prefix_take_eq.
  - intros p e. rewrite Hho, Ih.
    rewrite (exists_insert cs i _ (mkCo hs ep (S k) c true) (λ c, c_ep c = e ∧ visited c p) Hi).
    2:{ intros [? [? Hv]]. split; [done|]. split; [done|]. simpl in *. lia. }
    split; [naive_solver|]. intros [?|[He [Hpre Hv]]]; [done|]. simpl in *.
    exists (mkCo hs ep k l false). split; [eauto using list_elem_of_lookup_2|].
    split; [done|]. split; [done|]. simpl. destruct Hv as [?|[_ ?]]; [|done].
    destruct (decide (length p = k)); [by right|left; lia].
  - intros j c' [(<- & <- & _)|[Hne Hj]]%list_lookup_insert_Some; simpl.
    + split; [lia|done].
    + destruct (Io _ _ Hj) as [? Hj2]. eauto.
Qed.

Lemma inv_child i hs ep k l h hp' c :
  cs !! i = Some (mkCo hs ep k l false) → hs !! k = Some h →
  get_or_create hp l h = (hp', c) →
  trie_inv (mkMachine hp' (<[i := mkCo hs ep (S k) c true]> cs)).
Proof.
  intros Hi Hh Hg. destruct (inv_cos _ I _ _ Hi) as [Hk Hn]. simpl in Hk, Hn.
  pose proof (inv_root _ I) as H0. pose proof (inv_bound _ I) as Hb.
  pose proof (inv_tree _ I) as Ht. simpl in H0, Hb, Ht.
  pose proof (take_S_r _ _ _ Hh) as Htk.
  pose proof (node_at_snoc hp (take k hs) h) as Hs. rewrite Hn, <-Htk in Hs. simpl in Hs.
  unfold get_or_create in Hg. destruct (hp !! l ≫= λ n, children n !! h) as [c'|] eqn:E.
  - injection Hg as <- <-. by eapply inv_advance.
  - injection Hg as <- <-. rewrite Htk in Hs.
    pose proof (node_at_create _ _ _ _ Hn Ht inv_node_bound Hs) as Hnc.
    pose proof (holders_create _ _ _ _ Hn Ht inv_node_bound Hs) as Hhc.
    pose proof (create_new hp l h) as Hnew. pose proof (create_lookup hp _ _ h Hn) as Hlk.
    set (hp' := alter _ l hp ++ [TrieNode_init]) in *.
    assert (Hlen : length hp' = S (length hp))
      by (unfold hp'; rewrite length_app, length_alter; simpl; lia).
    eapply inv_advance; [done|done|lia| | |done| | |]; rewrite ?Htk.
    + intros l' n h' c Hl' Hc. rewrite Hlen. destruct (decide (l' = length hp)) as [->|Hne].
      * rewrite Hnew in Hl'. by simplify_eq.
      * assert (l' < length hp) by (apply lookup_lt_Some in Hl'; lia).
        rewrite Hlk in Hl' by done.
        destruct (hp !! l') as [n'|] eqn:En; simplify_eq/=.
        case_decide; simpl in Hc; [rewrite lookup_insert in Hc; case_decide; simplify_eq; [lia|]|];
          eapply Nat.lt_lt_succ_r; eauto.
    + intros p p' l'. rewrite !Hnc. repeat case_decide; subst; try done.
      * intros [= <-] Hp'%inv_node_bound. lia.
      * intros Hp%inv_node_bound [= <-]. lia.
      * apply Ht.
    + intros p Hp. rewrite Hnc. by rewrite decide_False.
    + intros p l' Hp. rewrite Hnc, decide_False; [done|]. intros ->. congruence.
    + rewrite Hnc. by rewrite decide_True.
Qed.
End step_preserves.

Lemma trie_inv_step m m' : mstep m m' → trie_inv m → trie_inv m'.
Proof. intros []; eauto using inv_spawn, inv_add, inv_child. Qed.

Lemma trie_inv_reachable m : rtc mstep machine_init m → trie_inv m.
Proof.
  intros Hr. assert (H : ∀ m0, trie_inv m0 → rtc mstep m0 m → trie_inv m).
  { intros m0 H0 Hr0. induction Hr0; eauto using trie_inv_step. }
  eauto using trie_inv_init.
Qed.

(* ------------------------------------------------------------------ *)
(** ** The sequential operations *)

(** [insert] is one coroutine run to the end without interleaving. *)
Lemma insert_walk_steps hp cs hs ep k l :
  k ≤ length hs →
  ∃ l', rtc mstep (mkMachine hp (cs ++ [mkCo hs ep k l false]))
     (mkMachine (insert_walk hp l (drop k hs) ep) (cs ++ [mkCo hs ep (length hs) l' false])).
Proof.
  intros Hk. remember (length hs - k) as n eqn:Hn. revert hp k l Hk Hn.
  assert (Hlast : ∀ c : coroutine, (cs ++ [c]) !! length cs = Some c)
    by (intros; by apply list_lookup_middle).
  assert (Hins : ∀ c c' : coroutine, <[length cs := c']> (cs ++ [c]) = cs ++ [c']).
  { intros. rewrite <-(Nat.add_0_r (length cs)) at 1. by rewrite insert_app_r. }
  induction n as [|n IH]; intros hp k l Hk Hn.
  { assert (k = length hs) as -> by lia. rewrite drop_all. simpl. exists l. done. }
  destruct (lookup_lt_is_Some_2 hs k) as [h Hh]; [lia|].
  rewrite (drop_S _ _ _ Hh). simpl. destruct (get_or_create hp l h) as [hp1 c] eqn:E.
  destruct (IH (add_endpoint hp1 c ep) (S k) c) as [l' Hr]; [apply lookup_lt_Some in Hh; lia|lia|].
  exists l'. eapply rtc_l; [by eapply step_child|]. rewrite Hins.
  eapply rtc_l; [by eapply step_add|]. by rewrite Hins.
Qed.

(** The trie after a sequence of insertions of hashed requests. *)
Definition insert_hashes (hp : list TrieNode) (r : list Z * string) : list TrieNode :=
  insert_walk (add_endpoint hp 0 r.2) 0 r.1 r.2.

Lemma insert_hashes_steps hp cs hs ep :
  ∃ l, rtc mstep (mkMachine hp cs)
    (mkMachine (insert_hashes hp (hs, ep)) (cs ++ [mkCo hs ep (length hs) l false])).
Proof.
  destruct (insert_walk_steps (add_endpoint hp 0 ep) cs hs ep 0 0) as [l Hr]; [lia|].
  exists l. eapply rtc_l; [apply step_spawn|]. eapply rtc_l.
  - eapply (step_add _ _ (length cs)). by apply list_lookup_middle.
  - replace (<[length cs := mkCo hs ep 0 0 false]> (cs ++ [mkCo hs ep 0 0 true]))
      with (cs ++ [mkCo hs ep 0 0 false]).
    + exact Hr.
    + rewrite <-(Nat.add_0_r (length cs)) at 1. by rewrite insert_app_r.
Qed.

(** ** What a lookup answers *)

(** [holders] of a history: the endpoints sent a request that starts with [p]. *)
Definition holds (H : list (list Z * string)) (p : list Z) (ep : string) : Prop :=
  ∃ hs, (hs, ep) ∈ H ∧ p `prefix_of` hs.

(** The heap answers like the history. *)
Definition represents (hp : list TrieNode) (H : list (list Z * string)) : Prop :=
  (∀ p, is_Some (node_at hp p) ↔ p = [] ∨ ∃ ep, holds H p ep) ∧
  (∀ p ep, ep ∈ holders_at hp p ↔ holds H p ep).

Lemma represents_done m :
  trie_inv m → Forall c_done m.(m_cos) →
  represents m.(m_heap) ((λ c, (c.(c_hashes), c.(c_ep))) <$> m.(m_cos)).
Proof.
  intros I Hd. rewrite Forall_forall in Hd.
  assert (Hh : ∀ p ep, holds ((λ c, (c_hashes c, c_ep c)) <$> m_cos m) p ep ↔
    ∃ c, c ∈ m_cos m ∧ c_ep c = ep ∧ p `prefix_of` c_hashes c).
  { intros p ep. unfold holds. setoid_rewrite list_elem_of_fmap. naive_solver. }
  split.
  - intros p. rewrite (inv_created _ I). setoid_rewrite Hh. split.
    + intros [?|(c & Hc & Hp & _)]; [by left|right]. eauto.
    + intros [?|(ep & c & Hc & _ & Hp)]; [by left|right]. exists c. split; [done|]. split; [done|].
      destruct (Hd _ Hc) as [_ ->]. by apply prefix_length.
  - intros p ep. rewrite (inv_holders _ I), Hh. split.
    + intros (c & ? & ? & ? & _). eauto.
    + intros (c & Hc & ? & Hp). exists c. split; [done|]. split; [done|]. split; [done|].
      destruct (Hd _ Hc) as [-> ->]. apply prefix_length in Hp. lia.
Qed.

(** The prefix nesting of holders: a longer prefix is held by fewer endpoints. *)
Lemma holds_prefix H p q ep : p `prefix_of` q → holds H q ep → holds H p ep.
Proof. intros Hpq (hs & ? & ?). exists hs. split; [done|]. by etrans. Qed.

Lemma match_walk_spec n hp H (avail : gset string) hs k l len sel :
  represents hp H → k ≤ length hs → node_at hp (take k hs) = Some l →
  (∀ ep, ep ∈ sel ↔ ep ∈ avail ∧ (k = 0 ∨ holds H (take k hs) ep)) → len = k * n →
  ∃ k', k ≤ k' ≤ length hs ∧
    (match_walk n hp l (drop k hs) len sel).1 = k' * n ∧
    (∀ ep, ep ∈ (match_walk n hp l (drop k hs) len sel).2 ↔
       ep ∈ avail ∧ (k' = 0 ∨ holds H (take k' hs) ep)) ∧
    (k < k' → ∃ ep, ep ∈ avail ∧ holds H (take k' hs) ep) ∧
    (k' < length hs → ∀ ep, ep ∈ avail → ¬ holds H (take (S k') hs) ep).
Proof.
  intros [Hnode Hhold] Hk. remember (length hs - k) as j eqn:Hj.
  revert k l len sel Hk Hj. induction j as [|j IH]; intros k l len sel Hk Hj Hl Hsel ->.
  { assert (k = length hs) as -> by lia. rewrite drop_all. simpl.
    exists (length hs). split_and!; [lia|lia|done|done|lia|lia]. }
  destruct (lookup_lt_is_Some_2 hs k) as [h Hh]; [lia|].
  rewrite (drop_S _ _ _ Hh). simpl. pose proof (take_S_r _ _ _ Hh) as Htk.
  pose proof (node_at_snoc hp (take k hs) h) as Hs. rewrite Hl, <-Htk in Hs. simpl in Hs.
  destruct (hp !! l ≫= λ nd, children nd !! h) as [c|] eqn:E.
  - assert (Hc : ∀ ep, ep ∈ from_option endpoints ∅ (hp !! c) ↔ holds H (take (S k) hs) ep).
    { intros ep. rewrite <-Hhold. unfold holders_at. by rewrite Hs. }
    case_decide as Hint.
    + exists k. split_and!; [lia|lia|done|done|lia|].
      intros _ ep Ha Hep. assert (ep ∈ (∅ : gset string)) as He; [|set_solver].
      rewrite <-Hint. rewrite elem_of_intersection, Hc, Hsel. split; [done|].
      split; [done|]. right. eapply holds_prefix; [|done]. rewrite Htk. by apply prefix_app_r.
    + destruct (IH (S k) c (k * n + n) (from_option endpoints ∅ (hp !! c) ∩ sel))
        as (k' & ? & Hlen & Hin & Hex & Hmax); [lia|lia|done| |lia|].
      { intros ep. rewrite elem_of_intersection, Hc, Hsel. split.
        - intros (Hep & Ha & _). auto.
        - intros (Ha & [?|Hep]); [done|]. split; [done|]. split; [done|]. right.
          eapply holds_prefix; [|done]. rewrite Htk. by apply prefix_app_r. }
      exists k'. split_and!; [lia|lia|done|done| |done].
      intros _. destruct (decide (S k < k')); [by apply Hex|]. assert (k' = S k) as -> by lia.
      apply set_choose_L in Hint as [ep Hep]. rewrite elem_of_intersection, Hc, Hsel in Hep.
      exists ep. tauto.
  - exists k. split_and!; [lia|lia|done|done|lia|]. intros _ ep _ Hep.
    destruct (proj2 (Hnode (take (S k) hs))) as [? ?]; [eauto|congruence].
Qed.

(** The trie after a history of completed insertions, oldest first. *)
Definition trie_of (H : list (list Z * string)) : list TrieNode :=
  foldl insert_hashes [TrieNode_init] H.

Lemma trie_of_steps H :
  ∃ cs, rtc mstep machine_init (mkMachine (trie_of H) cs) ∧ Forall c_done cs ∧
        (λ c, (c.(c_hashes), c.(c_ep))) <$> cs = H.
Proof.
  unfold trie_of. induction H as [|[hs ep] H IH] using rev_ind.
  { exists []. split; [done|]. by split. }
  destruct IH as (cs & Hr & Hd & HH). rewrite foldl_app. simpl.
  destruct (insert_hashes_steps (foldl insert_hashes [TrieNode_init] H) cs hs ep) as [l Hr2].
  eexists. split; [by etrans|]. split; [apply Forall_app; by repeat constructor|].
  rewrite fmap_app, HH. done.
Qed.

Lemma insert_trie_of xxh64 H n request ep hs :
  chunk_and_hash xxh64 n request = Ok hs →
  insert xxh64 request ep (mkTrie (trie_of H) n) = (mkTrie (trie_of (H ++ [(hs, ep)])) n, Ok tt).
Proof. intros Hc. unfold insert. simpl. rewrite Hc. unfold trie_of. by rewrite foldl_app. Qed.

Lemma trie_of_represents H : represents (trie_of H) H.
Proof.
  destruct (trie_of_steps H) as (cs & Hr & Hd & HH).
  pose proof (represents_done _ (trie_inv_reachable _ Hr) Hd) as Hrep. simpl in Hrep.
  by rewrite HH in Hrep.
Qed.

(** The lookup's answer in terms of the history. *)
Lemma match_longest xxh64 H n request available hs :
  chunk_and_hash xxh64 n request = Ok hs →
  ∃ k len sel,
    longest_prefix_match xxh64 request available (mkTrie (trie_of H) n) = Ok (len, sel) ∧
    k ≤ length hs ∧ len = k * n ∧
    (∀ ep, ep ∈ sel ↔ ep ∈ available ∧ (k = 0 ∨ holds H (take k hs) ep)) ∧
    (0 < k → ∃ ep, ep ∈ available ∧ holds H (take k hs) ep) ∧
    (∀ k' ep, k < k' ≤ length hs → ep ∈ available → ¬ holds H (take k' hs) ep).
Proof.
  intros Hc. unfold longest_prefix_match. simpl. rewrite Hc. simpl.
  destruct (match_walk_spec n (trie_of H) H available hs 0 0 0 available)
    as (k & Hk & Hlen & Hsel & Hex & Hmax); [apply trie_of_represents|lia|done|naive_solver|lia|].
  rewrite drop_0 in *.
  destruct (match_walk n (trie_of H) 0 hs 0 available) as [len sel]. simpl in *.
  exists k, len, sel. split_and!; [done|lia|done|done|done|].
  intros k' ep [Hlt Hle] Ha Hh. apply (Hmax ltac:(lia) ep Ha).
  eapply holds_prefix; [|done].
  replace (take (S k) hs) with (take (S k) (take k' hs)) by (rewrite take_take; f_equal; lia).
  apply prefix_take.
Qed.

(** ** Properties *)

(** C6: whatever the interleaving of concurrent [insert] coroutines, once all have
    returned the trie holds at every prefix exactly the endpoints of the insertions
    whose hashed request starts with that prefix, and has no other nodes; so the
    outcome is that of running the insertions one after the other. *)
Theorem concurrent_inserts_linearize m :
  rtc mstep machine_init m → Forall c_done m.(m_cos) →
  let H := (λ c, (c.(c_hashes), c.(c_ep))) <$> m.(m_cos) in
  ∀ p, (is_Some (node_at m.(m_heap) p) ↔ is_Some (node_at (trie_of H) p)) ∧
       holders_at m.(m_heap) p = holders_at (trie_of H) p ∧
       (∀ ep, ep ∈ holders_at m.(m_heap) p ↔ ∃ hs, (hs, ep) ∈ H ∧ p `prefix_of` hs).
Proof.
  intros Hr Hd H p. destruct (represents_done _ (trie_inv_reachable _ Hr) Hd) as [R1 R2].
  destruct (trie_of_represents H) as [T1 T2]. split_and!.
  - by rewrite R1, T1.
  - apply set_eq. intros ep. by rewrite R2, T2.
  - intros ep. apply R2.
Qed.

(** C7: a lookup in the trie of a history answers with the longest prefix, in whole
    chunks, of the request that some available endpoint has already been sent, and
    with exactly the available endpoints that have been sent it; with no such prefix
    it answers length 0 and all the available endpoints. *)
Theorem longest_prefix_match_is_longest xxh64 H n request available hs :
  chunk_and_hash xxh64 n request = Ok hs →
  ∃ k len sel,
    longest_prefix_match xxh64 request available (mkTrie (trie_of H) n) = Ok (len, sel) ∧
    k ≤ length hs ∧ len = k * n ∧
    (∀ ep, ep ∈ sel ↔ ep ∈ available ∧ (k = 0 ∨ holds H (take k hs) ep)) ∧
    (0 < k → ∃ ep, ep ∈ available ∧ holds H (take k hs) ep) ∧
    (∀ k' ep, k < k' ≤ length hs → ep ∈ available → ¬ holds H (take k' hs) ep).
Proof. apply match_longest. Qed.

(** Inserting a request makes its endpoint a full match for that request: the
    next lookup of the same request, with the endpoint available, matches every
    chunk and selects the endpoint. *)
Theorem insert_then_match xxh64 H n request ep available hs :
  chunk_and_hash xxh64 n request = Ok hs → ep ∈ available →
  ∃ t len sel,
    insert xxh64 request ep (mkTrie (trie_of H) n) = (t, Ok tt) ∧
    longest_prefix_match xxh64 request available t = Ok (len, sel) ∧
    len = length hs * n ∧ ep ∈ sel.
Proof.
  intros Hc Ha. exists (mkTrie (trie_of (H ++ [(hs, ep)])) n).
  destruct (match_longest xxh64 (H ++ [(hs, ep)]) n request available hs Hc)
    as (k & len & sel & Hm & Hk & Hlen & Hsel & _ & Hmax).
  exists len, sel.
  assert (Hself : ∀ j, holds (H ++ [(hs, ep)]) (take j hs) ep).
  { intros j. exists hs. split; [set_solver|apply prefix_take]. }
  assert (k = length hs) as ->.
  { destruct (decide (k = length hs)); [done|]. exfalso.
    apply (Hmax (length hs) ep); [lia|done|apply Hself]. }
  split_and!; [by apply insert_trie_of|done|done|]. apply Hsel. auto.
Qed.

(** ** Witnesses *)

(** A concrete hash: the sum of the character codes. *)
Fixpoint char_sum (s : string) : Z :=
  match s with EmptyString => 0 | String c s' => Z.of_nat (Ascii.nat_of_ascii c) + char_sum s' end%Z.

(** Two insertions sharing their first chunk, interleaved block by block. *)
Definition two_done : machine :=
  mkMachine
    [mkNode {[1%Z := 1]} {["e2"; "e1"]}; mkNode {[2%Z := 2]} {["e2"; "e1"]}; mkNode ∅ {["e2"]}]
    [mkCo [1%Z] "e1" 1 1 false; mkCo [1%Z; 2%Z] "e2" 2 2 false].

Lemma two_done_reachable : rtc mstep machine_init two_done.
Proof.
  eapply rtc_l; [apply (step_spawn _ _ [1%Z] "e1")|].
  eapply rtc_l; [apply (step_spawn _ _ [1%Z; 2%Z] "e2")|].
  eapply rtc_l; [by apply (step_add _ _ 0)|].
  eapply rtc_l; [by apply (step_add _ _ 1)|].
  eapply rtc_l; [by eapply (step_child _ _ 0)|].
  eapply rtc_l; [by eapply (step_child _ _ 1)|].
  eapply rtc_l; [by apply (step_add _ _ 0)|].
  eapply rtc_l; [by apply (step_add _ _ 1)|].
  eapply rtc_l; [by eapply (step_child _ _ 1)|].
  eapply rtc_l; [by apply (step_add _ _ 1)|].
  vm_compute. constructor.
Qed.

Lemma concurrent_inserts_witness :
  holders_at two_done.(m_heap) [1%Z] = holders_at (trie_of [([1%Z], "e1"); ([1%Z; 2%Z], "e2")]) [1%Z].
Proof.
  refine (proj1 (proj2 (concurrent_inserts_linearize two_done two_done_reachable _ [1%Z]))).
  repeat constructor.
Defined.

Lemma longest_prefix_match_witness :
  chunk_and_hash char_sum 2 "abcdef" = Ok [195%Z; 199%Z; 203%Z] ∧
  ∃ k len sel,
    longest_prefix_match char_sum "abcdef" {["e1"]} (mkTrie (trie_of [([195%Z; 199%Z], "e1")]) 2)
      = Ok (len, sel) ∧ k ≤ 3 ∧ len = k * 2.
Proof.
  split; [reflexivity|].
  destruct (longest_prefix_match_is_longest char_sum [([195%Z; 199%Z], "e1")] 2 "abcdef" {["e1"]}
    [195%Z; 199%Z; 203%Z] eq_refl) as (k & len & sel & H1 & H2 & H3 & _).
  exists k, len, sel. split_and!; assumption.
Defined.

Lemma insert_then_match_witness :
  ∃ t len sel,
    insert char_sum "abcd" "e2" (mkTrie (trie_of [([195%Z], "e1")]) 2) = (t, Ok tt) ∧
    longest_prefix_match char_sum "abcd" {["e1"; "e2"]} t = Ok (len, sel) ∧
    len = 2 * 2 ∧ "e2" ∈ sel.
Proof.
  apply (insert_then_match char_sum [([195%Z], "e1")] 2 "abcd" "e2" {["e1"; "e2"]} [195%Z; 199%Z]).
  - reflexivity.
  - set_solver.
Defined.
