(* ===== verification/Routing.v ===== *)
(** * Routing logic (src/src/vllm_router/routers/routing_logic.py, first part)

    What the routers share ([RoutingInterface]: least-QPS routing, the hash ring and
    the session id) and the routers that need no external service: round robin,
    session, priority and the two disaggregated-prefill routers.  Each router is a
    [Module] with its state, [route_request] and its properties. *)

From S2P Require Import Prelude PyDict PyStr PyVal Endpoint RequestStats.

Local Open Scope py_scope.

(* ------------------------------------------------------------------ *)
(** ** Requests *)

(** The parts of a FastAPI request that routing reads; header names compare without
    regard to case. *)
Record Request : Type := mkRequest {
  req_headers : dict string string
}.
Fixpoint header_get (name : string) (hs : dict string string) : option string :=
  match hs with
  | [] => None
  | (k, v) :: hs' => if decide (lower k = lower name) then Some v else header_get name hs'
  end.

Definition url_set (endpoints : list EndpointInfo) : gset string :=
  list_to_set (url <$> endpoints).

(* ------------------------------------------------------------------ *)
(** ** [RoutingInterface] *)

(** The loop of [_qps_routing]; [best] is [(ret, lowest_qps)], [None] standing for
    [(None, inf)]. *)
Fixpoint qps_routing_go (endpoints : list EndpointInfo) (stats : gmap string RequestStats)
    (best : option (string * Q)) : option string :=
  match endpoints with
  | [] => fst <$> best
  | info :: rest =>
      match stats !! info.(url) with
      | None => Some info.(url)
      | Some st =>
          let better := match best with None => true | Some (_, q) => Qltb st.(qps) q end in
          qps_routing_go rest stats (if better then Some (info.(url), st.(qps)) else best)
      end
  end.
Definition qps_routing (endpoints : list EndpointInfo) (stats : gmap string RequestStats) :
  option string := qps_routing_go endpoints stats None.

(** [uhashring.HashRing]: a ring is a set of nodes; the node of a key is one of them,
    is determined by the nodes, and does not change when another node leaves. *)
Class HashRing (ring : Type) : Type := {
  ring_empty : ring;
  ring_nodes : ring → gset string;
  ring_add : string → ring → ring;
  ring_remove : string → ring → ring;
  ring_get : ring → pyval → option string;
  ring_nodes_empty : ring_nodes ring_empty = ∅;
  ring_nodes_add n r : ring_nodes (ring_add n r) = {[n]} ∪ ring_nodes r;
  ring_nodes_remove n r : ring_nodes (ring_remove n r) = ring_nodes r ∖ {[n]};
  ring_get_Some r k n : ring_get r k = Some n → n ∈ ring_nodes r;
  ring_get_None r k : ring_get r k = None → ring_nodes r = ∅;
  ring_get_nodes r r' k : ring_nodes r = ring_nodes r' → ring_get r k = ring_get r' k;
  ring_get_remove r k n m :
    ring_get r k = Some n → m ≠ n → ring_get (ring_remove m r) k = Some n
}.

Section interface.
Context {ring : Type} `{HashRing ring}.

Definition update_hash_ring (endpoints : list EndpointInfo) (r : ring) : ring :=
  let current_nodes := ring_nodes r in
  let new_nodes := url_set endpoints in
  let r := foldr ring_remove r (elements (current_nodes ∖ new_nodes)) in
  foldr ring_add r (elements (new_nodes ∖ current_nodes)).

Lemma ring_nodes_foldr_remove l r :
  ring_nodes (foldr ring_remove r l) = ring_nodes r ∖ list_to_set l.
Proof.
  induction l as [|x l IH]; simpl; [by rewrite difference_empty_L|].
  rewrite ring_nodes_remove, IH, difference_difference_l_L. f_equal. apply union_comm_L.
Qed.
Lemma ring_nodes_foldr_add l r :
  ring_nodes (foldr ring_add r l) = list_to_set l ∪ ring_nodes r.
Proof.
  induction l as [|x l IH]; simpl; [by rewrite union_empty_l_L|].
  by rewrite ring_nodes_add, IH, union_assoc_L.
Qed.
Lemma ring_nodes_update endpoints r :
  ring_nodes (update_hash_ring endpoints r) = url_set endpoints.
Proof.
  unfold update_hash_ring.
  rewrite ring_nodes_foldr_add, ring_nodes_foldr_remove, !list_to_set_elements_L.
  apply set_eq. intros x. rewrite elem_of_union, !elem_of_difference.
  destruct (decide (x ∈ url_set endpoints)), (decide (x ∈ ring_nodes r)); tauto.
Qed.
End interface.

(** [extract_session_id]: the header, else the body field. *)
Definition extract_session_id (session_key : option string) (request : Request)
    (request_json : dict string pyval) : option pyval :=
  match session_key with
  | None => None
  | Some key =>
      match header_get key request.(req_headers) with
      | Some v => Some (PStr v)
      | None => match dget key request_json with
                | Some PNone | None => None
                | Some v => Some v
                end
      end
  end.

(** ** Least-QPS routing *)

Lemma qps_routing_go_spec endpoints stats best u :
  qps_routing_go endpoints stats best = Some u →
  (stats !! u = None ∧ ∃ e, e ∈ endpoints ∧ e.(url) = u) ∨
  (∃ q, ((∃ e st, e ∈ endpoints ∧ e.(url) = u ∧ stats !! u = Some st ∧ st.(qps) = q) ∨
         best = Some (u, q)) ∧
        (∀ e, e ∈ endpoints → ∃ st, stats !! e.(url) = Some st ∧ (q <= st.(qps))%Q) ∧
        (∀ v q', best = Some (v, q') → (q <= q')%Q)).
Proof.
  revert best. induction endpoints as [|e es IH]; intros best; simpl.
  { destruct best as [[v q]|]; intros; simplify_eq/=. right. exists q. split_and!; [by right|..].
    - set_solver.
    - intros ? ? [= <- <-]. lra. }
  destruct (stats !! url e) as [st|] eqn:E.
  2:{ intros [= <-]. left. split; [done|]. exists e. set_solver. }
  set (better := match best with None => true | Some (_, q) => Qltb st.(qps) q end).
  intros [[Hn (e' & ? & ?)]|(q & Hq & Hall & Hb)]%IH.
  { left. split; [done|]. exists e'. set_solver. }
  right. exists q. destruct better eqn:Eb; unfold better in Eb.
  - assert (Hqe : (q <= qps st)%Q) by (by eapply Hb). split_and!.
    + destruct Hq as [(e' & st' & ? & ? & ? & ?)|[= <- <-]]; left.
      * exists e', st'. set_solver.
      * exists e, st. set_solver.
    + intros e' [->|He']%elem_of_cons; eauto.
    + intros v q' ->. apply Qltb_lt in Eb. lra.
  - destruct best as [[v q']|]; [|done]. apply Qltb_ge in Eb. split_and!.
    + destruct Hq as [(e' & st' & ? & ? & ? & ?)|?]; [left|by right]. exists e', st'. set_solver.
    + intros e' [->|He']%elem_of_cons; [|eauto]. exists st. split; [done|].
      pose proof (Hb _ _ eq_refl). lra.
    + intros ? ? [= <- <-]. by eapply Hb.
Qed.

Lemma qps_routing_is_Some endpoints stats :
  endpoints ≠ [] → is_Some (qps_routing endpoints stats).
Proof.
  assert (Hgo : ∀ es b, is_Some (qps_routing_go es stats (Some b))).
  { induction es as [|e es IH]; intros b; simpl; [by eauto|].
    destruct (stats !! url e); [|by eauto]. destruct b, (Qltb _ _); apply IH. }
  intros Hne. unfold qps_routing. destruct endpoints as [|e es]; [done|]. simpl.
  destruct (stats !! url e); [apply Hgo|by eauto].
Qed.

Lemma qps_routing_elem endpoints stats u :
  qps_routing endpoints stats = Some u → u ∈ url <$> endpoints.
Proof.
  intros [[_ (e & He & <-)]|(q & [(e & st & He & <- & _)|?] & _)]%qps_routing_go_spec; [..|done];
    by apply list_elem_of_fmap_2.
Qed.

(* ------------------------------------------------------------------ *)
(** ** [RoundRobinRouter] *)

Module RoundRobinRouter.
Definition MAX_CACHE_SIZE : nat := 1024.
#[global] Arguments MAX_CACHE_SIZE : simpl never.

Record state : Type := mkState {
  next_index : gmap (list string) nat;
  sorted_cache : gmap (gset string) (list string)
}.
Definition init : state := mkState ∅ ∅.

Definition endpoint_key (endpoints : list EndpointInfo) : M state (list string) := λ s,
  match endpoints with
  | [] => (s, Err (ValueError "RoundRobinRouter requires at least one endpoint"))
  | _ =>
      let urls := url_set endpoints in
      match s.(sorted_cache) !! urls with
      | Some key => (s, Ok key)
      | None =>
          let cache := if (MAX_CACHE_SIZE <=? size s.(sorted_cache)) then ∅
                       else s.(sorted_cache) in
          let key := py_sorted id (elements urls) in
          (mkState s.(next_index) (<[urls := key]> cache), Ok key)
      end
  end.

Definition route_request (endpoints : list EndpointInfo) : M state string :=
  endpoint_urls <- endpoint_key endpoints ;;
  λ s,
    let idx := default 0 (s.(next_index) !! endpoint_urls) in
    let index :=
      if (MAX_CACHE_SIZE <=? size s.(next_index)) &&
         bool_decide (s.(next_index) !! endpoint_urls = None)
      then ∅ else s.(next_index) in
    (mkState (<[endpoint_urls := S idx]> index) s.(sorted_cache),
     match length endpoint_urls with
     | 0 => Err (OtherException "ZeroDivisionError")
     | n => of_option IndexError (endpoint_urls !! (idx mod n))
     end).

(** The cache only holds sorted keys, and neither table outgrows its bound. *)
Record inv (s : state) : Prop := {
  inv_cache : ∀ urls key, s.(sorted_cache) !! urls = Some key →
    key = py_sorted id (elements urls);
  inv_cache_size : size s.(sorted_cache) ≤ MAX_CACHE_SIZE;
  inv_index_size : size s.(next_index) ≤ MAX_CACHE_SIZE
}.

Lemma inv_init : inv init.
Proof. split; cbn; [done|..]; rewrite map_size_empty; unfold MAX_CACHE_SIZE; lia. Qed.

Definition key_of (endpoints : list EndpointInfo) : list string :=
  py_sorted id (elements (url_set endpoints)).

Lemma key_of_elem endpoints u : u ∈ key_of endpoints ↔ u ∈ url <$> endpoints.
Proof.
  unfold key_of. rewrite elem_of_py_sorted, elem_of_elements. apply elem_of_list_to_set.
Qed.
Lemma key_of_nonempty endpoints : endpoints ≠ [] → 0 < length (key_of endpoints).
Proof.
  destruct endpoints as [|e es]; [done|]. intros _.
  assert (H : url e ∈ key_of (e :: es)) by (apply key_of_elem; set_solver).
  destruct (key_of (e :: es)); [set_solver|simpl; lia].
Qed.

Lemma endpoint_key_spec endpoints s :
  inv s → endpoints ≠ [] →
  ∃ s', endpoint_key endpoints s = (s', Ok (key_of endpoints)) ∧ inv s' ∧
        s'.(next_index) = s.(next_index).
Proof.
  intros [Hc Hs Hi] Hne. unfold endpoint_key. destruct endpoints as [|e es]; [done|].
  destruct (sorted_cache s !! url_set (e :: es)) as [key|] eqn:E.
  - exists s. apply Hc in E as E'. by rewrite E'.
  - eexists. split; [done|]. split; [|done].
    split; cbn [sorted_cache next_index]; [..|done].
    + intros urls key. destruct (MAX_CACHE_SIZE <=? size (sorted_cache s)).
      * rewrite lookup_insert. case_decide; [naive_solver|]. by rewrite lookup_empty.
      * rewrite lookup_insert. case_decide; [naive_solver|]. apply Hc.
    + destruct (MAX_CACHE_SIZE <=? size (sorted_cache s)) eqn:El.
      * rewrite map_size_insert, lookup_empty, map_size_empty. unfold MAX_CACHE_SIZE. lia.
      * apply Nat.leb_gt in El. rewrite map_size_insert, E. lia.
Qed.

(** One call: the answer is the entry of the sorted key at the stored index, which
    then advances by one; the bounds are kept. *)
Lemma rr_route_spec endpoints s :
  inv s → endpoints ≠ [] →
  let key := key_of endpoints in
  let idx := default 0 (s.(next_index) !! key) in
  ∃ s' u, route_request endpoints s = (s', Ok u) ∧ inv s' ∧
    key !! (idx mod length key) = Some u ∧
    s'.(next_index) !! key = Some (S idx).
Proof.
  intros Hinv Hne key idx. unfold route_request, bind.
  destruct (endpoint_key_spec endpoints s Hinv Hne) as (s1 & -> & [Hc Hs Hi] & Hn).
  rewrite Hn. fold key. fold idx.
  pose proof (key_of_nonempty _ Hne) as Hlen. fold key in Hlen.
  destruct (lookup_lt_is_Some_2 key (idx mod length key)) as [u Hu].
  { apply Nat.mod_upper_bound. lia. }
  eexists _, u. split; [f_equal; destruct (length key) eqn:El; [lia|]; by rewrite Hu|].
  split; [|split; [done|apply lookup_insert_eq]].
  split; cbn [sorted_cache next_index]; [done|done|]. rewrite map_size_insert. rewrite Hn in Hi.
  destruct (MAX_CACHE_SIZE <=? size (next_index s)) eqn:El; cbn [andb].
  - destruct (bool_decide _) eqn:Eb.
    + rewrite lookup_empty, map_size_empty. unfold MAX_CACHE_SIZE. lia.
    + apply bool_decide_eq_false in Eb. destruct (next_index s !! key); unfold id; [lia|done].
  - apply Nat.leb_gt in El. destruct (next_index s !! key); unfold id; lia.
Qed.

(** Consecutive calls, possibly with differently ordered lists of the same URLs. *)
Fixpoint route_many (calls : list (list EndpointInfo)) : M state (list string) :=
  match calls with
  | [] => ret []
  | es :: calls' =>
      u <- route_request es ;;
      us <- route_many calls' ;;
      ret (u :: us)
  end.

(** The state after serving any sequence of calls, failed ones included. *)
Definition serve (history : list (list EndpointInfo)) : state :=
  foldl (λ s es, (route_request es s).1) init history.

Lemma serve_inv history : inv (serve history).
Proof.
  unfold serve. induction history as [|es history IH] using rev_ind.
  { split; cbn [foldl init sorted_cache next_index]; [by intros ??; rewrite lookup_empty|..];
      rewrite map_size_empty; unfold MAX_CACHE_SIZE; lia. }
  rewrite foldl_app. cbn [foldl]. destruct es as [|e es].
  - exact IH.
  - destruct (rr_route_spec (e :: es) _ IH) as (s' & u & -> & Hinv & _); done.
Qed.

Lemma key_of_set es es' : url_set es = url_set es' → key_of es = key_of es'.
Proof. unfold key_of. by intros ->. Qed.

Lemma route_many_spec endpoints calls s :
  inv s → endpoints ≠ [] → Forall (λ es, url_set es = url_set endpoints) calls →
  let key := key_of endpoints in
  let idx := default 0 (s.(next_index) !! key) in
  ∃ s' us, route_many calls s = (s', Ok us) ∧ length us = length calls ∧
    ∀ j u, us !! j = Some u → key !! ((idx + j) mod length key) = Some u.
Proof.
  intros Hinv Hne Hall key. revert s Hinv.
  induction Hall as [|es calls Hes Hall IH]; intros s Hinv idx.
  { exists s, []. done. }
  assert (Hne' : es ≠ []).
  { intros ->. destruct endpoints as [|e' es']; [done|]. unfold url_set in Hes. simpl in Hes.
    set_solver. }
  pose proof (key_of_set _ _ Hes) as Hk. fold key in Hk.
  destruct (rr_route_spec es s Hinv Hne') as (s1 & u & E1 & Hinv1 & Hu & Hi1).
  rewrite Hk in Hu, Hi1. fold idx in Hu, Hi1.
  destruct (IH s1 Hinv1) as (s2 & us & E2 & Hlen & Hus). rewrite Hi1 in Hus. simpl in Hus.
  exists s2, (u :: us). cbn [route_many]. unfold bind. rewrite E1, E2. split; [done|].
  split; [simpl; lia|]. intros [|j] v Hv; simplify_eq/=.
  - by rewrite Nat.add_0_r.
  - rewrite <-(Hus _ _ Hv). f_equal. f_equal. lia.
Qed.

(** C11: the rotation is fair: from any reachable state, serving a number of
    consecutive requests equal to the number of distinct URLs, for the same set of
    URLs in whatever order and multiplicity they are listed, sends exactly one
    request to each URL, in the rotation order of the sorted URLs. *)
Theorem round_robin_is_fair history endpoints calls :
  endpoints ≠ [] → Forall (λ es, url_set es = url_set endpoints) calls →
  length calls = size (url_set endpoints) →
  ∃ s' us, route_many calls (serve history) = (s', Ok us) ∧
    us ≡ₚ elements (url_set endpoints).
Proof.
  intros Hne Hall Hlen.
  destruct (route_many_spec endpoints calls _ (serve_inv history) Hne Hall)
    as (s' & us & E & Hl & Hus).
  exists s', us. split; [done|].
  assert (Hkl : length (key_of endpoints) = size (url_set endpoints))
    by (unfold key_of; by rewrite length_py_sorted).
  transitivity (key_of endpoints); [|apply py_sorted_Permutation].
  eapply rotation_Permutation; [lia|exact Hus].
Qed.

(** Routing always answers with one of the listed URLs and keeps both tables
    within [_MAX_CACHE_SIZE] entries, however many different endpoint sets have
    been served; with no endpoint it raises and changes nothing. *)
Theorem round_robin_is_total_and_bounded history endpoints :
  let s := serve history in
  let '(s', r) := route_request endpoints s in
  size s'.(next_index) ≤ MAX_CACHE_SIZE ∧ size s'.(sorted_cache) ≤ MAX_CACHE_SIZE ∧
  match endpoints with
  | [] => s' = s ∧ r = Err (ValueError "RoundRobinRouter requires at least one endpoint")
  | _ => ∃ u, r = Ok u ∧ u ∈ url <$> endpoints
  end.
Proof.
  intros s. pose proof (serve_inv history) as Hinv. fold s in Hinv.
  destruct endpoints as [|e es].
  - cbn. destruct Hinv. done.
  - destruct (rr_route_spec (e :: es) s Hinv) as (s' & u & -> & [] & Hu & _); [done|].
    split_and!; [done|done|]. exists u. split; [done|].
    apply key_of_elem. by eapply list_elem_of_lookup_2.
Qed.

Definition ep (u : string) : EndpointInfo :=
  mkEndpoint u ["m"] u 0 None false true None None None None.

Lemma round_robin_is_fair_witness :
  ∃ s' us, route_many [[ep "b"; ep "a"]; [ep "a"; ep "b"; ep "a"]] (serve [[ep "a"; ep "b"]])
    = (s', Ok us) ∧ us ≡ₚ elements (url_set [ep "a"; ep "b"]).
Proof.
  apply (round_robin_is_fair [[ep "a"; ep "b"]] [ep "a"; ep "b"]).
  - done.
  - repeat constructor; vm_compute; reflexivity.
  - vm_compute. reflexivity.
Defined.
End RoundRobinRouter.

(* ------------------------------------------------------------------ *)
(** ** Routing by the hash ring *)

Section ring_routing.
Context {ring : Type} `{HashRing ring}.

(** The no-cache route shared by the session, kvaware and loadaware routers: refresh
    the ring, then the session's node, else the engine with the lowest QPS. *)
Definition session_route (session_key : option string) (endpoints : list EndpointInfo)
    (stats : gmap string RequestStats) (request : Request)
    (request_json : dict string pyval) (r : ring) : ring * option string :=
  let session_id := extract_session_id session_key request request_json in
  let r := update_hash_ring endpoints r in
  (r, match session_id with
      | None => qps_routing endpoints stats
      | Some sid => ring_get r sid
      end).

Lemma ring_get_foldr_remove r l k n :
  ring_get r k = Some n → n ∉ l → ring_get (foldr ring_remove r l) k = Some n.
Proof.
  intros Hg. induction l as [|m l IH]; simpl; [done|]. rewrite not_elem_of_cons.
  intros [? ?]. apply ring_get_remove; [auto|congruence].
Qed.

(** Two rings: a key keeps its node unless it is gone or the key moved to a newcomer. *)
Lemma ring_get_disruption r1 r2 k u1 u2 :
  ring_get r1 k = Some u1 → ring_get r2 k = Some u2 →
  u1 ∈ ring_nodes r2 → u2 ∈ ring_nodes r1 → u1 = u2.
Proof.
  intros H1 H2 Hu1 Hu2.
  pose proof (ring_get_foldr_remove r1 (elements (ring_nodes r1 ∖ ring_nodes r2)) k u1 H1) as E1.
  pose proof (ring_get_foldr_remove r2 (elements (ring_nodes r2 ∖ ring_nodes r1)) k u2 H2) as E2.
  rewrite elem_of_elements, elem_of_difference in E1, E2.
  specialize (E1 ltac:(tauto)). specialize (E2 ltac:(tauto)).
  erewrite ring_get_nodes in E1; [rewrite E1 in E2; congruence|].
  rewrite !ring_nodes_foldr_remove, !list_to_set_elements_L. apply set_eq. intros x.
  rewrite !elem_of_difference.
  destruct (decide (x ∈ ring_nodes r1)), (decide (x ∈ ring_nodes r2)); tauto.
Qed.

Lemma session_route_elem session_key endpoints stats request json r r' u :
  session_route session_key endpoints stats request json r = (r', Some u) →
  u ∈ url <$> endpoints.
Proof.
  unfold session_route. destruct (extract_session_id _ _ _) as [sid|]; intros [= <- Hu].
  - apply ring_get_Some in Hu. rewrite ring_nodes_update in Hu. unfold url_set in Hu.
    by rewrite elem_of_list_to_set in Hu.
  - by apply qps_routing_elem in Hu.
Qed.

Lemma session_route_Some session_key endpoints stats request json r :
  endpoints ≠ [] →
  ∃ r' u, session_route session_key endpoints stats request json r = (r', Some u).
Proof.
  intros Hne. unfold session_route. destruct (extract_session_id _ _ _) as [sid|].
  - destruct (ring_get (update_hash_ring endpoints r) sid) eqn:E; [eauto|].
    apply ring_get_None in E. rewrite ring_nodes_update in E. destruct endpoints; [done|].
    unfold url_set in E. simpl in E. set_solver.
  - destruct (qps_routing_is_Some endpoints stats Hne) as [u ->]. eauto.
Qed.
End ring_routing.

Module SessionRouter.
Section router.
Context {ring : Type} `{HashRing ring}.

Record state : Type := mkState {
  session_key : string;
  hash_ring : ring
}.
(** [__init__] of a fresh instance. *)
Definition init (key : option string) : res state :=
  match key with
  | None => Err (ValueError "SessionRouter must be initialized with a session_key")
  | Some k => Ok (mkState k ring_empty)
  end.

Definition route_request (endpoints : list EndpointInfo) (stats : gmap string RequestStats)
    (request : Request) (request_json : dict string pyval) : M state (option string) := λ s,
  let '(r, u) := session_route (Some s.(session_key)) endpoints stats request request_json
                   s.(hash_ring) in
  (mkState s.(session_key) r, Ok u).

(** C13: a session stays on its engine: two requests with the same session id, in
    any two states of routers with the same session key, go to the same engine
    whenever the first one's engine is still listed, except that the second may go
    to an engine that was not listed for the first.  In particular an unchanged
    endpoint list gives an unchanged choice. *)
Theorem session_affinity s1 s2 es1 es2 st1 st2 rq1 rq2 js1 js2 sid s1' s2' u1 u2 :
  s1.(session_key) = s2.(session_key) →
  extract_session_id (Some s1.(session_key)) rq1 js1 = Some sid →
  extract_session_id (Some s2.(session_key)) rq2 js2 = Some sid →
  route_request es1 st1 rq1 js1 s1 = (s1', Ok (Some u1)) →
  route_request es2 st2 rq2 js2 s2 = (s2', Ok (Some u2)) →
  u1 ∈ url <$> es2 →
  u2 = u1 ∨ (u2 ∈ url <$> es2 ∧ u2 ∉ url <$> es1).
Proof.
  intros Hk He1 He2 H1 H2 Hu1. unfold route_request, session_route in *.
  rewrite He1 in H1. rewrite He2 in H2. injection H1 as _ H1. injection H2 as _ H2.
  assert (Hset : ∀ v es, v ∈ url_set es ↔ v ∈ url <$> es).
  { intros. unfold url_set. apply elem_of_list_to_set. }
  destruct (decide (u2 ∈ url <$> es1)) as [Hin|Hout].
  - left. symmetry. eapply ring_get_disruption; [exact H1|exact H2|..];
      rewrite ring_nodes_update; by apply Hset.
  - right. split; [|done]. apply ring_get_Some in H2. rewrite ring_nodes_update in H2.
    by apply Hset.
Qed.

(** A request with a non-empty endpoint list is always routed to one of the
    listed URLs; without a session id it goes to an engine the statistics do not
    know yet, or to one whose QPS no listed engine undercuts. *)
Theorem session_routing_is_total s endpoints stats request js :
  endpoints ≠ [] →
  ∃ s' u, route_request endpoints stats request js s = (s', Ok (Some u)) ∧
    u ∈ url <$> endpoints ∧
    (extract_session_id (Some s.(session_key)) request js = None →
     stats !! u = None ∨
     ∃ st, stats !! u = Some st ∧ ∀ e, e ∈ endpoints →
       ∃ st', stats !! e.(url) = Some st' ∧ (st.(qps) <= st'.(qps))%Q).
Proof.
  intros Hne. unfold route_request.
  destruct (session_route_Some (Some (session_key s)) endpoints stats request js
    (hash_ring s) Hne) as (r & u & E).
  rewrite E. eexists _, u. split; [done|].
  split; [by eapply session_route_elem|]. intros Hs. unfold session_route in E.
  rewrite Hs in E. injection E as _ E.
  apply qps_routing_go_spec in E as [[? _]|(q & [(e & st & He & <- & Hst & Hq)|?] & Hall & _)];
    [by left|right|done].
  exists st. split; [done|]. by rewrite Hq.
Qed.
End router.
Arguments state : clear implicits.
End SessionRouter.

(** ** A hash ring: the lexicographically least node *)

Definition min_node (nodes : gset string) : option string := head (py_sorted id (elements nodes)).

Lemma min_node_spec nodes n :
  min_node nodes = Some n ↔ n ∈ nodes ∧ ∀ m, m ∈ nodes → String.le n m.
Proof.
  unfold min_node. pose proof (py_sorted_sorted id (elements nodes)) as Hs.
  pose proof (λ x, elem_of_py_sorted id x (elements nodes)) as Hin.
  destruct (py_sorted id (elements nodes)) as [|x l]; simpl.
  - split; [done|]. intros [Hn%elem_of_elements%Hin _]. set_solver.
  - inversion_clear Hs as [|?? Hs' Hf]. rewrite Forall_forall in Hf. split.
    + intros [= <-]. split; [apply elem_of_elements, Hin; set_solver|].
      intros m [->|Hm]%elem_of_elements%Hin%elem_of_cons; [reflexivity|by apply Hf].
    + intros [Hn Hle]. f_equal. apply (anti_symm String.le).
      * apply elem_of_elements, Hin, elem_of_cons in Hn as [->|Hn]; [reflexivity|by apply Hf].
      * apply Hle, elem_of_elements, Hin. set_solver.
Qed.

Lemma min_node_None nodes : min_node nodes = None → nodes = ∅.
Proof.
  unfold min_node in *. pose proof (λ x, elem_of_py_sorted id x (elements nodes)) as Hin.
  destruct (py_sorted id (elements nodes)); [|done]. intros _. apply set_eq. intros x.
  rewrite <-elem_of_elements, <-Hin. set_solver.
Qed.

#[export] Instance set_ring : HashRing (gset string).
Proof.
  refine {|
    ring_empty := ∅;
    ring_nodes := λ r, r;
    ring_add := λ n r, {[n]} ∪ r;
    ring_remove := λ n r, r ∖ {[n]};
    ring_get := λ r _, min_node r
  |}; try done.
  - intros r k n Hn. by apply min_node_spec in Hn as [? _].
  - intros r k. apply min_node_None.
  - by intros r r' k ->.
  - intros r k n m. rewrite !min_node_spec. set_solver.
Defined.

Definition ep_of (u : string) : EndpointInfo :=
  mkEndpoint u ["m"] u 0 None false true None None None None.
Definition rq_session : Request := mkRequest [("X-Session", "alice")].

Lemma session_affinity_witness :
  "http://a" = "http://a" ∨
  ("http://a" ∈ url <$> [ep_of "http://a"; ep_of "http://c"] ∧
   "http://a" ∉ url <$> [ep_of "http://b"; ep_of "http://a"]).
Proof.
  apply (SessionRouter.session_affinity (ring := gset string)
    (SessionRouter.mkState "x-session" ∅) (SessionRouter.mkState "x-session" ∅)
    [ep_of "http://b"; ep_of "http://a"] [ep_of "http://a"; ep_of "http://c"] ∅ ∅
    rq_session rq_session [] [] (PStr "alice")
    (SessionRouter.mkState "x-session" {["http://a"; "http://b"]})
    (SessionRouter.mkState "x-session" {["http://a"; "http://c"]}));
    try (vm_compute; reflexivity).
  set_solver.
Defined.

Lemma session_routing_witness :
  ∃ s' u, SessionRouter.route_request (ring := gset string) [ep_of "http://b"; ep_of "http://a"] ∅
      (mkRequest []) [] (SessionRouter.mkState "x-session" ∅) = (s', Ok (Some u)) ∧
    u ∈ url <$> [ep_of "http://b"; ep_of "http://a"].
Proof.
  destruct (SessionRouter.session_routing_is_total (ring := gset string)
    (SessionRouter.mkState "x-session" ∅) [ep_of "http://b"; ep_of "http://a"] ∅ (mkRequest []) []
    ltac:(discriminate)) as (s' & u & H1 & H2 & _).
  exists s', u. split; assumption.
Defined.
