(* ===== verification/RoutingPriority.v ===== *)
(** * Priority and disaggregated-prefill routing
      (src/src/vllm_router/routers/routing_logic.py, second part)

    [PriorityRouter] sends urgent requests to the least loaded engine and rotates
    the others; [DisaggregatedPrefillRouter] and
    [DisaggregatedPrefillOrchestratedRouter] pick prefill and decode engines by
    their model labels. *)

From S2P Require Import Prelude PyDict PyStr PyVal Endpoint RequestStats Routing.
From Stdlib Require Import Sorted.

Local Open Scope py_scope.

(** [int(v)]; [None] where it raises [TypeError] or [ValueError]. *)
Definition py_int (v : pyval) : option Z :=
  match v with
  | PInt z => Some z
  | PBool b => Some (if b then 1 else 0)%Z
  | PFloat q => Some (Z.quot (Qnum q) (Zpos (Qden q)))
  | PStr s => int_of_str s
  | PNone | PList _ | PDict _ => None
  end.

(** [in_prefill_requests + in_decoding_requests] of an engine, 0 when unknown. *)
Definition in_flight (stats : gmap string RequestStats) (u : string) : Z :=
  match stats !! u with
  | None => 0
  | Some st => st.(in_prefill_requests) + st.(in_decoding_requests)
  end%Z.

Module PriorityRouter.
Record state : Type := mkState {
  priority_header : string;
  priority_field : string;
  priority_default : Z;
  priority_threshold : Z;
  next_index : gmap (list string) nat;
  warned_scheduling_policy : bool
}.
Definition init (header field : string) (dflt : Z) (threshold : option Z) : state :=
  mkState header field dflt (default dflt threshold) ∅ false.

Definition extract_priority (request : Request) (request_json : dict string pyval) (s : state) : Z :=
  let from_body :=
    match dget s.(priority_field) request_json with
    | Some PNone | None => s.(priority_default)
    | Some v => default s.(priority_default) (py_int v)
    end in
  match header_get s.(priority_header) request.(req_headers) with
  | Some v => default from_body (int_of_str v)
  | None => from_body
  end.

Definition engine_load (stats : gmap string RequestStats) (u : string) : Z := in_flight stats u.

(** [route_request]; the resolved priority is written into the request body, which
    is returned with the URL. *)
Definition route_request (endpoints : list EndpointInfo) (stats : gmap string RequestStats)
    (request : Request) (request_json : dict string pyval) :
  M state (string * dict string pyval) := λ s,
  match endpoints with
  | [] => (s, Err (ValueError "PriorityRouter requires at least one endpoint"))
  | _ =>
      let s := mkState s.(priority_header) s.(priority_field) s.(priority_default)
                 s.(priority_threshold) s.(next_index) true in
      let priority := extract_priority request request_json s in
      let request_json := dset s.(priority_field) (PInt priority) request_json in
      let endpoint_urls := py_sorted id (url <$> endpoints) in
      if (priority <? s.(priority_threshold))%Z then
        (s, match argbest Z.ltb (engine_load stats) endpoint_urls with
            | None => Err (ValueError "min() arg is an empty sequence")
            | Some u => Ok (u, request_json)
            end)
      else
        let idx := default 0 (s.(next_index) !! endpoint_urls) in
        (mkState s.(priority_header) s.(priority_field) s.(priority_default)
           s.(priority_threshold) (<[endpoint_urls := S idx]> s.(next_index)) true,
         match endpoint_urls !! (idx mod length endpoint_urls) with
         | None => Err IndexError
         | Some u => Ok (u, request_json)
         end)
  end.

Lemma sorted_urls_nonempty endpoints :
  endpoints ≠ [] → 0 < length (py_sorted id (url <$> endpoints)).
Proof. rewrite length_py_sorted, length_fmap. destruct endpoints; [done|simpl; lia]. Qed.

Lemma sorted_before (l1 l2 : list string) u v :
  StronglySorted (key_le id) (l1 ++ u :: l2) → v ∈ l2 → String.le u v.
Proof.
  induction l1 as [|x l1 IH]; simpl; inversion_clear 1 as [|?? Hs Hf]; [|auto].
  intros Hv. rewrite Forall_forall in Hf. by apply Hf.
Qed.

(** Whatever the priority, the answer is a listed URL. *)
Lemma route_answers endpoints stats request js s :
  endpoints ≠ [] →
  ∃ s' u js', route_request endpoints stats request js s = (s', Ok (u, js')) ∧ u ∈ url <$> endpoints.
Proof.
  intros Hne. pose proof (sorted_urls_nonempty _ Hne) as Hlen. unfold route_request.
  destruct endpoints as [|e0 es]; [done|]. set (urls := py_sorted id (url <$> e0 :: es)) in *.
  assert (Hin : ∀ v, v ∈ urls → v ∈ url <$> e0 :: es) by (intros v; apply elem_of_py_sorted).
  destruct (_ <? _)%Z.
  - destruct urls as [|x l]; [simpl in Hlen; lia|]. cbn [argbest]. eexists _, _, _. split; [done|].
    apply Hin, argbest_from_elem.
  - destruct (lookup_lt_is_Some_2 urls
      (default 0 (next_index (mkState (priority_header s) (priority_field s) (priority_default s)
         (priority_threshold s) (next_index s) true) !! urls) mod length urls)) as [u Hu].
    { apply Nat.mod_upper_bound. lia. }
    rewrite Hu. eexists _, _, _. split; [done|]. apply Hin. by eapply list_elem_of_lookup_2.
Qed.

(** An urgent request goes to a least loaded engine: no listed engine has fewer
    requests in flight, among equally loaded ones the lexicographically first URL
    wins, the rotation does not advance and the resolved priority is written into
    the body. *)
Theorem urgent_goes_to_least_loaded endpoints stats request js s :
  endpoints ≠ [] →
  (extract_priority request js s < s.(priority_threshold))%Z →
  ∃ s' u, route_request endpoints stats request js s =
      (s', Ok (u, dset s.(priority_field) (PInt (extract_priority request js s)) js)) ∧
    s'.(next_index) = s.(next_index) ∧ u ∈ url <$> endpoints ∧
    ∀ e, e ∈ endpoints →
      (in_flight stats u <= in_flight stats e.(url))%Z ∧
      (in_flight stats e.(url) = in_flight stats u → String.le u e.(url)).
Proof.
  intros Hne Hp. pose proof (sorted_urls_nonempty _ Hne) as Hlen.
  unfold route_request. destruct endpoints as [|e0 es]; [done|].
  set (urls := py_sorted id (url <$> e0 :: es)) in *. apply Z.ltb_lt in Hp.
  replace (extract_priority request js (mkState _ _ _ _ _ true))
    with (extract_priority request js s) by done.
  cbn [priority_threshold priority_field]. rewrite Hp.
  destruct urls as [|x l] eqn:El; [simpl in Hlen; lia|]. cbn [argbest].
  set (u := argbest_from Z.ltb (engine_load stats) x l).
  eexists _, u. split; [done|]. split; [done|].
  assert (Hin : ∀ v, v ∈ x :: l ↔ v ∈ url <$> e0 :: es).
  { intros v. rewrite <-El. apply elem_of_py_sorted. }
  split; [apply Hin, argbest_from_elem|]. intros e He.
  assert (Hu : url e ∈ x :: l) by (apply Hin, list_elem_of_fmap_2; done).
  pose proof (argbest_from_best Z.ltb (engine_load stats) Zltb_asym Zltb_cotrans x l _ Hu) as Hb.
  fold u in Hb. apply Z.ltb_ge in Hb. split; [done|]. intros Heq.
  destruct (argbest_from_first Z.ltb (engine_load stats) Zltb_asym Zltb_cotrans x l)
    as (l1 & l2 & Hl & Hfirst). fold u in Hl, Hfirst.
  rewrite Hl in Hu. apply elem_of_app in Hu as [Hu|[->|Hu]%elem_of_cons].
  - apply Hfirst, Z.ltb_lt in Hu. unfold engine_load in Hu. lia.
  - reflexivity.
  - eapply sorted_before; [|done]. rewrite <-Hl, <-El. apply py_sorted_sorted.
Qed.

(** Other requests rotate over every listed engine, the least loaded one
    included: the answer is the sorted list of URLs at the stored index, which
    advances by one, and the resolved priority is written into the body. *)
Theorem others_rotate_over_all endpoints stats request js s :
  endpoints ≠ [] →
  (s.(priority_threshold) <= extract_priority request js s)%Z →
  let urls := py_sorted id (url <$> endpoints) in
  let idx := default 0 (s.(next_index) !! urls) in
  ∃ s' u, route_request endpoints stats request js s =
      (s', Ok (u, dset s.(priority_field) (PInt (extract_priority request js s)) js)) ∧
    urls !! (idx mod length urls) = Some u ∧ u ∈ url <$> endpoints ∧
    s'.(next_index) = <[urls := S idx]> s.(next_index).
Proof.
  intros Hne Hp urls idx. pose proof (sorted_urls_nonempty _ Hne) as Hlen. fold urls in Hlen.
  destruct (lookup_lt_is_Some_2 urls (idx mod length urls)) as [u Hu].
  { apply Nat.mod_upper_bound. lia. }
  unfold route_request. destruct endpoints as [|e0 es]; [done|].
  replace (extract_priority request js (mkState _ _ _ _ _ true))
    with (extract_priority request js s) by done.
  cbn [priority_threshold priority_field next_index]. apply Z.ltb_ge in Hp. rewrite Hp.
  fold urls. fold idx. rewrite Hu. eexists _, u. split; [done|]. split; [done|].
  split; [|done]. apply (elem_of_py_sorted id). by eapply list_elem_of_lookup_2.
Qed.
End PriorityRouter.

Definition prio_stats : gmap string RequestStats :=
  {["http://a" := mkRequestStats 1 1 2 1 0 1 0 0 0 0; "http://b" := mkRequestStats 1 1 0 1 0 1 0 0 0 0]}%Q.

Lemma urgent_witness :
  ∃ s' u, PriorityRouter.route_request [ep_of "http://a"; ep_of "http://b"] prio_stats
      (mkRequest [("X-Request-Priority", "-5")]) []
      (PriorityRouter.init "x-request-priority" "priority" 0 None)
      = (s', Ok (u, [("priority", PInt (-5))])).
Proof.
  destruct (PriorityRouter.urgent_goes_to_least_loaded [ep_of "http://a"; ep_of "http://b"] prio_stats
    (mkRequest [("X-Request-Priority", "-5")]) []
    (PriorityRouter.init "x-request-priority" "priority" 0 None)) as (s' & u & H & _).
  - discriminate.
  - vm_compute. reflexivity.
  - exists s', u. exact H.
Defined.

Lemma others_rotate_witness :
  ∃ s' u, PriorityRouter.route_request [ep_of "http://a"; ep_of "http://b"] prio_stats
      (mkRequest []) [("priority", PStr "7")]
      (PriorityRouter.init "x-request-priority" "priority" 0 None)
      = (s', Ok (u, [("priority", PInt 7)])).
Proof.
  destruct (PriorityRouter.others_rotate_over_all [ep_of "http://a"; ep_of "http://b"] prio_stats
    (mkRequest []) [("priority", PStr "7")]
    (PriorityRouter.init "x-request-priority" "priority" 0 None)) as (s' & u & H & _).
  - discriminate.
  - vm_compute. discriminate.
  - exists s', u. exact H.
Defined.

(* ------------------------------------------------------------------ *)
(** ** Disaggregated prefill *)

(** [[e for e in endpoints if e.model_label in labels]]. *)
Fixpoint with_label (ls : labels) (endpoints : list EndpointInfo) : res (list EndpointInfo) :=
  match endpoints with
  | [] => Ok []
  | e :: endpoints =>
      rbind (label_in e.(model_label) ls) (λ b,
      rbind (with_label ls endpoints) (λ r, Ok (if b : bool then e :: r else r)))
  end.

Lemma elem_of_with_label ls endpoints P e :
  with_label ls endpoints = Ok P → e ∈ P ↔ e ∈ endpoints ∧ label_in e.(model_label) ls = Ok true.
Proof.
  revert P. induction endpoints as [|x endpoints IH]; intros P; cbn [with_label].
  { intros [= <-]. set_solver. }
  intros (b & Hb & (r & Hr & HP)%rbind_Ok)%rbind_Ok. injection HP as <-. specialize (IH r Hr).
  rewrite elem_of_cons. destruct b; rewrite ?elem_of_cons, IH; split.
  - intros [->|[? ?]]; auto.
  - intros [[->|?] ?]; auto.
  - intros [? ?]; auto.
  - intros [[->|?] ?]; [congruence|auto].
Qed.
(** Labels in a list never fail. *)
Lemma with_label_list l endpoints :
  with_label (LabelList l) endpoints =
    Ok (filter (λ e, match e.(model_label) with Some x => bool_decide (x ∈ l) | None => false end = true) endpoints).
Proof.
  induction endpoints as [|e endpoints IH]; [done|]. cbn [with_label]. rewrite IH, filter_cons.
  unfold label_in. destruct (model_label e) as [x|]; simpl; [|done]. by destruct (bool_decide (x ∈ l)).
Qed.

Module DisaggregatedPrefillRouter.
(** [None] labels make [in] raise [TypeError] as soon as there is an endpoint. *)
Record state : Type := mkState {
  prefill_model_labels : option labels;
  decode_model_labels : option labels
}.
Definition init (prefill decode : option labels) : state := mkState prefill decode.

Definition labelled (ls : option labels) (endpoints : list EndpointInfo) : res (list EndpointInfo) :=
  match ls, endpoints with
  | None, [] => Ok []
  | None, _ :: _ => Err TypeError
  | Some ls, _ => with_label ls endpoints
  end.

Definition route_request (endpoints : list EndpointInfo) (request_json : dict string pyval) :
  M state string := λ s,
  let is_prefill := eq_int (dget_or "max_tokens" (PInt 0) request_json) 1 in
  (s, rbind (labelled s.(prefill_model_labels) endpoints) (λ prefiller_endpoints,
      rbind (labelled s.(decode_model_labels) endpoints) (λ decoder_endpoints,
      of_option IndexError (url <$> head (if is_prefill then prefiller_endpoints
                                          else decoder_endpoints))))).

(** A one-token request goes to the first prefill engine, any other to the first decode
    engine. *)
Lemma disagg_route_spec endpoints js p d P D :
  with_label p endpoints = Ok P → with_label d endpoints = Ok D →
  route_request endpoints js (mkState (Some p) (Some d)) =
    (mkState (Some p) (Some d),
     of_option IndexError (url <$> head (if eq_int (dget_or "max_tokens" (PInt 0) js) 1 then P else D))).
Proof. intros HP HD. unfold route_request. simpl. by rewrite HP, HD. Qed.
End DisaggregatedPrefillRouter.

Module DisaggregatedPrefillOrchestratedRouter.
Record state : Type := mkState {
  prefill_model_labels : labels;
  decode_model_labels : labels;
  prefill_idx : nat;
  decode_idx : nat
}.
(** [labels or []]. *)
Definition or_empty (ls : option labels) : labels :=
  match ls with None | Some (LabelText "") => LabelList [] | Some ls => ls end.
Definition init (prefill decode : option labels) : state :=
  mkState (or_empty prefill) (or_empty decode) 0 0.

Definition PREFILL_UNAVAILABLE : exn :=
  HTTPException 503 "PREFILL_SERVICE_UNAVAILABLE: No prefill endpoints discovered".
Definition DECODE_UNAVAILABLE : exn :=
  HTTPException 503 "DECODE_SERVICE_UNAVAILABLE: No decode endpoints discovered".

Definition find_endpoints (endpoints : list EndpointInfo) :
  M state (list EndpointInfo * list EndpointInfo) := λ s,
  (s, rbind (with_label s.(prefill_model_labels) endpoints) (λ prefiller_endpoints,
      rbind (with_label s.(decode_model_labels) endpoints) (λ decoder_endpoints,
      match prefiller_endpoints, decoder_endpoints with
      | [], _ => Err PREFILL_UNAVAILABLE
      | _, [] => Err DECODE_UNAVAILABLE
      | _, _ => Ok (prefiller_endpoints, decoder_endpoints)
      end))).

Definition select_prefill_endpoint (prefiller_endpoints : list EndpointInfo) :
  M state EndpointInfo := λ s,
  match prefiller_endpoints with
  | [] => (s, Err (ValueError "No prefill endpoints available"))
  | _ =>
      let sorted_endpoints := py_sorted url prefiller_endpoints in
      match sorted_endpoints !! (s.(prefill_idx) mod length sorted_endpoints) with
      | None => (s, Err IndexError)
      | Some selected =>
          (mkState s.(prefill_model_labels) s.(decode_model_labels)
             (S s.(prefill_idx)) s.(decode_idx), Ok selected)
      end
  end.

Definition select_decode_endpoint (decoder_endpoints : list EndpointInfo) :
  M state EndpointInfo := λ s,
  match decoder_endpoints with
  | [] => (s, Err (ValueError "No decode endpoints available"))
  | _ =>
      let sorted_endpoints := py_sorted url decoder_endpoints in
      match sorted_endpoints !! (s.(decode_idx) mod length sorted_endpoints) with
      | None => (s, Err IndexError)
      | Some selected =>
          (mkState s.(prefill_model_labels) s.(decode_model_labels)
             s.(prefill_idx) (S s.(decode_idx)), Ok selected)
      end
  end.

Definition route_request (endpoints : list EndpointInfo) : M state string :=
  eps <- find_endpoints endpoints ;;
  lift (of_option IndexError (url <$> head (eps.1))).

(** The three selections of a request in the orchestrated flow: both pools, then a
    prefill engine and a decode engine. *)
Definition select_pair (endpoints : list EndpointInfo) : M state (EndpointInfo * EndpointInfo) :=
  eps <- find_endpoints endpoints ;;
  p <- select_prefill_endpoint eps.1 ;;
  d <- select_decode_endpoint eps.2 ;;
  ret (p, d).

Fixpoint select_pairs (n : nat) (endpoints : list EndpointInfo) :
  M state (list (EndpointInfo * EndpointInfo)) :=
  match n with
  | 0 => ret []
  | S n => x <- select_pair endpoints ;; xs <- select_pairs n endpoints ;; ret (x :: xs)
  end.

Lemma sorted_lookup_mod (l : list EndpointInfo) i :
  l ≠ [] → ∃ e, py_sorted url l !! (i mod length (py_sorted url l)) = Some e ∧ e ∈ l.
Proof.
  intros Hl. destruct (lookup_lt_is_Some_2 (py_sorted url l) (i mod length (py_sorted url l)))
    as [e He].
  { apply Nat.mod_upper_bound. rewrite length_py_sorted. by destruct l. }
  exists e. split; [done|]. apply (elem_of_py_sorted url). by eapply list_elem_of_lookup_2.
Qed.

Lemma select_pair_spec endpoints s P D :
  with_label s.(prefill_model_labels) endpoints = Ok P →
  with_label s.(decode_model_labels) endpoints = Ok D →
  P ≠ [] → D ≠ [] →
  ∃ p d, select_pair endpoints s =
      (mkState s.(prefill_model_labels) s.(decode_model_labels)
         (S s.(prefill_idx)) (S s.(decode_idx)), Ok (p, d)) ∧
    py_sorted url P !! (s.(prefill_idx) mod length P) = Some p ∧
    py_sorted url D !! (s.(decode_idx) mod length D) = Some d.
Proof.
  intros EP ED HP HD.
  destruct (sorted_lookup_mod P s.(prefill_idx) HP) as (p & Hp & _).
  destruct (sorted_lookup_mod D s.(decode_idx) HD) as (d & Hd & _).
  exists p, d. rewrite !length_py_sorted in *. split; [|done].
  unfold select_pair, find_endpoints, bind. rewrite EP, ED. cbn [rbind].
  destruct P as [|p0 P']; [done|]. destruct D as [|d0 D']; [done|].
  cbn [fst snd]. unfold select_prefill_endpoint, select_decode_endpoint.
  rewrite !length_py_sorted, Hp. cbn [prefill_idx decode_idx]. by rewrite Hd.
Qed.

Lemma select_pairs_spec n endpoints s P D :
  with_label s.(prefill_model_labels) endpoints = Ok P →
  with_label s.(decode_model_labels) endpoints = Ok D →
  P ≠ [] → D ≠ [] →
  ∃ s' xs, select_pairs n endpoints s = (s', Ok xs) ∧ length xs = n ∧
    ∀ j x, xs !! j = Some x →
      py_sorted url P !! ((s.(prefill_idx) + j) mod length P) = Some x.1 ∧
      py_sorted url D !! ((s.(decode_idx) + j) mod length D) = Some x.2.
Proof.
  revert s. induction n as [|n IH]; intros s EP ED HP HD.
  { exists s, []. done. }
  destruct (select_pair_spec endpoints s P D EP ED HP HD) as (p & d & E & Hp & Hd).
  destruct (IH (mkState s.(prefill_model_labels) s.(decode_model_labels)
    (S s.(prefill_idx)) (S s.(decode_idx))) EP ED HP HD) as (s' & xs & E' & Hlen & Hxs).
  exists s', ((p, d) :: xs). cbn [select_pairs]. unfold bind at 1. rewrite E.
  unfold bind. rewrite E'. split; [done|]. split; [simpl; lia|].
  intros [|j] x Hx; simplify_eq/=.
  - rewrite !Nat.add_0_r. done.
  - specialize (Hxs _ _ Hx). cbn [prefill_idx decode_idx] in Hxs.
    rewrite <-!Nat.add_succ_comm. exact Hxs.
Qed.

(** The orchestrated router balances each pool: serving as many consecutive
    requests as there are prefill engines uses every prefill engine exactly once, and
    as many as there are decode engines every decode engine exactly once; a prefill
    engine carries a prefill label and a decode engine a decode label. *)
Theorem orchestrated_selection_is_fair s endpoints n s' xs P D :
  with_label s.(prefill_model_labels) endpoints = Ok P →
  with_label s.(decode_model_labels) endpoints = Ok D →
  P ≠ [] → D ≠ [] →
  select_pairs n endpoints s = (s', Ok xs) →
  length xs = n ∧
  (n = length P → xs.*1 ≡ₚ P) ∧ (n = length D → xs.*2 ≡ₚ D) ∧
  ∀ p d, (p, d) ∈ xs → p ∈ P ∧ d ∈ D.
Proof.
  intros EP ED HP HD E.
  destruct (select_pairs_spec n endpoints s P D EP ED HP HD) as (s2 & xs2 & E2 & Hlen & Hxs).
  rewrite E in E2. injection E2 as <- <-. split; [done|]. split_and!.
  - intros ->. trans (py_sorted url P); [|apply py_sorted_Permutation].
    eapply (rotation_Permutation _ _ s.(prefill_idx)).
    { rewrite length_fmap, length_py_sorted. lia. }
    intros j u (x & -> & Hx)%list_lookup_fmap_Some. rewrite length_py_sorted. by apply Hxs.
  - intros ->. trans (py_sorted url D); [|apply py_sorted_Permutation].
    eapply (rotation_Permutation _ _ s.(decode_idx)).
    { rewrite length_fmap, length_py_sorted. lia. }
    intros j u (x & -> & Hx)%list_lookup_fmap_Some. rewrite length_py_sorted. by apply Hxs.
  - intros p d [j Hj]%list_elem_of_lookup. destruct (Hxs _ _ Hj) as [Hp Hd].
    split; apply (elem_of_py_sorted url); by eapply list_elem_of_lookup_2.
Qed.

(** A request is refused with 503 exactly when a pool is empty, the missing pool
    is named, prefill first, and no counter moves. *)
Theorem orchestrated_pool_errors s endpoints P D :
  with_label s.(prefill_model_labels) endpoints = Ok P →
  with_label s.(decode_model_labels) endpoints = Ok D →
  match P, D with
  | [], _ => select_pair endpoints s = (s, Err PREFILL_UNAVAILABLE) ∧
             route_request endpoints s = (s, Err PREFILL_UNAVAILABLE)
  | _, [] => select_pair endpoints s = (s, Err DECODE_UNAVAILABLE) ∧
             route_request endpoints s = (s, Err DECODE_UNAVAILABLE)
  | p :: _, _ => is_ok (select_pair endpoints s).2 = true ∧
                 route_request endpoints s = (s, Ok p.(url))
  end.
Proof.
  intros EP ED. destruct P as [|p P']; [|destruct D as [|d D']].
  - unfold select_pair, route_request, find_endpoints, bind. by rewrite EP, ED.
  - unfold select_pair, route_request, find_endpoints, bind. by rewrite EP, ED.
  - destruct (select_pair_spec endpoints s _ _ EP ED) as (p' & d' & -> & _); [done..|].
    split; [done|]. unfold route_request, find_endpoints, bind. by rewrite EP, ED.
Qed.
End DisaggregatedPrefillOrchestratedRouter.

Definition labelled_ep (u l : string) : EndpointInfo :=
  mkEndpoint u ["m"] u 0 (Some l) false true None None None None.

Lemma orchestrated_selection_witness :
  let endpoints := [labelled_ep "http://p2" "p"; labelled_ep "http://d" "d";
                    labelled_ep "http://p1" "p"] in
  let start := DisaggregatedPrefillOrchestratedRouter.init (Some (LabelText "p,p-large")) (Some (LabelList ["d"])) in
  ∃ s' xs, DisaggregatedPrefillOrchestratedRouter.select_pairs 2 endpoints start = (s', Ok xs) ∧
    xs.*1 ≡ₚ [labelled_ep "http://p2" "p"; labelled_ep "http://p1" "p"].
Proof.
  intros endpoints start. eexists _, _. split; [vm_compute; reflexivity|].
  refine (proj1 (proj2 (DisaggregatedPrefillOrchestratedRouter.orchestrated_selection_is_fair
    start endpoints 2 _ _ [labelled_ep "http://p2" "p"; labelled_ep "http://p1" "p"] [labelled_ep "http://d" "d"]
    _ _ _ _ _)) _).
  - vm_compute. reflexivity.
  - vm_compute. reflexivity.
  - discriminate.
  - discriminate.
  - vm_compute. reflexivity.
  - reflexivity.
Defined.
