(* ===== verification/RoutingKv.v ===== *)
(** * KV-cache-aware routing (src/src/vllm_router/routers/routing_logic.py, third part)

    [KvawareRouter] sends a request where the longest cached prefix is;
    [LoadAwareRouter] weighs the cached prefix against the engine's load.  Both ask
    the LMCache controller, which is not part of the sources: its answers, the
    tokenizer's and the remote [/tokenize] call's are the record [Services]. *)

From S2P Require Import Prelude PyDict PyStr PyVal Endpoint RequestStats Routing RoutingPriority.
From Stdlib Require Import Sorted Qminmax.

Local Open Scope py_scope.

(** [layout_info]: instance id to a pair (location, matched tokens). *)
Abbreviation layout := (list (string * (string * Z))).

(** The answers of the outside world during one call. *)
Record Services : Type := mkServices {
  from_pretrained : string → res unit;
  encode : string → pyval → res (list Z);
  post_tokenize : string → string → pyval → res (list Z);
  lookup_msg : list Z → res (option layout);
  query_inst : string → res string
}.

Definition DEFAULT_LOADAWARE_BETA : Q := 1.

(** [_loadaware_beta]; [env] is the LOADAWARE_BETA variable. *)
Definition loadaware_beta (override : option Q) (env : option string) : Q :=
  match override with
  | Some b => b
  | None =>
      match env with
      | None => DEFAULT_LOADAWARE_BETA
      | Some raw => if decide (strip raw = "") then DEFAULT_LOADAWARE_BETA
                    else default DEFAULT_LOADAWARE_BETA (float_of_str raw)
      end
  end.

(** The state of a [KvawareRouter]; [monitor_task] says that the cluster monitor
    task is running. *)
Record kv_state (ring : Type) : Type := mkKv {
  instance_id_to_ip : dict string string;
  kv_session_key : option string;
  kv_hash_ring : ring;
  tokenizers : gset string;
  threshold : option Z;
  monitor_task : bool
}.
Arguments mkKv {ring}.
Arguments instance_id_to_ip {ring}.
Arguments kv_session_key {ring}.
Arguments kv_hash_ring {ring}.
Arguments tokenizers {ring}.
Arguments threshold {ring}.
Arguments monitor_task {ring}.

Section kv.
Context {ring : Type} `{HashRing ring}.
#[local] Abbreviation state := (kv_state ring).

Definition set_map (m : dict string string) (s : state) : state :=
  mkKv m s.(kv_session_key) s.(kv_hash_ring) s.(tokenizers) s.(threshold) s.(monitor_task).
Definition set_ring (r : ring) (s : state) : state :=
  mkKv s.(instance_id_to_ip) s.(kv_session_key) r s.(tokenizers) s.(threshold) s.(monitor_task).
Definition add_tokenizer (m : string) (s : state) : state :=
  mkKv s.(instance_id_to_ip) s.(kv_session_key) s.(kv_hash_ring) ({[m]} ∪ s.(tokenizers))
    s.(threshold) s.(monitor_task).

(** [KvawareRouter.__init__]: the state it sets beside the controller's. *)
Definition kv_init (session_key : option string) (kv_aware_threshold : option Z) : state :=
  mkKv [] session_key ring_empty ∅ kv_aware_threshold false.
Definition start_kv_manager (s : state) : state :=
  mkKv s.(instance_id_to_ip) s.(kv_session_key) s.(kv_hash_ring) s.(tokenizers) s.(threshold) true.
(** [close]: the monitor task is cancelled and awaited; a task that already failed
    raises its exception, and the task is then not forgotten. *)
Definition close (outcome : res unit) : M state unit := λ s,
  if s.(monitor_task) then
    match outcome with
    | Ok _ | Err CancelledError =>
        (mkKv s.(instance_id_to_ip) s.(kv_session_key) s.(kv_hash_ring) s.(tokenizers)
           s.(threshold) false, Ok tt)
    | Err e => (s, Err e)
    end
  else (s, Ok tt).

(** [endpoints[0].model_names[0]]. *)
Definition first_model (endpoints : list EndpointInfo) : res string :=
  rbind (of_option IndexError (head endpoints)) (λ e,
  of_option IndexError (head e.(model_names))).

Definition get_tokenizer (sv : Services) (endpoints : list EndpointInfo) : M state string :=
  model_name <- lift (first_model endpoints) ;;
  loaded <- gets (λ s, bool_decide (model_name ∈ s.(tokenizers))) ;;
  (if (loaded : bool) then ret tt
   else lift (sv.(from_pretrained) model_name) ;;; modify (add_tokenizer model_name)) ;;;
  ret model_name.

(** Local tokenization, else the first engine's [/tokenize]; the same code is inlined
    in [KvawareRouter.route_request]. *)
Definition tokenize_prompt (sv : Services) (endpoints : list EndpointInfo)
    (request_json : dict string pyval) : M state (list Z) :=
  let prompt := dget_or "prompt" (PStr "") request_json in
  try_except
    (t <- get_tokenizer sv endpoints ;; lift (sv.(encode) t prompt))
    (λ e, if negb (is_Exception e) then raise e else
      e0 <- lift (of_option IndexError (head endpoints)) ;;
      model <- lift (first_model endpoints) ;;
      lift (sv.(post_tokenize) (e0.(url) +:+ "/tokenize") model prompt)).

(** An endpoint URL the bridge cannot score, or a holder it has never seen. *)
Definition instance_map_is_stale (endpoints : list EndpointInfo) (layout_info : layout)
    (s : state) : bool :=
  let mapped_urls := dvalues s.(instance_id_to_ip) in
  existsb (λ e, bool_decide (e.(url) ∉ mapped_urls)) endpoints ||
  existsb (λ holder, negb (din holder s.(instance_id_to_ip))) (dkeys layout_info).

(** [endpoint.url.split(f":{endpoint.url.split(':')[-1]}")[0].split("//")[1]]. *)
Definition kv_query_ip (u : string) : res string :=
  let port := default "" (last (split ":" u)) in
  of_option IndexError (split "//" (partition_head (":" +:+ port) u) !! 1).

(** One [QueryInstMsg] round trip: the instance's URL is recorded. *)
Definition query_endpoint (sv : Services) (ip : res string) (e : EndpointInfo) : M state unit :=
  query_ip <- lift ip ;;
  iid <- lift (sv.(query_inst) query_ip) ;;
  modify (λ s, set_map (dset iid e.(url) s.(instance_id_to_ip)) s).

(** The session fallback on the router's own ring. *)
Definition fallback_url (endpoints : list EndpointInfo) (stats : gmap string RequestStats)
    (request : Request) (request_json : dict string pyval) : M state (option string) := λ s,
  let '(r, u) := session_route s.(kv_session_key) endpoints stats request request_json
                   s.(kv_hash_ring) in
  (set_ring r s, Ok u).

(** [{url: holder for holder, url in instance_id_to_ip.items() if url in live}]. *)
Definition url_to_instance (live : string → bool) (m : dict string string) : dict string string :=
  dict_of (omap (λ iu, if live iu.2 then Some (iu.2, iu.1) else None) m).

Definition live_holders (endpoints : list EndpointInfo) (layout_info : layout)
    (m : dict string string) : list string :=
  let live_urls := url_set endpoints in
  let u2i := url_to_instance (λ u, bool_decide (u ∈ live_urls)) m in
  filter (λ holder, holder ∈ dvalues u2i) (dkeys layout_info).

(** [layout_info[key][1]] for a key of [layout_info]. *)
Definition holder_tokens (layout_info : layout) (holder : string) : Z :=
  match dget holder layout_info with Some lt => lt.2 | None => 0 end.

(** [KvawareRouter.route_request]. *)
Definition kv_route_request (sv : Services) (endpoints : list EndpointInfo)
    (stats : gmap string RequestStats) (request : Request) (request_json : dict string pyval) :
  M state (option string) :=
  token_ids <- tokenize_prompt sv endpoints request_json ;;
  answer <- lift (sv.(lookup_msg) token_ids) ;;
  layout_info <- lift (of_option (AttributeError "layout_info") answer) ;;
  stale <- gets (instance_map_is_stale endpoints layout_info) ;;
  (if bool_decide (layout_info ≠ []) && stale
   then for_each endpoints (λ e, query_endpoint sv (kv_query_ip e.(url)) e)
   else ret tt) ;;;
  holders <- gets (λ s, live_holders endpoints layout_info s.(instance_id_to_ip)) ;;
  match argbest Z.gtb (holder_tokens layout_info) holders with
  | None => fallback_url endpoints stats request request_json
  | Some matched_instance_id =>
      th <- gets threshold ;;
      th <- lift (of_option TypeError th) ;;
      if (holder_tokens layout_info matched_instance_id
            <? Z.max (Z.of_nat (length token_ids) - th) 0)%Z
      then fallback_url endpoints stats request request_json
      else
        m <- gets instance_id_to_ip ;;
        lift (rbind (of_option (KeyError matched_instance_id) (dget matched_instance_id m))
                (λ u, Ok (Some u)))
  end.

(* ------------------------------------------------------------------ *)
(** ** [LoadAwareRouter] *)

(** [__init__]: the inherited state and the resolved weight. *)
Definition la_init (session_key : option string) (kv_aware_threshold : option Z)
    (beta : option Q) (env : option string) : state * Q :=
  (kv_init session_key (Some (default 2000%Z kv_aware_threshold)), loadaware_beta beta env).

Definition load_penalty (stats : gmap string RequestStats) (u : string) : Z := in_flight stats u.

Definition relative_loads (stats : gmap string RequestStats) (endpoints : list EndpointInfo) :
  dict string Q :=
  let loads := dict_of ((λ e, (e.(url), load_penalty stats e.(url))) <$> endpoints) in
  match loads with
  | [] => []
  | _ =>
      let mean := (Qsum (inject_Z <$> dvalues loads) / inject_Z (Z.of_nat (length loads)))%Q in
      (λ ul, (ul.1, (inject_Z ul.2 - mean) / Qmax 1 mean)%Q) <$> loads
  end.

Definition score_endpoint (beta : Q) (matched_tokens prompt_tokens : Z) (relative_load : Q) : Q :=
  (inject_Z (Z.min matched_tokens prompt_tokens) / inject_Z (Z.max prompt_tokens 1)
     - beta * relative_load)%Q.

Definition matched_tokens_by_url (layout_info : layout) (m : dict string string) : dict string Z :=
  omap (λ ui, (λ info : string * Z, (ui.1, info.2)) <$> dget ui.2 layout_info)
    (url_to_instance (λ _, true) m).

(** The score of one engine as [select_url] computes it. *)
Definition endpoint_score (beta : Q) (endpoints : list EndpointInfo)
    (stats : gmap string RequestStats) (layout_info : layout) (prompt_tokens : Z)
    (m : dict string string) (u : string) : Q :=
  score_endpoint beta (dget_or u 0%Z (matched_tokens_by_url layout_info m)) prompt_tokens
    (dget_or u 0%Q (relative_loads stats endpoints)).

(** One turn of the loop; [None] is [(None, -inf)]. *)
Definition select_step (score : string → Q) (best : option (string * Q)) (e : EndpointInfo) :
  option (string * Q) :=
  match best with
  | Some (_, best_score) =>
      if Qltb best_score (score e.(url)) then Some (e.(url), score e.(url)) else best
  | None => Some (e.(url), score e.(url))
  end.

Definition select_url (beta : Q) (endpoints : list EndpointInfo)
    (stats : gmap string RequestStats) (layout_info : layout) (prompt_tokens : Z)
    (m : dict string string) : option string :=
  let score := endpoint_score beta endpoints stats layout_info prompt_tokens m in
  fst <$> foldl (select_step score) None (py_sorted url endpoints).

(** [urlparse(url).hostname or ""]. *)
Definition la_query_ip (u : string) : string :=
  default "" (url_hostname (if contains "//" u then u else "//" +:+ u)).

(** [sched] is the order in which the gathered queries finish. *)
Definition refresh_instance_map (sv : Services) (sched endpoints : list EndpointInfo)
    (layout_info : layout) : M state unit := λ s,
  if negb (instance_map_is_stale endpoints layout_info s) then (s, Ok tt)
  else gather ((λ e, query_endpoint sv (Ok (la_query_ip e.(url))) e) <$> sched) s.

Definition la_route_request (beta : Q) (sv : Services) (sched endpoints : list EndpointInfo)
    (stats : gmap string RequestStats) (request : Request) (request_json : dict string pyval) :
  M state (option string) :=
  match endpoints with
  | [] => raise (HTTPException 503 "No backend endpoints available")
  | _ =>
      token_ids <- tokenize_prompt sv endpoints request_json ;;
      answer <- lift (sv.(lookup_msg) token_ids) ;;
      let layout_info := default [] answer in
      match layout_info with
      | [] => fallback_url endpoints stats request request_json
      | _ =>
          refresh_instance_map sv sched endpoints layout_info ;;;
          m <- gets instance_id_to_ip ;;
          match select_url beta endpoints stats layout_info (Z.of_nat (length token_ids)) m with
          | None => fallback_url endpoints stats request request_json
          | Some u => ret (Some u)
          end
      end
  end.

(* ------------------------------------------------------------------ *)
(** ** The bridge from instance ids to URLs *)

(** [i] is the last id the bridge lists for [u]: the one an inversion keeps. *)
Definition winner (d : dict string string) (i u : string) : Prop :=
  ∃ l1 l2, d = l1 ++ (i, u) :: l2 ∧ ∀ j, (j, u) ∉ l2.

Lemma elem_of_url_to_instance live m u i :
  dget u (url_to_instance live m) = Some i → (i, u) ∈ m ∧ live u = true.
Proof.
  unfold url_to_instance, dict_of. rewrite dget_dupdate. simpl.
  destruct (dget u (reverse _)) as [i'|] eqn:E; [|done]. intros [= ->].
  apply dget_elem, elem_of_reverse, list_elem_of_omap in E as ([i' u'] & Hin & E).
  simpl in E. destruct (live u') eqn:El; [|done]. by injection E as <- <-.
Qed.

Lemma elem_of_url_to_instance_values live m i :
  i ∈ dvalues (url_to_instance live m) → ∃ u, (i, u) ∈ m ∧ live u = true.
Proof.
  unfold dvalues. intros ([u i'] & -> & Hin)%list_elem_of_fmap. exists u.
  apply elem_of_url_to_instance. apply elem_dget; [apply dict_of_wf|done].
Qed.

Lemma url_to_instance_winner d i u :
  winner d i u → dget u (url_to_instance (λ _, true) d) = Some i.
Proof.
  intros (l1 & l2 & -> & Hl2). unfold url_to_instance, dict_of. rewrite dget_dupdate. simpl.
  rewrite omap_app. simpl. rewrite reverse_app, reverse_cons, <-app_assoc.
  set (k := omap (λ iu : string * string, Some (iu.2, iu.1)) l2). assert (Hk : dget u (reverse k) = None).
  { apply dget_None. unfold dkeys. rewrite fmap_reverse, elem_of_reverse.
    intros ([u' i'] & E & Hin)%list_elem_of_fmap. simpl in E. subst u'.
    apply list_elem_of_omap in Hin as ([i2 u2] & Hin & E). simpl in E.
    injection E as <- <-. by apply (Hl2 i2). }
  assert (Happ : ∀ a b : dict string string, dget u a = None → dget u (a ++ b) = dget u b).
  { induction a as [|[x y] a IHa]; simpl; [done|]. intros b. case_decide; [done|]. apply IHa. }
  rewrite Happ by done. simpl. by rewrite decide_True.
Qed.

Lemma dset_fresh (d : dict string string) i u : dget i d = None → dset i u d = d ++ [(i, u)].
Proof.
  induction d as [|[k v] d IH]; simpl; [done|]. case_decide; [done|]. intros Hn. by rewrite IH.
Qed.

Lemma winner_dset_fresh d i u : dget i d = None → winner (dset i u d) i u.
Proof. intros Hn. rewrite dset_fresh by done. exists d, []. split; [done|]. set_solver. Qed.

Lemma winner_dset_ne d i u j v : j ≠ i → v ≠ u → winner d i u → winner (dset j v d) i u.
Proof.
  intros Hji Hvu (l1 & l2 & -> & Hl2). induction l1 as [|[k w] l1 IH]; simpl.
  - rewrite decide_False by done. exists [], (dset j v l2). split; [done|]. intros k Hk.
    clear - Hvu Hl2 Hk. induction l2 as [|[k' w'] l2 IH]; simpl in Hk; [set_solver|].
    case_decide; set_solver.
  - case_decide as Hk; subst.
    + exists ((k, v) :: l1), l2. done.
    + destruct IH as (m1 & m2 & E & Hm). exists ((k, w) :: m1), m2. simpl. by rewrite E.
Qed.

(** Applying the controller's answers in any order. *)
Definition record_ids (id : EndpointInfo → string) (sched : list EndpointInfo)
    (d : dict string string) : dict string string :=
  foldl (λ d e, dset (id e) e.(url) d) d sched.

Section record_ids.
Context (id : EndpointInfo → string) (sched : list EndpointInfo).
Context (Hinj : ∀ e1 e2, e1 ∈ sched → e2 ∈ sched → (id e1 = id e2 ↔ e1.(url) = e2.(url))).

Lemma record_ids_wf d : dict_wf d → dict_wf (record_ids id sched d).
Proof.
  clear Hinj. revert d. unfold record_ids.
  induction sched as [|e l IH]; intros d Hd; simpl; auto with py.
Qed.

Lemma record_ids_step e l (P : dict string string → Prop) d :
  e ∈ sched → l ⊆ sched →
  (∀ d', P d' → P (dset (id e) e.(url) d')) →
  (∀ e' d', e' ∈ sched → id e' ≠ id e → e'.(url) ≠ e.(url) → P d' → P (dset (id e') e'.(url) d')) →
  P d → P (record_ids id l d).
Proof.
  intros He Hl H1 H2. unfold record_ids. revert d.
  induction l as [|e' l IH]; intros d Hd; simpl; [done|].
  apply IH; [set_solver|]. assert (He' : e' ∈ sched) by set_solver.
  destruct (decide (id e' = id e)) as [E|E].
  - apply (Hinj _ _ He' He) in E as E'. rewrite E, E'. by apply H1.
  - apply H2; [done..| |done]. by rewrite <-(Hinj _ _ He' He).
Qed.

Lemma record_ids_get e d :
  e ∈ sched → dget (id e) (record_ids id sched d) = Some e.(url).
Proof.
  intros He. pose proof He as (l1 & l2 & Hs)%list_elem_of_split.
  unfold record_ids. rewrite Hs, foldl_app. simpl.
  apply (record_ids_step e l2 (λ d, dget (id e) d = Some e.(url))); [done|set_solver|..].
  - intros. apply dget_dset_eq.
  - intros. by rewrite dget_dset_ne.
  - apply dget_dset_eq.
Qed.

Lemma record_ids_winner e d :
  e ∈ sched → dget (id e) d = None → winner (record_ids id sched d) (id e) e.(url).
Proof.
  intros He Hn. pose proof He as (l1 & l2 & Hs)%list_elem_of_split.
  set (P := λ d, winner d (id e) e.(url) ∧ dget (id e) d = Some e.(url)).
  assert (H1 : ∀ d', P d' → P (dset (id e) e.(url) d')).
  { intros d' [Hw Hg]. rewrite dset_present by done. done. }
  assert (H2 : ∀ e' d', e' ∈ sched → id e' ≠ id e → url e' ≠ url e → P d' →
    P (dset (id e') e'.(url) d')).
  { intros e' d' _ Hi Hu [Hw Hg]. split; [by apply winner_dset_ne|].
    by rewrite dget_dset_ne. }
  assert (Hfresh : ∀ d', dget (id e) d' = None → P (dset (id e) e.(url) d')).
  { intros d' Hd'. split; [by apply winner_dset_fresh|apply dget_dset_eq]. }
  enough (Hw : P (record_ids id sched d)) by apply Hw.
  unfold record_ids. rewrite Hs, foldl_app. simpl.
  apply (record_ids_step e l2 P); [done|set_solver|done|done|].
  assert (Hmid : P (record_ids id l1 d) ∨ dget (id e) (record_ids id l1 d) = None).
  { apply (record_ids_step e l1 (λ d, P d ∨ dget (id e) d = None)); [done|set_solver|..].
    - intros d' [Hd'|Hd']; left; auto.
    - intros e' d' He' Hi Hu [Hd'|Hd']; [left; auto|right]. by rewrite dget_dset_ne.
    - by right. }
  destruct Hmid as [Hmid|Hmid]; auto.
Qed.
End record_ids.

(* ------------------------------------------------------------------ *)
(** ** Every computation keeps the bridge a dictionary and the threshold *)

Definition kv_inv (th : option Z) (s : state) : Prop :=
  dict_wf s.(instance_id_to_ip) ∧ s.(threshold) = th.

Lemma preserves_query_endpoint th sv ip e : preserves (kv_inv th) (query_endpoint sv ip e).
Proof.
  unfold query_endpoint.
  apply preserves_bind; [auto with py|]. intros a. apply preserves_bind; [auto with py|].
  intros i. apply preserves_modify. intros s [Hs Ht]. split; [by apply dset_wf|done].
Qed.
Lemma preserves_tokenize th sv endpoints js :
  preserves (kv_inv th) (tokenize_prompt sv endpoints js).
Proof.
  unfold tokenize_prompt, get_tokenizer.
  apply preserves_try_except; [|intros e; destruct (negb _); eauto 8 with py].
  apply preserves_bind; [|auto with py]. apply preserves_bind; [auto with py|]. intros m.
  apply preserves_bind; [auto with py|]. intros b. apply preserves_bind; [|auto with py].
  destruct b; [auto with py|]. apply preserves_bind; [auto with py|]. intros _.
  by apply preserves_modify.
Qed.
Lemma preserves_fallback th endpoints stats request js :
  preserves (kv_inv th) (fallback_url endpoints stats request js).
Proof. intros s Hs. unfold fallback_url. by destruct (session_route _ _ _ _ _ _). Qed.
Lemma preserves_refresh th sv sched endpoints layout_info :
  preserves (kv_inv th) (refresh_instance_map sv sched endpoints layout_info).
Proof.
  intros s Hs. unfold refresh_instance_map. destruct (negb _); [done|].
  apply preserves_gather; [|done]. apply Forall_fmap, Forall_true. intros e.
  apply preserves_query_endpoint.
Qed.

(* ------------------------------------------------------------------ *)
(** ** [KvawareRouter]: decision and safety *)

(** After tokenizing, looking up and refreshing the bridge: the selection step. *)
Definition kv_decide (endpoints : list EndpointInfo) (stats : gmap string RequestStats)
    (request : Request) (js : dict string pyval) (n : nat) (layout_info : layout) :
  M state (option string) :=
  holders <- gets (λ s, live_holders endpoints layout_info s.(instance_id_to_ip)) ;;
  match argbest Z.gtb (holder_tokens layout_info) holders with
  | None => fallback_url endpoints stats request js
  | Some matched_instance_id =>
      th <- gets threshold ;;
      th <- lift (of_option TypeError th) ;;
      if (holder_tokens layout_info matched_instance_id <? Z.max (Z.of_nat n - th) 0)%Z
      then fallback_url endpoints stats request js
      else
        m <- gets instance_id_to_ip ;;
        lift (rbind (of_option (KeyError matched_instance_id) (dget matched_instance_id m))
                (λ u, Ok (Some u)))
  end.

Lemma live_holders_url endpoints layout_info m h :
  dict_wf m → h ∈ live_holders endpoints layout_info m →
  ∃ u, dget h m = Some u ∧ u ∈ url <$> endpoints.
Proof.
  intros Hm [Hh _]%list_elem_of_filter.
  apply elem_of_url_to_instance_values in Hh as (u & Hin & Hu). exists u.
  split; [by apply elem_dget|]. apply bool_decide_eq_true in Hu. unfold url_set in Hu.
  by rewrite elem_of_list_to_set in Hu.
Qed.

Lemma argbest_max {A} (key : A → Z) l x :
  argbest Z.gtb key l = Some x → x ∈ l ∧ ∀ y, y ∈ l → (key y <= key x)%Z.
Proof.
  destruct l as [|a l]; [done|]. intros [= <-]. split; [apply argbest_from_elem|].
  intros y Hy. pose proof (argbest_from_best Z.gtb key Zgtb_asym Zgtb_cotrans a l y Hy) as Hb.
  rewrite Z.gtb_ltb in Hb. by apply Z.ltb_ge in Hb.
Qed.

Lemma kv_decide_spec endpoints stats request js n layout_info s th :
  kv_inv (Some th) s →
  let holders := live_holders endpoints layout_info s.(instance_id_to_ip) in
  let needed := Z.max (Z.of_nat n - th) 0 in
  (∃ h u, h ∈ holders ∧ dget h s.(instance_id_to_ip) = Some u ∧ u ∈ url <$> endpoints ∧
     (needed <= holder_tokens layout_info h)%Z ∧
     (∀ h', h' ∈ holders → holder_tokens layout_info h' <= holder_tokens layout_info h)%Z ∧
     kv_decide endpoints stats request js n layout_info s = (s, Ok (Some u))) ∨
  ((∀ h, h ∈ holders → holder_tokens layout_info h < needed)%Z ∧
   kv_decide endpoints stats request js n layout_info s =
     fallback_url endpoints stats request js s).
Proof.
  intros [Hwf Hth] holders needed. unfold kv_decide, bind, gets. fold holders.
  destruct (argbest Z.gtb (holder_tokens layout_info) holders) as [h|] eqn:E.
  - apply argbest_max in E as [Hh Hmax]. rewrite Hth. simpl. fold needed.
    destruct (live_holders_url _ _ _ _ Hwf Hh) as (u & Hu & Hlive).
    destruct (holder_tokens layout_info h <? needed)%Z eqn:El; bool_to_prop.
    + right. split; [|done]. intros h' Hh'. specialize (Hmax _ Hh'). lia.
    + left. exists h, u. rewrite Hu. done.
  - right. destruct holders; [|done]. split; [set_solver|done].
Qed.

Lemma fallback_url_safe endpoints stats request js s s' r :
  endpoints ≠ [] → fallback_url endpoints stats request js s = (s', Ok r) →
  ∃ u, r = Some u ∧ u ∈ url <$> endpoints.
Proof.
  intros Hne. unfold fallback_url.
  destruct (session_route_Some s.(kv_session_key) endpoints stats request js
    s.(kv_hash_ring) Hne) as (r' & u & E).
  rewrite E. intros [= _ <-]. exists u. split; [done|]. by eapply session_route_elem.
Qed.

Lemma kv_route_request_decide sv endpoints stats request js s s1 s2 token_ids layout_info :
  tokenize_prompt sv endpoints js s = (s1, Ok token_ids) →
  sv.(lookup_msg) token_ids = Ok (Some layout_info) →
  (if bool_decide (layout_info ≠ []) && instance_map_is_stale endpoints layout_info s1
   then for_each endpoints (λ e, query_endpoint sv (kv_query_ip e.(url)) e)
   else ret tt) s1 = (s2, Ok tt) →
  kv_route_request sv endpoints stats request js s =
    kv_decide endpoints stats request js (length token_ids) layout_info s2.
Proof.
  intros Ht Hl Hr. unfold kv_route_request. unfold bind at 1. rewrite Ht.
  unfold bind at 1, lift at 1. rewrite Hl. unfold bind at 1, lift at 1. simpl.
  unfold bind at 1, gets at 1. unfold bind at 1. by rewrite Hr.
Qed.

(** The same code as one step of tokenizing, lookup and refresh before [kv_decide]. *)
Lemma kv_route_request_unfold sv endpoints stats request js s :
  kv_route_request sv endpoints stats request js s =
  (token_ids <- tokenize_prompt sv endpoints js ;;
   answer <- lift (sv.(lookup_msg) token_ids) ;;
   layout_info <- lift (of_option (AttributeError "layout_info") answer) ;;
   stale <- gets (instance_map_is_stale endpoints layout_info) ;;
   (if bool_decide (layout_info ≠ []) && stale
    then for_each endpoints (λ e, query_endpoint sv (kv_query_ip e.(url)) e)
    else ret tt) ;;;
   kv_decide endpoints stats request js (length token_ids) layout_info) s.
Proof. done. Qed.

Lemma preserves_kv_decide th endpoints stats request js n layout_info :
  preserves (kv_inv th) (kv_decide endpoints stats request js n layout_info).
Proof.
  unfold kv_decide. apply preserves_bind; [auto with py|]. intros holders.
  destruct (argbest _ _ _); [|apply preserves_fallback].
  apply preserves_bind; [auto with py|]. intros o. apply preserves_bind; [auto with py|].
  intros z. destruct (_ <? _)%Z; [apply preserves_fallback|]. auto with py.
Qed.

Lemma preserves_kv_route_request th sv endpoints stats request js :
  preserves (kv_inv th) (kv_route_request sv endpoints stats request js).
Proof.
  unfold kv_route_request. apply preserves_bind; [apply preserves_tokenize|]. intros ids.
  apply preserves_bind; [auto with py|]. intros a. apply preserves_bind; [auto with py|].
  intros l. apply preserves_bind; [auto with py|]. intros st. apply preserves_bind.
  - destruct (_ && _); [|auto with py]. apply preserves_for_each. intros e.
    apply preserves_query_endpoint.
  - intros _. apply preserves_kv_decide.
Qed.

(** Without a threshold, as after a reload, a match of a live engine is a type error. *)
Lemma kv_decide_safe endpoints stats request js n layout_info s s' o th :
  endpoints ≠ [] → kv_inv th s → kv_decide endpoints stats request js n layout_info s = (s', Ok o) →
  ∃ u, o = Some u ∧ u ∈ url <$> endpoints.
Proof.
  intros Hne Hs E. destruct th as [th|].
  - destruct (kv_decide_spec endpoints stats request js n layout_info s th Hs)
      as [(h & u & _ & _ & Hu & _ & _ & Ed)|[_ Ed]]; rewrite Ed in E.
    + injection E as _ <-. by exists u.
    + by eapply fallback_url_safe.
  - unfold kv_decide, bind, gets in E. destruct (argbest _ _ _); [|by eapply fallback_url_safe].
    rewrite (proj2 Hs) in E. done.
Qed.

Lemma kv_route_safe sv endpoints stats request js s th :
  endpoints ≠ [] → kv_inv th s →
  let '(s', r) := kv_route_request sv endpoints stats request js s in
  kv_inv th s' ∧
  match r with Ok o => ∃ u, o = Some u ∧ u ∈ url <$> endpoints | Err _ => True end.
Proof.
  intros Hne Hs. pose proof (preserves_kv_route_request th sv endpoints stats request js s Hs).
  destruct (kv_route_request sv endpoints stats request js s) as [s' [o|e]] eqn:E; [|done].
  split; [done|]. rewrite kv_route_request_unfold in E.
  apply bind_inv_Ok in E as (s1 & ids & E1 & E).
  pose proof (preserves_tokenize th sv endpoints js s Hs) as H1. rewrite E1 in H1.
  apply bind_inv_Ok in E as (s1a & ans & [= -> _] & E).
  apply bind_inv_Ok in E as (s1b & l & [= -> _] & E).
  apply bind_inv_Ok in E as (s1c & st & [= -> _] & E).
  apply bind_inv_Ok in E as (s2 & [] & E2 & E).
  eapply kv_decide_safe; [done| |exact E].
  change s2 with (s2, @Ok unit tt).1. rewrite <-E2. destruct (_ && _); [|done].
  apply preserves_for_each; [|done]. intros e. apply preserves_query_endpoint.
Qed.

(** The kvaware router never sends a request to an engine that is not listed:
    whatever the controller's answers, a returned URL is one of the given endpoints'
    and there is one; the bridge of instance ids stays a dictionary, also when the
    call raises, and also for a router that was given no threshold. *)
Theorem kvaware_routes_to_live_engines sv endpoints stats request js s th :
  endpoints ≠ [] → kv_inv th s →
  let '(s', r) := kv_route_request sv endpoints stats request js s in
  kv_inv th s' ∧
  match r with Ok o => ∃ u, o = Some u ∧ u ∈ url <$> endpoints | Err _ => True end.
Proof. apply kv_route_safe. Qed.

(** C20: the kvaware decision: once the prompt has [n] tokens, the controller has
    answered [layout_info] and the bridge covers it, the request goes to a live
    engine with the most matched tokens among the live holders when these reach
    [max(n - threshold, 0)], and to the session fallback exactly when no live holder
    reaches it. *)
Theorem kvaware_follows_the_longest_match sv endpoints stats request js s s1 s2 ids
    layout_info th :
  kv_inv (Some th) s →
  tokenize_prompt sv endpoints js s = (s1, Ok ids) →
  sv.(lookup_msg) ids = Ok (Some layout_info) →
  (if bool_decide (layout_info ≠ []) && instance_map_is_stale endpoints layout_info s1
   then for_each endpoints (λ e, query_endpoint sv (kv_query_ip e.(url)) e)
   else ret tt) s1 = (s2, Ok tt) →
  let holders := live_holders endpoints layout_info s2.(instance_id_to_ip) in
  let needed := Z.max (Z.of_nat (length ids) - th) 0 in
  (∃ h u, h ∈ holders ∧ dget h s2.(instance_id_to_ip) = Some u ∧ u ∈ url <$> endpoints ∧
     (needed <= holder_tokens layout_info h)%Z ∧
     (∀ h', h' ∈ holders → holder_tokens layout_info h' <= holder_tokens layout_info h)%Z ∧
     kv_route_request sv endpoints stats request js s = (s2, Ok (Some u))) ∨
  ((∀ h, h ∈ holders → holder_tokens layout_info h < needed)%Z ∧
   kv_route_request sv endpoints stats request js s =
     fallback_url endpoints stats request js s2).
Proof.
  intros Hs Ht Hl Hr. rewrite (kv_route_request_decide _ _ _ _ _ _ _ _ _ _ Ht Hl Hr).
  apply kv_decide_spec. change s2 with (s2, @Ok unit tt).1. rewrite <-Hr.
  pose proof (preserves_tokenize (Some th) sv endpoints js s Hs) as H1. rewrite Ht in H1.
  destruct (_ && _); [|done]. apply preserves_for_each; [|done].
  intros e. apply preserves_query_endpoint.
Qed.

(* ------------------------------------------------------------------ *)
(** ** [LoadAwareRouter]: placement *)

Lemma select_step_argbest (score : string → Q) x l :
  foldl (select_step score) (Some (x.(url), score x.(url))) l =
    Some ((argbest_from (λ a b, Qltb b a) (λ e, score e.(url)) x l).(url),
          score (argbest_from (λ a b, Qltb b a) (λ e, score e.(url)) x l).(url)).
Proof.
  revert x. induction l as [|e l IH]; intros x; [done|]. simpl.
  unfold argbest_from. simpl.
  fold (argbest_from (λ a b, Qltb b a) (λ e, score (url e))
    (if Qltb (score (url x)) (score (url e)) then e else x) l).
  destruct (Qltb (score (url x)) (score (url e))); apply IH.
Qed.

Lemma select_url_best beta endpoints stats layout_info n m :
  endpoints ≠ [] →
  let score := endpoint_score beta endpoints stats layout_info n m in
  ∃ u, select_url beta endpoints stats layout_info n m = Some u ∧ u ∈ url <$> endpoints ∧
    ∀ e, e ∈ endpoints → (score e.(url) <= score u)%Q ∧
      ((score e.(url) == score u)%Q → String.le u e.(url)).
Proof.
  intros Hne score. unfold select_url. fold score.
  pose proof (py_sorted_sorted url endpoints) as Hs.
  pose proof (λ e, elem_of_py_sorted url e endpoints) as Hin.
  pose proof (length_py_sorted url endpoints) as Hlen.
  destruct (py_sorted url endpoints) as [|x l]; [by destruct endpoints|]. simpl.
  rewrite select_step_argbest. set (lt := λ a b, Qltb b a). set (key := λ e, score e.(url)).
  assert (Hasym : ∀ a b, lt a b = true → lt b a = false) by (intros; by apply Qltb_asym).
  assert (Hcotr : ∀ a b c, lt a c = true → lt a b = true ∨ lt b c = true).
  { intros a b c Hc. destruct (Qltb_cotrans _ b _ Hc); auto. }
  set (y := argbest_from lt key x l). exists y.(url). split; [done|].
  split; [apply list_elem_of_fmap_2, Hin, argbest_from_elem|]. intros e He%Hin.
  pose proof (argbest_from_best lt key Hasym Hcotr x l e He) as Hb. fold y in Hb.
  apply Qltb_ge in Hb. split; [done|]. intros Heq.
  destruct (argbest_from_first lt key Hasym Hcotr x l) as (l1 & l2 & Hl & Hfirst).
  fold y in Hl, Hfirst. rewrite Hl in He, Hs.
  apply elem_of_app in He as [He|[->|He]%elem_of_cons]; [|done|].
  - apply Hfirst, Qltb_lt in He. unfold key in He. lra.
  - clear - Hs He. induction l1 as [|z l1 IH]; simpl in Hs; inversion_clear Hs as [|?? Hs' Hf]; [|auto].
    rewrite Forall_forall in Hf. by apply Hf.
Qed.

(** The load-aware router as well only sends a request to a listed engine. *)
Lemma la_route_safe beta sv sched endpoints stats request js s th :
  endpoints ≠ [] → kv_inv th s →
  let '(s', r) := la_route_request beta sv sched endpoints stats request js s in
  kv_inv th s' ∧
  match r with Ok o => ∃ u, o = Some u ∧ u ∈ url <$> endpoints | Err _ => True end.
Proof.
  intros Hne Hs. unfold la_route_request. destruct endpoints as [|e0 es]; [done|].
  set (endpoints := e0 :: es) in *. unfold bind at 1.
  pose proof (preserves_tokenize th sv endpoints js s Hs) as H1.
  destruct (tokenize_prompt sv endpoints js s) as [s1 [ids|e]]; [|done]. simpl in H1.
  unfold bind at 1, lift. destruct (lookup_msg sv ids) as [ans|e]; [|done].
  assert (Hfb : ∀ s, kv_inv th s →
    let '(s', r) := fallback_url endpoints stats request js s in
    kv_inv th s' ∧ match r with Ok o => ∃ u, o = Some u ∧ u ∈ url <$> endpoints | Err _ => True end).
  { intros s0 H0. pose proof (preserves_fallback th endpoints stats request js s0 H0) as Hp.
    destruct (fallback_url endpoints stats request js s0) as [s0' [o|e]] eqn:E; [|done].
    split; [done|]. by eapply fallback_url_safe. }
  destruct (default [] ans) as [|hl rest]; [by apply Hfb|]. unfold bind at 1.
  pose proof (preserves_refresh th sv sched endpoints (hl :: rest) s1 H1) as H2.
  destruct (refresh_instance_map sv sched endpoints (hl :: rest) s1) as [s2 [[]|e]]; [|done].
  simpl in H2. unfold bind, gets.
  destruct (select_url_best beta endpoints stats (hl :: rest) (Z.of_nat (length ids))
    s2.(instance_id_to_ip) Hne) as (u & -> & Hu & _). simpl. split; [done|]. by exists u.
Qed.

(** Load-aware placement is optimal: when the controller reports a holder, the
    request goes to a listed engine whose score [min(matched, n) / max(n, 1) -
    beta * relative_load] no listed engine exceeds, ties going to the
    lexicographically first URL, whatever the order in which the bridge's queries
    finish. *)
Theorem loadaware_routes_to_the_best_score beta sv sched endpoints stats request js s s1 s2
    ids layout_info :
  endpoints ≠ [] → layout_info ≠ [] →
  tokenize_prompt sv endpoints js s = (s1, Ok ids) →
  sv.(lookup_msg) ids = Ok (Some layout_info) →
  refresh_instance_map sv sched endpoints layout_info s1 = (s2, Ok tt) →
  let score := endpoint_score beta endpoints stats layout_info (Z.of_nat (length ids))
                 s2.(instance_id_to_ip) in
  ∃ u, la_route_request beta sv sched endpoints stats request js s = (s2, Ok (Some u)) ∧
    u ∈ url <$> endpoints ∧
    ∀ e, e ∈ endpoints → (score e.(url) <= score u)%Q ∧
      ((score e.(url) == score u)%Q → String.le u e.(url)).
Proof.
  intros Hne Hl Ht Hlk Hr score.
  destruct (select_url_best beta endpoints stats layout_info (Z.of_nat (length ids))
    s2.(instance_id_to_ip) Hne) as (u & Hu & Hin & Hbest).
  exists u. split; [|done]. unfold la_route_request. destruct endpoints as [|e0 es]; [done|].
  unfold bind at 1. rewrite Ht. unfold bind at 1, lift at 1. rewrite Hlk. simpl.
  destruct layout_info as [|hl rest]; [done|].
  unfold bind at 1. rewrite Hr. unfold bind, gets. by rewrite Hu.
Qed.

(** The instance id the controller reports for an engine. *)
Definition inst_id (sv : Services) (e : EndpointInfo) : string :=
  match sv.(query_inst) (la_query_ip e.(url)) with Ok i => i | Err _ => "" end.

Lemma gather_queries sv sched s s2 :
  gather ((λ e, query_endpoint sv (Ok (la_query_ip e.(url))) e) <$> sched) s = (s2, Ok tt) →
  s2 = set_map (record_ids (inst_id sv) sched s.(instance_id_to_ip)) s.
Proof.
  revert s. induction sched as [|e l IH]; intros s; simpl; [intros [= <-]; by destruct s|].
  unfold query_endpoint at 1, bind, lift, modify. simpl.
  destruct (query_inst sv (la_query_ip (url e))) as [i|x] eqn:Ei; [|by destruct (gather _ _)].
  intros Hg. destruct (gather _ _) as [s' r'] eqn:E. injection Hg as <- ->.
  apply IH in E. rewrite E. unfold record_ids. cbn [foldl set_map instance_id_to_ip].
  assert (inst_id sv e = i) as -> by (unfold inst_id; by rewrite Ei). done.
Qed.

(** A refresh repairs the bridge: when the controller gives engines with
    different URLs different ids and each query answers, then, in whatever order the
    answers come, every listed engine's current id leads to its URL, the bridge is no
    longer stale for the endpoints, and an engine whose id is new (a restarted
    engine) is credited with the match of that id and not with one of a dead id that
    lingers for the same URL. *)
Theorem refresh_repairs_the_bridge sv sched endpoints layout_info s s2 :
  sched ≡ₚ endpoints →
  (∀ e1 e2, e1 ∈ endpoints → e2 ∈ endpoints →
     inst_id sv e1 = inst_id sv e2 → e1.(url) = e2.(url)) →
  instance_map_is_stale endpoints layout_info s = true →
  refresh_instance_map sv sched endpoints layout_info s = (s2, Ok tt) →
  instance_map_is_stale endpoints [] s2 = false ∧
  ∀ e, e ∈ endpoints →
    dget (inst_id sv e) s2.(instance_id_to_ip) = Some e.(url) ∧
    (dget (inst_id sv e) s.(instance_id_to_ip) = None →
     dget e.(url) (url_to_instance (λ _, true) s2.(instance_id_to_ip)) = Some (inst_id sv e)).
Proof.
  intros Hp Hinj Hst Hr. unfold refresh_instance_map in Hr. rewrite Hst in Hr.
  apply gather_queries in Hr as ->. cbn [instance_id_to_ip set_map].
  assert (Hiff : ∀ e1 e2, e1 ∈ sched → e2 ∈ sched →
    (inst_id sv e1 = inst_id sv e2 ↔ e1.(url) = e2.(url))).
  { intros e1 e2. rewrite Hp. intros H1 H2. split; [by apply Hinj|].
    unfold inst_id. by intros ->. }
  assert (Hget : ∀ e, e ∈ endpoints → dget (inst_id sv e)
    (record_ids (inst_id sv) sched s.(instance_id_to_ip)) = Some e.(url)).
  { intros e He. apply (record_ids_get (inst_id sv) sched Hiff). by rewrite Hp. }
  split.
  - unfold instance_map_is_stale. simpl. rewrite orb_false_r. apply not_true_iff_false.
    rewrite existsb_exists. intros (e & He & Hu). apply bool_decide_eq_true in Hu. apply Hu.
    apply list_elem_of_In in He. specialize (Hget e He). apply dget_elem in Hget.
    unfold dvalues. by apply (list_elem_of_fmap_2 snd) in Hget.
  - intros e He. split; [by apply Hget|]. intros Hn. apply url_to_instance_winner.
    apply (record_ids_winner (inst_id sv) sched Hiff); [by rewrite Hp|done].
Qed.
End kv.

(* ------------------------------------------------------------------ *)
(** ** The score's terms *)

Lemma Qsum_ext {A} (f g : A → Q) l : (∀ x, x ∈ l → f x == g x)%Q → (Qsum (f <$> l) == Qsum (g <$> l))%Q.
Proof.
  induction l as [|x l IH]; intros Hfg; simpl; [reflexivity|].
  rewrite (Hfg x) by set_solver. rewrite IH by set_solver. reflexivity.
Qed.

Lemma Qsum_centered {A} (f : A → Z) (c d : Q) l :
  (Qsum ((λ x, (inject_Z (f x) - c) / d) <$> l) ==
   (Qsum (inject_Z <$> (f <$> l)) - inject_Z (Z.of_nat (length l)) * c) / d)%Q.
Proof.
  induction l as [|x l IH]; cbn [fmap list_fmap Qsum foldr length].
  { change (inject_Z (Z.of_nat 0)) with 0%Q. unfold Qdiv. simpl. ring. }
  change (foldr Qplus 0%Q) with Qsum in *. rewrite IH, Nat2Z.inj_succ. unfold Z.succ. rewrite inject_Z_plus. unfold Qdiv. ring.
Qed.

Lemma Qsum_nonneg (l : list Q) : (∀ x, x ∈ l → 0 <= x)%Q → (0 <= Qsum l)%Q.
Proof.
  induction l as [|x l IH]; intros Hl; simpl; [lra|].
  assert (0 <= x)%Q by (apply Hl; set_solver). assert (0 <= Qsum l)%Q by (apply IH; set_solver). lra.
Qed.

Lemma inject_Z_nat_pos n : n ≠ 0 → (0 < inject_Z (Z.of_nat n))%Q.
Proof. intros Hn. change 0%Q with (inject_Z 0). rewrite <-Zlt_Qlt. lia. Qed.

(** The two terms of the score are normalised: the relative loads of the listed
    engines sum to zero and are at least -1, and an engine's score is at most
    [1 + beta]; a full match on an engine of average load scores exactly 1. *)
Theorem relative_loads_are_centered stats endpoints :
  (∀ e, e ∈ endpoints → 0 <= load_penalty stats e.(url))%Z →
  let rel := relative_loads stats endpoints in
  (Qsum (dvalues rel) == 0)%Q ∧
  (∀ u r, (u, r) ∈ rel → u ∈ url <$> endpoints ∧ -1 <= r)%Q ∧
  (∀ beta matched n u r, 0 <= beta → (u, r) ∈ rel →
     score_endpoint beta matched n r <= 1 + beta)%Q ∧
  (∀ beta n m, (0 < n <= m)%Z → (score_endpoint beta m n 0 == 1)%Q).
Proof.
  intros Hload rel.
  assert (Hrel : (Qsum (dvalues rel) == 0)%Q ∧
    (∀ u r, (u, r) ∈ rel → u ∈ url <$> endpoints ∧ -1 <= r)%Q).
  { unfold rel, relative_loads.
    set (pairs := (λ e, (e.(url), load_penalty stats e.(url))) <$> endpoints).
    set (loads := dict_of pairs).
    assert (Hl : ∀ u z, (u, z) ∈ loads → u ∈ url <$> endpoints ∧ (0 <= z)%Z).
    { intros u z Hin. apply elem_dget in Hin; [|apply dict_of_wf].
      unfold loads, dict_of in Hin. rewrite dget_dupdate in Hin. simpl in Hin.
      destruct (dget u (reverse pairs)) eqn:E; [|done]. injection Hin as ->.
      apply dget_elem, elem_of_reverse, list_elem_of_fmap in E as (e & [= -> ->] & He).
      split; [by apply list_elem_of_fmap_2|by apply Hload]. }
    destruct loads as [|uz0 loads'] eqn:El; [split; [done|set_solver]|]. rewrite <-El in *.
    set (n := inject_Z (Z.of_nat (length loads))).
    assert (Hn : (0 < n)%Q) by (apply inject_Z_nat_pos; by rewrite El).
    set (total := Qsum (inject_Z <$> dvalues loads)). set (mean := (total / n)%Q).
    assert (Htot : (0 <= total)%Q).
    { apply Qsum_nonneg. intros x (z & -> & Hz)%list_elem_of_fmap. unfold dvalues in Hz.
      apply list_elem_of_fmap in Hz as ([u z'] & -> & Hz). apply Hl in Hz as [_ Hz].
      change 0%Q with (inject_Z 0). by rewrite <-Zle_Qle. }
    assert (Hmean : (0 <= mean)%Q).
    { unfold mean. apply Qle_shift_div_l; [done|]. lra. }
    pose proof (Q.le_max_l 1 mean) as Hm1. pose proof (Q.le_max_r 1 mean) as Hm2.
    set (mx := Qmax 1 mean) in *. split.
    - unfold dvalues. rewrite <-list_fmap_compose. unfold compose. cbn [snd].
      rewrite (Qsum_centered snd mean mx). fold n.
      change (Qsum (inject_Z <$> loads.*2)) with total.
      unfold mean at 1. field. split; lra.
    - intros u r ([u' z] & [= -> ->] & Hin)%list_elem_of_fmap. cbn [fst snd].
      apply Hl in Hin as [Hu Hz]. split; [done|]. apply Qle_shift_div_l; [lra|].
      assert (0 <= inject_Z z)%Q by (change 0%Q with (inject_Z 0); by rewrite <-Zle_Qle).
      lra. }
  destruct Hrel as [Hsum Hge]. split_and!; [done|done|..].
  - intros beta matched n u r Hb Hin. apply Hge in Hin as [_ Hr]. unfold score_endpoint.
    assert (Hd : (0 < inject_Z (Z.max n 1))%Q) by (change 0%Q with (inject_Z 0); rewrite <-Zlt_Qlt; lia).
    assert (Hq : (inject_Z (Z.min matched n) / inject_Z (Z.max n 1) <= 1)%Q).
    { apply Qle_shift_div_r; [done|]. rewrite Qmult_1_l, <-Zle_Qle. lia. }
    assert (0 <= beta * (r + 1))%Q by (apply Qmult_le_0_compat; lra). lra.
  - intros beta n m Hn. unfold score_endpoint. rewrite Z.min_r, Z.max_l by lia.
    field. change 0%Q with (inject_Z 0). rewrite inject_Z_injective. lia.
Qed.

(* ------------------------------------------------------------------ *)
(** ** Witnesses *)

(** Two engines; the controller knows both and reports a full match on the first. *)
Definition sv_example : Services :=
  mkServices (λ _, Ok tt) (λ _ _, Ok [1; 2; 3; 4]%Z) (λ _ _ _, Err ClientConnectorError)
    (λ _, Ok (Some [("ia", ("LocalCPU", 4%Z)); ("dead", ("LocalCPU", 4%Z))]))
    (λ ip, if decide (ip = "a") then Ok "ia" else Ok "ib").
Definition kv_eps : list EndpointInfo := [ep_of "http://b:1"; ep_of "http://a:1"].
Definition kv_state_example : kv_state (gset string) := kv_init (Some "x-session") (Some 2000%Z).
Definition kv_bridge : dict string string := [("ib", "http://b:1"); ("ia", "http://a:1")].

Lemma kv_inv_example : kv_inv (Some 2000%Z) kv_state_example.
Proof. split; [constructor|reflexivity]. Qed.

Lemma kvaware_live_witness :
  let '(s', r) := kv_route_request sv_example kv_eps ∅ (mkRequest []) [] kv_state_example in
  kv_inv (Some 2000%Z) s' ∧
  match r with Ok o => ∃ u, o = Some u ∧ u ∈ url <$> kv_eps | Err _ => True end.
Proof.
  apply (kvaware_routes_to_live_engines sv_example kv_eps ∅ (mkRequest []) [] kv_state_example
    (Some 2000%Z)).
  - discriminate.
  - exact kv_inv_example.
Defined.

Lemma kvaware_longest_witness :
  let s2 := set_map kv_bridge (add_tokenizer "m" kv_state_example) in
  (∃ h u, h ∈ live_holders kv_eps [("ia", ("LocalCPU", 4%Z)); ("dead", ("LocalCPU", 4%Z))] kv_bridge ∧
     dget h kv_bridge = Some u ∧
     kv_route_request sv_example kv_eps ∅ (mkRequest []) [] kv_state_example = (s2, Ok (Some u))) ∨
  kv_route_request sv_example kv_eps ∅ (mkRequest []) [] kv_state_example =
    fallback_url kv_eps ∅ (mkRequest []) [] s2.
Proof.
  intros s2.
  destruct (kvaware_follows_the_longest_match sv_example kv_eps ∅ (mkRequest []) [] kv_state_example
    (add_tokenizer "m" kv_state_example) s2 [1; 2; 3; 4]%Z
    [("ia", ("LocalCPU", 4%Z)); ("dead", ("LocalCPU", 4%Z))] 2000%Z kv_inv_example)
    as [(h & u & H1 & H2 & _ & _ & _ & H3)|[_ H3]]; try (vm_compute; reflexivity).
  - left. exists h, u. split; [exact H1|]. split; [exact H2|exact H3].
  - right. exact H3.
Defined.

Lemma loadaware_best_witness :
  ∃ s2 u, la_route_request 1 sv_example [ep_of "http://a:1"; ep_of "http://b:1"] kv_eps ∅
      (mkRequest []) [] kv_state_example = (s2, Ok (Some u)) ∧ u ∈ url <$> kv_eps.
Proof.
  destruct (loadaware_routes_to_the_best_score 1 sv_example
    [ep_of "http://a:1"; ep_of "http://b:1"] kv_eps ∅ (mkRequest []) [] kv_state_example
    (add_tokenizer "m" kv_state_example)
    (set_map [("ia", "http://a:1"); ("ib", "http://b:1")] (add_tokenizer "m" kv_state_example))
    [1; 2; 3; 4]%Z [("ia", ("LocalCPU", 4%Z)); ("dead", ("LocalCPU", 4%Z))])
    as (u & H1 & H2 & _); try (vm_compute; reflexivity); try discriminate.
  eexists _, u. split; [exact H1|exact H2].
Defined.

Lemma refresh_witness :
  let s := set_map [("dead", "http://a:1")] kv_state_example in
  let s2 := set_map [("dead", "http://a:1"); ("ia", "http://a:1"); ("ib", "http://b:1")]
              kv_state_example in
  instance_map_is_stale kv_eps [] s2 = false ∧
  ∀ e, e ∈ kv_eps →
    dget (inst_id sv_example e) s2.(instance_id_to_ip) = Some e.(url) ∧
    (dget (inst_id sv_example e) s.(instance_id_to_ip) = None →
     dget e.(url) (url_to_instance (λ _, true) s2.(instance_id_to_ip)) = Some (inst_id sv_example e)).
Proof.
  apply (refresh_repairs_the_bridge sv_example [ep_of "http://a:1"; ep_of "http://b:1"] kv_eps
    [("ia", ("LocalCPU", 4%Z))]).
  - constructor.
  - intros e1 e2 H1 H2. unfold kv_eps in H1, H2. rewrite !elem_of_cons, elem_of_nil in H1, H2.
    destruct H1 as [-> |[-> |[]]], H2 as [-> |[-> |[]]]; vm_compute; congruence.
  - vm_compute. reflexivity.
  - vm_compute. reflexivity.
Defined.

(** An engine that comes back under an earlier id is not credited: the bridge keeps
    that id at its old place, before the id used in between, and the inversion keeps
    the last one listed. *)
Example returning_id_is_not_credited :
  let d := record_ids (λ _, "id1") [ep_of "http://a:1"] [("id1", "http://a:1"); ("id2", "http://a:1")] in
  dget "http://a:1" (url_to_instance (λ _, true) d) = Some "id2".
Proof. reflexivity. Qed.
