(* ===== verification/RoutingPrefix.v ===== *)
(** * Prefix-aware routing (src/src/vllm_router/routers/routing_logic.py, fourth part)

    [PrefixAwareRouter] keeps a hash trie of the prompts it has routed and sends a
    prompt to an engine that has been sent the longest prefix of it.  The digest
    [xxh64] and [random.choice] are parameters. *)

From S2P Require Import Prelude PyDict PyStr PyVal Endpoint RequestStats HashTrie Routing.

Local Open Scope py_scope.

(** ** The prompt of a request body *)

(** [part.get(k, dflt)] on a value that may not be a dictionary. *)
Definition get_field (k : string) (dflt v : pyval) : res pyval :=
  match v with PDict d => Ok (dget_or k dflt d) | _ => Err (AttributeError "get") end.

(** [sep.join(l)]: a [TypeError] unless every item is a string. *)
Definition join_vals (sep : string) (l : list pyval) : res string :=
  rbind (mapM_res as_str l) (λ ss, Ok (join sep ss)).

(** The text parts of a multimodal message. *)
Fixpoint text_parts (content : list pyval) : res (list pyval) :=
  match content with
  | [] => Ok []
  | part :: rest =>
      rbind (get_field "type" PNone part) (λ ty,
      if eq_str ty "text" then
        rbind (get_field "text" (PStr "") part) (λ t,
        rbind (text_parts rest) (λ ts, Ok (t :: ts)))
      else text_parts rest)
  end.

Fixpoint prompt_parts (messages : list pyval) : res (list pyval) :=
  match messages with
  | [] => Ok []
  | message :: rest =>
      rbind (get_field "content" (PStr "") message) (λ content,
      match content with
      | PList parts =>
          rbind (rbind (text_parts parts) (join_vals " ")) (λ t,
          rbind (prompt_parts rest) (λ ps, Ok (PStr t :: ps)))
      | PNone => prompt_parts rest
      | _ => rbind (prompt_parts rest) (λ ps, Ok (content :: ps))
      end)
  end.

Definition extract_prompt (request_json : dict string pyval) : res pyval :=
  match dget "messages" request_json with
  | Some messages =>
      if truthy messages then
        match messages with
        | PList ms => rbind (prompt_parts ms) (λ ps, rbind (join_vals newline ps) (λ s, Ok (PStr s)))
        | PStr _ | PDict _ => Err (AttributeError "get")
        | _ => Err TypeError
        end
      else Ok (PStr "")
  | None => of_option (KeyError "prompt") (dget "prompt" request_json)
  end.

(** What the trie's chunking makes of a prompt that is not a string: an empty list or
    dictionary has no chunk, anything else cannot be digested. *)
Definition prompt_text (v : pyval) : res string :=
  match v with
  | PStr s => Ok s
  | PList [] | PDict [] => Ok ""
  | _ => Err TypeError
  end.

Module PrefixAwareRouter.
Section router.
Context (xxh64 : string → Z) (choice : gset string → string).

Record state : Type := mkState {
  hashtrie : HashTrie;
  prefix_min_match_length : Z
}.
Definition init (min_match : Z) : state := mkState (HashTrie_init 128) min_match.

Definition trie_insert (prompt u : string) : M state unit := λ s,
  let '(t, r) := insert xxh64 prompt u s.(hashtrie) in
  (mkState t s.(prefix_min_match_length), r).

Definition route_request (endpoints : list EndpointInfo) (stats : gmap string RequestStats)
    (request_json : dict string pyval) : M state (option string) :=
  v <- lift (extract_prompt request_json) ;;
  prompt <- lift (prompt_text v) ;;
  let available_endpoints := url_set endpoints in
  t <- gets hashtrie ;;
  lm <- lift (longest_prefix_match xxh64 prompt available_endpoints t) ;;
  min_match <- gets prefix_min_match_length ;;
  if (Z.of_nat lm.1 <? min_match)%Z then
    match qps_routing endpoints stats with
    | None => ret None
    | Some u => trie_insert prompt u ;;; ret (Some u)
    end
  else if decide (lm.2 = ∅) then raise IndexError
  else trie_insert prompt (choice lm.2) ;;; ret (Some (choice lm.2)).

(** [random.choice] picks a member. *)
Context (choice_elem : ∀ X : gset string, X ≠ ∅ → choice X ∈ X).

(** The state of a router that has routed the hashed prompts of [H]. *)
Definition after (H : list (list Z * string)) (n : nat) (min_match : Z) : state :=
  mkState (mkTrie (trie_of H) n) min_match.

Definition prompt_of (js : dict string pyval) : res string := rbind (extract_prompt js) prompt_text.

Lemma trie_insert_after H n mm prompt u hs :
  chunk_and_hash xxh64 n prompt = Ok hs →
  trie_insert prompt u (after H n mm) = (after (H ++ [(hs, u)]) n mm, Ok tt).
Proof. intros Hc. unfold trie_insert. simpl. by rewrite (insert_trie_of _ _ _ _ _ _ Hc). Qed.

Lemma url_set_elem endpoints u : u ∈ url_set endpoints ↔ u ∈ url <$> endpoints.
Proof. unfold url_set. apply elem_of_list_to_set. Qed.

Lemma prefix_route_spec H n mm endpoints stats js prompt hs :
  endpoints ≠ [] → prompt_of js = Ok prompt → chunk_and_hash xxh64 n prompt = Ok hs →
  ∃ u k, route_request endpoints stats js (after H n mm) =
      (after (H ++ [(hs, u)]) n mm, Ok (Some u)) ∧
    u ∈ url <$> endpoints ∧ k ≤ length hs ∧
    (0 < k → ∃ e, e ∈ url <$> endpoints ∧ holds H (take k hs) e) ∧
    (∀ k' e, k < k' ≤ length hs → e ∈ url <$> endpoints → ¬ holds H (take k' hs) e) ∧
    if (Z.of_nat (k * n) <? mm)%Z then qps_routing endpoints stats = Some u
    else k = 0 ∨ holds H (take k hs) u.
Proof.
  intros Hne Hp Hc. unfold prompt_of in Hp.
  destruct (extract_prompt js) as [v|] eqn:Ev; [|done]. simpl in Hp.
  destruct (match_longest xxh64 H n prompt (url_set endpoints) hs Hc)
    as (k & len & sel & Hm & Hk & -> & Hsel & Hex & Hmax).
  setoid_rewrite url_set_elem in Hsel. setoid_rewrite url_set_elem in Hex.
  setoid_rewrite url_set_elem in Hmax.
  unfold route_request. unfold bind at 1, lift at 1. rewrite Ev.
  unfold bind at 1, lift at 1. rewrite Hp. unfold bind at 1, gets at 1.
  unfold bind at 1, lift at 1. cbn [hashtrie after]. rewrite Hm.
  unfold bind at 1, gets at 1. cbn [fst snd].
  change (prefix_min_match_length (after H n mm)) with mm.
  destruct (Z.of_nat (k * n) <? mm)%Z eqn:El.
  - destruct (qps_routing_is_Some endpoints stats Hne) as [u Hu]. 
    exists u, k. rewrite Hu. unfold bind.
    pose proof (trie_insert_after H n mm prompt u hs Hc) as Hi.
    rewrite Hi, El.
    split; [done|]. split; [by eapply qps_routing_elem|done].
  - assert (Hs : sel ≠ ∅).
    { destruct (decide (k = 0)) as [->|Hk0].
      - destruct endpoints as [|e es]; [done|]. intros Hs.
        assert (url e ∈ sel) by (apply Hsel; split; [set_solver|by left]). set_solver.
      - destruct (Hex ltac:(lia)) as (e & He & Hh). intros Hs.
        assert (e ∈ sel) by (apply Hsel; auto). set_solver. }
    rewrite decide_False by done. exists (choice sel), k. unfold bind.
    pose proof (trie_insert_after H n mm prompt (choice sel) hs Hc) as Hi.
    rewrite Hi, El.
    apply choice_elem, Hsel in Hs as [Hin Hh]. done.
Qed.

(** A prompt that cannot be read or hashed raises and leaves the trie alone. *)
Lemma prefix_route_no_prompt H n mm endpoints stats js e :
  prompt_of js = Err e → route_request endpoints stats js (after H n mm) = (after H n mm, Err e).
Proof.
  unfold prompt_of, route_request, bind, lift. destruct (extract_prompt js); simpl; [|by intros [= ->]].
  by intros ->.
Qed.
Lemma prefix_route_unhashable H n mm endpoints stats js prompt e :
  prompt_of js = Ok prompt → chunk_and_hash xxh64 n prompt = Err e →
  route_request endpoints stats js (after H n mm) = (after H n mm, Err e).
Proof.
  unfold prompt_of, route_request, bind, lift, gets. destruct (extract_prompt js); simpl; [|done].
  intros -> Hc. unfold longest_prefix_match. simpl. by rewrite Hc.
Qed.

(** C24: the prefix-aware decision, after any history [H] of routed prompts: a prompt
    goes to a listed engine that has been sent the longest prefix of it, in whole
    chunks, that any listed engine has been sent; when that match is shorter than
    [prefix_min_match_length] it goes to the engine QPS routing selects; in both cases
    the prompt is recorded for the chosen engine. *)
Theorem prefix_routing_follows_the_longest_prefix H n mm endpoints stats js prompt hs :
  endpoints ≠ [] → prompt_of js = Ok prompt → chunk_and_hash xxh64 n prompt = Ok hs →
  ∃ u k, route_request endpoints stats js (after H n mm) =
      (after (H ++ [(hs, u)]) n mm, Ok (Some u)) ∧
    u ∈ url <$> endpoints ∧ k ≤ length hs ∧
    (0 < k → ∃ e, e ∈ url <$> endpoints ∧ holds H (take k hs) e) ∧
    (∀ k' e, k < k' ≤ length hs → e ∈ url <$> endpoints → ¬ holds H (take k' hs) e) ∧
    if (Z.of_nat (k * n) <? mm)%Z then qps_routing endpoints stats = Some u
    else k = 0 ∨ holds H (take k hs) u.
Proof. apply prefix_route_spec. Qed.

(** Prefix affinity activates: a prompt of at least [prefix_min_match_length]
    matched characters that no listed engine has been sent before goes, the second
    time, to the engine it went to the first time, whichever way that one was
    chosen. *)
Theorem prefix_affinity H n mm endpoints endpoints' stats stats' js prompt hs :
  endpoints ≠ [] → prompt_of js = Ok prompt → chunk_and_hash xxh64 n prompt = Ok hs →
  hs ≠ [] → (mm <= Z.of_nat (length hs * n))%Z →
  (∀ e, e ∈ url <$> endpoints' → ¬ holds H hs e) →
  ∃ s u, route_request endpoints stats js (after H n mm) = (s, Ok (Some u)) ∧
    (u ∈ url <$> endpoints' →
     ∃ s', route_request endpoints' stats' js s = (s', Ok (Some u))).
Proof.
  intros Hne Hp Hc Hhs Hmm Hnew.
  destruct (prefix_route_spec H n mm endpoints stats js prompt hs Hne Hp Hc)
    as (u & k & E & Hu & _). eexists _, u. split; [exact E|]. intros Hu'.
  destruct (prefix_route_spec (H ++ [(hs, u)]) n mm endpoints' stats' js prompt hs)
    as (u2 & k2 & E2 & Hu2 & Hk2 & Hex2 & Hmax2 & Hsel2); [intros ->; set_solver|done|done|].
  assert (Hself : holds (H ++ [(hs, u)]) hs u) by (exists hs; set_solver).
  assert (k2 = length hs) as ->.
  { destruct (decide (k2 = length hs)); [done|]. exfalso.
    apply (Hmax2 (length hs) u); [lia|done|]. by rewrite take_ge. }
  rewrite take_ge in Hsel2 by done.
  destruct (Z.of_nat (length hs * n) <? mm)%Z eqn:El; [bool_to_prop; lia|].
  destruct Hsel2 as [Hz|(hs' & Hin & Hpre)]; [by destruct hs|].
  apply elem_of_app in Hin as [Hin| [= -> ->]%list_elem_of_singleton]; [|eauto].
  exfalso. apply (Hnew u2 Hu2). by exists hs'.
Qed.
End router.
End PrefixAwareRouter.

(* ------------------------------------------------------------------ *)
(** ** Witnesses *)

Definition choose_least (X : gset string) : string := default "" (min_node X).

Lemma choose_least_elem X : X ≠ ∅ → choose_least X ∈ X.
Proof.
  unfold choose_least. intros HX. destruct (min_node X) as [u|] eqn:E.
  - by apply min_node_spec in E as [? _].
  - by apply min_node_None in E.
Qed.

Definition prefix_js : dict string pyval :=
  [("messages", PList [PDict [("role", PStr "user"); ("content", PStr "abcd")]])].

Lemma prefix_routing_witness :
  ∃ u k, PrefixAwareRouter.route_request char_sum choose_least [ep_of "http://a"; ep_of "http://b"] ∅
      prefix_js (PrefixAwareRouter.after [([195%Z], "http://b")] 2 0)
      = (PrefixAwareRouter.after ([([195%Z], "http://b")] ++ [([195%Z; 199%Z], u)]) 2 0, Ok (Some u)) ∧
    k ≤ 2.
Proof.
  destruct (PrefixAwareRouter.prefix_routing_follows_the_longest_prefix char_sum choose_least
    choose_least_elem [([195%Z], "http://b")] 2 0%Z [ep_of "http://a"; ep_of "http://b"] ∅ prefix_js
    "abcd" [195%Z; 199%Z]) as (u & k & H1 & _ & H2 & _).
  - discriminate.
  - reflexivity.
  - reflexivity.
  - exists u, k. split; [exact H1|exact H2].
Defined.

Lemma prefix_affinity_witness :
  ∃ s u, PrefixAwareRouter.route_request char_sum choose_least [ep_of "http://a"; ep_of "http://b"] ∅
      prefix_js (PrefixAwareRouter.after [([195%Z], "http://b")] 2 4) = (s, Ok (Some u)).
Proof.
  destruct (PrefixAwareRouter.prefix_affinity char_sum choose_least
    choose_least_elem [([195%Z], "http://b")] 2 4%Z [ep_of "http://a"; ep_of "http://b"]
    [ep_of "http://a"; ep_of "http://b"] ∅ ∅ prefix_js
    "abcd" [195%Z; 199%Z]) as (s & u & H1 & _).
  - discriminate.
  - reflexivity.
  - reflexivity.
  - discriminate.
  - vm_compute. discriminate.
  - intros e _ (hs & Hin & Hp). apply list_elem_of_singleton in Hin. injection Hin as -> ->.
    apply prefix_length in Hp. simpl in Hp. lia.
  - exists s, u. exact H1.
Defined.
