(* ===== verification/RoutingRegistry.v ===== *)
(** * The registry of routers
      (src/src/vllm_router/routers/routing_logic.py, last part;
       [SingletonABCMeta] of src/src/vllm_router/utils.py)

    Router classes are singletons: [SingletonABCMeta._instances] maps a class to its
    one instance.  [initialize_routing_logic] creates the router of the configured
    kind, [get_routing_logic] finds it, [reconfigure_routing_logic] replaces it. *)

From S2P Require Import Prelude PyDict PyStr PyVal Endpoint RequestStats HashTrie Routing.
From S2P Require Import RoutingPriority RoutingKv RoutingPrefix.

Local Open Scope py_scope.

Inductive RoutingLogic : Type :=
| ROUND_ROBIN | SESSION_BASED | KVAWARE | LOADAWARE | PREFIXAWARE
| DISAGGREGATED_PREFILL | DISAGGREGATED_PREFILL_ORCHESTRATED | PRIORITY.

(** The string values of the enumeration. *)
Definition RoutingLogic_value (r : RoutingLogic) : string :=
  match r with
  | ROUND_ROBIN => "roundrobin"
  | SESSION_BASED => "session"
  | KVAWARE => "kvaware"
  | LOADAWARE => "loadaware"
  | PREFIXAWARE => "prefixaware"
  | DISAGGREGATED_PREFILL => "disaggregated_prefill"
  | DISAGGREGATED_PREFILL_ORCHESTRATED => "disaggregated_prefill_orchestrated"
  | PRIORITY => "priority"
  end.

Inductive RouterClass : Type :=
| CSession | CRoundRobin | CKvaware | CLoadAware | CPrefixAware
| CDisaggregatedPrefill | CDisaggregatedPrefillOrchestrated | CPriority.

#[global] Instance RouterClass_eq_dec : EqDecision RouterClass.
Proof. solve_decision. Defined.

(** The order in which [get_routing_logic] and [cleanup_routing_logic] look. *)
Definition router_classes : list RouterClass :=
  [CSession; CRoundRobin; CKvaware; CLoadAware; CPrefixAware; CDisaggregatedPrefill;
   CDisaggregatedPrefillOrchestrated; CPriority].

(** The keyword arguments of [initialize_routing_logic]; [None] is an absent one. *)
Record Kwargs : Type := mkKwargs {
  k_session_key : option string;
  k_kv_aware_threshold : option Z;
  k_loadaware_beta : option Q;
  k_prefix_min_match_length : option Z;
  k_prefill_model_labels : option labels;
  k_decode_model_labels : option labels;
  k_priority_header : option string;
  k_priority_field : option string;
  k_priority_default : option Z;
  k_priority_threshold : option Z;
  k_max_instance_failover_reroute_attempts : option Z
}.
Definition no_kwargs : Kwargs :=
  mkKwargs None None None None None None None None None None None.

(** What the constructors meet outside the process: whether the LMCache controller
    can be built, the LOADAWARE_BETA variable, and how a cancelled monitor task ends. *)
Record Env : Type := mkEnv {
  controller_manager : res unit;
  env_loadaware_beta : option string;
  monitor_outcome : res unit
}.

Section registry.
Context {ring : Type} `{HashRing ring}.

Inductive RouterState : Type :=
| SSession (s : SessionRouter.state ring)
| SRoundRobin (s : RoundRobinRouter.state)
| SKvaware (s : kv_state ring)
| SLoadAware (s : kv_state ring) (beta : Q)
| SPrefixAware (s : PrefixAwareRouter.state)
| SDisaggregatedPrefill (s : DisaggregatedPrefillRouter.state)
| SDisaggregatedPrefillOrchestrated (s : DisaggregatedPrefillOrchestratedRouter.state)
| SPriority (s : PriorityRouter.state).

(** A router object: [failover] is its [max_instance_failover_reroute_attempts]
    attribute, absent until it is assigned. *)
Record Router : Type := mkRouter {
  r_state : RouterState;
  failover : option Z
}.

Abbreviation registry := (list (RouterClass * Router)).

Definition class_of (st : RouterState) : RouterClass :=
  match st with
  | SSession _ => CSession
  | SRoundRobin _ => CRoundRobin
  | SKvaware _ => CKvaware
  | SLoadAware _ _ => CLoadAware
  | SPrefixAware _ => CPrefixAware
  | SDisaggregatedPrefill _ => CDisaggregatedPrefill
  | SDisaggregatedPrefillOrchestrated _ => CDisaggregatedPrefillOrchestrated
  | SPriority _ => CPriority
  end.

(** [SingletonABCMeta.__call__]: the constructor runs only for a class without an
    instance, and a constructor that raises leaves none. *)
Definition singleton_call (cls : RouterClass) (construct : res RouterState) :
  M registry RouterClass := λ reg,
  match dget cls reg with
  | Some _ => (reg, Ok cls)
  | None =>
      match construct with
      | Err e => (reg, Err e)
      | Ok st => (dset cls (mkRouter st None) reg, Ok cls)
      end
  end.

Definition update (cls : RouterClass) (f : Router → Router) : M registry unit := λ reg,
  match dget cls reg with
  | Some r => (dset cls (f r) reg, Ok tt)
  | None => (reg, Ok tt)
  end.

(** [router.start_kv_manager()]. *)
Definition start_manager (r : Router) : Router :=
  match r.(r_state) with
  | SKvaware s => mkRouter (SKvaware (start_kv_manager s)) r.(failover)
  | SLoadAware s b => mkRouter (SLoadAware (start_kv_manager s) b) r.(failover)
  | _ => r
  end.

(** The class and the constructor call of each kind. *)
Definition router_class (rl : RoutingLogic) : RouterClass :=
  match rl with
  | ROUND_ROBIN => CRoundRobin
  | SESSION_BASED => CSession
  | KVAWARE => CKvaware
  | LOADAWARE => CLoadAware
  | PREFIXAWARE => CPrefixAware
  | DISAGGREGATED_PREFILL => CDisaggregatedPrefill
  | DISAGGREGATED_PREFILL_ORCHESTRATED => CDisaggregatedPrefillOrchestrated
  | PRIORITY => CPriority
  end.
Definition construct (env : Env) (rl : RoutingLogic) (kw : Kwargs) : res RouterState :=
  match rl with
  | ROUND_ROBIN => Ok (SRoundRobin RoundRobinRouter.init)
  | SESSION_BASED => rbind (SessionRouter.init kw.(k_session_key)) (λ s, Ok (SSession s))
  | KVAWARE =>
      rbind env.(controller_manager) (λ _,
      Ok (SKvaware (kv_init kw.(k_session_key) kw.(k_kv_aware_threshold))))
  | LOADAWARE =>
      rbind env.(controller_manager) (λ _,
      let '(s, beta) := la_init kw.(k_session_key) kw.(k_kv_aware_threshold)
                          kw.(k_loadaware_beta) env.(env_loadaware_beta) in
      Ok (SLoadAware s beta))
  | PREFIXAWARE =>
      Ok (SPrefixAware (PrefixAwareRouter.init (default 0%Z kw.(k_prefix_min_match_length))))
  | DISAGGREGATED_PREFILL =>
      Ok (SDisaggregatedPrefill (DisaggregatedPrefillRouter.init
            kw.(k_prefill_model_labels) kw.(k_decode_model_labels)))
  | DISAGGREGATED_PREFILL_ORCHESTRATED =>
      Ok (SDisaggregatedPrefillOrchestrated (DisaggregatedPrefillOrchestratedRouter.init
            kw.(k_prefill_model_labels) kw.(k_decode_model_labels)))
  | PRIORITY =>
      Ok (SPriority (PriorityRouter.init
            (default "x-request-priority" kw.(k_priority_header))
            (default "priority" kw.(k_priority_field))
            (default 0%Z kw.(k_priority_default)) kw.(k_priority_threshold)))
  end.

(** The orchestrated router is returned before the fail-over attribute is set. *)
Definition initialize_routing_logic (env : Env) (rl : RoutingLogic) (kw : Kwargs) :
  M registry RouterClass :=
  router <- singleton_call (router_class rl) (construct env rl kw) ;;
  match rl with
  | DISAGGREGATED_PREFILL_ORCHESTRATED => ret router
  | _ =>
      match rl with
      | KVAWARE | LOADAWARE => update router start_manager
      | _ => ret tt
      end ;;;
      update router (λ r, mkRouter r.(r_state)
        (Some (default 0%Z kw.(k_max_instance_failover_reroute_attempts)))) ;;;
      ret router
  end.

Definition close_router (env : Env) (r : Router) : Router * res unit :=
  match r.(r_state) with
  | SKvaware s =>
      let '(s', o) := close env.(monitor_outcome) s in (mkRouter (SKvaware s') r.(failover), o)
  | SLoadAware s b =>
      let '(s', o) := close env.(monitor_outcome) s in (mkRouter (SLoadAware s' b) r.(failover), o)
  | _ => (r, Ok tt)
  end.

Definition cleanup_class (env : Env) (cls : RouterClass) : M registry unit := λ reg,
  match dget cls reg with
  | None => (reg, Ok tt)
  | Some r =>
      let '(r', o) := close_router env r in
      match o with
      | Err e => (dset cls r' reg, Err e)
      | Ok _ => (ddel cls reg, Ok tt)
      end
  end.
Definition cleanup_routing_logic (env : Env) : M registry unit :=
  for_each router_classes (cleanup_class env).

Definition reconfigure_routing_logic (env : Env) (rl : RoutingLogic) (kw : Kwargs) :
  M registry RouterClass :=
  cleanup_routing_logic env ;;; initialize_routing_logic env rl kw.

Fixpoint find_class (classes : list RouterClass) (reg : registry) : option RouterClass :=
  match classes with
  | [] => None
  | cls :: rest => if din cls reg then Some cls else find_class rest reg
  end.
Definition get_routing_logic : M registry RouterClass := λ reg,
  (reg, of_option (ValueError "The global router has not been initialized")
          (find_class router_classes reg)).

(* ------------------------------------------------------------------ *)
(** ** Properties *)

(** The object a kind ends up with when its constructor yields [st]. *)
Definition fresh_router (rl : RoutingLogic) (kw : Kwargs) (st : RouterState) : Router :=
  match rl with
  | DISAGGREGATED_PREFILL_ORCHESTRATED => mkRouter st None
  | _ => mkRouter (start_manager (mkRouter st None)).(r_state)
           (Some (default 0%Z kw.(k_max_instance_failover_reroute_attempts)))
  end.

Lemma construct_class env rl kw st : construct env rl kw = Ok st → class_of st = router_class rl.
Proof.
  destruct rl; simpl; intros E; simplify_eq/=; try done.
  - unfold SessionRouter.init in E. destruct (k_session_key kw); by simplify_eq/=.
  - destruct (controller_manager env); by simplify_eq/=.
  - destruct (controller_manager env); by simplify_eq/=.
Qed.

Definition manager_closes (env : Env) : Prop :=
  env.(monitor_outcome) = Ok tt ∨ env.(monitor_outcome) = Err CancelledError.

Lemma close_router_ok env r : manager_closes env → (close_router env r).2 = Ok tt.
Proof.
  intros Hm. unfold close_router, close. destruct (r_state r) as [| |k|k b| | | |]; try done;
    destruct (monitor_task k); try done; by destruct Hm as [-> | ->].
Qed.

Lemma cleanup_class_ok env cls reg :
  manager_closes env → cleanup_class env cls reg = (ddel cls reg, Ok tt).
Proof.
  intros Hm. unfold cleanup_class. destruct (dget cls reg) as [r|] eqn:E.
  - pose proof (close_router_ok env r Hm) as Hc. destruct (close_router env r) as [r' o].
    simpl in Hc. by rewrite Hc.
  - by rewrite ddel_absent.
Qed.

Lemma cleanup_classes env cs reg :
  manager_closes env →
  for_each cs (cleanup_class env) reg = (foldl (λ r c, ddel c r) reg cs, Ok tt).
Proof.
  intros Hm. revert reg. induction cs as [|c cs IH]; intros reg; [done|].
  simpl. unfold bind. rewrite cleanup_class_ok by done. apply IH.
Qed.

Lemma foldl_ddel_keys cs (reg : registry) c :
  dict_wf reg → c ∈ dkeys (foldl (λ r c, ddel c r) reg cs) → c ∈ dkeys reg ∧ c ∉ cs.
Proof.
  revert reg. induction cs as [|x cs IH]; simpl; intros reg Hwf Hc; [set_solver|].
  apply IH in Hc as [Hc Hn]; [|by apply ddel_wf]. split; [by eapply dkeys_ddel_incl|].
  apply not_elem_of_cons. split; [|done]. intros ->.
  apply dget_is_Some in Hc. rewrite dget_ddel_eq in Hc by done. by destruct Hc.
Qed.

Lemma cleanup_empties env reg :
  manager_closes env → dict_wf reg → cleanup_routing_logic env reg = ([], Ok tt).
Proof.
  intros Hm Hwf. unfold cleanup_routing_logic. rewrite cleanup_classes by done. f_equal.
  destruct (foldl _ reg router_classes) as [|[c r] l] eqn:E; [done|]. exfalso.
  destruct (foldl_ddel_keys router_classes reg c Hwf) as [_ Hn]; [rewrite E; by left|].
  apply Hn. unfold router_classes. destruct c; set_solver.
Qed.

Lemma initialize_fresh env rl kw st :
  construct env rl kw = Ok st →
  initialize_routing_logic env rl kw [] = ([(router_class rl, fresh_router rl kw st)], Ok (router_class rl)).
Proof.
  intros Hc. unfold initialize_routing_logic, bind, singleton_call. simpl. rewrite Hc.
  apply construct_class in Hc.
  destruct rl, st; try done; unfold update; simpl; rewrite ?decide_True by done; done.
Qed.

Lemma reconfigure_spec env rl kw (reg : registry) :
  manager_closes env → dict_wf reg →
  reconfigure_routing_logic env rl kw reg =
    match construct env rl kw with
    | Ok st => ([(router_class rl, fresh_router rl kw st)], Ok (router_class rl))
    | Err e => ([], Err e)
    end.
Proof.
  intros Hm Hwf. unfold reconfigure_routing_logic, bind at 1. rewrite (cleanup_empties env reg Hm Hwf).
  destruct (construct env rl kw) as [st|e] eqn:E; [by apply initialize_fresh|].
  unfold initialize_routing_logic, bind, singleton_call. simpl. by rewrite E.
Qed.

(** A reconfiguration installs exactly one router: whatever routers were
    registered, afterwards the registry holds only the one of the requested kind,
    freshly constructed from the new arguments, and it is the one in use; when its
    constructor raises, the registry is left empty and no router is in use. *)
Theorem reconfigure_installs_exactly_one env rl kw (reg : registry) :
  manager_closes env → dict_wf reg →
  match construct env rl kw with
  | Ok st =>
      let reg' := [(router_class rl, fresh_router rl kw st)] in
      reconfigure_routing_logic env rl kw reg = (reg', Ok (router_class rl)) ∧
      get_routing_logic reg' = (reg', Ok (router_class rl)) ∧ class_of st = router_class rl
  | Err e =>
      reconfigure_routing_logic env rl kw reg = ([], Err e) ∧
      (get_routing_logic ([] : registry)).2
        = Err (ValueError "The global router has not been initialized")
  end.
Proof.
  intros Hm Hwf. rewrite (reconfigure_spec env rl kw reg Hm Hwf).
  destruct (construct env rl kw) as [st|e] eqn:E; [|done].
  split; [done|]. split; [by destruct rl|by eapply construct_class].
Qed.

(** A router class is a singleton: initializing a kind that already has an
    instance keeps that instance with the state it has accumulated, runs no
    constructor, whatever the arguments, and only assigns the fail-over bound (and
    restarts the cluster monitor of the KV-aware kinds). *)
Theorem initialize_keeps_the_instance env rl kw (reg : registry) r :
  dict_wf reg → dget (router_class rl) reg = Some r →
  let reg' := (initialize_routing_logic env rl kw reg).1 in
  (initialize_routing_logic env rl kw reg).2 = Ok (router_class rl) ∧
  dkeys reg' = dkeys reg ∧
  (∀ c, c ≠ router_class rl → dget c reg' = dget c reg) ∧
  ∃ r', dget (router_class rl) reg' = Some r' ∧
    r'.(r_state) = match rl with KVAWARE | LOADAWARE => (start_manager r).(r_state)
                   | _ => r.(r_state) end ∧
    r'.(failover) = match rl with
                    | DISAGGREGATED_PREFILL_ORCHESTRATED => r.(failover)
                    | _ => Some (default 0%Z kw.(k_max_instance_failover_reroute_attempts))
                    end.
Proof.
  intros Hwf Hr reg'.
  assert (Hset : ∀ r', dkeys (dset (router_class rl) r' reg) = dkeys reg).
  { intros r'. rewrite dkeys_dset. unfold din. by rewrite bool_decide_true by (rewrite Hr; eauto). }
  set (mk := λ r0 : Router, mkRouter r0.(r_state)
    (Some (default 0%Z kw.(k_max_instance_failover_reroute_attempts)))).
  assert (E : initialize_routing_logic env rl kw reg =
    (match rl with
     | DISAGGREGATED_PREFILL_ORCHESTRATED => reg
     | KVAWARE | LOADAWARE => dset (router_class rl) (mk (start_manager r)) reg
     | _ => dset (router_class rl) (mk r) reg
     end, Ok (router_class rl))).
  { unfold initialize_routing_logic, bind, singleton_call, update, ret.
    rewrite Hr. destruct rl; cbn [router_class] in *; rewrite ?Hr, ?dget_dset_eq, ?dset_dset; done. }
  unfold reg'. rewrite E. split; [done|]. cbn [fst].
  destruct rl; cbn [router_class] in *;
    (split; [first [apply Hset|done]|]; split; [intros; by rewrite ?dget_dset_ne by done|]);
    rewrite ?dget_dset_eq, ?Hr; eexists; split; try done.
Qed.
End registry.
Arguments RouterState : clear implicits.
Arguments Router : clear implicits.

(* ------------------------------------------------------------------ *)
(** ** Witnesses *)

Definition env_example : Env := mkEnv (Ok tt) None (Err CancelledError).

Lemma reconfigure_witness :
  let reg : list (RouterClass * Router (gset string)) :=
    [(CRoundRobin, mkRouter (SRoundRobin RoundRobinRouter.init) (Some 2%Z))] in
  reconfigure_routing_logic env_example PREFIXAWARE no_kwargs reg =
    ([(CPrefixAware, mkRouter (SPrefixAware (PrefixAwareRouter.init 0)) (Some 0%Z))], Ok CPrefixAware).
Proof.
  intros reg.
  refine (proj1 (reconfigure_installs_exactly_one env_example PREFIXAWARE no_kwargs reg _ _)).
  - right. reflexivity.
  - repeat constructor. set_solver.
Defined.

Lemma initialize_keeps_witness :
  let s : PrefixAwareRouter.state := PrefixAwareRouter.init 7 in
  let reg : list (RouterClass * Router (gset string)) :=
    [(CPrefixAware, mkRouter (SPrefixAware s) (Some 2%Z))] in
  (initialize_routing_logic env_example PREFIXAWARE no_kwargs reg).2 = Ok CPrefixAware.
Proof.
  intros s reg.
  refine (proj1 (initialize_keeps_the_instance env_example PREFIXAWARE no_kwargs reg
    (mkRouter (SPrefixAware s) (Some 2%Z)) _ _)).
  - repeat constructor. set_solver.
  - reflexivity.
Defined.
