(* ===== verification/RouterInterface.v ===== *)
(** * What a router promises
      (the contract of [RoutingInterface.route_request] in
       src/src/vllm_router/routers/routing_logic.py)

    Request routing is proved against the class [Router]: whatever the algorithm, an
    answer for a non-empty list is a URL of that list, and the router's invariant is
    kept, also when the call raises.  The instances are the router classes; the cache-
    and prefix-aware ones depend on the outside world and are passed explicitly. *)

From S2P Require Import Prelude PyDict PyStr PyVal Endpoint RequestStats HashTrie Routing.
From S2P Require Import RoutingPriority RoutingKv RoutingPrefix.

Local Open Scope py_scope.

(** [route_request] returns the request body beside the URL: the priority router
    writes into it, and [injects_priority] is [isinstance(router, PriorityRouter)]. *)
Class Router (R : Type) : Type := {
  route_request : list EndpointInfo → gmap string RequestStats → Request → dict string pyval →
    M R (string * dict string pyval);
  injects_priority : R → bool;
  router_inv : R → Prop;
  route_request_listed endpoints stats request js s :
    endpoints ≠ [] → router_inv s →
    let '(s', r) := route_request endpoints stats request js s in
    router_inv s' ∧ match r with Ok (u, _) => u ∈ url <$> endpoints | Err _ => True end
}.

(** A router that always answers. *)
Class TotalRouter (R : Type) `{Router R} : Prop :=
  route_request_total : ∀ endpoints stats request js s,
    endpoints ≠ [] → router_inv s → is_ok (route_request endpoints stats request js s).2 = true.

(** The answer of a router that is [None] only when nothing is listed. *)
Definition listed_url (o : option string) : res string := of_option AssertionError o.

(* ------------------------------------------------------------------ *)
(** ** Round robin *)

#[export] Instance round_robin_router : Router RoundRobinRouter.state.
Proof.
  refine {|
    route_request := λ endpoints _ _ js,
      u <- RoundRobinRouter.route_request endpoints ;; ret (u, js);
    injects_priority := λ _, false;
    router_inv := RoundRobinRouter.inv
  |}.
  intros endpoints _ _ js s Hne Hinv. unfold bind.
  destruct (RoundRobinRouter.rr_route_spec endpoints s Hinv Hne) as (s' & u & -> & Hinv' & Hu & _).
  split; [done|]. apply RoundRobinRouter.key_of_elem. by eapply list_elem_of_lookup_2.
Defined.

#[export] Instance round_robin_total : TotalRouter RoundRobinRouter.state.
Proof.
  intros endpoints stats request js s Hne Hinv. simpl. unfold bind.
  by destruct (RoundRobinRouter.rr_route_spec endpoints s Hinv Hne) as (s' & u & -> & _).
Qed.

(* ------------------------------------------------------------------ *)
(** ** Session *)

Section session.
Context {ring : Type} `{HashRing ring}.

#[export] Instance session_router : Router (SessionRouter.state ring).
Proof.
  refine {|
    route_request := λ endpoints stats request js,
      o <- SessionRouter.route_request endpoints stats request js ;;
      u <- lift (listed_url o) ;; ret (u, js);
    injects_priority := λ _, false;
    router_inv := λ _, True
  |}.
  intros endpoints stats request js s Hne _. unfold bind, SessionRouter.route_request.
  destruct (session_route _ _ _ _ _ _) as [r [u|]] eqn:E; simpl; [|done].
  split; [done|]. by eapply session_route_elem.
Defined.

#[export] Instance session_total : TotalRouter (SessionRouter.state ring).
Proof.
  intros endpoints stats request js s Hne _. simpl. unfold bind, SessionRouter.route_request.
  by destruct (session_route_Some (Some (SessionRouter.session_key s)) endpoints stats request js
    (SessionRouter.hash_ring s) Hne) as (r & u & ->).
Qed.
End session.

(* ------------------------------------------------------------------ *)
(** ** Priority *)

#[export] Instance priority_router : Router PriorityRouter.state.
Proof.
  refine {|
    route_request := PriorityRouter.route_request;
    injects_priority := λ _, true;
    router_inv := λ _, True
  |}.
  intros endpoints stats request js s Hne _.
  destruct (PriorityRouter.route_answers endpoints stats request js s Hne)
    as (s' & u & js' & -> & Hu). done.
Defined.

#[export] Instance priority_total : TotalRouter PriorityRouter.state.
Proof.
  intros endpoints stats request js s Hne _. simpl.
  by destruct (PriorityRouter.route_answers endpoints stats request js s Hne)
    as (s' & u & js' & -> & _).
Qed.

(* ------------------------------------------------------------------ *)
(** ** Disaggregated prefill *)

(** [route_general_request] never asks the two disaggregated routers, multipart
    requests do. *)
Lemma head_with_label ls endpoints P u :
  with_label ls endpoints = Ok P → of_option IndexError (url <$> head P) = Ok u → u ∈ url <$> endpoints.
Proof.
  intros HP Hu. destruct P as [|e l]; simpl in Hu; [done|]. injection Hu as <-. apply list_elem_of_fmap_2.
  apply (elem_of_with_label ls endpoints (e :: l)); [done|by left].
Qed.

#[export] Instance disaggregated_router : Router DisaggregatedPrefillRouter.state.
Proof.
  refine {|
    route_request := λ endpoints _ _ js,
      u <- DisaggregatedPrefillRouter.route_request endpoints js ;; ret (u, js);
    injects_priority := λ _, false;
    router_inv := λ _, True
  |}.
  intros endpoints stats request js s Hne _. unfold bind, DisaggregatedPrefillRouter.route_request.
  destruct (DisaggregatedPrefillRouter.labelled (DisaggregatedPrefillRouter.prefill_model_labels s) endpoints)
    as [P|] eqn:EP; [|done].
  destruct (DisaggregatedPrefillRouter.labelled (DisaggregatedPrefillRouter.decode_model_labels s) endpoints)
    as [D|] eqn:ED; [|done]. simpl.
  assert (Hl : ∀ o l u, DisaggregatedPrefillRouter.labelled o endpoints = Ok l →
    of_option IndexError (url <$> head l) = Ok u → u ∈ url <$> endpoints).
  { intros [ls|] l u; [apply head_with_label|]. by destruct endpoints. }
  destruct (eq_int _ _); [destruct (of_option IndexError (url <$> head P)) as [u|] eqn:E
    |destruct (of_option IndexError (url <$> head D)) as [u|] eqn:E]; try done; (split; [done|]);
    [exact (Hl _ _ _ EP E)|exact (Hl _ _ _ ED E)].
Defined.

#[export] Instance orchestrated_router : Router DisaggregatedPrefillOrchestratedRouter.state.
Proof.
  refine {|
    route_request := λ endpoints _ _ js,
      u <- DisaggregatedPrefillOrchestratedRouter.route_request endpoints ;; ret (u, js);
    injects_priority := λ _, false;
    router_inv := λ _, True
  |}.
  intros endpoints stats request js s Hne _.
  unfold bind, DisaggregatedPrefillOrchestratedRouter.route_request,
    DisaggregatedPrefillOrchestratedRouter.find_endpoints, bind.
  destruct (with_label (DisaggregatedPrefillOrchestratedRouter.prefill_model_labels s) endpoints)
    as [P|] eqn:EP; [|done].
  destruct (with_label (DisaggregatedPrefillOrchestratedRouter.decode_model_labels s) endpoints) as [D|]; [|done].
  destruct P as [|p P]; [done|]. destruct D as [|d D]; [done|].
  simpl. split; [done|]. by eapply (head_with_label _ endpoints).
Defined.

(* ------------------------------------------------------------------ *)
(** ** Cache aware *)

(** The outside world may answer every call differently: the state counts them. *)
Section kv.
Context {ring : Type} `{HashRing ring}.
Context (sv : nat → Services) (sched : nat → list EndpointInfo → list EndpointInfo).

Definition kv_router_inv (s : kv_state ring * nat) : Prop := ∃ th, kv_inv th s.1.

(** One call with the answers of its turn. *)
Definition nth_call (m : nat → M (kv_state ring) (option string)) (js : dict string pyval) :
  M (kv_state ring * nat) (string * dict string pyval) := λ s,
  let '(s', r) := m s.2 s.1 in
  ((s', S s.2), rbind r (λ o, rbind (listed_url o) (λ u, Ok (u, js)))).

Definition kvaware_router : Router (kv_state ring * nat).
Proof.
  refine {|
    route_request := λ endpoints stats request js,
      nth_call (λ n, kv_route_request (sv n) endpoints stats request js) js;
    injects_priority := λ _, false;
    router_inv := kv_router_inv
  |}.
  intros endpoints stats request js [s n] Hne (th & Hth). unfold nth_call. simpl in *.
  pose proof (kv_route_safe (sv n) endpoints stats request js s th Hne Hth) as Hs.
  destruct (kv_route_request _ _ _ _ _ s) as [s' [o|e]]; destruct Hs as [Hs Ho];
    (split; [by exists th|]); [|done]. by destruct Ho as (u & -> & Hu).
Defined.

Definition loadaware_router (beta : Q) : Router (kv_state ring * nat).
Proof.
  refine {|
    route_request := λ endpoints stats request js,
      nth_call (λ n, la_route_request beta (sv n) (sched n endpoints) endpoints stats request js) js;
    injects_priority := λ _, false;
    router_inv := kv_router_inv
  |}.
  intros endpoints stats request js [s n] Hne (th & Hth). unfold nth_call. simpl in *.
  pose proof (la_route_safe beta (sv n) (sched n endpoints) endpoints stats request js s th Hne Hth) as Hs.
  destruct (la_route_request _ _ _ _ _ _ _ s) as [s' [o|e]]; destruct Hs as [Hs Ho];
    (split; [by exists th|]); [|done]. by destruct Ho as (u & -> & Hu).
Defined.
End kv.

(* ------------------------------------------------------------------ *)
(** ** Prefix aware *)

Section prefix.
Context (xxh64 : string → Z) (choice : gset string → string).
Context (choice_elem : ∀ X : gset string, X ≠ ∅ → choice X ∈ X).

Definition prefix_router_inv (s : PrefixAwareRouter.state) : Prop :=
  ∃ H n mm, s = PrefixAwareRouter.after H n mm.

Definition prefix_router : Router PrefixAwareRouter.state.
Proof.
  refine {|
    route_request := λ endpoints stats request js,
      o <- PrefixAwareRouter.route_request xxh64 choice endpoints stats js ;;
      u <- lift (listed_url o) ;; ret (u, js);
    injects_priority := λ _, false;
    router_inv := prefix_router_inv
  |}.
  intros endpoints stats request js s Hne (H & n & mm & ->). unfold bind.
  destruct (PrefixAwareRouter.prompt_of js) as [prompt|e] eqn:Ep.
  - destruct (chunk_and_hash xxh64 n prompt) as [hs|e] eqn:Ec.
    + destruct (PrefixAwareRouter.prefix_route_spec xxh64 choice choice_elem H n mm endpoints stats js
        prompt hs Hne Ep Ec) as (u & k & -> & Hu & _).
      simpl. split; [|done]. by repeat eexists.
    + rewrite (PrefixAwareRouter.prefix_route_unhashable xxh64 choice H n mm endpoints stats js prompt e Ep Ec).
      split; [|done]. by repeat eexists.
  - rewrite (PrefixAwareRouter.prefix_route_no_prompt xxh64 choice H n mm endpoints stats js e Ep).
    split; [|done]. by repeat eexists.
Defined.
End prefix.
