(* ===== verification/Utils.v ===== *)
(** * Shared helpers (src/src/vllm_router/utils.py)

    Model types and their probe requests, URL validation, the parsers of the static
    configuration strings and the rewriting of request bodies.  [validate_url] is a
    regular expression of Regex.v. *)

From S2P Require Import Prelude PyDict PyStr PyVal Regex.
From Stdlib Require Import Ascii.

(* ------------------------------------------------------------------ *)
(** ** [validate_url] *)

Definition word_char (c : ascii) : bool :=
  is_alpha c || is_digit c || bool_decide (c ∈ ["_"; "-"]%char).
Definition not_newline (c : ascii) : bool := bool_decide (c ≠ "010"%char).

Definition re_domain : re :=
  RSeq (RPlus (RSeq (RPlus (RChar word_char)) (RLit "."))) (RSeq (RTimes 2 (RChar is_alpha)) (RStar (RChar is_alpha))).
Definition re_single_label : re := RPlus (RChar word_char).
Definition re_ipv4 : re :=
  RSeq (RRange 1 3 (RChar is_digit)) (RTimes 3 (RSeq (RLit ".") (RRange 1 3 (RChar is_digit)))).
Definition re_host : re :=
  RAlt re_domain (RAlt re_single_label (RAlt (RLit "localhost") re_ipv4)).
Definition re_url : re :=
  RSeq (RAlt (RLit "http") (RLit "https"))
  (RSeq (RLit "://")
  (RSeq re_host
  (RSeq (ROpt (RSeq (RLit ":") (RPlus (RChar is_digit))))
  (RSeq (ROpt (RSeq (RLit "/") (RStar (RChar not_newline))))
        (ROpt (RLit newline)))))).

(** [bool(regex.match(url))]: [$] also matches before a final newline. *)
Definition validate_url (url : string) : bool := fullmatch re_url url.

(* ------------------------------------------------------------------ *)
(** ** [ModelType] *)

Inductive ModelType : Type :=
| chat | completion | embeddings | rerank | score | transcription | vision | messages.

Definition ModelType_name (t : ModelType) : string :=
  match t with
  | chat => "chat" | completion => "completion" | embeddings => "embeddings"
  | rerank => "rerank" | score => "score" | transcription => "transcription"
  | vision => "vision" | messages => "messages"
  end.
Definition all_model_types : list ModelType :=
  [chat; completion; embeddings; rerank; score; transcription; vision; messages].
Definition get_all_fields : list string := ModelType_name <$> all_model_types.

(** [ModelType[model_type]]. *)
Definition ModelType_of (name : string) : res ModelType :=
  of_option (KeyError name)
    (snd <$> list_find (λ t, ModelType_name t = name) all_model_types).

Definition get_url (model_type : string) : res string :=
  rbind (ModelType_of model_type) (λ t, Ok
    match t with
    | chat | vision => "/v1/chat/completions"
    | completion => "/v1/completions"
    | embeddings => "/v1/embeddings"
    | rerank => "/v1/rerank"
    | score => "/v1/score"
    | transcription => "/v1/audio/transcriptions"
    | messages => "/v1/messages"
    end).

Definition IMAGE_DATA : string :=
  "data:image/jpeg;base64,iVBORw0KGgoAAAANSUhEUgAAAAIAAAACCAIAAAD91JpzAAAAG0lEQVR4nGLinfJq851wJn69udZSvIAAAAD//yf3BLKCfW8HAAAAAElFTkSuQmCC".
Definition hello_chat : dict string pyval :=
  [("messages", PList [PDict [("role", PStr "user"); ("content", PStr "Hello")]]);
   ("temperature", PFloat 0); ("max_tokens", PInt 3)].

(** [get_test_payload]; [wav] is [_SILENT_WAV_BYTES], and a transcription without it
    falls off the end, returning [None]. *)
Definition get_test_payload (wav : option string) (model_type : string) :
  res (option (dict string pyval)) :=
  rbind (ModelType_of model_type) (λ t, Ok
    match t with
    | chat | messages => Some hello_chat
    | completion => Some [("prompt", PStr "Hello"); ("max_tokens", PInt 3)]
    | embeddings => Some [("input", PStr "Hello")]
    | rerank => Some [("query", PStr "Hello"); ("documents", PList [PStr "Test"])]
    | score => Some [("encoding_format", PStr "float"); ("text_1", PStr "Test"); ("text_2", PStr "Test2")]
    | transcription =>
        (λ w, [("file", PList [PStr "empty.wav"; PStr w; PStr "audio/wav"])]) <$> wav
    | vision =>
        Some [("messages", PList [PDict [("role", PStr "user");
          ("content", PList
            [PDict [("type", PStr "text"); ("text", PStr "This is a test. Just reply with yes")];
             PDict [("type", PStr "image_url"); ("image_url", PDict [("url", PStr IMAGE_DATA)])]])]])]
    end).

(* ------------------------------------------------------------------ *)
(** ** Configuration strings *)

Definition parse_static_urls (static_backends : string) : list string :=
  filter (λ u, validate_url u = true) (split "," static_backends).

Definition parse_comma_separated_args (o : option string) : option (list string) :=
  split "," <$> o.

Fixpoint parse_aliases_go (l : list string) (aliases : dict string string) :
  res (dict string string) :=
  match l with
  | [] => Ok aliases
  | s :: l' =>
      match split ":" s with
      | [alias; model] => parse_aliases_go l' (dset alias model aliases)
      | _ => Err (ValueError "unpack")
      end
  end.
Definition parse_static_aliases (static_aliases : string) : res (dict string string) :=
  parse_aliases_go (split "," static_aliases) [].

(* ------------------------------------------------------------------ *)
(** ** Request bodies *)

(** [replace_model_in_request_body]: the dictionary is updated in place and dumped. *)
Definition replace_model_in_request_body {body} `{JsonCodec body}
    (request_json : dict string pyval) (model : string) : dict string pyval * body :=
  let request_json := dset "model" (PStr model) request_json in
  (request_json, json_dumps (PDict request_json)).

(** [headers["Content-Length"] = str(len(request_body))] on [MutableHeaders]: the
    first header of that name is replaced, its duplicates are dropped. *)
Fixpoint header_set (name v : string) (hs : dict string string) : dict string string :=
  match hs with
  | [] => [(lower name, v)]
  | (k, w) :: hs' =>
      if decide (lower k = lower name)
      then (lower name, v) :: filter (λ kv, lower kv.1 ≠ lower name) hs'
      else (k, w) :: header_set name v hs'
  end.
Definition update_content_length (headers : dict string string) (body_length : nat) :
  dict string string :=
  header_set "Content-Length" (str_of_int (Z.of_nat body_length)) headers.

(* ------------------------------------------------------------------ *)
(** ** Health probes *)

(** What [requests.post] and reading its answer come to. *)
Inductive PostOutcome : Type :=
| Response (status : Z) (json_ok : bool)
| RequestException
| PostRaised (e : exn).

(** [response.raise_for_status()] passes. *)
Definition status_ok (status : Z) : bool := negb ((400 <=? status) && (status <? 600))%Z.

(** [post url payload form]: [form] for a multipart request, whose form fields and
    files are one dictionary here. *)
Definition is_model_healthy (post : string → dict string pyval → bool → PostOutcome)
    (wav : option string) (url model model_type : string) : res bool :=
  rbind (get_url model_type) (λ model_url,
  rbind (get_test_payload wav model_type) (λ payload,
  let transcribe := bool_decide (model_type = "transcription") in
  let payload := dupdate [("model", PStr model)] (default [] payload) in
  match post (url +:+ model_url) payload transcribe with
  | PostRaised e => Err e
  | RequestException => Ok false
  | Response status json_ok =>
      Ok (status_ok status && (transcribe || json_ok))
  end)).

(* ------------------------------------------------------------------ *)
(** ** Properties *)

(** The shape [validate_url] documents: protocol, host, port and path. *)
Record url_shape (u : string) : Prop := {
  shape : ∃ scheme host port path nl,
    u = scheme +:+ "://" +:+ host +:+ port +:+ path +:+ nl ∧
    (scheme = "http" ∨ scheme = "https") ∧
    re_in host re_host ∧
    (port = "" ∨ ∃ digits, port = ":" +:+ digits ∧ digits ≠ "" ∧
       Forall (λ c, is_digit c = true) (list_ascii digits)) ∧
    (path = "" ∨ ∃ rest, path = "/" +:+ rest ∧
       Forall (λ c, c ≠ "010"%char) (list_ascii rest)) ∧
    (nl = "" ∨ nl = newline)
}.

#[local] Opaque RLit.
Lemma re_url_shape u : re_in u re_url ↔ url_shape u.
Proof.
  unfold re_url. rewrite re_in_seq. setoid_rewrite re_in_alt. setoid_rewrite re_in_seq.
  setoid_rewrite re_in_seq. setoid_rewrite re_in_seq. setoid_rewrite re_in_seq.
  setoid_rewrite re_in_opt. setoid_rewrite re_in_lit. setoid_rewrite re_in_seq.
  setoid_rewrite re_in_lit. setoid_rewrite re_in_plus_char. setoid_rewrite re_in_star_char.
  assert (Hnl : ∀ l, Forall (λ c, not_newline c = true) l ↔ Forall (λ c, c ≠ "010"%char) l).
  { intros l. apply Forall_iff. intros c. unfold not_newline. by rewrite bool_decide_eq_true. }
  setoid_rewrite Hnl. split.
  - intros (scheme & s2 & -> & Hs & sep & s3 & -> & -> & host & s4 & -> & Hh & port & s5 & -> & Hp &
      path & nl & -> & Hpath & Hn).
    constructor. exists scheme, host, port, path, nl. split; [done|]. split; [done|]. split; [done|].
    split; [|split; [|done]]; naive_solver.
  - intros [(scheme & host & port & path & nl & -> & Hs & Hh & Hp & Hpath & Hn)].
    eexists scheme, _. split; [reflexivity|]. split; [done|]. eexists "://", _. split; [reflexivity|].
    split; [done|]. eexists host, _. split; [reflexivity|]. split; [done|].
    eexists port, _. split; [reflexivity|]. split; [naive_solver|].
    exists path, nl. split; [reflexivity|]. split; [naive_solver|done].
Qed.

#[local] Transparent RLit.

(** [validate_url] accepts exactly the strings made of the protocol http or
    https, [://], a host of one of the four documented forms, an optional numeric
    port and an optional path without newlines (and one final newline, which [$]
    lets through); the backends read from the configuration are exactly the accepted
    pieces of the comma-separated list, in order. *)
Theorem configured_backends_are_valid_urls backends :
  (∀ u, validate_url u = true ↔ url_shape u) ∧
  (∀ u, u ∈ parse_static_urls backends ↔ u ∈ split "," backends ∧ url_shape u) ∧
  parse_static_urls backends `sublist_of` split "," backends ∧
  join "," (split "," backends) = backends.
Proof.
  assert (Hv : ∀ u, validate_url u = true ↔ url_shape u).
  { intros u. unfold validate_url. by rewrite fullmatch_spec, re_url_shape. }
  split; [done|]. split; [|split; [apply sublist_filter|by apply join_split]].
  intros u. unfold parse_static_urls. rewrite list_elem_of_filter, Hv. tauto.
Qed.

Example validate_url_ex :
  validate_url "http://10.0.0.1:8000" = true ∧ validate_url "https://a.example.com/v1?x" = true ∧
  validate_url "http://localhost" = true ∧ validate_url "ftp://a" = false ∧
  validate_url "http://" = false ∧ validate_url "http://a:port" = false ∧
  parse_static_urls "http://a:1,bad,http://b" = ["http://a:1"; "http://b"] ∧
  parse_static_aliases "gpt:llama,x:y" = Ok [("gpt", "llama"); ("x", "y")] ∧
  parse_static_aliases "gpt" = Err (ValueError "unpack").
Proof. by vm_compute. Qed.
