(* ===== verification/ServiceDiscovery.v ===== *)
(** * Static service discovery (src/src/vllm_router/service_discovery.py, first part)

    The backends of a static configuration and their health checks, and the client
    sessions of the disaggregated-prefill flow.  The probe
    ([utils.is_model_healthy]), the digest [md5] and [uuid4] are parameters. *)

From S2P Require Import Prelude PyDict PyStr PyVal Endpoint Utils RoutingPriority.

Local Open Scope py_scope.

(* ------------------------------------------------------------------ *)
(** ** Client sessions of the application state *)

(** [app.state.prefill_client] and [app.state.decode_client], by base URL. *)
Record Clients : Type := mkClients {
  prefill_client : option string;
  decode_client : option string
}.
Definition no_clients : Clients := mkClients None None.

(** The loop of [initialize_client_sessions]: the last endpoint of a kind wins. *)
Definition client_step (prefill decode : labels) (e : EndpointInfo) : M Clients unit :=
  in_prefill <- lift (label_in e.(model_label) prefill) ;;
  if in_prefill : bool then modify (λ c, mkClients (Some e.(url)) c.(decode_client))
  else
    in_decode <- lift (label_in e.(model_label) decode) ;;
    if in_decode : bool then modify (λ c, mkClients c.(prefill_client) (Some e.(url))) else ret tt.
Definition initialize_client_sessions (prefill decode : option labels)
    (endpoint_infos : list EndpointInfo) : M Clients unit :=
  match prefill, decode with
  | Some p, Some d => for_each endpoint_infos (client_step p d)
  | _, _ => ret tt
  end.

(* ------------------------------------------------------------------ *)
(** ** [ExternalOnlyServiceDiscovery] *)

Module ExternalOnly.
Definition get_endpoint_info : list EndpointInfo := [].
Definition get_health : bool := true.
End ExternalOnly.

(* ------------------------------------------------------------------ *)
(** ** [StaticServiceDiscovery] *)

Module Static.
Record state : Type := mkState {
  urls : list string;
  models : list string;
  aliases : option (dict string string);
  model_labels : option (list string);
  model_types : option (list string);
  engines_id : list string;
  added_timestamp : Z;
  unhealthy_endpoint_hashes : list string;
  running : bool;
  prefill_model_labels : option labels;
  decode_model_labels : option labels
}.

Definition init (uuid4 : nat → string) (now : Z) (us ms : list string)
    (al : option (dict string string)) (ls types : option (list string))
    (prefill decode : option labels) :
  res state :=
  if negb (length us =? length ms) then Err AssertionError
  else Ok (mkState us ms al ls types (uuid4 <$> seq 0 (length us)) now [] true prefill decode).

Section static.
Context (md5 : string → string).

Definition get_model_endpoint_hash (u m : string) : string := md5 (u +:+ m).

Definition is_ValueError (e : exn) : bool :=
  match e with ValueError _ | JSONDecodeError => true | _ => false end.

(** The loop over [zip(..., strict=True)]: lists of different lengths raise a
    [ValueError] at the end of the shortest, which is caught. *)
Fixpoint unhealthy_go (healthy : string → string → string → res bool)
    (us ms ts : list string) (unhealthy : list string) : res (list string) :=
  match us, ms, ts with
  | u :: us', m :: ms', t :: ts' =>
      match healthy u m t with
      | Ok true => unhealthy_go healthy us' ms' ts' unhealthy
      | Ok false => unhealthy_go healthy us' ms' ts' (unhealthy ++ [get_model_endpoint_hash u m])
      | Err e => if is_ValueError e then Ok unhealthy else Err e
      end
  | _, _, _ => Ok unhealthy
  end.
Definition get_unhealthy_endpoint_hashes (healthy : string → string → string → res bool)
    (s : state) : res (list string) :=
  match s.(model_types) with
  | None => Err TypeError
  | Some types => unhealthy_go healthy s.(urls) s.(models) types []
  end.

Definition set_unhealthy (hs : list string) (s : state) : state :=
  mkState s.(urls) s.(models) s.(aliases) s.(model_labels) s.(model_types) s.(engines_id)
    s.(added_timestamp) hs s.(running) s.(prefill_model_labels) s.(decode_model_labels).

(** One turn of [check_model_health]: an exception is logged and changes nothing;
    [true] when the turn sleeps before the next one. *)
Definition health_round (healthy : string → string → string → res bool) : M state bool :=
  try_except
    (hs <- (λ s, (s, get_unhealthy_endpoint_hashes healthy s)) ;;
     modify (set_unhealthy hs) ;;; ret true)
    (λ e, if is_Exception e then ret false else raise e).

(** [_get_model_info]. *)
Definition static_model_info (now : Z) (m : string) : dict string ModelInfo :=
  [(m, mkModelInfo (PStr m) (PStr "model") (PInt now) (PStr "vllm") PNone PNone false None)].

(** The endpoint of the [i]-th backend. *)
Definition static_endpoint (now : Z) (s : state) (i : nat) (u m : string) : res EndpointInfo :=
  rbind (match s.(model_labels) with
         | Some ((_ :: _) as l) => of_option IndexError (l !! i)
         | _ => Ok "default"
         end) (λ label,
  rbind (of_option IndexError (s.(engines_id) !! i)) (λ id,
  Ok (mkEndpoint u [m] id s.(added_timestamp) (Some label) false true None None None
        (Some (static_model_info now m))))).

Fixpoint endpoints_go (now : Z) (s : state) (i : nat) (us ms : list string) :
  res (list EndpointInfo) :=
  match us, ms with
  | u :: us', m :: ms' =>
      if bool_decide (get_model_endpoint_hash u m ∈ s.(unhealthy_endpoint_hashes))
      then endpoints_go now s (S i) us' ms'
      else
        rbind (static_endpoint now s i u m) (λ e,
        rbind (endpoints_go now s (S i) us' ms') (λ es, Ok (e :: es)))
  | _, _ => Ok []
  end.
Definition get_endpoint_info (now : Z) (s : state) : res (list EndpointInfo) :=
  endpoints_go now s 0 s.(urls) s.(models).

Definition has_ever_seen_model (model_name : string) (s : state) : bool :=
  bool_decide (model_name ∈ s.(models)) ||
  match s.(aliases) with Some al => din model_name al | None => false end.

Definition close (s : state) : state :=
  mkState s.(urls) s.(models) s.(aliases) s.(model_labels) s.(model_types) s.(engines_id)
    s.(added_timestamp) s.(unhealthy_endpoint_hashes) false s.(prefill_model_labels)
    s.(decode_model_labels).

Lemma unhealthy_go_spec healthy (ok : string → string → string → bool) us ms ts acc :
  (∀ u m t, healthy u m t = Ok (ok u m t)) →
  ∃ hs, unhealthy_go healthy us ms ts acc = Ok hs ∧
    ∀ h, h ∈ hs ↔ h ∈ acc ∨ ∃ i u m t, us !! i = Some u ∧ ms !! i = Some m ∧ ts !! i = Some t ∧
      ok u m t = false ∧ h = get_model_endpoint_hash u m ∧
      ∀ j, j ≤ i → is_Some (us !! j) ∧ is_Some (ms !! j) ∧ is_Some (ts !! j).
Proof.
  intros Hok. revert ms ts acc. induction us as [|u us IH]; intros ms ts acc.
  { exists acc. split; [by destruct ms, ts|]. naive_solver. }
  destruct ms as [|m ms]; [exists acc; naive_solver|].
  destruct ts as [|t ts]; [exists acc; naive_solver|]. simpl. rewrite Hok.
  set (acc' := if ok u m t then acc else acc ++ [get_model_endpoint_hash u m]).
  destruct (IH ms ts acc') as (hs & E & Hhs). exists hs.
  split; [unfold acc' in E; by destruct (ok u m t)|]. intros h. rewrite Hhs. split.
  - intros [Hh|(i & u' & m' & t' & Hu & Hm & Ht & Hf & -> & Hj)].
    + unfold acc' in Hh. destruct (ok u m t) eqn:Eok; [by left|].
      apply elem_of_app in Hh as [Hh| ->%list_elem_of_singleton]; [by left|right].
      exists 0, u, m, t. split_and!; try done. intros j Hj. assert (j = 0) as -> by lia. simpl. eauto.
    + right. exists (S i), u', m', t'. split_and!; try done. intros [|j] Hle; [simpl; eauto|].
      apply Hj. lia.
  - intros [Hh|(i & u' & m' & t' & Hu & Hm & Ht & Hf & -> & Hj)].
    + left. unfold acc'. destruct (ok u m t); [done|]. apply elem_of_app. by left.
    + destruct i as [|i]; simplify_eq/=.
      * left. unfold acc'. rewrite Hf. apply elem_of_app. right. by left.
      * right. exists i, u', m', t'. split_and!; try done. intros j Hle. apply (Hj (S j)). lia.
Qed.

(** The endpoint of the [j]-th backend, and whether its hash is not among the unhealthy. *)
Definition listed_as (now : Z) (s : state) (us ms : list string) (j : nat) (e : EndpointInfo) : Prop :=
  ∃ u m, us !! j = Some u ∧ ms !! j = Some m ∧ static_endpoint now s j u m = Ok e ∧ e.(url) = u ∧ e.(model_names) = [m].
Definition up (s : state) (us ms : list string) (j : nat) : bool :=
  match us !! j, ms !! j with
  | Some u, Some m => bool_decide (get_model_endpoint_hash u m ∉ s.(unhealthy_endpoint_hashes))
  | _, _ => false
  end.

(** The loop lists the healthy backends in their order. *)
Lemma endpoints_go_spec now s us ms n i :
  (∀ j u m, us !! j = Some u → ms !! j = Some m →
     ∃ e, static_endpoint now s j u m = Ok e ∧ e.(url) = u ∧ e.(model_names) = [m]) →
  length us = length ms → i + n = length us →
  ∃ es, endpoints_go now s i (drop i us) (drop i ms) = Ok es ∧
    Forall2 (listed_as now s us ms) (filter (λ j, up s us ms j = true) (seq i n)) es.
Proof.
  intros Hall Hlen. revert i. induction n as [|n IH]; intros i Hi.
  { exists []. rewrite !drop_ge by lia. split; [done|constructor]. }
  destruct (lookup_lt_is_Some_2 us i) as [u Hu]; [lia|]. destruct (lookup_lt_is_Some_2 ms i) as [m Hm]; [lia|].
  rewrite (drop_S us u i Hu), (drop_S ms m i Hm). destruct (IH (S i)) as (es & E & Hes); [lia|].
  cbn [endpoints_go seq]. assert (Hup : up s us ms i = true ↔ get_model_endpoint_hash u m ∉ s.(unhealthy_endpoint_hashes))
    by (unfold up; rewrite Hu, Hm; apply bool_decide_eq_true).
  destruct (decide (get_model_endpoint_hash u m ∈ s.(unhealthy_endpoint_hashes))) as [Hh|Hh].
  - rewrite bool_decide_true by done. rewrite filter_cons_False by (cbv beta; rewrite Hup; tauto). eauto.
  - rewrite bool_decide_false by done. rewrite filter_cons_True by (cbv beta; by rewrite Hup).
    destruct (Hall i u m Hu Hm) as (e & He & Hurl & Hnames). rewrite He, E. exists (e :: es). split; [done|].
    constructor; [by exists u, m|done].
Qed.

(** No backend configured with the URL and the model of the [i]-th one failed its probe. *)
Definition passes (ok : string → string → string → bool) (us ms types : list string) (i : nat) : bool :=
  match us !! i, ms !! i with
  | Some u, Some m =>
      forallb (λ j, match us !! j, ms !! j, types !! j with
                    | Some u', Some m', Some t => negb (bool_decide (u' = u ∧ m' = m)) || ok u m t
                    | _, _, _ => true
                    end) (seq 0 (length us))
  | _, _ => false
  end.

(** C29: after a round of health checks the list is that of the configured backends, in the
    order of the configuration and each as often as it is configured, without those whose
    URL and model failed: a backend is left out if and only if some configured backend with
    the same URL and model failed its probe, and one that is listed has its own URL, model,
    label and id.  The digest is assumed to separate the configured backends, and the
    labels, when there are any, to be as many as the backends. *)
Theorem static_discovery_lists_healthy_backends uuid4 t0 now us ms al labels types p d s
    healthy ok :
  init uuid4 t0 us ms al labels (Some types) p d = Ok s →
  length types = length us →
  match labels with Some l => l = [] ∨ length l = length us | None => True end →
  (∀ u m t, healthy u m t = Ok (ok u m t)) →
  (∀ i j u m u' m', us !! i = Some u → ms !! i = Some m → us !! j = Some u' → ms !! j = Some m' →
     get_model_endpoint_hash u m = get_model_endpoint_hash u' m' → u = u' ∧ m = m') →
  ∃ s' es, health_round healthy s = (s', Ok true) ∧ get_endpoint_info now s' = Ok es ∧
    Forall2 (listed_as now s us ms) (filter (λ i, passes ok us ms types i = true) (seq 0 (length us))) es.
Proof.
  intros Hinit Hlt Hll Hok Hinj. unfold init in Hinit.
  destruct (length us =? length ms) eqn:El; [|done]. apply Nat.eqb_eq in El.
  injection Hinit as <-. set (s := mkState _ _ _ _ _ _ _ _ _ _ _).
  destruct (unhealthy_go_spec healthy ok us ms types [] Hok) as (hs & Eh & Hhs).
  set (s' := set_unhealthy hs s).
  assert (Hst : ∀ j u m, us !! j = Some u → ms !! j = Some m →
    ∃ e, static_endpoint now s' j u m = Ok e ∧ e.(url) = u ∧ e.(model_names) = [m]).
  { intros j u m Hu Hm. apply lookup_lt_Some in Hu as Hj. unfold static_endpoint. simpl.
    assert (Hid : (uuid4 <$> seq 0 (length us)) !! j = Some (uuid4 j)).
    { rewrite list_lookup_fmap, lookup_seq_lt by done. done. }
    assert (Hlab : ∃ lab, match labels with
      | Some ((_ :: _) as l) => of_option IndexError (l !! j) | _ => Ok "default" end = Ok lab).
    { destruct labels as [[|a l]|]; [by eauto| |by eauto]. destruct Hll as [?|Hl]; [done|].
      destruct (lookup_lt_is_Some_2 (a :: l) j) as [lab ->]; [lia|]. by eexists. }
    destruct Hlab as [lab ->]. rewrite Hid. simpl. by eexists. }
  destruct (endpoints_go_spec now s' us ms (length us) 0 Hst El eq_refl) as (es & Ee & Hes).
  exists s', es. split.
  { unfold health_round, try_except, bind, get_unhealthy_endpoint_hashes. simpl. by rewrite Eh. }
  split; [done|]. rewrite (list_filter_iff _ (λ i, passes ok us ms types i = true)) in Hes; [exact Hes|].
  intros i. unfold up, passes. destruct (us !! i) as [u|] eqn:Hu; [|done]. destruct (ms !! i) as [m|] eqn:Hm; [|done].
  rewrite bool_decide_eq_true, forallb_forall. cbn [s' set_unhealthy unhealthy_endpoint_hashes]. split.
  - intros Hn j Hj. destruct (us !! j) as [u'|] eqn:Hu'; [|done]. destruct (ms !! j) as [m'|] eqn:Hm'; [|done].
    destruct (types !! j) as [t|] eqn:Ht; [|done]. case_bool_decide as Heq; [|done]. destruct Heq as [-> ->]. simpl.
    apply not_false_iff_true. intros Hf. apply Hn, Hhs. right. exists j, u, m, t. split_and!; try done.
    intros k Hk. apply lookup_lt_Some in Hu'. rewrite !lookup_lt_is_Some. lia.
  - intros Hall Hin. apply Hhs in Hin as [Hin|(j & u' & m' & t & Hu' & Hm' & Ht & Hf & Heq & _)].
    { by apply elem_of_nil in Hin. }
    destruct (Hinj i j u m u' m') as [<- <-]; try done.
    specialize (Hall j). rewrite Hu', Hm', Ht, bool_decide_true, Hf in Hall by done.
    discriminate Hall. apply list_elem_of_In, elem_of_seq. apply lookup_lt_Some in Hu'. lia.
Qed.
End static.
End Static.

(* ------------------------------------------------------------------ *)
(** ** Witness *)

Definition static_ok (u m t : string) : bool := bool_decide (u = "http://a:1").

Lemma static_discovery_witness :
  ∃ s s' e, Static.init (λ _, "uuid") 7 ["http://a:1"; "http://b:1"] ["m"; "m"] None None
      (Some ["chat"; "chat"]) None None = Ok s ∧
    Static.health_round id (λ u m t, Ok (static_ok u m t)) s = (s', Ok true) ∧
    Static.get_endpoint_info id 9 s' = Ok [e] ∧ e.(url) = "http://a:1".
Proof.
  eexists.
  destruct (Static.static_discovery_lists_healthy_backends id (λ _, "uuid") 7 9
    ["http://a:1"; "http://b:1"] ["m"; "m"] None None ["chat"; "chat"] None None _
    (λ u m t, Ok (static_ok u m t)) static_ok eq_refl eq_refl I (λ _ _ _, eq_refl))
    as (s' & es & H1 & H2 & H3).
  - intros [|[|[|i]]] [|[|[|j]]] u m u' m' H1 H2 H3 H4 H5; try discriminate;
      injection H1 as <-; injection H2 as <-; injection H3 as <-; injection H4 as <-;
      try (split; reflexivity); discriminate H5.
  - change (filter _ (seq 0 _)) with [0] in H3. apply Forall2_cons_inv_l in H3 as (e & l & He & Hl & ->).
    apply Forall2_nil_inv_l in Hl as ->. destruct He as (u & m & [= <-] & _ & _ & Hu & _).
    exists s', e. split; [reflexivity|]. split; [exact H1|]. split; [exact H2|exact Hu].
Defined.
