(* ===== verification/ServiceDiscoveryK8s.v ===== *)
(** * Kubernetes service discovery
      (src/src/vllm_router/service_discovery.py, second part)

    [K8sPodIPServiceDiscovery] and [K8sServiceNameServiceDiscovery] watch a stream of
    events and keep the dictionary of available engines.  The Kubernetes API and the
    engines' HTTP answers are the record [K8sApi], which may differ from event to
    event. *)

From S2P Require Import Prelude PyDict PyStr PyVal Endpoint RoutingPrefix ServiceDiscovery.

Local Open Scope py_scope.

(** A container: its name and its command line, when the pod overrides it. *)
Definition container : Type := (string * option (list string))%type.

(** What the outside world answers while one event is handled.  [http_get] is
    [requests.get] with its [raise_for_status] and [json]. *)
Record K8sApi : Type := mkApi {
  http_get : option string → string → res pyval;
  api_key : option string;
  read_pod : string → res (list container);
  read_service : string → res (option (dict string string));
  list_pods : string → res (list (list container));
  read_endpoints : string → res (list nat);
  uuid5 : string → string;
  clock : Z
}.

(** The Authorization header. *)
Definition auth_header (api : K8sApi) : option string :=
  match api.(api_key) with
  | Some k => if decide (k = "") then None else Some ("Bearer " +:+ k)
  | None => None
  end.

Definition index_key (k : string) (v : pyval) : res pyval :=
  match v with PDict d => of_option (KeyError k) (dget k d) | _ => Err TypeError end.
Definition as_list (v : pyval) : res (list pyval) :=
  match v with PList l => Ok l | _ => Err TypeError end.
(** [model["id"]], a string in the engines' answers. *)
Definition model_id (v : pyval) : res string := rbind (index_key "id" v) as_str.

(** [response.json()["data"]]. *)
Definition models_data (answer : res pyval) : res (list pyval) :=
  rbind answer (λ v, rbind (index_key "data" v) as_list).

Definition model_names_of (answer : res pyval) : list string :=
  match rbind (models_data answer) (mapM_res model_id) with Ok names => names | Err _ => [] end.

Fixpoint model_infos (now : Z) (models : list pyval) (acc : dict string ModelInfo) :
  res (dict string ModelInfo) :=
  match models with
  | [] => Ok acc
  | m :: rest =>
      rbind (model_id m) (λ i,
      match m with
      | PDict d => model_infos now rest (dset i (from_dict now d) acc)
      | _ => Err TypeError
      end)
  end.
Definition model_info_of (now : Z) (answer : res pyval) : dict string ModelInfo :=
  match rbind (models_data answer) (λ l, model_infos now l []) with Ok d => d | Err _ => [] end.

Definition sleep_status_of (answer : res pyval) : bool :=
  match rbind answer (index_key "is_sleeping") with Ok v => truthy v | Err _ => false end.

(** The first container named vllm decides; an image's own entry point counts as
    sleep mode. *)
Fixpoint sleep_mode_of (containers : list container) : bool :=
  match containers with
  | [] => false
  | (name, command) :: rest =>
      if decide (name = "vllm") then
        match command with
        | None | Some [] => true
        | Some args => bool_decide ("--enable-sleep-mode" ∈ args)
        end
      else sleep_mode_of rest
  end.

(* ------------------------------------------------------------------ *)
(** ** The last decisive event of an engine *)

(** A watched event leaves an engine alone, removes it or (re)registers it. *)
Inductive verdict : Type := Keep | Remove | Register (e : EndpointInfo).

Section watch.
Context {Ev : Type} (name_of : Ev → string) (verdict_of : Ev → verdict).

Definition apply_verdict (d : dict string EndpointInfo) (ev : Ev) : dict string EndpointInfo :=
  match verdict_of ev with
  | Keep => d
  | Remove => ddel (name_of ev) d
  | Register e => dset (name_of ev) e d
  end.

Definition decisive (n : string) (ev : Ev) : Prop := name_of ev = n ∧ verdict_of ev ≠ Keep.

#[global] Instance decisive_dec n ev : Decision (decisive n ev).
Proof.
  unfold decisive. apply and_dec; [apply _|].
  destruct (verdict_of ev); [right|left|left]; naive_solver.
Defined.

Lemma apply_verdict_wf d ev : dict_wf d → dict_wf (apply_verdict d ev).
Proof. unfold apply_verdict. destruct (verdict_of ev); auto with py. Qed.

Lemma dget_apply_verdict n d ev :
  dict_wf d →
  dget n (apply_verdict d ev) =
    if decide (name_of ev = n) then
      match verdict_of ev with Keep => dget n d | Remove => None | Register e => Some e end
    else dget n d.
Proof.
  intros Hwf. unfold apply_verdict. case_decide as E.
  - subst n. destruct (verdict_of ev); [done|by apply dget_ddel_eq|apply dget_dset_eq].
  - destruct (verdict_of ev); [done|by rewrite dget_ddel_ne by done|by rewrite dget_dset_ne by done].
Qed.

Lemma foldl_verdict_wf trace d : dict_wf d → dict_wf (foldl apply_verdict d trace).
Proof.
  revert d. induction trace as [|ev t IH]; intros d Hd; simpl; [done|].
  by apply IH, apply_verdict_wf.
Qed.

(** An engine is listed as [e] exactly when its last decisive event registered [e]. *)
Lemma last_decisive_event n e trace :
  dget n (foldl apply_verdict [] trace) = Some e ↔
  ∃ l1 ev l2, trace = l1 ++ ev :: l2 ∧ name_of ev = n ∧ verdict_of ev = Register e ∧
    Forall (λ ev', ¬ decisive n ev') l2.
Proof.
  induction trace as [|x t IH] using rev_ind.
  { split; [done|]. intros (l1 & ev & l2 & E & _). by destruct l1. }
  rewrite foldl_app. simpl.
  rewrite dget_apply_verdict by (apply foldl_verdict_wf, dict_wf_nil).
  destruct (decide (decisive n x)) as [[Hn Hd]|Hnd].
  - rewrite decide_True by done. split.
    + destruct (verdict_of x) eqn:Hv; intros He; simplify_eq/=. by exists t, x, [].
    + intros (l1 & ev & l2 & E & Hev & Hr & Hf). destruct l2 as [|y l2 _] using rev_ind.
      * apply app_inj_tail in E as [_ ->]. by rewrite Hr.
      * exfalso. rewrite app_comm_cons, app_assoc in E. apply app_inj_tail in E as [_ ->].
        apply Forall_app in Hf as [_ Hy]. rewrite Forall_singleton in Hy. by apply Hy.
  - assert (Hsame : (if decide (name_of x = n) then
        match verdict_of x with
        | Keep => dget n (foldl apply_verdict [] t) | Remove => None | Register e => Some e end
      else dget n (foldl apply_verdict [] t)) = dget n (foldl apply_verdict [] t)).
    { case_decide as E; [|done]. destruct (verdict_of x) eqn:Hv; [done|..];
        exfalso; apply Hnd; split; congruence. }
    rewrite Hsame, IH. split.
    + intros (l1 & ev & l2 & -> & Hev & Hr & Hf). exists l1, ev, (l2 ++ [x]).
      split; [by rewrite <-app_assoc|]. split; [done|]. split; [done|].
      apply Forall_app. by repeat constructor.
    + intros (l1 & ev & l2 & E & Hev & Hr & Hf). destruct l2 as [|y l2 _] using rev_ind.
      * apply app_inj_tail in E as [_ ->]. exfalso. apply Hnd. split; [done|]. by rewrite Hr.
      * rewrite app_comm_cons, app_assoc in E. apply app_inj_tail in E as [-> ->].
        apply Forall_app in Hf as [Hf _]. by exists l1, ev, l2.
Qed.

(** The same, with the later events of the engine spelled out. *)
Lemma listed_by_last_event n e trace :
  dget n (foldl apply_verdict [] trace) = Some e ↔
  ∃ l1 ev l2, trace = l1 ++ ev :: l2 ∧ name_of ev = n ∧ verdict_of ev = Register e ∧
    Forall (λ ev', name_of ev' = n → verdict_of ev' = Keep) l2.
Proof.
  assert (Hdec : ∀ l, Forall (λ ev', ¬ decisive n ev') l ↔
    Forall (λ ev', name_of ev' = n → verdict_of ev' = Keep) l).
  { intros l. apply Forall_iff. intros ev. unfold decisive.
    destruct (verdict_of ev); naive_solver. }
  rewrite last_decisive_event. by setoid_rewrite Hdec.
Qed.
End watch.

(* ------------------------------------------------------------------ *)
(** ** [K8sPodIPServiceDiscovery] *)

Module PodIP.
Record state : Type := mkState {
  namespace_ : string;
  port : string;
  available_engines : dict string EndpointInfo;
  known_models : gset string;
  prefill_labels : option labels;
  decode_labels : option labels;
  event_loop_ready : bool;
  running : bool;
  clients : Clients
}.
(** The state before the watcher thread has seen an event. *)
Definition init (ns port : string) (prefill decode : option labels) : state :=
  mkState ns port [] ∅ prefill decode false true no_clients.

Definition set_engines (d : dict string EndpointInfo) (s : state) : state :=
  mkState s.(namespace_) s.(port) d s.(known_models) s.(prefill_labels) s.(decode_labels)
    s.(event_loop_ready) s.(running) s.(clients).
Definition set_known (k : gset string) (s : state) : state :=
  mkState s.(namespace_) s.(port) s.(available_engines) k s.(prefill_labels) s.(decode_labels)
    s.(event_loop_ready) s.(running) s.(clients).
Definition set_clients (c : Clients) (s : state) : state :=
  mkState s.(namespace_) s.(port) s.(available_engines) s.(known_models) s.(prefill_labels)
    s.(decode_labels) s.(event_loop_ready) s.(running) c.

Definition get_endpoint_info (s : state) : list EndpointInfo := dvalues s.(available_engines).

Definition refresh_clients (s : state) : state :=
  set_clients (initialize_client_sessions s.(prefill_labels) s.(decode_labels)
    (get_endpoint_info s) s.(clients)).1 s.

(** [set_event_loop]: the sessions deferred until now are created. *)
Definition set_event_loop (s : state) : state :=
  refresh_clients (mkState s.(namespace_) s.(port) s.(available_engines) s.(known_models)
    s.(prefill_labels) s.(decode_labels) true s.(running) s.(clients)).

(** A pod event: its type and the fields of the pod the watcher reads. *)
Record event : Type := mkEvent {
  ev_type : string;
  ev_name : string;
  ev_ip : option string;
  ev_deletion_timestamp : option string;
  ev_statuses : option (list bool);
  ev_labels : option (dict string string);
  ev_api : K8sApi
}.

Definition check_pod_ready (statuses : option (list bool)) : bool :=
  match statuses with
  | None | Some [] => false
  | Some l => length (filter (λ b, b = true) l) =? length l
  end.
Definition is_pod_terminating (ev : event) : bool :=
  match ev.(ev_deletion_timestamp) with Some _ => true | None => false end.

Definition engine_url (ip port : string) : string := "http://" +:+ ip +:+ ":" +:+ port.

Definition get_engine_sleep_status (api : K8sApi) (ip port : string) : bool :=
  sleep_status_of (api.(http_get) (auth_header api) (engine_url ip port +:+ "/is_sleeping")).
Definition check_engine_sleep_mode (api : K8sApi) (pod_name : string) : res bool :=
  match api.(read_pod) pod_name with
  | Ok containers => Ok (sleep_mode_of containers)
  | Err ApiException => Ok false
  | Err e => Err e
  end.
Definition get_model_names (api : K8sApi) (ip port : string) : list string :=
  model_names_of (api.(http_get) (auth_header api) (engine_url ip port +:+ "/v1/models")).
Definition get_model_info (api : K8sApi) (ip port : string) : dict string ModelInfo :=
  model_info_of api.(clock) (api.(http_get) (auth_header api) (engine_url ip port +:+ "/v1/models")).
Definition get_model_label (labels : option (dict string string)) : option string :=
  match labels with None | Some [] => None | Some d => dget "model" d end.

(** The record [_add_engine] stores. *)
Definition engine_info (api : K8sApi) (ns port name ip : string) (names : list string)
    (label : option string) (sleep : bool) : EndpointInfo :=
  mkEndpoint (engine_url ip port) names (api.(uuid5) name) api.(clock) label sleep true
    (Some name) None (Some ns) (Some (get_model_info api ip port)).

Definition add_engine (api : K8sApi) (name ip : string) (names : list string)
    (label : option string) : M state unit :=
  mode <- lift (check_engine_sleep_mode api name) ;;
  port <- gets port ;;
  let sleep := if (mode : bool) then get_engine_sleep_status api ip port else false in
  modify (λ s, set_engines
    (dset name (engine_info api s.(namespace_) port name ip names label sleep)
       s.(available_engines)) s) ;;;
  modify (λ s, if s.(event_loop_ready) then refresh_clients s else s) ;;;
  modify (λ s, set_known (list_to_set names ∪ s.(known_models)) s).

Definition delete_engine (name : string) : M state unit := λ s,
  if din name s.(available_engines)
  then (set_engines (ddel name s.(available_engines)) s, Ok tt)
  else (s, Err (KeyError name)).

(** [if name in available_engines: _delete_engine(name)]. *)
Definition delete_if_present (name : string) : M state unit := λ s,
  if din name s.(available_engines) then delete_engine name s else (s, Ok tt).

Definition on_engine_update (api : K8sApi) (name : string) (ip : option string) (event : string)
    (is_pod_ready : bool) (names : list string) (label : option string) : M state unit :=
  if decide (event = "ADDED") then
    match ip with
    | None => ret tt
    | Some ip =>
        if negb is_pod_ready then ret tt
        else match names with [] => ret tt | _ => add_engine api name ip names label end
    end
  else if decide (event = "DELETED") then delete_if_present name
  else if decide (event = "MODIFIED") then
    match ip with
    | None => delete_if_present name
    | Some ip =>
        match is_pod_ready, names with
        | true, _ :: _ => add_engine api name ip names label
        | _, _ => delete_if_present name
        end
    end
  else ret tt.

(** The body of the loop of [_watch_engines]; the IP of a pod without one is
    formatted as [None]. *)
Definition handle_event (ev : event) : M state unit :=
  if decide (ev.(ev_type) = "DELETED") then delete_if_present ev.(ev_name)
  else
    let is_pod_ready := check_pod_ready ev.(ev_statuses) && negb (is_pod_terminating ev) in
    port <- gets port ;;
    let names := if is_pod_ready then get_model_names ev.(ev_api) (default "None" ev.(ev_ip)) port
                 else [] in
    let label := if is_pod_ready then get_model_label ev.(ev_labels) else None in
    on_engine_update ev.(ev_api) ev.(ev_name) ev.(ev_ip) ev.(ev_type) is_pod_ready names label.

(** One watch stream: an exception ends it and is logged. *)
Definition watch_stream (evs : list event) : M state unit :=
  try_except (for_each evs handle_event)
    (λ e, if is_Exception e then ret tt else raise e).
Definition watch_engines (streams : list (list event)) : M state unit :=
  for_each streams (λ evs, r <- gets running ;; if (r : bool) then watch_stream evs else ret tt).

Definition has_ever_seen_model (model_name : string) (s : state) : bool :=
  bool_decide (model_name ∈ s.(known_models)).
Definition get_known_models (s : state) : gset string := s.(known_models).
Definition close (s : state) : state :=
  mkState s.(namespace_) s.(port) s.(available_engines) s.(known_models) s.(prefill_labels)
    s.(decode_labels) s.(event_loop_ready) false s.(clients).

(** *** What an event decides *)

Definition ready_of (ev : event) : bool :=
  check_pod_ready ev.(ev_statuses) && negb (is_pod_terminating ev).
Definition names_of (port : string) (ev : event) : list string :=
  if ready_of ev then get_model_names ev.(ev_api) (default "None" ev.(ev_ip)) port else [].
Definition sleep_of (port ip : string) (ev : event) : bool :=
  match check_engine_sleep_mode ev.(ev_api) ev.(ev_name) with
  | Ok true => get_engine_sleep_status ev.(ev_api) ip port
  | _ => false
  end.
(** An engine can serve: it has an address, its pod is ready and not terminating,
    and it reports a model. *)
Definition serving (port : string) (ev : event) : option string :=
  match ev.(ev_ip), names_of port ev with Some ip, _ :: _ => Some ip | _, _ => None end.

Definition verdict_of (ns port : string) (ev : event) : verdict :=
  if decide (ev.(ev_type) = "DELETED") then Remove
  else
    match serving port ev with
    | Some ip =>
        if decide (ev.(ev_type) = "ADDED" ∨ ev.(ev_type) = "MODIFIED")
        then Register (engine_info ev.(ev_api) ns port ev.(ev_name) ip (names_of port ev)
                         (get_model_label ev.(ev_labels)) (sleep_of port ip ev))
        else Keep
    | None => if decide (ev.(ev_type) = "MODIFIED") then Remove else Keep
    end.

(** What handling an event raises: reading the pod of an engine that is to be registered
    may raise something that is not an [ApiException]. *)
Definition event_error (ns port : string) (ev : event) : option exn :=
  match verdict_of ns port ev with
  | Register _ => match check_engine_sleep_mode ev.(ev_api) ev.(ev_name) with Ok _ => None | Err e => Some e end
  | _ => None
  end.

Lemma delete_if_present_spec name s :
  delete_if_present name s = (set_engines (ddel name s.(available_engines)) s, Ok tt).
Proof.
  unfold delete_if_present, delete_engine. destruct (din name _) eqn:E; [done|].
  apply din_false in E. rewrite ddel_absent by done. by destruct s.
Qed.

(** The models an event adds to the known ones. *)
Definition models_of (v : verdict) : gset string :=
  match v with Register e => list_to_set e.(model_names) | _ => ∅ end.

Lemma add_engine_spec ev ip names label s :
  is_ok (check_engine_sleep_mode ev.(ev_api) ev.(ev_name)) = true →
  ∃ s', add_engine ev.(ev_api) ev.(ev_name) ip names label s = (s', Ok tt) ∧
    s'.(available_engines) =
      dset ev.(ev_name) (engine_info ev.(ev_api) s.(namespace_) s.(port) ev.(ev_name) ip names
        label (sleep_of s.(port) ip ev)) s.(available_engines) ∧
    s'.(known_models) = list_to_set names ∪ s.(known_models) ∧
    s'.(port) = s.(port) ∧ s'.(namespace_) = s.(namespace_) ∧ s'.(running) = s.(running).
Proof.
  unfold add_engine, sleep_of, bind, lift, gets, modify. intros Hok.
  destruct (check_engine_sleep_mode _ _) as [[]|]; [..|done]; simpl;
    (eexists; split; [done|]); by destruct (event_loop_ready s).
Qed.

Lemma handle_event_spec ev s :
  event_error s.(namespace_) s.(port) ev = None →
  ∃ s', handle_event ev s = (s', Ok tt) ∧
    s'.(available_engines) =
      apply_verdict ev_name (verdict_of s.(namespace_) s.(port)) s.(available_engines) ev ∧
    s'.(known_models) = models_of (verdict_of s.(namespace_) s.(port) ev) ∪ s.(known_models) ∧
    s'.(port) = s.(port) ∧ s'.(namespace_) = s.(namespace_) ∧ s'.(running) = s.(running).
Proof.
  intros Herr.
  assert (Hok : ev.(ev_type) = "ADDED" ∨ ev.(ev_type) = "MODIFIED" → is_Some ev.(ev_ip) → names_of s.(port) ev ≠ [] →
    is_ok (check_engine_sleep_mode ev.(ev_api) ev.(ev_name)) = true).
  { intros Hty [ip Hip] Hnames. unfold event_error, verdict_of, serving in Herr.
    rewrite decide_False, Hip in Herr by (by destruct Hty as [->| ->]).
    destruct (names_of (port s) ev); [done|]. rewrite decide_True in Herr by done.
    by destruct (check_engine_sleep_mode _ _). }
  clear Herr. unfold handle_event, apply_verdict, verdict_of.
  assert (Hkeep : ∀ s' : state, s'.(known_models) = ∅ ∪ s'.(known_models))
    by (intros; by rewrite union_empty_l_L).
  case_decide as Hd.
  { rewrite delete_if_present_spec. eexists. split; [done|]. simpl. auto. }
  unfold bind, gets. fold (ready_of ev). fold (names_of s.(port) ev).
  unfold on_engine_update, serving.
  assert (Hlab : names_of s.(port) ev ≠ [] →
    (if ready_of ev then get_model_label ev.(ev_labels) else None) = get_model_label ev.(ev_labels) ∧
    ready_of ev = true).
  { unfold names_of. by destruct (ready_of ev). }
  destruct (decide (ev_type ev = "ADDED")) as [Ha|Ha].
  - rewrite (decide_False (P := ev_type ev = "MODIFIED")) by congruence.
    destruct (ev_ip ev) as [ip|]; [|exists s; auto 6].
    destruct (names_of (port s) ev) as [|nm nms] eqn:En.
    { exists s. destruct (negb _); auto 6. }
    rewrite <-En in *. destruct (Hlab ltac:(by rewrite En)) as [-> ->]. simpl.
    rewrite En, <-En. rewrite (decide_True (P := _ ∨ _)) by auto. apply add_engine_spec, Hok; [auto|by eexists|by rewrite En].
  - rewrite (decide_False (P := ev_type ev = "DELETED")) by done.
    destruct (decide (ev_type ev = "MODIFIED")) as [Hm|Hm].
    + destruct (ev_ip ev) as [ip|].
      2:{ rewrite delete_if_present_spec. eexists. split; [done|]. simpl. auto. }
      destruct (names_of (port s) ev) as [|nm nms] eqn:En.
      { destruct (ready_of ev); rewrite delete_if_present_spec;
          (eexists; split; [done|]; simpl; auto). }
      rewrite <-En in *. destruct (Hlab ltac:(by rewrite En)) as [-> ->].
      rewrite En, <-En. rewrite (decide_True (P := _ ∨ _)) by auto. apply add_engine_spec, Hok; [auto|by eexists|by rewrite En].
    + exists s. destruct (ev_ip ev), (names_of (port s) ev); simpl; try (by auto 6).
      rewrite decide_False by tauto. auto 6.
Qed.

(** An event that raises changes nothing. *)
Lemma handle_event_error ev s e :
  event_error s.(namespace_) s.(port) ev = Some e → handle_event ev s = (s, Err e).
Proof.
  unfold event_error, verdict_of, serving, handle_event. destruct (decide (ev_type ev = "DELETED")); [done|].
  destruct (ev_ip ev) as [ip|] eqn:Hip; [|by case_decide].
  destruct (names_of (port s) ev) as [|nm nms] eqn:En; [by case_decide|]. case_decide as Hty; [|done].
  destruct (check_engine_sleep_mode _ _) as [|e'] eqn:Ec; [done|]. intros [= <-].
  assert (Hready : ready_of ev = true) by (unfold names_of in En; by destruct (ready_of ev)).
  unfold bind, gets. fold (ready_of ev). unfold names_of in En. rewrite Hip in En. rewrite Hready in En |- *.
  cbn [default]. cbn [default] in En. rewrite En. unfold on_engine_update, add_engine, bind, lift. rewrite Ec.
  destruct Hty as [->| ->]; reflexivity.
Qed.

(** The events of a stream that are handled, and what ends the stream, if an event does. *)
Fixpoint handled (ns port : string) (evs : list event) : list event * option exn :=
  match evs with
  | [] => ([], None)
  | ev :: evs =>
      match event_error ns port ev with
      | Some e => ([], Some e)
      | None => let '(l, o) := handled ns port evs in (ev :: l, o)
      end
  end.
(** The watcher opens a new stream when one ends, unless what ended it is no [Exception]. *)
Fixpoint watched (ns port : string) (streams : list (list event)) : list event * option exn :=
  match streams with
  | [] => ([], None)
  | evs :: streams =>
      let '(l, o) := handled ns port evs in
      if match o with Some e => is_Exception e | None => true end
      then let '(l', o') := watched ns port streams in (l ++ l', o')
      else (l, o)
  end.

Lemma stream_spec evs s :
  let '(l, o) := handled s.(namespace_) s.(port) evs in
  ∃ s', for_each evs handle_event s = (s', match o with Some e => Err e | None => Ok tt end) ∧
    s'.(available_engines) =
      foldl (apply_verdict ev_name (verdict_of s.(namespace_) s.(port))) s.(available_engines) l ∧
    s'.(port) = s.(port) ∧ s'.(namespace_) = s.(namespace_) ∧ s'.(running) = s.(running).
Proof.
  revert s. induction evs as [|ev evs IH]; intros s; [by exists s|]. cbn [handled for_each]. unfold bind.
  destruct (event_error (namespace_ s) (port s) ev) as [e|] eqn:Ee.
  { rewrite (handle_event_error ev s e Ee). by exists s. }
  destruct (handle_event_spec ev s Ee) as (s1 & E1 & Hd & _ & Hp & Hn & Hr). specialize (IH s1).
  rewrite Hp, Hn, Hd in IH. destruct (handled _ _ evs) as [l o]. destruct IH as (s2 & E2 & Hd2 & Hp2 & Hn2 & Hr2).
  exists s2. rewrite E1. split; [exact E2|]. split; [exact Hd2|]. split; [done|]. split; [done|]. by rewrite Hr2.
Qed.
Lemma watch_spec streams s :
  s.(running) = true →
  let '(l, o) := watched s.(namespace_) s.(port) streams in
  ∃ s', watch_engines streams s = (s', match o with Some e => Err e | None => Ok tt end) ∧
    s'.(available_engines) =
      foldl (apply_verdict ev_name (verdict_of s.(namespace_) s.(port))) s.(available_engines) l.
Proof.
  revert s. induction streams as [|evs streams IH]; intros s Hrun; [by exists s|]. cbn [watched].
  pose proof (stream_spec evs s) as H. destruct (handled (namespace_ s) (port s) evs) as [l o].
  destruct H as (s1 & E1 & Hd & Hp & Hn & Hr).
  unfold watch_engines in *. cbn [for_each]. unfold bind at 1. unfold bind at 1, gets. rewrite Hrun.
  unfold watch_stream, try_except. rewrite E1.
  specialize (IH s1 ltac:(by rewrite Hr)). rewrite Hp, Hn, Hd in IH.
  destruct (watched (namespace_ s) (port s) streams) as [l' o'].
  destruct o as [e|]; [destruct (is_Exception e)|]; [..|exists s1; by split| ].
  all: rewrite foldl_app; exact IH.
Qed.

Lemma register_serves ns port ev e :
  verdict_of ns port ev = Register e →
  ∃ ip, ev.(ev_ip) = Some ip ∧ e.(url) = engine_url ip port ∧ e.(model_names) = names_of port ev ∧
    e.(model_names) ≠ [] ∧ e.(pod_name) = Some ev.(ev_name) ∧
    check_pod_ready ev.(ev_statuses) = true ∧ ev.(ev_deletion_timestamp) = None.
Proof.
  unfold verdict_of, serving. case_decide; [done|].
  destruct (ev_ip ev) as [ip|]; [|by case_decide].
  destruct (names_of port ev) as [|nm l] eqn:En; [by case_decide|].
  case_decide; [|done]. intros [= <-]. exists ip. split_and!; try done.
  - unfold names_of, ready_of in En. by destruct (check_pod_ready (ev_statuses ev)).
  - unfold names_of, ready_of, is_pod_terminating in En.
    destruct (check_pod_ready _), (ev_deletion_timestamp ev); done.
Qed.

(** C30: pod discovery lists exactly the engines that can serve: whatever streams of events the
    watcher gets from the API, one after the other, and whatever the API answers while they
    are handled, a pod is listed if and only if the last decisive event handled for it (a
    deletion, a modification, or an addition that can serve) registered it.  An event whose
    handling raises changes nothing and ends its stream; the watcher goes on with the next
    stream after an [Exception] and ends with anything else.  What is listed is the address
    and the models of that event, which had ready containers, an IP, at least one model and
    no deletion timestamp.  Each pod is listed once. *)
Theorem podip_lists_the_serving_pods ns port p d streams :
  let '(trace, fate) := watched ns port streams in
  ∃ s, watch_engines streams (init ns port p d) = (s, match fate with Some e => Err e | None => Ok tt end) ∧
    NoDup (dkeys s.(available_engines)) ∧
    (∀ n e, dget n s.(available_engines) = Some e ↔
       ∃ l1 ev l2, trace = l1 ++ ev :: l2 ∧ ev.(ev_name) = n ∧
         verdict_of ns port ev = Register e ∧
         Forall (λ ev', ev'.(ev_name) = n → verdict_of ns port ev' = Keep) l2) ∧
    (∀ e, e ∈ get_endpoint_info s → ∃ ev ip, ev ∈ trace ∧ ev.(ev_ip) = Some ip ∧
       e.(url) = engine_url ip port ∧ e.(model_names) = names_of port ev ∧ e.(model_names) ≠ [] ∧
       check_pod_ready ev.(ev_statuses) = true ∧ ev.(ev_deletion_timestamp) = None).
Proof.
  pose proof (watch_spec streams (init ns port p d) eq_refl) as H. cbn [init available_engines namespace_ PodIP.port] in H.
  destruct (watched ns port streams) as [trace fate]. destruct H as (s & E & Hd).
  assert (Hwf : dict_wf s.(available_engines)).
  { rewrite Hd. apply foldl_verdict_wf, dict_wf_nil. }
  exists s. split; [done|]. split; [done|]. rewrite Hd. split.
  - intros n e. apply listed_by_last_event.
  - intros e He. unfold get_endpoint_info, dvalues in He.
    apply list_elem_of_fmap in He as ([n e'] & -> & He). apply elem_dget in He; [|done].
    rewrite Hd in He. apply listed_by_last_event in He as (l1 & ev & l2 & -> & _ & Hv & _).
    destruct (register_serves _ _ _ _ Hv) as (ip & ? & ? & ? & ? & _ & ? & ?).
    exists ev, ip. set_solver.
Qed.

(** The models of every listed engine are known. *)
Definition known_inv (s : state) : Prop :=
  dict_wf s.(available_engines) ∧
  ∀ n e m, dget n s.(available_engines) = Some e → m ∈ e.(model_names) → m ∈ s.(known_models).

Lemma handle_event_known ev s :
  known_inv s →
  known_inv (handle_event ev s).1 ∧ s.(known_models) ⊆ (handle_event ev s).1.(known_models).
Proof.
  intros [Hwf Hk]. destruct (event_error s.(namespace_) s.(port) ev) as [x|] eqn:Ee.
  - by rewrite (handle_event_error ev s x Ee).
  - destruct (handle_event_spec ev s Ee) as (s' & -> & Hd & Hkn & _). simpl.
    split; [|rewrite Hkn; set_solver]. split; [rewrite Hd; by apply apply_verdict_wf|].
    intros n e m Hget Hm. rewrite Hd, dget_apply_verdict in Hget by done. rewrite Hkn.
    apply elem_of_union. unfold models_of. case_decide; [|right; eauto].
    destruct (verdict_of _ _ ev); [right; eauto|done|]. injection Hget as ->.
    left. by apply elem_of_list_to_set.
Qed.

(** A model once discovered stays known: whatever the events, the exceptions
    that cut a stream short and the number of streams, the known models only grow and
    include every model of every listed engine, so a model whose engines are all gone
    is still recognised. *)
Theorem podip_never_forgets_a_model streams s :
  known_inv s →
  let s' := (watch_engines streams s).1 in
  known_inv s' ∧ s.(known_models) ⊆ s'.(known_models) ∧
  ∀ m, (∃ e, e ∈ get_endpoint_info s' ∧ m ∈ e.(model_names)) ∨ has_ever_seen_model m s = true →
       has_ever_seen_model m s' = true.
Proof.
  intros Hs s'.
  set (P := λ s1, known_inv s1 ∧ s.(known_models) ⊆ s1.(known_models)).
  assert (HP : P s').
  { unfold s', watch_engines. apply preserves_for_each; [|done]. intros evs.
    apply preserves_bind; [apply preserves_gets|]. intros [|]; [|apply preserves_ret].
    apply preserves_try_except; [|intros e; destruct (is_Exception e); auto with py].
    apply preserves_for_each. intros ev s1 [H1 H2].
    destruct (handle_event_known ev s1 H1). split; [done|set_solver]. }
  destruct HP as [[Hwf Hk] Hsub]. split; [done|]. split; [done|].
  unfold has_ever_seen_model. intros m. rewrite !bool_decide_eq_true.
  intros [(e & He & Hm)|Hm]; [|set_solver]. unfold get_endpoint_info, dvalues in He.
  apply list_elem_of_fmap in He as ([n e'] & -> & He). apply elem_dget in He; eauto.
Qed.
End PodIP.

(* ------------------------------------------------------------------ *)
(** ** [K8sServiceNameServiceDiscovery] *)

Module ServiceName.
Record state : Type := mkState {
  namespace_ : string;
  port : string;
  available_engines : dict string EndpointInfo;
  prefill_labels : option labels;
  decode_labels : option labels;
  running : bool
}.
Definition init (ns port : string) (prefill decode : option labels) : state :=
  mkState ns port [] prefill decode true.
Definition set_engines (d : dict string EndpointInfo) (s : state) : state :=
  mkState s.(namespace_) s.(port) d s.(prefill_labels) s.(decode_labels) s.(running).

Definition get_endpoint_info (s : state) : list EndpointInfo := dvalues s.(available_engines).

(** A service event; [ev_selector] is [service.spec.selector]. *)
Record event : Type := mkEvent {
  ev_type : string;
  ev_name : string;
  ev_selector : option (dict string string);
  ev_api : K8sApi
}.

(** Some subset of the service's endpoints has an address. *)
Definition check_service_ready (api : K8sApi) (name : string) : res bool :=
  rbind (api.(read_endpoints) name) (λ subsets,
  Ok (existsb (λ addresses, negb (addresses =? 0)) subsets)).

Definition service_url (name port : string) : string := "http://" +:+ name +:+ ":" +:+ port.
Definition get_engine_sleep_status (api : K8sApi) (name port : string) : bool :=
  sleep_status_of (api.(http_get) (auth_header api) (service_url name port +:+ "/is_sleeping")).

(** [",".join([f"{k}={v}" for k, v in selector.items()])]. *)
Definition selector_string (sel : dict string string) : string :=
  join "," ((λ kv, kv.1 +:+ "=" +:+ kv.2) <$> sel).

Definition api_false (r : res bool) : res bool :=
  match r with Err ApiException => Ok false | _ => r end.
Definition check_engine_sleep_mode (api : K8sApi) (name : string) : res bool :=
  api_false (
    rbind (api.(read_service) name) (λ sel,
    match sel with
    | None | Some [] => Ok false
    | Some sel =>
        rbind (api.(list_pods) (selector_string sel)) (λ pods,
        match pods with
        | [] => Ok false
        | containers :: _ => Ok (sleep_mode_of containers)
        end)
    end)).

Definition get_model_names (api : K8sApi) (name port : string) : list string :=
  model_names_of (api.(http_get) (auth_header api) (service_url name port +:+ "/v1/models")).
Definition get_model_info (api : K8sApi) (name port : string) : dict string ModelInfo :=
  model_info_of api.(clock) (api.(http_get) (auth_header api) (service_url name port +:+ "/v1/models")).
Definition get_model_label (sel : option (dict string string)) : option string :=
  match sel with None | Some [] => None | Some d => dget "model" d end.

Definition engine_info (api : K8sApi) (ns port name : string) (names : list string)
    (label : option string) (sleep : bool) : EndpointInfo :=
  mkEndpoint (service_url name port) names (api.(uuid5) name) api.(clock) label sleep true
    None (Some name) (Some ns) (Some (get_model_info api name port)).

Definition add_engine (api : K8sApi) (name : string) (names : list string)
    (label : option string) : M state unit :=
  mode <- lift (check_engine_sleep_mode api name) ;;
  port <- gets port ;;
  let sleep := if (mode : bool) then get_engine_sleep_status api name port else false in
  modify (λ s, set_engines
    (dset name (engine_info api s.(namespace_) port name names label sleep)
       s.(available_engines)) s).

Definition delete_engine (name : string) : M state unit := λ s,
  if din name s.(available_engines)
  then (set_engines (ddel name s.(available_engines)) s, Ok tt)
  else (s, Err (KeyError name)).
Definition delete_if_present (name : string) : M state unit := λ s,
  if din name s.(available_engines) then delete_engine name s else (s, Ok tt).

Definition on_engine_update (api : K8sApi) (name event : string) (is_service_ready : bool)
    (names : list string) (label : option string) : M state unit :=
  if decide (event = "ADDED") then
    if decide (name = "") then ret tt
    else if negb is_service_ready then ret tt
    else match names with [] => ret tt | _ => add_engine api name names label end
  else if decide (event = "DELETED") then delete_if_present name
  else if decide (event = "MODIFIED") then
    if decide (name = "") then ret tt
    else match is_service_ready, names with
         | true, _ :: _ => add_engine api name names label
         | _, _ => delete_if_present name
         end
  else ret tt.

Definition handle_event (ev : event) : M state unit :=
  if decide (ev.(ev_type) = "DELETED") then delete_if_present ev.(ev_name)
  else
    is_service_ready <- lift (check_service_ready ev.(ev_api) ev.(ev_name)) ;;
    port <- gets port ;;
    let names := if (is_service_ready : bool) then get_model_names ev.(ev_api) ev.(ev_name) port
                 else [] in
    let label := if is_service_ready then get_model_label ev.(ev_selector) else None in
    on_engine_update ev.(ev_api) ev.(ev_name) ev.(ev_type) is_service_ready names label.

Definition watch_stream (evs : list event) : M state unit :=
  try_except (for_each evs handle_event)
    (λ e, if is_Exception e then ret tt else raise e).
Definition watch_engines (streams : list (list event)) : M state unit :=
  for_each streams (λ evs, r <- gets running ;; if (r : bool) then watch_stream evs else ret tt).

Definition close (s : state) : state :=
  mkState s.(namespace_) s.(port) s.(available_engines) s.(prefill_labels) s.(decode_labels) false.

(** *** What an event decides *)

Definition answers (ev : event) : Prop :=
  is_ok (check_engine_sleep_mode ev.(ev_api) ev.(ev_name)) = true ∧
  is_ok (check_service_ready ev.(ev_api) ev.(ev_name)) = true.
Definition names_of (port : string) (ev : event) : list string :=
  match check_service_ready ev.(ev_api) ev.(ev_name) with
  | Ok true => get_model_names ev.(ev_api) ev.(ev_name) port
  | _ => []
  end.
Definition sleep_of (port : string) (ev : event) : bool :=
  match check_engine_sleep_mode ev.(ev_api) ev.(ev_name) with
  | Ok true => get_engine_sleep_status ev.(ev_api) ev.(ev_name) port
  | _ => false
  end.

Definition verdict_of (ns port : string) (ev : event) : verdict :=
  if decide (ev.(ev_type) = "DELETED") then Remove
  else if decide (ev.(ev_name) = "") then Keep
  else if decide (ev.(ev_type) = "ADDED" ∨ ev.(ev_type) = "MODIFIED") then
    match names_of port ev with
    | _ :: _ => Register (engine_info ev.(ev_api) ns port ev.(ev_name) (names_of port ev)
                            (get_model_label ev.(ev_selector)) (sleep_of port ev))
    | [] => if decide (ev.(ev_type) = "MODIFIED") then Remove else Keep
    end
  else Keep.

Lemma sn_delete_if_present_spec name s :
  delete_if_present name s = (set_engines (ddel name s.(available_engines)) s, Ok tt).
Proof.
  unfold delete_if_present, delete_engine. destruct (din name _) eqn:E; [done|].
  apply din_false in E. rewrite ddel_absent by done. by destruct s.
Qed.

Lemma sn_add_engine_spec ev names label s :
  is_ok (check_engine_sleep_mode ev.(ev_api) ev.(ev_name)) = true →
  add_engine ev.(ev_api) ev.(ev_name) names label s =
    (set_engines (dset ev.(ev_name) (engine_info ev.(ev_api) s.(namespace_) s.(port) ev.(ev_name)
       names label (sleep_of s.(port) ev)) s.(available_engines)) s, Ok tt).
Proof.
  unfold add_engine, sleep_of, bind, lift, gets, modify. intros Hok.
  by destruct (check_engine_sleep_mode _ _) as [[]|].
Qed.

Lemma sn_handle_event_spec ev s :
  answers ev →
  handle_event ev s =
    (set_engines (apply_verdict ev_name (verdict_of s.(namespace_) s.(port))
       s.(available_engines) ev) s, Ok tt).
Proof.
  intros [Hok Hready]. unfold handle_event, apply_verdict, verdict_of.
  assert (Hs : set_engines s.(available_engines) s = s) by (by destruct s).
  case_decide as Hd; [apply sn_delete_if_present_spec|].
  unfold bind, lift, gets, on_engine_update, names_of.
  destruct (check_service_ready (ev_api ev) (ev_name ev)) as [ready|]; [|done].
  destruct (decide (ev_type ev = "ADDED")) as [Ha|Ha];
    [|rewrite (decide_False (P := ev_type ev = "DELETED")) by done;
      destruct (decide (ev_type ev = "MODIFIED")) as [Hm|Hm]].
  - rewrite (decide_False (P := ev_type ev = "MODIFIED")) by congruence.
    rewrite (decide_True (P := _ ∨ _)) by auto.
    case_decide; [by rewrite Hs|]. destruct ready; simpl; [|by rewrite Hs].
    destruct (get_model_names _ _ _); [by rewrite Hs|by rewrite sn_add_engine_spec].
  - rewrite (decide_True (P := _ ∨ _)) by auto.
    case_decide; [by rewrite Hs|]. destruct ready; [|apply sn_delete_if_present_spec].
    destruct (get_model_names _ _ _); [apply sn_delete_if_present_spec|by rewrite sn_add_engine_spec].
  - rewrite (decide_False (P := _ ∨ _)) by tauto. case_decide; by rewrite Hs.
Qed.

(** Service discovery by service name lists exactly the services whose last
    decisive event found them serving, each once, at [http://name:port] with the
    models they reported. *)
Theorem service_name_lists_the_serving_services ns port p d trace :
  Forall answers trace →
  ∃ s, for_each trace handle_event (init ns port p d) = (s, Ok tt) ∧
    NoDup (dkeys s.(available_engines)) ∧
    (∀ n e, dget n s.(available_engines) = Some e ↔
       ∃ l1 ev l2, trace = l1 ++ ev :: l2 ∧ ev.(ev_name) = n ∧
         verdict_of ns port ev = Register e ∧
         Forall (λ ev', ev'.(ev_name) = n → verdict_of ns port ev' = Keep) l2) ∧
    (∀ n e, dget n s.(available_engines) = Some e →
       e.(url) = service_url n port ∧ e.(model_names) ≠ []).
Proof.
  intros Hall.
  assert (Hrun : ∀ s, for_each trace handle_event s =
    (set_engines (foldl (apply_verdict ev_name (verdict_of s.(namespace_) s.(ServiceName.port)))
       s.(available_engines) trace) s, Ok tt)).
  { induction Hall as [|ev t Hev Hall IH]; intros s; [by destruct s|]. simpl. unfold bind.
    rewrite sn_handle_event_spec by done. by rewrite IH. }
  rewrite Hrun. eexists. split; [done|]. cbn [init set_engines available_engines namespace_].
  split; [apply foldl_verdict_wf, dict_wf_nil|]. split.
  - intros n e. apply listed_by_last_event.
  - intros n e (l1 & ev & l2 & _ & <- & Hv & _)%listed_by_last_event.
    cbn [ServiceName.port] in Hv. unfold verdict_of in Hv.
    destruct (names_of port ev) as [|nm l] eqn:En; repeat case_decide;
      simpl in Hv; rewrite ?En in Hv; by simplify_eq/=.
Qed.
End ServiceName.

(* ------------------------------------------------------------------ *)
(** ** Witnesses *)

(** An API under which every engine reports one model and runs without sleep mode. *)
Definition api_example : K8sApi :=
  mkApi (λ _ _, Ok (PDict [("data", PList [PDict [("id", PStr "m")]])])) None
    (λ _, Ok [("vllm", Some ["serve"])]) (λ _, Ok None) (λ _, Ok []) (λ _, Ok [1])
    (λ n, n) 0.

Definition pod_event (ty name : string) (ip : option string) : PodIP.event :=
  PodIP.mkEvent ty name ip None (Some [true]) None api_example.
Definition pod_trace : list PodIP.event :=
  [pod_event "ADDED" "a" (Some "10.0.0.1"); pod_event "ADDED" "b" (Some "10.0.0.2");
   pod_event "MODIFIED" "a" None].

(** Reading the pod of the second event of the first stream fails: the watcher reconnects. *)
Definition failing_event : PodIP.event :=
  PodIP.mkEvent "ADDED" "c" (Some "10.0.0.3") None (Some [true]) None
    (mkApi api_example.(http_get) None (λ _, Err ConnectionTimeoutError) (λ _, Ok None) (λ _, Ok []) (λ _, Ok [1]) (λ n, n) 0).
Example the_watcher_reconnects :
  let '(s, r) := PodIP.watch_engines [[pod_event "ADDED" "a" (Some "10.0.0.1"); failing_event; pod_event "ADDED" "d" (Some "10.0.0.4")];
                                      [pod_event "ADDED" "b" (Some "10.0.0.2")]] (PodIP.init "ns" "8000" None None) in
  url <$> PodIP.get_endpoint_info s = ["http://10.0.0.1:8000"; "http://10.0.0.2:8000"] ∧ r = Ok tt.
Proof. vm_compute. split; reflexivity. Qed.

Lemma podip_known_witness :
  let s := PodIP.init "ns" "8000" None None in
  PodIP.known_inv (PodIP.watch_engines [pod_trace] s).1.
Proof.
  intros s. refine (proj1 (PodIP.podip_never_forgets_a_model [pod_trace] s _)).
  split; [constructor|]. intros n e m H. discriminate H.
Defined.

Definition service_trace : list ServiceName.event :=
  [ServiceName.mkEvent "ADDED" "svc" None api_example; ServiceName.mkEvent "DELETED" "svc" None api_example;
   ServiceName.mkEvent "MODIFIED" "svc2" (Some [("model", "m")]) api_example].

Lemma service_name_witness :
  Forall ServiceName.answers service_trace ∧
  ∃ s, for_each service_trace ServiceName.handle_event (ServiceName.init "ns" "80" None None) = (s, Ok tt).
Proof.
  assert (Hall : Forall ServiceName.answers service_trace) by (repeat constructor).
  split; [exact Hall|].
  destruct (ServiceName.service_name_lists_the_serving_services "ns" "80" None None service_trace Hall)
    as (s & H & _).
  exists s. exact H.
Defined.

Example pod_trace_ex :
  url <$> PodIP.get_endpoint_info
    (for_each pod_trace PodIP.handle_event (PodIP.init "ns" "8000" None None)).1
  = ["http://10.0.0.2:8000"].
Proof. vm_compute. reflexivity. Qed.

(** A pod that lost readiness while the watch was down comes back as an addition that
    cannot serve, which removes nothing: it stays listed. *)
Example unready_addition_keeps_the_engine :
  let gone := PodIP.mkEvent "ADDED" "a" (Some "10.0.0.1") None (Some [false]) None api_example in
  url <$> PodIP.get_endpoint_info
    (PodIP.watch_engines [[pod_event "ADDED" "a" (Some "10.0.0.1")]; [gone]]
       (PodIP.init "ns" "8000" None None)).1
  = ["http://10.0.0.1:8000"].
Proof. vm_compute. reflexivity. Qed.
