(* ===== verification/DiscoveryRegistry.v ===== *)
(** * The global service discovery
      (src/src/vllm_router/service_discovery.py, last part)

    [_create_service_discovery] builds one of the four implementations;
    [initialize_service_discovery], [reconfigure_service_discovery] and
    [get_service_discovery] manage the module-level instance. *)

From S2P Require Import Prelude PyDict PyStr PyVal Endpoint Utils ServiceDiscovery ServiceDiscoveryK8s.

Local Open Scope py_scope.

(** [ServiceDiscoveryType] with the keyword arguments of each kind. *)
Inductive SDRequest : Type :=
| STATIC (urls : list string) (models : option (list string)) (aliases : option (dict string string))
    (labels_ types : option (list string)) (prefill decode : option labels)
| K8S (k8s_service_discovery_type : option string) (namespace port : string)
    (prefill decode : option labels)
| EXTERNAL_ONLY.

Inductive SD : Type :=
| SDStatic (s : Static.state)
| SDPodIP (s : PodIP.state)
| SDServiceName (s : ServiceName.state)
| SDExternalOnly.

(** What constructing and querying depend on: fresh ids, the clock, the digest and
    whether a Kubernetes configuration can be loaded. *)
Record SDWorld : Type := mkWorld {
  uuid4 : nat → string;
  time_now : Z;
  md5 : string → string;
  load_config : res unit
}.

Definition normalize_k8s_type (o : option string) : string :=
  match o with
  | None => "pod-ip"
  | Some t => if decide (strip t = "") then "pod-ip" else lower (strip t)
  end.

Definition create_service_discovery (w : SDWorld) (r : SDRequest) : res SD :=
  match r with
  | STATIC urls models aliases labels types prefill decode =>
      rbind (of_option TypeError models) (λ models,
      rbind (Static.init w.(uuid4) w.(time_now) urls models aliases labels types prefill decode)
        (λ s, Ok (SDStatic s)))
  | K8S ty ns port prefill decode =>
      rbind w.(load_config) (λ _,
      if decide (normalize_k8s_type ty = "service-name")
      then Ok (SDServiceName (ServiceName.init ns port prefill decode))
      else Ok (SDPodIP (PodIP.init ns port prefill decode)))
  | EXTERNAL_ONLY => Ok SDExternalOnly
  end.

Definition sd_close (sd : SD) : SD :=
  match sd with
  | SDStatic s => SDStatic (Static.close s)
  | SDPodIP s => SDPodIP (PodIP.close s)
  | SDServiceName s => SDServiceName (ServiceName.close s)
  | SDExternalOnly => SDExternalOnly
  end.
Definition sd_running (sd : SD) : bool :=
  match sd with
  | SDStatic s => s.(Static.running)
  | SDPodIP s => s.(PodIP.running)
  | SDServiceName s => s.(ServiceName.running)
  | SDExternalOnly => true
  end.

(** The interface the rest of the router uses. *)
Definition get_endpoint_info (w : SDWorld) (sd : SD) : res (list EndpointInfo) :=
  match sd with
  | SDStatic s => Static.get_endpoint_info w.(md5) w.(time_now) s
  | SDPodIP s => Ok (PodIP.get_endpoint_info s)
  | SDServiceName s => Ok (ServiceName.get_endpoint_info s)
  | SDExternalOnly => Ok ExternalOnly.get_endpoint_info
  end.
(** [hasattr(sd, "has_ever_seen_model")] and its answer: discovery by service name
    and external-only discovery have no such method. *)
Definition has_ever_seen_model (m : string) (sd : SD) : option bool :=
  match sd with
  | SDStatic s => Some (Static.has_ever_seen_model m s)
  | SDPodIP s => Some (PodIP.has_ever_seen_model m s)
  | SDServiceName _ | SDExternalOnly => None
  end.

(** The global variable, and the instances closed so far, newest first. *)
Record sd_global : Type := mkGlobal {
  current : option SD;
  closed : list SD
}.

Definition initialize_service_discovery (w : SDWorld) (r : SDRequest) : M sd_global SD := λ g,
  match g.(current) with
  | Some _ => (g, Err (ValueError "Service discovery module already initialized"))
  | None =>
      match create_service_discovery w r with
      | Err e => (g, Err e)
      | Ok sd => (mkGlobal (Some sd) g.(closed), Ok sd)
      end
  end.

Definition reconfigure_service_discovery (w : SDWorld) (r : SDRequest) : M sd_global SD := λ g,
  match g.(current) with
  | None => (g, Err (ValueError "Service discovery module not initialized"))
  | Some old =>
      match create_service_discovery w r with
      | Err e => (g, Err e)
      | Ok sd => (mkGlobal (Some sd) (sd_close old :: g.(closed)), Ok sd)
      end
  end.

Definition get_service_discovery : M sd_global SD := λ g,
  (g, of_option (ValueError "Service discovery module not initialized") g.(current)).

(* ------------------------------------------------------------------ *)
(** ** Properties *)

Lemma sd_close_stops sd : sd ≠ SDExternalOnly → sd_running (sd_close sd) = false.
Proof. by destruct sd. Qed.

(** Replacing the service discovery is atomic: either the new module is built,
    installed, running, and the old one is closed, or building raised, nothing has
    changed and the old module is still installed and open; there is always at most
    one open module. *)
Theorem reconfigure_discovery_is_atomic w r g old :
  g.(current) = Some old →
  match create_service_discovery w r with
  | Ok sd =>
      ∃ g', reconfigure_service_discovery w r g = (g', Ok sd) ∧
        get_service_discovery g' = (g', Ok sd) ∧ sd_running sd = true ∧
        g'.(closed) = sd_close old :: g.(closed)
  | Err e =>
      reconfigure_service_discovery w r g = (g, Err e) ∧
      get_service_discovery g = (g, Ok old)
  end ∧
  (Forall (λ sd, sd = SDExternalOnly ∨ sd_running sd = false) g.(closed) →
   Forall (λ sd, sd = SDExternalOnly ∨ sd_running sd = false)
     (reconfigure_service_discovery w r g).1.(closed)).
Proof.
  intros Hold. unfold reconfigure_service_discovery, get_service_discovery. rewrite Hold.
  destruct (create_service_discovery w r) as [sd|e] eqn:E; [|done].
  split.
  - eexists. split; [done|]. split; [done|]. split; [|done].
    destruct r; simpl in E.
    + destruct models as [models|]; [|done]. simpl in E. unfold Static.init in E.
      destruct (negb _); [done|]. by injection E as <-.
    + destruct (load_config w); [|done]. simpl in E. case_decide; by injection E as <-.
    + by injection E as <-.
  - intros Hf. simpl. constructor; [|done]. destruct old; auto.
Qed.

Definition world_example : SDWorld := mkWorld (λ _, "uuid") 0 (λ s, s) (Ok tt).

Lemma reconfigure_discovery_witness :
  let g := mkGlobal (Some SDExternalOnly) [] in
  ∃ g', reconfigure_service_discovery world_example (K8S (Some " Service-Name ") "ns" "80" None None) g
    = (g', Ok (SDServiceName (ServiceName.init "ns" "80" None None))).
Proof.
  intros g.
  destruct (reconfigure_discovery_is_atomic world_example (K8S (Some " Service-Name ") "ns" "80" None None)
    g SDExternalOnly eq_refl) as [H _].
  vm_compute (create_service_discovery _ _) in H. cbv beta iota in H.
  destruct H as (g' & H & _). exists g'. exact H.
Defined.
