(* ===== verification/HttpBackend.v ===== *)
(** * Timeouts, headers and error responses of backend requests
      (src/src/vllm_router/aiohttp_client.py and the helpers of
       src/src/vllm_router/services/request_service/request.py) *)

From S2P Require Import Prelude PyDict PyStr PyVal Routing.

(* ------------------------------------------------------------------ *)
(** ** Timeouts *)

(** [aiohttp.ClientTimeout]; [None] is no bound. *)
Record ClientTimeout : Type := mkTimeout {
  total : option Q;
  connect : option Q;
  sock_connect : option Q;
  sock_read : option Q
}.

(** [t if t and t > 0 else None]. *)
Definition positive (t : option Q) : option Q :=
  match t with Some q => if Qltb 0 q then Some q else None | None => None end.
Definition build_backend_client_timeout (connect_timeout read_timeout : option Q) : ClientTimeout :=
  mkTimeout None (positive connect_timeout) (positive connect_timeout) (positive read_timeout).

Definition backend_entry_deadline (t : ClientTimeout) : option Q :=
  match t.(sock_read) with
  | None => None
  | Some read =>
      if Qle_bool read 0 then None
      else match t.(sock_connect) with
           | Some c => if Qltb 0 c then Some (read + c)%Q else Some read
           | None => Some read
           end
  end.

Definition DEFAULT_BACKEND_CLIENT_TIMEOUT : ClientTimeout :=
  build_backend_client_timeout (Some 10%Q) (Some 300%Q).

(** An enabled read bound gives a deadline for the response headers, never shorter
    than the read bound; a disabled one gives none. *)
Lemma entry_deadline_spec c r :
  match backend_entry_deadline (build_backend_client_timeout c r), positive r with
  | Some d, Some q => (q <= d)%Q ∧ (d == q + default 0 (positive c))%Q
  | None, None => True
  | _, _ => False
  end.
Proof.
  unfold backend_entry_deadline, build_backend_client_timeout. simpl.
  destruct (positive r) as [q|] eqn:Er; [|done].
  assert (Hq : (0 < q)%Q).
  { unfold positive in Er. destruct r as [r|]; [|done]. destruct (Qltb 0 r) eqn:E; [|done].
    injection Er as ->. by apply Qltb_lt. }
  replace (Qle_bool q 0) with false by (symmetry; by apply negb_true_iff, Qltb_lt).
  destruct (positive c) as [k|] eqn:Ec.
  - assert (Hk : (0 < k)%Q).
    { unfold positive in Ec. destruct c as [c|]; [|done]. destruct (Qltb 0 c) eqn:E; [|done].
      injection Ec as ->. by apply Qltb_lt. }
    apply Qltb_lt in Hk as Hk'. rewrite Hk'. simpl. lra.
  - simpl. lra.
Qed.

(* ------------------------------------------------------------------ *)
(** ** Headers *)

Definition HOP_BY_HOP_HEADERS : list string :=
  ["host"; "connection"; "keep-alive"; "proxy-connection"; "transfer-encoding";
   "content-length"; "upgrade"; "te"; "trailer"].
Definition HEADERS_TO_STRIP_FROM_RESPONSE : list string :=
  ["content-length"; "content-encoding"; "transfer-encoding"; "connection"; "server"].

(** [_build_backend_request_headers]. *)
Definition keep_header (include_content_type : bool) (key : string) : bool :=
  negb (bool_decide (lower key ∈ HOP_BY_HOP_HEADERS)) &&
  negb (negb include_content_type && bool_decide (lower key = "content-type")) &&
  negb (bool_decide (lower key = "x-request-id")).
Definition build_backend_request_headers (hs : dict string string) (request_id : string)
    (include_content_type : bool) : dict string string :=
  dset "X-Request-Id" request_id
    (foldl (λ acc kv, if keep_header include_content_type kv.1 then dset kv.1 kv.2 acc else acc) [] hs).

(** The headers of the answer passed on to the client. *)
Definition strip_response_headers (hs : dict string string) (request_id : string) :
  dict string string :=
  dset "X-Request-Id" request_id
    (foldl (λ acc kv, if bool_decide (lower kv.1 ∈ HEADERS_TO_STRIP_FROM_RESPONSE) ||
                         bool_decide (lower kv.1 = "content-type")
                      then acc else dset kv.1 kv.2 acc) [] hs).

Definition is_json_media_type (content_type : string) : bool :=
  let media_type := lower (strip (partition_head ";" content_type)) in
  bool_decide (media_type = "application/json") || endswith "+json" media_type.

(* ------------------------------------------------------------------ *)
(** ** Error responses *)

Record JSONResponse : Type := mkJSON {
  status_code : Z;
  content : pyval;
  response_headers : dict string string
}.

(** The subclasses of [TimeoutError] and [aiohttp.ServerTimeoutError]. *)
Definition is_ServerTimeoutError (e : exn) : bool :=
  match e with ServerTimeoutError | ConnectionTimeoutError => true | _ => false end.
Definition is_TimeoutError (e : exn) : bool :=
  match e with TimeoutError => true | _ => is_ServerTimeoutError e end.
(** [_BACKEND_CONNECT_ERRORS]. *)
Definition is_connect_error (e : exn) : bool :=
  match e with ConnectionTimeoutError | ClientConnectorError => true | _ => false end.

Section responses.
(** [f"{seconds:g}"]. *)
Context (format_g : Q → string).

Definition format_bound (seconds : option Q) : string :=
  match seconds with
  | Some q => if Qltb 0 q then format_g q +:+ "s" else "the configured bound"
  | None => "the configured bound"
  end.

Definition backend_error_response (request_id : string) (status : Z) (error_type code message : string) :
  JSONResponse :=
  mkJSON status
    (PDict [("error", PDict [("message", PStr message); ("type", PStr error_type);
                             ("code", PStr code); ("param", PNone)])])
    [("X-Request-Id", request_id); ("Retry-After", "1")].

Definition pre_header_timeout_response (request_id : string) (t : ClientTimeout) (e : exn) :
  JSONResponse :=
  let '(code, message) :=
    if is_ServerTimeoutError e then
      ("backend_read_timeout",
       "Upstream LLM backend timed out after " +:+ format_bound t.(sock_read) +:+
       " with no data received. The request was not completed and may be safely retried.")
    else
      ("backend_entry_timeout",
       "Upstream LLM backend timed out after " +:+ format_bound (backend_entry_deadline t) +:+
       " before returning response headers. The request was not completed and may be safely retried.")
  in backend_error_response request_id 504 "gateway_timeout" code message.

Definition backend_connect_error_response (request_id : string) : JSONResponse :=
  backend_error_response request_id 502 "bad_gateway" "backend_connect_error"
    "Could not establish a connection to the upstream LLM backend within the permitted failover attempts. The request was not completed and may be safely retried.".

(** The payload of the in-band error frame of [_sse_stall_frames]. *)
Definition sse_stall_payload (t : ClientTimeout) : pyval :=
  PDict [("error", PDict
    [("message", PStr ("Upstream backend stalled mid-stream (read gap exceeded " +:+
        format_bound t.(sock_read) +:+ "). Partial output above is incomplete."));
     ("type", PStr "gateway_timeout"); ("code", PStr "backend_stream_stall")])].
End responses.

(* ------------------------------------------------------------------ *)
(** ** Answers of the aiohttp client *)

(** An answer: its status and reason, and what reading it comes to: [text()], [json()]
    (which wants a JSON content type), [json.loads(read())], and its chunks. *)
Record PostResponse : Type := mkResp {
  pr_status : Z;
  pr_reason : string;
  pr_text : res string;
  pr_json : res pyval;
  pr_loads : res pyval;
  pr_chunks : list string;
  pr_fin : option exn
}.

Definition raise_for_status (r : PostResponse) : res unit :=
  if (400 <=? r.(pr_status))%Z then Err (ClientResponseError r.(pr_status) r.(pr_reason)) else Ok tt.

(** [isinstance(e, aiohttp.ClientError)]. *)
Definition is_ClientError (e : exn) : bool :=
  match e with
  | ConnectionTimeoutError | ClientConnectorError | ServerTimeoutError | ClientResponseError _ _
  | ContentTypeError | ClientError _ => true
  | _ => false
  end.

(* ------------------------------------------------------------------ *)
(** ** Lemmas on headers *)

Lemma in_dset (d : dict string string) k v k' v' :
  (k, v) ∈ dset k' v' d → (k, v) = (k', v') ∨ (k, v) ∈ d.
Proof. induction d as [|[a b] d IHd]; simpl; [set_solver|]. case_decide; set_solver. Qed.

(** [{k: v for k, v in hs.items() if keep(k)}]. *)
Definition filter_headers (keep : string → bool) (acc hs : dict string string) : dict string string :=
  foldl (λ acc kv, if keep kv.1 then dset kv.1 kv.2 acc else acc) acc hs.

Lemma filter_headers_in keep acc hs k v :
  (k, v) ∈ filter_headers keep acc hs → (k, v) ∈ acc ∨ (keep k = true ∧ (k, v) ∈ hs).
Proof.
  unfold filter_headers. revert acc. induction hs as [|[k' v'] hs IH]; simpl; intros acc Hin; [by left|].
  apply IH in Hin as [Hin|[??]]; [|right; set_solver].
  destruct (keep k') eqn:E; [|by left].
  apply in_dset in Hin as [[= -> ->]|Hin]; [right|by left]. split; [done|]. by left.
Qed.

Lemma filter_headers_get keep acc hs k v :
  dict_wf hs → (k, v) ∈ hs → keep k = true → dget k (filter_headers keep acc hs) = Some v.
Proof.
  unfold filter_headers, dict_wf. revert acc.
  induction hs as [|[k' v'] hs IH]; simpl; intros acc Hwf Hin Hk; [set_solver|].
  inversion_clear Hwf as [|?? Hn Hwf']. apply elem_of_cons in Hin as [[= -> ->]|Hin]; [|auto].
  rewrite Hk. clear IH.
  assert (Hkeep : ∀ hs acc, k' ∉ dkeys hs → dget k' acc = Some v' →
    dget k' (foldl (λ acc kv, if keep kv.1 then dset kv.1 kv.2 acc else acc) acc hs) = Some v').
  { clear. induction hs as [|[a b] hs IH]; simpl; intros acc Hn Hg; [done|].
    unfold dkeys in Hn. simpl in Hn. apply not_elem_of_cons in Hn as [Hne Hn]. apply IH; [done|].
    destruct (keep a); [|done]. by rewrite dget_dset_ne. }
  apply Hkeep; [done|]. apply dget_dset_eq.
Qed.

Lemma build_headers_filter hs rid ict :
  build_backend_request_headers hs rid ict = dset "X-Request-Id" rid (filter_headers (keep_header ict) [] hs).
Proof. done. Qed.
Lemma strip_headers_filter hs rid :
  strip_response_headers hs rid = dset "X-Request-Id" rid (filter_headers
    (λ k, negb (bool_decide (lower k ∈ HEADERS_TO_STRIP_FROM_RESPONSE) ||
                bool_decide (lower k = "content-type"))) [] hs).
Proof.
  unfold strip_response_headers, filter_headers. f_equal. generalize (@nil (string * string)).
  induction hs as [|[k v] hs IH]; intros acc; [done|]. simpl. rewrite IH.
  by destruct (_ || _).
Qed.

(** The headers a proxy forwards to a backend and returns to the client: the request
    id is set, hop-by-hop headers and a client's own request id are dropped, and
    every other header is passed on unchanged. *)
Lemma forwarded_headers hs rid ict :
  dict_wf hs →
  let out := build_backend_request_headers hs rid ict in
  dget "X-Request-Id" out = Some rid ∧
  (∀ k v, (k, v) ∈ out → ((k = "X-Request-Id" ∧ v = rid) ∨
     ((k, v) ∈ hs ∧ (lower k ∉ HOP_BY_HOP_HEADERS) ∧ lower k ≠ "x-request-id"))) ∧
  (∀ k v, (k, v) ∈ hs → keep_header ict k = true → dget k out = Some v).
Proof.
  intros Hwf out. unfold out. rewrite build_headers_filter. split; [apply dget_dset_eq|]. split.
  - intros k v [[= -> ->]|Hin]%in_dset; [by left|right].
    apply filter_headers_in in Hin as [Hin|[Hk Hin]]; [set_solver|]. split; [done|].
    unfold keep_header in Hk. bool_to_prop. done.
  - intros k v Hin Hk. assert (k ≠ "X-Request-Id").
    { intros ->. by apply andb_true_iff in Hk as [_ Hk]. }
    rewrite dget_dset_ne by done. by apply filter_headers_get.
Qed.
