(* ===== verification/FileStorage.v ===== *)
(** * File storage (src/src/vllm_router/services/files_service/ and
      src/src/vllm_router/routers/files_router.py)

    Uploaded files are kept in one directory per user, named by their id.  The file
    system is a tree of directories and files in which paths are walked name by name; it
    holds no links, refuses nobody and never fails of itself.  The storage refines a map
    from user and id to files as long as users and ids are names: not empty, not [.] or
    [..], without a slash. *)

From S2P Require Import Prelude PyDict PyStr PyVal HttpBackend.
From Stdlib Require Import Ascii.

Local Open Scope py_scope.

(* ------------------------------------------------------------------ *)
(** ** The file system *)

Record file : Type := mkFile {
  f_bytes : string;
  f_ctime : Z
}.
(** A place is the list of names that lead to it from the root. *)
Abbreviation place := (list string).
Record fsys : Type := mkFS {
  fs_files : gmap place file;
  fs_dirs : gset place
}.
#[global] Instance fsys_empty : Empty fsys := mkFS ∅ ∅.

(** The directory the process runs in, and the size and change time the system gives for
    a directory. *)
Class OS : Type := mkOS {
  cwd : place;
  dir_stat : fsys → place → nat * Z
}.

Definition FileNotFoundError : exn := OtherException "FileNotFoundError".
Definition FileExistsError : exn := OtherException "FileExistsError".
Definition NotADirectoryError : exn := OtherException "NotADirectoryError".
Definition IsADirectoryError : exn := OtherException "IsADirectoryError".

Definition is_dir (fs : fsys) (p : place) : bool := bool_decide (p = [] ∨ p ∈ fs.(fs_dirs)).
Definition is_file (fs : fsys) (p : place) : bool := bool_decide (is_Some (fs.(fs_files) !! p)).

(** [os.path.join]. *)
Definition path_join (a b : string) : string :=
  if startswith "/" b then b
  else if bool_decide (a = "") || endswith "/" a then a +:+ b
  else a +:+ "/" +:+ b.

Definition names (path : string) : list string := filter (λ n, n ≠ "") (split "/" path).
Definition step (cur : place) (name : string) : place :=
  if decide (name = ".") then cur else if decide (name = "..") then removelast cur else cur ++ [name].
(** Every name but the last must lead to a directory. *)
Fixpoint walk (fs : fsys) (cur : place) (l : list string) : res place :=
  match l with
  | [] => Ok cur
  | n :: l =>
      if is_dir fs cur then walk fs (step cur n) l
      else Err (if is_file fs cur then NotADirectoryError else FileNotFoundError)
  end.

Section system.
Context {HOS : OS}.

Definition start (path : string) : place := if startswith "/" path then [] else cwd.
Definition resolve (fs : fsys) (path : string) : res place :=
  if decide (path = "") then Err FileNotFoundError else walk fs (start path) (names path).

Inductive node : Type := Dir (p : place) | File (p : place) (f : file).
(** What is at a path; only a directory may be written with a slash at the end. *)
Definition find_node (fs : fsys) (path : string) : res node :=
  rbind (resolve fs path) (λ p,
    if is_dir fs p then Ok (Dir p)
    else match fs.(fs_files) !! p with
         | None => Err FileNotFoundError
         | Some f => if endswith "/" path then Err NotADirectoryError else Ok (File p f)
         end).
(** [os.path.exists]. *)
Definition exists_at (fs : fsys) (path : string) : bool := is_ok (find_node fs path).

(** [os.makedirs(path, exist_ok=True)]. *)
Fixpoint mkdirs (cur : place) (l : list string) (fs : fsys) : fsys * res unit :=
  match l with
  | [] => (fs, Ok tt)
  | n :: l =>
      let next := step cur n in
      if is_dir fs next then mkdirs next l fs
      else if is_file fs next
      then (fs, Err (match l with [] => FileExistsError | _ => NotADirectoryError end))
      else mkdirs next l (mkFS fs.(fs_files) ({[next]} ∪ fs.(fs_dirs)))
  end.
Definition makedirs (path : string) : M fsys unit := λ fs,
  if decide (path = "") then (fs, Err FileNotFoundError) else mkdirs (start path) (names path) fs.

(** Opening with mode [wb], writing everything and closing. *)
Definition write_file (now : Z) (path content : string) : M fsys unit := λ fs,
  match resolve fs path with
  | Err e => (fs, Err e)
  | Ok p =>
      if is_dir fs p || endswith "/" path then (fs, Err IsADirectoryError)
      else (mkFS (<[p := mkFile content now]> fs.(fs_files)) fs.(fs_dirs), Ok tt)
  end.

(** Opening with mode [r+b], writing at an offset and closing: a gap is filled with zero
    bytes, and nothing is written when there is nothing to write. *)
Fixpoint zeros (n : nat) : string := match n with 0 => "" | S n => String "000" (zeros n) end.
Definition write_at (offset : nat) (chunk old : string) : string :=
  String.substring 0 offset old +:+ zeros (offset - String.length old) +:+ chunk +:+
  sdrop (offset + String.length chunk) old.
Definition patched (now : Z) (offset : nat) (chunk : string) (f : file) : file :=
  if decide (chunk = "") then f else mkFile (write_at offset chunk f.(f_bytes)) now.
Definition patch_file (now : Z) (path : string) (offset : nat) (chunk : option string) : M fsys unit := λ fs,
  match find_node fs path with
  | Err e => (fs, Err e)
  | Ok (Dir _) => (fs, Err IsADirectoryError)
  | Ok (File p f) =>
      match chunk with
      | None => (fs, Err TypeError)
      | Some chunk => (mkFS (<[p := patched now offset chunk f]> fs.(fs_files)) fs.(fs_dirs), Ok tt)
      end
  end.

Definition remove_file (path : string) : M fsys unit := λ fs,
  match find_node fs path with
  | Err e => (fs, Err e)
  | Ok (Dir _) => (fs, Err IsADirectoryError)
  | Ok (File p _) => (mkFS (delete p fs.(fs_files)) fs.(fs_dirs), Ok tt)
  end.

(** [os.listdir]: the names in a directory, in no particular order. *)
Definition child (p q : place) : option string :=
  match last q with
  | Some n => if decide (removelast q = p) then Some n else None
  | None => None
  end.
Definition entries (fs : fsys) (p : place) : list string :=
  omap (child p) ((map_to_list fs.(fs_files)).*1 ++ elements fs.(fs_dirs)).
Definition listdir (path : string) : M fsys (list string) := λ fs,
  (fs, match find_node fs path with
       | Err e => Err e
       | Ok (Dir p) => Ok (entries fs p)
       | Ok (File _ _) => Err NotADirectoryError
       end).
End system.

(* ------------------------------------------------------------------ *)
(** ** The storage (file_storage.py) *)

Definition DEFAULT_USER_ID : string := "uid_default".
Definition DEFAULT_PURPOSE : string := "batch".

Record OpenAIFile : Type := mkOpenAIFile {
  id : string;
  bytes : nat;
  created_at : Z;
  filename : string;
  purpose : string
}.
Definition metadata (f : OpenAIFile) : pyval := PDict
  [("id", PStr f.(id)); ("bytes", PInt (Z.of_nat f.(bytes))); ("created_at", PInt f.(created_at));
   ("filename", PStr f.(filename)); ("purpose", PStr f.(purpose))].

Section storage.
Context {HOS : OS} (base_path : string).

Definition storage_init : M fsys unit := makedirs base_path.

Definition get_user_path (user_id : string) : M fsys string :=
  let user_path := path_join base_path user_id in
  makedirs user_path ;;;
  ret user_path.

(** [hex6] is [uuid4().hex[:6]] and [now] the time of the write. *)
Definition save_file (hex6 : string) (now : Z) (file_id : option string) (user_id : string)
    (file_name : option string) (content : option string) (purpose : string) : M fsys OpenAIFile :=
  match content with
  | None => raise (ValueError "Content cannot be None")
  | Some content =>
      let file_id := default ("file-" +:+ hex6) file_id in
      user_path <- get_user_path user_id ;;
      write_file now (path_join user_path file_id) content ;;;
      ret (mkOpenAIFile file_id (String.length content) now
             (match file_name with
              | Some n => if decide (n = "") then file_id else n
              | None => file_id
              end) purpose)
  end.

Definition save_file_chunk (now : Z) (file_id user_id : string) (chunk : option string) (offset : nat) : M fsys unit :=
  user_path <- get_user_path user_id ;;
  patch_file now (path_join user_path file_id) offset chunk.

Definition get_file (file_id user_id : string) : M fsys OpenAIFile :=
  user_path <- get_user_path user_id ;;
  fs <- gets (λ fs, fs) ;;
  match find_node fs (path_join user_path file_id) with
  | Err _ => raise FileNotFoundError
  | Ok n =>
      let '(size, ctime) := match n with
                            | Dir p => dir_stat fs p
                            | File _ f => (String.length f.(f_bytes), f.(f_ctime))
                            end in
      ret (mkOpenAIFile file_id size ctime file_id DEFAULT_PURPOSE)
  end.

Definition get_file_content (file_id user_id : string) : M fsys string :=
  user_path <- get_user_path user_id ;;
  fs <- gets (λ fs, fs) ;;
  match find_node fs (path_join user_path file_id) with
  | Err _ => raise FileNotFoundError
  | Ok (Dir _) => raise IsADirectoryError
  | Ok (File _ f) => ret f.(f_bytes)
  end.

Definition delete_file (file_id user_id : string) : M fsys unit :=
  user_path <- get_user_path user_id ;;
  let file_path := path_join user_path file_id in
  found <- gets (λ fs, exists_at fs file_path) ;;
  if found : bool then remove_file file_path else ret tt.

Definition list_files (user_id : string) : M fsys (list string) :=
  user_path <- get_user_path user_id ;;
  listdir user_path.

(* ------------------------------------------------------------------ *)
(** ** The endpoints (files_router.py) *)

Inductive FResponse : Type :=
| FJson (r : JSONResponse)
| FBytes (content : string).

Definition plain_json (status : Z) (v : pyval) : FResponse := FJson (mkJSON status v []).
Definition file_missing (file_id : string) : FResponse :=
  plain_json 404 (PDict [("error", PStr ("File " +:+ file_id +:+ " not found"))]).

Context (exn_str : exn → string).

(** [form] is the uploaded file's name and content, when there is one, and the purpose. *)
Definition route_files (hex6 : string) (now : Z) (upload : option (string * string)) (purpose : option string) :
  M fsys FResponse :=
  match upload with
  | None => ret (plain_json 400 (PDict [("error", PStr "Missing required parameter 'file'")]))
  | Some (name, content) =>
      try_except
        (info <- save_file hex6 now None DEFAULT_USER_ID (Some name) (Some content)
                   (default "unknown" purpose) ;;
         ret (plain_json 200 (metadata info)))
        (λ e, if is_Exception e
              then ret (plain_json 500 (PDict [("error", PStr ("Failed to save file: " +:+ exn_str e))]))
              else raise e)
  end.
Definition not_found_as_404 (file_id : string) (m : M fsys FResponse) : M fsys FResponse :=
  try_except m (λ e, if bool_decide (e = FileNotFoundError) then ret (file_missing file_id) else raise e).
Definition route_get_file (file_id : string) : M fsys FResponse :=
  not_found_as_404 file_id
    (file <- get_file file_id DEFAULT_USER_ID ;; ret (plain_json 200 (metadata file))).
Definition route_get_file_content (file_id : string) : M fsys FResponse :=
  not_found_as_404 file_id
    (content <- get_file_content file_id DEFAULT_USER_ID ;; ret (FBytes content)).

(* ------------------------------------------------------------------ *)
(** ** Paths of plain names *)

(** A user or an id that names an entry of a directory. *)
Definition plain (s : string) : Prop := s ≠ "" ∧ s ≠ "." ∧ s ≠ ".." ∧ ¬ has_char "/" s.

Lemma plain_no_prefix s : plain s → startswith "/" s = false.
Proof.
  intros (_ & _ & _ & Hn). destruct (startswith "/" s) eqn:E; [|done].
  apply startswith_split in E as [t ->]. exfalso. apply Hn. unfold has_char. simpl. by left.
Qed.
Lemma plain_no_suffix p s : plain s → endswith "/" (p +:+ s) = false.
Proof.
  intros (Hne & _ & _ & Hn). destruct (endswith "/" (p +:+ s)) eqn:E; [|done]. exfalso. apply Hn.
  apply endswith_char in E as [t Ht]. apply (f_equal list_ascii) in Ht.
  rewrite !list_ascii_app in Ht. unfold has_char.
  destruct (list_ascii s) as [|c l _] eqn:El using rev_ind.
  { destruct s; [done|]. by simpl in El. }
  rewrite app_assoc in Ht. apply app_inj_tail in Ht as [_ ->]. rewrite elem_of_app. right. by left.
Qed.
Lemma step_plain p s : plain s → step p s = p ++ [s].
Proof. intros (_ & H1 & H2 & _). unfold step. by rewrite !decide_False. Qed.

(** A path that ends in a plain name. *)
Lemma join_snoc sep (l : list string) x : l ≠ [] → join sep (l ++ [x]) = join sep l +:+ sep +:+ x.
Proof.
  induction l as [|y l IH]; [done|]. intros _. destruct l as [|z l]; [done|].
  change ((y :: z :: l) ++ [x]) with (y :: ((z :: l) ++ [x])). rewrite join_cons by done.
  rewrite IH by done. rewrite (join_cons sep y (z :: l)) by done. by rewrite !str_app_assoc.
Qed.
Lemma split_snoc a x : ¬ has_char "/" x → split "/" (a +:+ "/" +:+ x) = split "/" a ++ [x].
Proof.
  intros Hx. assert (E : a +:+ "/" +:+ x = join "/" (split "/" a ++ [x])).
  { rewrite join_snoc by apply split_nonempty. by rewrite join_split. }
  rewrite E. apply (split_join "/"); [by destruct (split "/" a)|]. apply Forall_app.
  split; [apply split_char_no_sep|by repeat constructor].
Qed.
Lemma names_snoc a x : x ≠ "" → ¬ has_char "/" x → names (a +:+ "/" +:+ x) = names a ++ [x].
Proof.
  intros Hne Hx. unfold names. rewrite split_snoc, filter_app by done. by rewrite filter_cons_True.
Qed.
Lemma names_slash a : names (a +:+ "/") = names a.
Proof.
  unfold names. rewrite <-(str_app_nil_r (a +:+ "/")), <-str_app_assoc.
  rewrite split_snoc by (unfold has_char; simpl; apply not_elem_of_nil).
  rewrite filter_app, filter_cons_False by (intros H; by apply H). by rewrite filter_nil, app_nil_r.
Qed.
Lemma path_join_spec a x :
  plain x → names (path_join a x) = names a ++ [x] ∧ startswith "/" (path_join a x) = startswith "/" a ∧
  path_join a x ≠ "" ∧ endswith "/" (path_join a x) = false.
Proof.
  intros Hx. pose proof Hx as (Hne & _ & _ & Hn). unfold path_join. rewrite (plain_no_prefix x Hx).
  destruct (decide (a = "")) as [->|Ha].
  { rewrite bool_decide_true by done. cbn [orb]. change ("" +:+ x) with x.
    split; [|split; [by apply plain_no_prefix|split; [done|by apply (plain_no_suffix "")]]].
    unfold names. assert (E : split "/" x = [x]) by (apply (split_join "/" [x]); [done|by repeat constructor]).
    rewrite E. by rewrite filter_cons_True. }
  rewrite bool_decide_false by done. cbn [orb].
  assert (Hs : ∀ y, startswith "/" (a +:+ y) = startswith "/" a).
  { intros y. destruct a as [|c a]; [done|]. unfold startswith. rewrite str_app_cons. cbn [String.prefix].
    destruct (ascii_dec _ _); [|done]. by destruct (a +:+ y), a. }
  assert (Hneq : ∀ y, a +:+ y ≠ "") by (intros y; by destruct a).
  destruct (endswith "/" a) eqn:E.
  - split; [|split; [apply Hs|split; [apply Hneq|by apply plain_no_suffix]]].
    apply endswith_char in E as [t ->]. change (String "/" "") with "/". rewrite <-str_app_assoc.
    by rewrite names_snoc, names_slash.
  - rewrite str_app_assoc at 4. split; [by apply names_snoc|].
    split; [apply Hs|split; [apply Hneq|by apply plain_no_suffix]].
Qed.

(* ------------------------------------------------------------------ *)
(** ** Walking *)

Lemma is_dir_mono fs fs' p : fs.(fs_dirs) ⊆ fs'.(fs_dirs) → is_dir fs p = true → is_dir fs' p = true.
Proof. unfold is_dir. rewrite !bool_decide_eq_true. set_solver. Qed.
Lemma walk_mono fs fs' cur l p :
  fs.(fs_dirs) ⊆ fs'.(fs_dirs) → walk fs cur l = Ok p → walk fs' cur l = Ok p.
Proof.
  intros Hd. revert cur. induction l as [|n l IH]; intros cur; [done|]. cbn [walk].
  destruct (is_dir fs cur) eqn:E; [|done]. rewrite (is_dir_mono _ _ _ Hd E). apply IH.
Qed.
Lemma walk_app fs cur l k p : walk fs cur l = Ok p → walk fs cur (l ++ k) = walk fs p k.
Proof.
  revert cur. induction l as [|n l IH]; intros cur; cbn [walk app]; [by intros [= ->]|].
  destruct (is_dir fs cur); [|done]. apply IH.
Qed.
(** Directories that are there are passed through. *)
Lemma mkdirs_app fs cur l k p :
  walk fs cur l = Ok p → is_dir fs p = true → mkdirs cur (l ++ k) fs = mkdirs p k fs.
Proof.
  revert cur. induction l as [|n l IH]; intros cur; cbn [walk app mkdirs]; [by intros [= ->]|].
  destruct (is_dir fs cur); [|done]. intros Hw Hp. assert (E : is_dir fs (step cur n) = true).
  { destruct l as [|m l]; cbn [walk] in Hw; [by injection Hw as ->|]. by destruct (is_dir fs (step cur n)). }
  rewrite E. by apply IH.
Qed.

(** What fails fails with an [Exception]. *)
Lemma walk_raises fs cur l e : walk fs cur l = Err e → is_Exception e = true.
Proof.
  revert cur. induction l as [|n l IH]; intros cur; [done|]. cbn [walk].
  destruct (is_dir fs cur); [apply IH|]. intros [= <-]. by destruct (is_file fs cur).
Qed.
Lemma mkdirs_raises cur l fs fs' e : mkdirs cur l fs = (fs', Err e) → is_Exception e = true.
Proof.
  revert cur fs. induction l as [|n l IH]; intros cur fs; [done|]. cbn [mkdirs].
  destruct (is_dir _ _); [apply IH|]. destruct (is_file _ _); [|apply IH]. intros [= _ <-]. by destruct l.
Qed.
Lemma save_file_raises hex6 now i u name content purpose fs fs' e :
  save_file hex6 now i u name content purpose fs = (fs', Err e) → is_Exception e = true.
Proof.
  unfold save_file, get_user_path, makedirs, bind. destruct content as [c|]; [|by intros [= _ <-]].
  destruct (decide _); [by intros [= _ <-]|].
  destruct (mkdirs _ _ fs) as [fs1 [[]|x]] eqn:E; [|intros [= _ <-]; by eapply mkdirs_raises].
  cbn. unfold write_file, resolve. destruct (decide _); [by intros [= _ <-]|].
  destruct (walk _ _ _) as [p|x] eqn:Ew; [|intros [= _ <-]; by eapply walk_raises].
  destruct (_ || _); by intros [= _ <-].
Qed.

(* ------------------------------------------------------------------ *)
(** ** The storage refines a map *)

(** What the storage promises: a map from user and id to a file. *)
Abbreviation store := (gmap (string * string) file).

(** The directory [base] that the base path names holds one directory per user, and that
    one the user's files and nothing else. *)
Record represents (base : place) (fs : fsys) (m : store) : Prop := {
  r_base : walk fs (start base_path) (names base_path) = Ok base;
  r_dir : is_dir fs base = true;
  r_files : ∀ u i, plain u → plain i → fs.(fs_files) !! (base ++ [u; i]) = m !! (u, i);
  r_store : ∀ u i f, m !! (u, i) = Some f → plain u ∧ plain i;
  r_users : ∀ u, plain u → fs.(fs_files) !! (base ++ [u]) = None;
  r_flat : ∀ u i, plain u → base ++ [u; i] ∉ fs.(fs_dirs);
  r_names : ∀ u i, plain u → is_Some (fs.(fs_files) !! (base ++ [u; i])) → plain i
}.

Section refinement.
Context (base : place).

Lemma below_inj (u i u' i' : string) : base ++ [u; i] = base ++ [u'; i'] → u = u' ∧ i = i'.
Proof. by intros [= -> ->]%app_inv_head. Qed.
Lemma below_not_user (u i v : string) : base ++ [u; i] ≠ base ++ [v].
Proof. by intros [= ?]%app_inv_head. Qed.

(** The user's directory is made when it is not there, and nothing else changes. *)
Lemma user_ready u fs m :
  represents base fs m → plain u →
  ∃ fs', get_user_path u fs = (fs', Ok (path_join base_path u)) ∧ represents base fs' m ∧
    is_dir fs' (base ++ [u]) = true.
Proof.
  intros [Hb Hd Hf Hs Hu Hfl Hn] Hpu. unfold get_user_path, bind, makedirs.
  destruct (path_join_spec base_path u Hpu) as (En & Es & Ene & _). rewrite decide_False by done.
  unfold start. rewrite En, Es. fold (start base_path). rewrite (mkdirs_app _ _ _ _ _ Hb Hd). cbn [mkdirs].
  rewrite step_plain by done. destruct (is_dir fs (base ++ [u])) eqn:E.
  { exists fs. by split_and!. }
  unfold is_file. rewrite (Hu u Hpu), bool_decide_false by (by intros []).
  eexists. split; [reflexivity|]. split.
  - assert (Hsub : fs.(fs_dirs) ⊆ {[base ++ [u]]} ∪ fs.(fs_dirs)) by set_solver.
    constructor; try done; cbn.
    + by eapply walk_mono; [|exact Hb].
    + by eapply is_dir_mono; [|exact Hd].
    + intros v i Hv. apply not_elem_of_union. split; [|by apply Hfl].
      rewrite elem_of_singleton. apply below_not_user.
  - unfold is_dir. apply bool_decide_eq_true. cbn. set_solver.
Qed.

(** The path of a file leads below the user's directory. *)
Lemma file_resolves u i fs m :
  represents base fs m → plain u → plain i → is_dir fs (base ++ [u]) = true →
  let path := path_join (path_join base_path u) i in
  resolve fs path = Ok (base ++ [u; i]) ∧ endswith "/" path = false ∧ is_dir fs (base ++ [u; i]) = false.
Proof.
  intros [Hb Hd Hf Hs Hu Hfl Hn] Hpu Hpi Hud path. subst path.
  destruct (path_join_spec base_path u Hpu) as (En & Es & Ene & _).
  destruct (path_join_spec (path_join base_path u) i Hpi) as (En' & Es' & Ene' & Eend).
  split; [|split; [exact Eend|]].
  - unfold resolve. rewrite decide_False by done. unfold start. rewrite En', En, Es', Es. fold (start base_path).
    rewrite <-app_assoc, (walk_app _ _ _ _ _ Hb). cbn [app walk]. rewrite Hd, step_plain, Hud, step_plain by done.
    by rewrite <-app_assoc.
  - unfold is_dir. apply bool_decide_eq_false. intros [H|H]; [by destruct base|by apply (Hfl u i)].
Qed.
Lemma file_found u i fs m :
  represents base fs m → plain u → plain i → is_dir fs (base ++ [u]) = true →
  find_node fs (path_join (path_join base_path u) i) =
    match m !! (u, i) with Some f => Ok (File (base ++ [u; i]) f) | None => Err FileNotFoundError end.
Proof.
  intros Hr Hpu Hpi Hud. destruct (file_resolves u i fs m Hr Hpu Hpi Hud) as (E & Eend & Edir).
  unfold find_node. rewrite E. cbn [rbind]. rewrite Edir, (r_files _ _ _ Hr u i Hpu Hpi), Eend.
  by destruct (m !! (u, i)).
Qed.

Lemma represents_insert fs m u i f :
  represents base fs m → plain u → plain i →
  represents base (mkFS (<[base ++ [u; i] := f]> fs.(fs_files)) fs.(fs_dirs)) (<[(u, i) := f]> m).
Proof.
  intros [Hb Hd Hf Hs Hu Hfl Hn] Hpu Hpi. constructor; cbn; try done.
  - by eapply walk_mono; [|exact Hb].
  - intros u' i' Hu' Hi'. destruct (decide ((u, i) = (u', i'))) as [[= <- <-]|Hne]; [by rewrite !lookup_insert_eq|].
    rewrite !lookup_insert_ne; [by apply Hf|done|]. intros E. apply Hne. by apply below_inj in E as [-> ->].
  - intros u' i' f'. rewrite lookup_insert_Some. intros [[[= <- <-] _]|[_ H]]; [done|by eapply Hs].
  - intros v Hv. rewrite lookup_insert_ne; [by apply Hu|apply below_not_user].
  - intros u' i' Hu'. rewrite lookup_insert_is_Some. intros [E|[_ H]]; [by apply below_inj in E as [-> ->]|by eapply Hn].
Qed.
Lemma represents_delete fs m u i :
  represents base fs m → plain u → plain i →
  represents base (mkFS (delete (base ++ [u; i]) fs.(fs_files)) fs.(fs_dirs)) (delete (u, i) m).
Proof.
  intros [Hb Hd Hf Hs Hu Hfl Hn] Hpu Hpi. constructor; cbn; try done.
  - by eapply walk_mono; [|exact Hb].
  - intros u' i' Hu' Hi'. destruct (decide ((u, i) = (u', i'))) as [[= <- <-]|Hne]; [by rewrite !lookup_delete_eq|].
    rewrite !lookup_delete_ne; [by apply Hf|done|]. intros E. apply Hne. by apply below_inj in E as [-> ->].
  - intros u' i' f'. rewrite lookup_delete_Some. intros [_ H]. by eapply Hs.
  - intros v Hv. rewrite lookup_delete_None. right. by apply Hu.
  - intros u' i' Hu'. rewrite lookup_delete_is_Some. intros [_ H]. by eapply Hn.
Qed.

(** A user's directory lists the ids of the user's files. *)
Definition ids_of (u : string) (m : store) : gset string :=
  list_to_set (omap (λ k : string * string, if decide (k.1 = u) then Some k.2 else None) (map_to_list m).*1).
Lemma elem_of_ids_of u m i : i ∈ ids_of u m ↔ is_Some (m !! (u, i)).
Proof.
  unfold ids_of. rewrite elem_of_list_to_set, list_elem_of_omap. split.
  - intros ([v j] & ([k f] & -> & H%elem_of_map_to_list)%list_elem_of_fmap & E). cbn in E.
    case_decide; [|done]. simplify_eq/=. by eexists.
  - intros [f Hf]. exists (u, i). split; [|cbn; by rewrite decide_True].
    apply list_elem_of_fmap. exists ((u, i), f). split; [done|]. by apply elem_of_map_to_list.
Qed.
Lemma child_Some p q n : child p q = Some n ↔ q = p ++ [n].
Proof.
  unfold child. destruct q as [|x q _] using rev_ind; [by destruct p|]. rewrite last_snoc, removelast_last.
  split; [case_decide; [|done]; congruence|]. intros [-> ->]%app_inj_tail. by rewrite decide_True.
Qed.
Lemma entries_ids fs m u :
  represents base fs m → plain u → (list_to_set (entries fs (base ++ [u])) : gset string) = ids_of u m.
Proof.
  intros [Hb Hd Hf Hs Hu Hfl Hn] Hpu. apply set_eq. intros i.
  rewrite elem_of_list_to_set, elem_of_ids_of. unfold entries. rewrite list_elem_of_omap.
  setoid_rewrite child_Some. setoid_rewrite <-app_assoc. cbn. split.
  - intros (q & Hq & ->). apply elem_of_app in Hq as [([k f] & E & H%elem_of_map_to_list)%list_elem_of_fmap|Hq].
    + cbn in E. subst k. rewrite <-(Hf u i Hpu); [by eexists|]. by apply (Hn u i Hpu).
    + exfalso. apply (Hfl u i Hpu). by apply elem_of_elements.
  - intros [f H]. destruct (Hs u i f H) as [_ Hpi]. eexists. split; [|reflexivity]. apply elem_of_app. left.
    apply list_elem_of_fmap. exists (base ++ [u; i], f). split; [done|]. apply elem_of_map_to_list. by rewrite Hf.
Qed.

(** The operations of the storage, a save with the digits its id is generated from when
    it is given none, and their answers; the order of a listing is not part of one. *)
Inductive op : Type :=
| Save (hex6 : string) (file_id : option string) (user_id : string) (name content : option string) (purpose : string)
| SaveChunk (file_id user_id : string) (chunk : option string) (offset : nat)
| Get (file_id user_id : string)
| Content (file_id user_id : string)
| List (user_id : string)
| Delete (file_id user_id : string).
Inductive answer : Type := AFile (f : OpenAIFile) | ABytes (s : string) | ANames (ids : gset string) | ADone.

Definition op_plain (o : op) : Prop :=
  match o with
  | Save hex6 None u _ _ _ => plain u ∧ ¬ has_char "/" hex6
  | Save _ (Some i) u _ _ _ | SaveChunk i u _ _ | Get i u | Content i u | Delete i u => plain u ∧ plain i
  | List u => plain u
  end.

Definition exec (now : Z) (o : op) : M fsys answer :=
  match o with
  | Save hex6 i u name content purpose => f <- save_file hex6 now i u name content purpose ;; ret (AFile f)
  | SaveChunk i u chunk offset => save_file_chunk now i u chunk offset ;;; ret ADone
  | Get i u => f <- get_file i u ;; ret (AFile f)
  | Content i u => c <- get_file_content i u ;; ret (ABytes c)
  | List u => l <- list_files u ;; ret (ANames (list_to_set l))
  | Delete i u => delete_file i u ;;; ret ADone
  end.

Definition spec (now : Z) (o : op) (m : store) : store * res answer :=
  match o with
  | Save hex6 i u name None _ => (m, Err (ValueError "Content cannot be None"))
  | Save hex6 i u name (Some c) purpose =>
      let i := default ("file-" +:+ hex6) i in
      (<[(u, i) := mkFile c now]> m,
       Ok (AFile (mkOpenAIFile i (String.length c) now
            (match name with Some n => if decide (n = "") then i else n | None => i end) purpose)))
  | SaveChunk i u chunk offset =>
      match m !! (u, i), chunk with
      | None, _ => (m, Err FileNotFoundError)
      | Some _, None => (m, Err TypeError)
      | Some f, Some chunk => (<[(u, i) := patched now offset chunk f]> m, Ok ADone)
      end
  | Get i u =>
      (m, match m !! (u, i) with
          | None => Err FileNotFoundError
          | Some f => Ok (AFile (mkOpenAIFile i (String.length f.(f_bytes)) f.(f_ctime) i DEFAULT_PURPOSE))
          end)
  | Content i u => (m, match m !! (u, i) with None => Err FileNotFoundError | Some f => Ok (ABytes f.(f_bytes)) end)
  | List u => (m, Ok (ANames (ids_of u m)))
  | Delete i u => (delete (u, i) m, Ok ADone)
  end.

Lemma generated_plain hex6 : ¬ has_char "/" hex6 → plain ("file-" +:+ hex6).
Proof.
  intros Hn. split; [done|]. split; [done|]. split; [done|]. unfold has_char in *. rewrite list_ascii_app.
  rewrite not_elem_of_app. split; [|done]. set_solver.
Qed.

Definition refines (p : fsys * res answer) (q : store * res answer) : Prop := represents base p.1 q.1 ∧ p.2 = q.2.

Lemma save_refines hex6 now i u name content purpose fs m :
  represents base fs m → plain u → plain (default ("file-" +:+ hex6) i) →
  refines (exec now (Save hex6 i u name content purpose) fs) (spec now (Save hex6 i u name content purpose) m).
Proof.
  intros Hr Hu Hi. destruct content as [c|]; [|done]. destruct (user_ready u fs m Hr Hu) as (fs' & E & Hr' & Hud).
  destruct (file_resolves u _ fs' m Hr' Hu Hi Hud) as (Ep & Eend & Edir).
  cbn [exec spec]. unfold save_file, bind. rewrite E. unfold write_file. rewrite Ep, Edir, Eend. cbn [orb].
  split; [|done]. by apply (represents_insert fs' m u _ (mkFile c now)).
Qed.
Lemma other_refines now o fs m :
  represents base fs m → op_plain o → match o with Save _ _ _ _ _ _ => False | _ => True end →
  refines (exec now o fs) (spec now o m).
Proof.
  intros Hr Ho Hns. destruct o as [| i u chunk offset|i u|i u|u|i u];
    [done|destruct Ho as [Hu Hi]|destruct Ho as [Hu Hi]|destruct Ho as [Hu Hi]|rename Ho into Hu|destruct Ho as [Hu Hi]].
  all: destruct (user_ready u fs m Hr ltac:(done)) as (fs' & E & Hr' & Hud).
  all: cbn [exec spec]; unfold save_file_chunk, get_file, get_file_content, list_files, delete_file, bind; rewrite E.
  all: try pose proof (file_found u i fs' m Hr' Hu Hi Hud) as Ef.
  - unfold patch_file. rewrite Ef. destruct (m !! (u, i)) as [f|]; [|done]. destruct chunk as [c|]; [|done].
    split; [|done]. by apply (represents_insert fs' m u i).
  - unfold gets. rewrite Ef. by destruct (m !! (u, i)).
  - unfold gets. rewrite Ef. by destruct (m !! (u, i)).
  - destruct (path_join_spec base_path u Hu) as (En & Es & Ene & Eend). pose proof Hr' as [Hb Hd _ _ _ _ _].
    unfold listdir, find_node, resolve, start. rewrite decide_False, En, Es by done. fold (start base_path).
    rewrite (walk_app _ _ _ _ _ Hb). cbn [walk]. rewrite Hd. cbn [rbind]. rewrite step_plain, Hud by done.
    split; [done|]. cbn. by rewrite (entries_ids fs' m u Hr' Hu).
  - unfold gets, exists_at, remove_file. rewrite Ef. destruct (m !! (u, i)) as [f|] eqn:Em; cbn [is_ok].
    + rewrite Ef. split; [|done]. by apply represents_delete.
    + rewrite (delete_id m) by done. done.
Qed.
Lemma exec_refines now o fs m :
  represents base fs m → op_plain o → refines (exec now o fs) (spec now o m).
Proof.
  intros Hr Ho. destruct o as [hex6 [i|] u name content purpose| | | | |]; try by apply other_refines.
  - by apply save_refines; destruct Ho.
  - by apply save_refines; [|destruct Ho|apply generated_plain; destruct Ho].
Qed.

(** A sequence of calls, each with the time it happens at, and their answers. *)
Fixpoint exec_all (l : list (Z * op)) (fs : fsys) : fsys * list (res answer) :=
  match l with
  | [] => (fs, [])
  | (now, o) :: l =>
      let '(fs, r) := exec now o fs in
      let '(fs, rs) := exec_all l fs in (fs, r :: rs)
  end.
Fixpoint spec_all (l : list (Z * op)) (m : store) : store * list (res answer) :=
  match l with
  | [] => (m, [])
  | (now, o) :: l =>
      let '(m, r) := spec now o m in
      let '(m, rs) := spec_all l m in (m, r :: rs)
  end.

(** C23: the file storage refines a map from user and id to bytes and time: any sequence of
    saves (under a given or a generated id), patches, look-ups, reads, listings and
    deletions, on users and ids that are plain names (not empty, not [.] or [..], without
    a slash), answers what the map answers, call by call and with the files' whole
    descriptions, and ends in the directory tree of the resulting map; in particular what
    is saved is read back unchanged until it is overwritten, patched or deleted, no call
    touches another file, and a generated id that is taken overwrites its file. *)
Theorem storage_refines_a_map l fs m :
  represents base fs m → Forall (λ x, op_plain x.2) l →
  represents base (exec_all l fs).1 (spec_all l m).1 ∧ (exec_all l fs).2 = (spec_all l m).2.
Proof.
  intros Hr Hl. revert fs m Hr. induction Hl as [|[now o] l Ho Hl IH]; intros fs m Hr; [done|].
  cbn [exec_all spec_all]. destruct (exec_refines now o fs m Hr Ho) as [Hr1 Ha].
  destruct (exec now o fs) as [fs1 r1], (spec now o m) as [m1 r2]. simpl in *. subst r2.
  destruct (IH fs1 m1 Hr1) as [Hr2 Hrs].
  destruct (exec_all l fs1) as [fs2 rs], (spec_all l m1) as [m2 rs2]. simpl in *. by subst rs2.
Qed.

(** Uploading and downloading by the endpoints gives back the bytes; the file's name and
    purpose are not kept: asked again, the file is named by its id and has the default
    purpose. *)
Lemma default_user_plain : plain DEFAULT_USER_ID.
Proof. repeat split; try done. unfold has_char. set_solver. Qed.
Lemma upload_download hex6 now name content for_what fs m :
  represents base fs m → ¬ has_char "/" hex6 →
  let '(fs', r) := route_files hex6 now (Some (name, content)) for_what fs in
  let i := "file-" +:+ hex6 in
  (∃ f, r = Ok (plain_json 200 (metadata f)) ∧ f.(id) = i ∧ f.(bytes) = String.length content ∧
        f.(purpose) = default "unknown" for_what) ∧
  (route_get_file_content i fs').2 = Ok (FBytes content) ∧
  (route_get_file i fs').2 = Ok (plain_json 200 (metadata
     (mkOpenAIFile i (String.length content) now i DEFAULT_PURPOSE))).
Proof.
  intros Hr Hhex. pose proof (generated_plain hex6 Hhex) as Hi. pose proof default_user_plain as Hu.
  destruct (save_refines hex6 now None DEFAULT_USER_ID (Some name) (Some content) (default "unknown" for_what) fs m
    Hr Hu Hi) as [Hr1 Ha]. cbn [spec exec default fst snd] in Hr1, Ha.
  unfold route_files, try_except, bind in *. destruct (save_file _ _ _ _ _ _ _ fs) as [fs1 [f|e]]; [|done].
  cbn in Ha, Hr1 |- *. simplify_eq. split; [by eexists|].
  destruct (other_refines now (Content ("file-" +:+ hex6) DEFAULT_USER_ID) fs1 _ Hr1 ltac:(done) I) as [_ Hc].
  destruct (other_refines now (Get ("file-" +:+ hex6) DEFAULT_USER_ID) fs1 _ Hr1 ltac:(done) I) as [_ Hg].
  cbn [exec spec fst snd] in Hc, Hg. rewrite lookup_insert_eq in Hc, Hg. unfold bind in Hc, Hg.
  unfold route_get_file_content, route_get_file, not_found_as_404, try_except, bind.
  destruct (get_file_content _ _ fs1) as [fs2 [c|e]]; [|done]. destruct (get_file _ _ fs1) as [fs3 [f|e]]; [|done].
  cbn in Hc, Hg |- *. by simplify_eq.
Qed.
End refinement.
End storage.

(** An absolute id leaves the storage's directory. *)
Lemma absolute_ids_escape p i : startswith "/" i = true → path_join p i = i.
Proof. intros Hi. unfold path_join. by rewrite Hi. Qed.

(* ------------------------------------------------------------------ *)
(** ** Witnesses *)

Definition os_example : OS := mkOS ["srv"] (λ _ _, (4096, 0%Z)).
#[local] Existing Instance os_example.
Definition storage_example : fsys := (storage_init "/tmp/vllm_files" ∅).1.

(** Two users with a file of the same id, a patch beyond the end of one of them, a
    generated id, and a file that was deleted. *)
Definition calls_example : list (Z * op) :=
  [(1%Z, Save "" (Some "f1") "ann" None (Some "hello") "batch"); (2%Z, Save "" (Some "f1") "bob" None (Some "x") "batch");
   (3%Z, SaveChunk "f1" "bob" (Some "yz") 2); (4%Z, Content "f1" "bob"); (5%Z, Delete "f1" "bob");
   (6%Z, Get "f1" "bob"); (7%Z, Save "0a1b2c" None "ann" (Some "in.jsonl") (Some "{}") "batch"); (8%Z, List "ann");
   (9%Z, Get "file-0a1b2c" "ann")].

Definition plain_bool (s : string) : bool :=
  bool_decide (s ≠ "" ∧ s ≠ "." ∧ s ≠ ".." ∧ "/"%char ∉ list_ascii s).
Lemma plain_small s : plain_bool s = true → plain s.
Proof. unfold plain_bool. by intros H%bool_decide_eq_true. Qed.

Lemma represents_example : represents "/tmp/vllm_files" ["tmp"; "vllm_files"] storage_example ∅.
Proof.
  assert (Hf : storage_example.(fs_files) = ∅) by reflexivity.
  assert (Hd : storage_example.(fs_dirs) = {[["tmp"; "vllm_files"]]} ∪ ({[["tmp"]]} ∪ ∅)) by reflexivity.
  constructor; rewrite ?Hf; try done.
  - intros u i _. rewrite Hd. set_solver.
  - intros u i _ H. rewrite lookup_empty in H. by destruct H.
Qed.

Lemma storage_witness :
  (exec_all "/tmp/vllm_files" calls_example storage_example).2 = (spec_all calls_example ∅).2 ∧
  (spec_all calls_example ∅).2 =
    [Ok (AFile (mkOpenAIFile "f1" 5 1 "f1" "batch")); Ok (AFile (mkOpenAIFile "f1" 1 2 "f1" "batch")); Ok ADone;
     Ok (ABytes (String "x" (String "000" "yz"))); Ok ADone; Err FileNotFoundError;
     Ok (AFile (mkOpenAIFile "file-0a1b2c" 2 7 "in.jsonl" "batch")); Ok (ANames {["f1"; "file-0a1b2c"]});
     Ok (AFile (mkOpenAIFile "file-0a1b2c" 2 7 "file-0a1b2c" "batch"))].
Proof.
  split; [|vm_compute; reflexivity].
  apply (storage_refines_a_map "/tmp/vllm_files" ["tmp"; "vllm_files"] calls_example storage_example ∅).
  - exact represents_example.
  - assert (Hp : ∀ s, plain_bool s = true → plain s) by exact plain_small.
    repeat (apply Forall_cons; split); try apply Forall_nil; cbn;
      try (apply Hp; vm_compute; reflexivity); split; apply Hp; vm_compute; reflexivity.
Defined.

(** The ids [.] and [..] are directories: they are described as files, and reading or
    deleting them is an error the endpoints do not turn into an answer. *)
Example dots_are_directories :
  (get_file "/tmp/vllm_files" ".." "ann" storage_example).2 = Ok (mkOpenAIFile ".." 4096 0 ".." "batch") ∧
  (get_file_content "/tmp/vllm_files" "." "ann" storage_example).2 = Err IsADirectoryError ∧
  (delete_file "/tmp/vllm_files" "." "ann" storage_example).2 = Err IsADirectoryError ∧
  (route_get_file_content "/tmp/vllm_files" "." storage_example).2 = Err IsADirectoryError.
Proof. vm_compute. done. Qed.
