(* ===== verification/BatchService.v ===== *)
(** * Batch service (src/src/vllm_router/services/batch_service/ and
      src/src/vllm_router/routers/batches_router.py)

    Batches are rows of an SQLite table.  The HTTP handlers insert, read and cancel rows;
    one background task picks the oldest pending row, marks it running, writes a result
    file and marks it completed or failed.  Every statement commits on its own, so the
    handlers and the task interleave between statements: [step] is that interleaving, a
    restart of the process included.  SQLite's statements take effect, [ORDER BY] keeps
    the table's order between equal keys. *)

From S2P Require Import Prelude PyDict PyStr PyVal HttpBackend FileStorage.
From Stdlib Require Import Sorted.

Local Open Scope py_scope.

(* ------------------------------------------------------------------ *)
(** ** Batches (batch.py) *)

Inductive BatchStatus : Type := PENDING | RUNNING | COMPLETED | FAILED.

#[global] Instance BatchStatus_eq_dec : EqDecision BatchStatus.
Proof. solve_decision. Defined.

(** [status.value], the text of the table. *)
Definition value (s : BatchStatus) : string :=
  match s with
  | PENDING => "pending"
  | RUNNING => "running"
  | COMPLETED => "completed"
  | FAILED => "failed"
  end.
(** [BatchStatus(text)]. *)
Definition BatchStatus_of (text : string) : res BatchStatus :=
  if decide (text = "pending") then Ok PENDING
  else if decide (text = "running") then Ok RUNNING
  else if decide (text = "completed") then Ok COMPLETED
  else if decide (text = "failed") then Ok FAILED
  else Err (ValueError ("'" +:+ text +:+ "' is not a valid BatchStatus")).

(** The status of a [BatchInfo]: a member of the enumeration, or the text that
    [cancel_batch] stores over it. *)
Inductive status_field : Type := SEnum (s : BatchStatus) | SText (s : string).

Record BatchInfo : Type := mkBatchInfo {
  bi_id : string;
  bi_status : status_field;
  bi_input_file_id : string;
  bi_created_at : Z;
  bi_endpoint : pyval;
  bi_completion_window : pyval;
  bi_output_file_id : option string;
  bi_completed_at : option Z;
  bi_metadata : pyval
}.

Definition opt_str (o : option string) : pyval := match o with Some s => PStr s | None => PNone end.
Definition opt_int (o : option Z) : pyval := match o with Some z => PInt z | None => PNone end.

(** [BatchInfo.to_dict]; the fields the processor never sets have their defaults. *)
Definition to_dict (b : BatchInfo) : res pyval :=
  match b.(bi_status) with
  | SText _ => Err (AttributeError "value")
  | SEnum s => Ok (PDict
      [("id", PStr b.(bi_id)); ("status", PStr (value s)); ("input_file_id", PStr b.(bi_input_file_id));
       ("created_at", PInt b.(bi_created_at)); ("endpoint", b.(bi_endpoint));
       ("completion_window", b.(bi_completion_window)); ("output_file_id", opt_str b.(bi_output_file_id));
       ("error_file_id", PNone); ("in_progress_at", PNone); ("expires_at", PNone);
       ("finalizing_at", PNone); ("completed_at", opt_int b.(bi_completed_at)); ("failed_at", PNone);
       ("expired_at", PNone); ("cancelling_at", PNone); ("cancelled_at", PNone);
       ("total_requests", PNone); ("completed_requests", PInt 0); ("failed_requests", PInt 0);
       ("metadata", b.(bi_metadata))])
  end.

(* ------------------------------------------------------------------ *)
(** ** [ORDER BY]: a stable sort by a decidable preorder on rows *)

Section order_by.
Context {A : Type} (le : A → A → bool).

Fixpoint insert_row (x : A) (l : list A) : list A :=
  match l with
  | [] => [x]
  | y :: l' => if le x y then x :: y :: l' else y :: insert_row x l'
  end.
Definition order_by (l : list A) : list A := foldr insert_row [] l.

Context (le_total : ∀ x y, le x y = false → le y x = true)
        (le_trans : ∀ x y z, le x y = true → le y z = true → le x z = true).

Lemma insert_row_Permutation x l : insert_row x l ≡ₚ x :: l.
Proof.
  induction l as [|y l IH]; simpl; [done|]. destruct (le x y); [done|].
  rewrite IH. apply Permutation_swap.
Qed.
Lemma order_by_Permutation l : order_by l ≡ₚ l.
Proof. induction l as [|x l IH]; simpl; [done|]. by rewrite insert_row_Permutation, IH. Qed.

Lemma insert_row_sorted x l : StronglySorted le l → StronglySorted le (insert_row x l).
Proof.
  induction 1 as [|y l Hl IH Hy]; simpl; [repeat constructor|].
  destruct (le x y) eqn:E.
  - constructor; [by constructor|]. constructor; [by rewrite E|].
    eapply Forall_impl; [exact Hy|]. intros z Hz%Is_true_true. apply Is_true_true. by eapply le_trans.
  - constructor; [done|]. rewrite insert_row_Permutation. constructor; [|done].
    apply Is_true_true. by apply le_total.
Qed.
Lemma order_by_sorted l : StronglySorted le (order_by l).
Proof. induction l; simpl; [constructor|by apply insert_row_sorted]. Qed.

Lemma insert_row_front x l : Forall (λ y, le x y = true) l → insert_row x l = x :: l.
Proof. destruct 1 as [|y l Hy]; simpl; [done|]. by rewrite Hy. Qed.

(** Filtering and ordering commute. *)
Lemma filter_insert_row (P : A → Prop) `{∀ x, Decision (P x)} x l :
  StronglySorted le l →
  filter P (insert_row x l) = if decide (P x) then insert_row x (filter P l) else filter P l.
Proof.
  induction 1 as [|y l Hl IH Hy]; simpl.
  { rewrite filter_cons. by case_decide. }
  destruct (le x y) eqn:E.
  - rewrite (filter_cons _ x). case_decide; [|done]. symmetry. apply insert_row_front.
    rewrite Forall_forall in *. intros z [_ [->|Hz]%elem_of_cons]%list_elem_of_filter; [done|].
    apply Hy, Is_true_true in Hz. by eapply le_trans.
  - rewrite !filter_cons. rewrite IH. repeat case_decide; try done. simpl. by rewrite E.
Qed.
Lemma filter_order_by (P : A → Prop) `{∀ x, Decision (P x)} l :
  filter P (order_by l) = order_by (filter P l).
Proof.
  induction l as [|x l IH]; simpl; [done|].
  rewrite filter_insert_row by apply order_by_sorted. rewrite filter_cons, IH. by case_decide.
Qed.
End order_by.

(* ------------------------------------------------------------------ *)
(** ** The processor (local_processor.py) *)

Set Default Proof Using "Type".

Section processor.
Context {body : Type} {codec : JsonCodec body} {HOS : OS}.
(** SQLite's text of a float, its conversion of the [after] text before a comparison with
    an integer column, [str(e)], and the storage's directory. *)
Context (float_text : Q → string) (numeric_affinity : string → option Q) (exn_str : exn → string)
        (base_path : string).

Record row : Type := mkRow {
  batch_id : string;
  status : string;
  input_file_id : string;
  created_at : Z;
  endpoint : pyval;
  completion_window : pyval;
  output_file_id : option string;
  completed_at : option Z;
  metadata_text : body
}.
Abbreviation table := (list row).

(** A Python value bound to a parameter of a TEXT column. *)
Definition sql_text (v : pyval) : res pyval :=
  match v with
  | PNone => Ok PNone
  | PStr s => Ok (PStr s)
  | PBool b => Ok (PStr (if b then "1" else "0"))
  | PInt z => if ((- 2 ^ 63 <=? z) && (z <? 2 ^ 63))%Z then Ok (PStr (str_of_int z))
              else Err (OtherException "OverflowError")
  | PFloat q => Ok (PStr (float_text q))
  | PList _ | PDict _ => Err (OtherException "ProgrammingError")
  end.

Definition find_row (id : string) (t : table) : option row :=
  head (filter (λ r, r.(batch_id) = id) t).
(** [UPDATE batch_queue SET ... WHERE batch_id = ?]. *)
Definition update_row (id : string) (f : row → row) (t : table) : table :=
  (λ r, if decide (r.(batch_id) = id) then f r else r) <$> t.
Definition set_status (s : string) (r : row) : row :=
  mkRow r.(batch_id) s r.(input_file_id) r.(created_at) r.(endpoint) r.(completion_window)
    r.(output_file_id) r.(completed_at) r.(metadata_text).
Definition set_cancelled (now : Z) (r : row) : row :=
  mkRow r.(batch_id) "cancelled" r.(input_file_id) r.(created_at) r.(endpoint) r.(completion_window)
    r.(output_file_id) (Some now) r.(metadata_text).
Definition set_outcome (s : BatchStatus) (now : Z) (out : option string) (r : row) : row :=
  mkRow r.(batch_id) (value s) r.(input_file_id) r.(created_at) r.(endpoint) r.(completion_window)
    out (Some now) r.(metadata_text).

(** [hex6] is [uuid4().hex[:6]]. *)
Definition create_batch (hex6 : string) (now : Z) (file_id : string) (where_ window metadata : pyval) :
  M table BatchInfo :=
  let id := "batch_" +:+ hex6 in
  let metadata := if truthy metadata then metadata else PDict [] in
  endpoint <- lift (sql_text where_) ;;
  window' <- lift (sql_text window) ;;
  t <- gets (λ t, t) ;;
  if bool_decide (id ∈ batch_id <$> t) then raise (OtherException "IntegrityError")
  else
    modify (λ t, t ++ [mkRow id (value PENDING) file_id now endpoint window' None None (json_dumps metadata)]) ;;;
    ret (mkBatchInfo id (SEnum PENDING) file_id now where_ window None None metadata).

Definition info_of_row (r : row) : res BatchInfo :=
  rbind (BatchStatus_of r.(status)) (λ s,
  rbind (of_option JSONDecodeError (json_loads r.(metadata_text))) (λ metadata,
  Ok (mkBatchInfo r.(batch_id) (SEnum s) r.(input_file_id) r.(created_at) r.(endpoint)
        r.(completion_window) r.(output_file_id) r.(completed_at) metadata))).
Definition retrieve_batch (id : string) : M table BatchInfo := λ t,
  (t, match find_row id t with
      | None => Err (ValueError ("Batch " +:+ id +:+ " not found"))
      | Some r => info_of_row r
      end).

Definition later (x y : row) : bool := (y.(created_at) <=? x.(created_at))%Z.
Definition earlier (x y : row) : bool := (x.(created_at) <=? y.(created_at))%Z.

(** [created_at > ?]: a text that is no number is greater than every integer. *)
Definition created_after (after : string) (r : row) : bool :=
  match numeric_affinity after with
  | Some q => Qltb q (inject_Z r.(created_at))
  | None => false
  end.
(** The rows of the listing; a negative [LIMIT] is no limit. *)
Definition listed (limit : Z) (after : option string) (t : table) : table :=
  let rows := match after with
              | Some a => if decide (a = "") then t else filter (λ r, created_after a r = true) t
              | None => t
              end in
  let rows := order_by later rows in
  if (limit <? 0)%Z then rows else take (Z.to_nat limit) rows.
Definition list_batches (limit : Z) (after : option string) : M table (list BatchInfo) := λ t,
  (t, mapM_res (λ r, (retrieve_batch r.(batch_id) t).2) (listed limit after t)).

(** The two statements of [cancel_batch], between which the background task may run. *)
Definition may_cancel (b : BatchInfo) : bool :=
  match b.(bi_status) with SEnum COMPLETED | SEnum FAILED => false | _ => true end.
Definition cancel_write (now : Z) (id : string) : M table unit := modify (update_row id (set_cancelled now)).
Definition cancel_batch (now : Z) (id : string) : M table BatchInfo :=
  b <- retrieve_batch id ;;
  if may_cancel b
  then cancel_write now id ;;;
       ret (mkBatchInfo b.(bi_id) (SText "cancelled") b.(bi_input_file_id) b.(bi_created_at) b.(bi_endpoint)
              b.(bi_completion_window) b.(bi_output_file_id) (Some now) b.(bi_metadata))
  else ret b.

(** The statements of [process_batches]. *)
Definition select_next (t : table) : option string :=
  batch_id <$> head (order_by earlier (filter (λ r, r.(status) = "pending") t)).
Definition mark_running (id : string) (t : table) : table := update_row id (set_status "running") t.

(** What the outside contributes to a turn: the name of the result file, the time, its
    text, and an error of the file system, if there is one. *)
Record turn_env : Type := mkEnv { te_hex6 : string; te_now : Z; te_text : string; te_io : option exn }.

Definition process_one (e : turn_env) (id : string) : M fsys (BatchStatus * Z * option string) :=
  try_except
    (file_info <- match e.(te_io) with
                  | Some x => raise x
                  | None => save_file base_path e.(te_hex6) e.(te_now) None DEFAULT_USER_ID
                              (Some (id +:+ "_result.txt"))
                              (Some ("Processed batch " +:+ id +:+ " at " +:+ e.(te_text))) "batch_output"
                  end ;;
     ret (COMPLETED, e.(te_now), Some file_info.(FileStorage.id)))
    (λ x, if is_Exception x then ret (FAILED, e.(te_now), None) else raise x).
Definition finish (id : string) (outcome : BatchStatus * Z * option string) (t : table) : table :=
  let '(s, now, out) := outcome in update_row id (set_outcome s now out) t.

(** One turn of the task without interference: the batch it picked, if any. *)
Definition process_turn (e : turn_env) : M (table * fsys) (option string) := λ '(t, fs),
  match select_next t with
  | None => ((t, fs), Ok None)
  | Some id =>
      let t := mark_running id t in
      match process_one e id fs with
      | (fs, Ok outcome) => ((finish id outcome t, fs), Ok (Some id))
      | (fs, Err x) => ((t, fs), Err x)
      end
  end.

(* ------------------------------------------------------------------ *)
(** ** The endpoints (batches_router.py) *)

Abbreviation store := (table * fsys)%type.
Definition on_table {A} (m : M table A) : M store A := λ '(t, fs), let '(t, r) := m t in ((t, fs), r).
Definition on_files {A} (m : M fsys A) : M store A := λ '(t, fs), let '(fs, r) := m fs in ((t, fs), r).

Definition json (status : Z) (v : pyval) : JSONResponse := mkJSON status v [].
Definition error_answer (status : Z) (message : string) : JSONResponse :=
  json status (PDict [("error", PStr message)]).

(** [request_json[k]]. *)
Definition subscript (v : pyval) (k : string) : res pyval :=
  match v with PDict d => of_option (KeyError k) (dget k d) | _ => Err TypeError end.
Definition get_or (v : pyval) (k : string) (dflt : pyval) : res pyval :=
  match v with PDict d => Ok (dget_or k dflt d) | _ => Err (AttributeError "get") end.

(** [None] when the file exists, the 404 response when it does not. *)
Definition missing_file (file_id : string) : M store (option JSONResponse) :=
  try_except (on_files (get_file base_path file_id DEFAULT_USER_ID) ;;; ret None)
    (λ e, if bool_decide (e = FileNotFoundError)
          then ret (Some (error_answer 404 ("File " +:+ file_id +:+ " not found")))
          else raise e).

(** [request_json] is the parsed body, [None] when it does not parse. *)
Definition route_batches (hex6 : string) (now : Z) (request_json : option pyval) : M store JSONResponse :=
  try_except
    (req <- lift (of_option JSONDecodeError request_json) ;;
     has_file <- lift (py_in "input_file_id" req) ;;
     if negb has_file then ret (error_answer 400 "Missing required parameter 'input_file_id'") else
     has_endpoint <- lift (py_in "endpoint" req) ;;
     if negb has_endpoint then ret (error_answer 400 "Missing required parameter 'endpoint'") else
     v <- lift (subscript req "input_file_id") ;;
     file_id <- lift (as_str v) ;;
     missing <- missing_file file_id ;;
     match missing with
     | Some r => ret r
     | None =>
         where_ <- lift (subscript req "endpoint") ;;
         window <- lift (get_or req "completion_window" (PStr "5s")) ;;
         metadata <- lift (get_or req "metadata" PNone) ;;
         batch <- on_table (create_batch hex6 now file_id where_ window metadata) ;;
         d <- lift (to_dict batch) ;;
         ret (json 200 d)
     end)
    (λ e, if is_Exception e
          then ret (error_answer 500 ("Failed to process batch request: " +:+ exn_str e))
          else raise e).

(** [except FileNotFoundError], the only exception the other handlers expect. *)
Definition or_404 (message : string) (m : M store JSONResponse) : M store JSONResponse :=
  try_except m (λ e, if bool_decide (e = FileNotFoundError) then ret (error_answer 404 message) else raise e).

Definition route_get_batch (id : string) : M store JSONResponse :=
  or_404 ("Batch " +:+ id +:+ " not found")
    (batch <- on_table (retrieve_batch id) ;; d <- lift (to_dict batch) ;; ret (json 200 d)).

Definition id_of (d : pyval) : pyval := match d with PDict kv => dget_or "id" PNone kv | _ => PNone end.
Definition route_list_batches (limit : Z) (after : option string) : M store JSONResponse :=
  or_404 "No batches found"
    (batches <- on_table (list_batches limit after) ;;
     batch_data <- lift (mapM_res to_dict batches) ;;
     ret (json 200 (PDict
       [("object", PStr "list"); ("data", PList batch_data);
        ("first_id", default PNone (id_of <$> head batch_data));
        ("last_id", default PNone (id_of <$> last batch_data));
        ("has_more", PBool (Z.of_nat (length batch_data) =? limit)%Z)]))).

Definition route_cancel_batch (now : Z) (id : string) : M store JSONResponse :=
  or_404 ("Batch " +:+ id +:+ " not found")
    (batch <- on_table (cancel_batch now id) ;; d <- lift (to_dict batch) ;; ret (json 200 d)).

(* ------------------------------------------------------------------ *)
(** ** Interleavings *)

(** Where the background task is. *)
Inductive task : Type :=
| Polling
| Picked (id : string)
| Working (id : string)
| Saved (id : string) (outcome : BatchStatus * Z * option string).

(** [cancelling]: the batches whose [cancel_batch] has read but not yet written. *)
Record bstate : Type := mkB {
  rows : table;
  files : fsys;
  worker : task;
  cancelling : list string
}.
Definition binit : bstate := mkB [] ∅ Polling [].

(** [step s marks s']: one statement, or a restart; [marks] is the batch that it marks
    running, if any. *)
Inductive step : bstate → list string → bstate → Prop :=
| step_create s hex6 now file_id where_ window metadata t b :
    create_batch hex6 now file_id where_ window metadata s.(rows) = (t, Ok b) →
    step s [] (mkB t s.(files) s.(worker) s.(cancelling))
| step_cancel_read s id b :
    (retrieve_batch id s.(rows)).2 = Ok b → may_cancel b = true →
    step s [] (mkB s.(rows) s.(files) s.(worker) (id :: s.(cancelling)))
| step_cancel_write s now id before after :
    s.(cancelling) = before ++ id :: after →
    step s [] (mkB (cancel_write now id s.(rows)).1 s.(files) s.(worker) (before ++ after))
| step_select s id :
    s.(worker) = Polling → select_next s.(rows) = Some id →
    step s [] (mkB s.(rows) s.(files) (Picked id) s.(cancelling))
| step_mark s id :
    s.(worker) = Picked id →
    step s [id] (mkB (mark_running id s.(rows)) s.(files) (Working id) s.(cancelling))
| step_work s e id fs outcome :
    s.(worker) = Working id → process_one e id s.(files) = (fs, Ok outcome) →
    step s [] (mkB s.(rows) fs (Saved id outcome) s.(cancelling))
| step_finish s id outcome :
    s.(worker) = Saved id outcome →
    step s [] (mkB (finish id outcome s.(rows)) s.(files) Polling s.(cancelling))
| step_restart s : step s [] (mkB s.(rows) s.(files) Polling []).

Inductive run : bstate → list string → bstate → Prop :=
| run_nil s : run s [] s
| run_step s1 h s2 marks s3 : run s1 h s2 → step s2 marks s3 → run s1 (h ++ marks) s3.

(* ------------------------------------------------------------------ *)
(** ** The status machine *)

(** What a row says of the batch's order; no statement changes it. *)
Definition description (r : row) : string * string * Z * pyval * pyval * body :=
  (r.(batch_id), r.(input_file_id), r.(created_at), r.(endpoint), r.(completion_window), r.(metadata_text)).
Definition keeps_description (f : row → row) : Prop := ∀ r, description (f r) = description r.

Lemma description_id r r' : description r = description r' → batch_id r = batch_id r'.
Proof. unfold description. by intros [=]. Qed.
Lemma set_status_keeps s : keeps_description (set_status s).
Proof. done. Qed.
Lemma set_cancelled_keeps now : keeps_description (set_cancelled now).
Proof. done. Qed.
Lemma set_outcome_keeps s now out : keeps_description (set_outcome s now out).
Proof. done. Qed.
#[local] Hint Resolve set_status_keeps set_cancelled_keeps set_outcome_keeps : py.

Lemma elem_of_update_row id f t r :
  r ∈ update_row id f t ↔ ∃ r0, r0 ∈ t ∧ r = if decide (r0.(batch_id) = id) then f r0 else r0.
Proof.
  unfold update_row. rewrite list_elem_of_fmap. split; intros (r0 & H1 & H2); by exists r0.
Qed.
Lemma update_row_ids id f t : keeps_description f → batch_id <$> update_row id f t = batch_id <$> t.
Proof.
  intros Hf. unfold update_row. rewrite <-list_fmap_compose. apply list_fmap_ext. intros _ r _. simpl.
  case_decide; [|done]. by apply description_id.
Qed.

Lemma finish_update id s now out t : finish id (s, now, out) t = update_row id (set_outcome s now out) t.
Proof. done. Qed.
Lemma process_one_outcome e id fs fs' s now out :
  process_one e id fs = (fs', Ok (s, now, out)) → s = COMPLETED ∨ s = FAILED.
Proof.
  unfold process_one, try_except, bind. destruct (te_io e) as [x|].
  - unfold raise. destruct (is_Exception x); intros [=]; subst; auto.
  - destruct (save_file _ _ _ _ _ _ _ _ fs) as [fs1 [f|x]]; [intros [=]; subst; auto|].
    unfold raise. destruct (is_Exception x); intros [=]; subst; auto.
Qed.
Lemma create_batch_spec hex6 now file_id where_ window metadata t t' b :
  create_batch hex6 now file_id where_ window metadata t = (t', Ok b) →
  ∃ r, t' = t ++ [r] ∧ r.(batch_id) = b.(bi_id) ∧ r.(batch_id) = ("batch_" +:+ hex6) ∧ r.(status) = "pending" ∧
       r.(batch_id) ∉ batch_id <$> t.
Proof.
  unfold create_batch, bind, lift, gets, modify, ret, raise. cbv beta iota zeta.
  destruct (sql_text where_); [|done]. destruct (sql_text window); [|done].
  case_bool_decide as Hid; [done|]. intros [= <- <-]. by eexists.
Qed.
Lemma select_next_elem t id :
  select_next t = Some id → ∃ r, r ∈ t ∧ r.(batch_id) = id ∧ r.(status) = "pending".
Proof.
  unfold select_next. intros (r & Hr & ->)%fmap_Some. exists r.
  apply head_Some_elem_of in Hr. rewrite order_by_Permutation in Hr.
  by apply list_elem_of_filter in Hr as [Hs Hr].
Qed.

(** The texts a row's status can have. *)
Definition started (s : string) : Prop := s = "running" ∨ s = "completed" ∨ s = "failed".
Definition known (s : string) : Prop := s = "pending" ∨ s = "cancelled" ∨ started s.

Definition row_ok (h : list string) (r : row) : Prop :=
  known r.(status) ∧ (r.(status) = "pending" → r.(batch_id) ∉ h) ∧ (started r.(status) → r.(batch_id) ∈ h).

(** [h] is the batches marked so far. *)
Definition task_ok (h : list string) (w : task) : Prop :=
  match w with
  | Polling => True
  | Picked id => id ∉ h
  | Working id => id ∈ h
  | Saved id (s, _, _) => id ∈ h ∧ (s = COMPLETED ∨ s = FAILED)
  end.
Definition batches_ok (h : list string) (s : bstate) : Prop :=
  NoDup h ∧ NoDup (batch_id <$> s.(rows)) ∧ (∀ id, id ∈ h → id ∈ batch_id <$> s.(rows)) ∧
  (∀ id, s.(worker) = Picked id → id ∈ batch_id <$> s.(rows)) ∧
  Forall (row_ok h) s.(rows) ∧ task_ok h s.(worker).

Lemma row_ok_pending h r : r.(status) = "pending" → r.(batch_id) ∉ h → row_ok h r.
Proof.
  intros Hs Hr. split; [by left|]. rewrite Hs. split; [done|]. by intros [[=]|[[=]|[=]]].
Qed.
Lemma row_ok_cancelled h r : r.(status) = "cancelled" → row_ok h r.
Proof.
  intros Hs. split; [by right; left|]. rewrite Hs. split; [done|]. by intros [[=]|[[=]|[=]]].
Qed.
Lemma row_ok_started h r : started r.(status) → r.(batch_id) ∈ h → row_ok h r.
Proof.
  intros Hs Hr. split; [by right; right|]. split; [|done]. intros E. rewrite E in Hs.
  by destruct Hs as [[=]|[[=]|[=]]].
Qed.

Lemma update_row_ok h h' id f t :
  (∀ r, r.(batch_id) = id → row_ok h r → row_ok h' (f r)) →
  (∀ r, r.(batch_id) ≠ id → row_ok h r → row_ok h' r) →
  Forall (row_ok h) t → Forall (row_ok h') (update_row id f t).
Proof.
  intros Hf Hk. rewrite !Forall_forall. intros Ht r (r0 & Hr0 & ->)%elem_of_update_row.
  specialize (Ht r0 Hr0). case_decide; auto.
Qed.

Lemma step_batches_ok s marks s' h : batches_ok h s → step s marks s' → batches_ok (h ++ marks) s'.
Proof.
  clear numeric_affinity exn_str. intros (Hh & Hid & Hin & Hp & Hrows & Hw) Hstep. unfold batches_ok.
  destruct Hstep as [s hex6 now file_id where_ window metadata t b Hc|s id b Hr Hm|s now id l k Hl|s id Hs Hn
    |s id Hs|s e id fs [[o now] out] Hs Ho|s id [[o now] out] Hs|s]; rewrite ?app_nil_r; simpl.
  - apply create_batch_spec in Hc as (r & -> & _ & _ & Hpend & Hfresh). rewrite fmap_app. simpl.
    repeat split; try done.
    + apply NoDup_app. split_and!; [done| |apply NoDup_singleton]. intros x Hx ->%list_elem_of_singleton. done.
    + set_solver.
    + set_solver.
    + apply Forall_app. split; [done|]. apply Forall_singleton, row_ok_pending; [done|].
      intros Hr%Hin. done.
  - done.
  - repeat split; rewrite ?update_row_ids by auto with py; try done.
    eapply update_row_ok; [| |exact Hrows]; [|done]. intros r _ _. by apply row_ok_cancelled.
  - apply select_next_elem in Hn as (r & Hr & <- & Hpend).
    repeat split; try done.
    + intros id [= <-]. by apply list_elem_of_fmap_2.
    + rewrite Forall_forall in Hrows. by apply (Hrows r Hr).
  - rewrite Hs in Hw. simpl in Hw. unfold mark_running. rewrite update_row_ids by auto with py.
    repeat split; try done.
    + apply NoDup_app. split_and!; [done| |apply NoDup_singleton]. intros x Hx ->%list_elem_of_singleton. done.
    + intros x [Hx| ->%list_elem_of_singleton]%elem_of_app; auto.
    + eapply update_row_ok; [| |exact Hrows].
      * intros r <- _. apply row_ok_started; [by left|]. apply elem_of_app. right. by apply list_elem_of_singleton.
      * unfold row_ok. intros r Hne (H1 & H2 & H3). split_and!; [done| |set_solver].
        intros Hs2 [Hx|Hx%list_elem_of_singleton]%elem_of_app; [by apply H2|done].
    + set_solver.
  - rewrite Hs in Hw. simpl in Hw. apply process_one_outcome in Ho. repeat split; done.
  - rewrite Hs in Hw. simpl in Hw. destruct Hw as [Hw Ho]. rewrite update_row_ids by auto with py.
    repeat split; try done.
    eapply update_row_ok; [| |exact Hrows]; [|done].
    intros r <- _. apply row_ok_started; [|done]. right. destruct Ho as [-> | ->]; [by left|by right].
  - repeat split; done.
Qed.

Lemma run_batches_ok s h h' s' : batches_ok h s → run s h' s' → batches_ok (h ++ h') s'.
Proof.
  intros Hs Hr. revert h Hs. induction Hr as [s|s1 h1 s2 marks s3 _ IH Hstep]; intros h Hs.
  - by rewrite app_nil_r.
  - rewrite app_assoc. eapply step_batches_ok; [|done]. by apply IH.
Qed.
Lemma batches_ok_init : batches_ok [] binit.
Proof. unfold batches_ok. simpl. repeat split; try constructor; set_solver. Qed.

(** No row disappears, changes its description or becomes pending again. *)
Definition continues (r r' : row) : Prop :=
  description r' = description r ∧ (r.(status) ≠ "pending" → r'.(status) ≠ "pending").
Lemma update_row_continues id f t r :
  keeps_description f → (∀ r, (f r).(status) ≠ "pending") → r ∈ t →
  ∃ r', r' ∈ update_row id f t ∧ continues r r'.
Proof.
  intros Hf Hp Hr. exists (if decide (r.(batch_id) = id) then f r else r). split.
  { rewrite elem_of_update_row. by exists r. }
  case_decide; split; try done; intros _; apply Hp.
Qed.
Lemma continues_refl r : continues r r.
Proof. done. Qed.
Lemma step_continues s marks s' h r :
  batches_ok h s → step s marks s' → r ∈ s.(rows) → ∃ r', r' ∈ s'.(rows) ∧ continues r r'.
Proof.
  intros Hok Hstep Hr.
  destruct Hstep as [s hex6 now file_id where_ window metadata t b Hc|s id b _ Hm|s now id l k Hl|s id Hs Hn
    |s id Hs|s e id fs o Hs Ho|s id [[o now] out] Hs|s]; simpl; try (exists r; by split).
  - apply create_batch_spec in Hc as (r' & -> & _). exists r. split; [|done]. apply elem_of_app. by left.
  - by apply update_row_continues.
  - by apply update_row_continues.
  - apply update_row_continues; [done| |done]. destruct Hok as (_ & _ & _ & _ & _ & Hw). rewrite Hs in Hw.
    simpl in Hw. destruct Hw as [_ [-> | ->]]; done.
Qed.

(** C31: whatever the interleaving of the handlers, the background task and restarts, a batch
    is marked running at most once: pending rows have not been, rows that are running,
    completed or failed have been, no other status exists beside cancelled, and no row
    ever disappears, changes what the client ordered, or becomes pending again. *)
Theorem batches_run_at_most_once h1 s1 h2 s2 :
  run binit h1 s1 → run s1 h2 s2 →
  NoDup (h1 ++ h2) ∧ NoDup (batch_id <$> s2.(rows)) ∧ Forall (row_ok (h1 ++ h2)) s2.(rows) ∧
  ∀ r, r ∈ s1.(rows) → ∃ r', r' ∈ s2.(rows) ∧ continues r r'.
Proof.
  intros Hr1 Hr2. pose proof (run_batches_ok binit [] h1 s1 batches_ok_init Hr1) as Hok1. simpl in Hok1.
  pose proof (run_batches_ok s1 h1 h2 s2 Hok1 Hr2) as (H1 & H2 & _ & _ & H3 & _).
  split_and!; [done..|]. clear H1 H2 H3 Hr1.
  induction Hr2 as [s|s h s' marks s'' Hr IH Hstep]; intros r Hr0; [by exists r|].
  destruct (IH Hok1 r Hr0) as (r' & Hr' & Hd & Hp).
  edestruct step_continues as (r'' & Hr'' & Hd' & Hp'); [by eapply run_batches_ok|done|exact Hr'|].
  exists r''. split; [done|]. split; [congruence|auto].
Qed.

(* ------------------------------------------------------------------ *)
(** ** The background task drains the queue *)

(** The pending batches, oldest first. *)
Definition queue (t : table) : list string :=
  batch_id <$> order_by earlier (filter (λ r, r.(status) = "pending") t).

(** Consecutive turns, and the batches they processed. *)
Fixpoint process_turns (es : list turn_env) : M store (list string) :=
  match es with
  | [] => ret []
  | e :: es => o <- process_turn e ;; l <- process_turns es ;; ret (option_list o ++ l)
  end.

Lemma earlier_total x y : earlier x y = false → earlier y x = true.
Proof. unfold earlier. rewrite Z.leb_gt, Z.leb_le. lia. Qed.
Lemma earlier_trans x y z : earlier x y = true → earlier y z = true → earlier x z = true.
Proof. unfold earlier. rewrite !Z.leb_le. lia. Qed.


Lemma select_next_queue t : select_next t = head (queue t).
Proof. unfold select_next, queue. by destruct (order_by _ _). Qed.
Lemma queue_ids t id : id ∈ queue t → id ∈ batch_id <$> t.
Proof.
  unfold queue. rewrite order_by_Permutation. intros (r & -> & Hr)%list_elem_of_fmap.
  apply list_elem_of_filter in Hr as [_ Hr]. by apply list_elem_of_fmap_2.
Qed.
Lemma queue_NoDup t : NoDup (batch_id <$> t) → NoDup (queue t).
Proof.
  intros H. unfold queue. rewrite order_by_Permutation.
  eapply sublist_NoDup; [exact H|]. apply fmap_sublist, sublist_filter.
Qed.

Lemma update_row_twice id f g t :
  keeps_description g → update_row id f (update_row id g t) = update_row id (λ r, f (g r)) t.
Proof.
  intros Hg. unfold update_row. rewrite <-list_fmap_compose. apply list_fmap_ext. intros _ r _. simpl.
  destruct (decide (batch_id r = id)) as [E|E].
  - rewrite decide_True; [done|]. by rewrite (description_id _ _ (Hg r)).
  - by rewrite decide_False.
Qed.

Lemma filter_update_row (P : row → Prop) `{∀ r, Decision (P r)} id f t :
  (∀ r, ¬ P (f r)) → filter P (update_row id f t) = filter (λ r, r.(batch_id) ≠ id) (filter P t).
Proof.
  intros Hf. induction t as [|r t IH]; [done|]. unfold update_row in *. rewrite fmap_cons, filter_cons, IH. clear IH.
  destruct (decide (batch_id r = id)) as [E|E].
  - rewrite decide_False by apply Hf. rewrite (filter_cons _ r). destruct (decide (P r)); [|done].
    rewrite filter_cons_False; [done|]. by intros Hn.
  - rewrite (filter_cons _ r). destruct (decide (P r)); [|done]. by rewrite filter_cons_True.
Qed.
Lemma filter_ids_ne id (l : list row) :
  id ∉ batch_id <$> l → filter (λ r, r.(batch_id) ≠ id) l = l.
Proof.
  induction l as [|r l IH]; [done|]. rewrite fmap_cons, not_elem_of_cons. intros [H1 H2].
  rewrite filter_cons_True by congruence. by rewrite IH.
Qed.

(** Finishing the oldest batch leaves the rest of the queue. *)
Lemma queue_update id rest f t :
  NoDup (batch_id <$> t) → (∀ r, (f r).(status) ≠ "pending") → queue t = id :: rest →
  queue (update_row id f t) = rest.
Proof.
  intros Hnd Hf Hq. pose proof (queue_NoDup t Hnd) as Hqn. unfold queue in *.
  rewrite filter_update_row by done. rewrite <-(filter_order_by earlier earlier_total earlier_trans).
  destruct (order_by _ _) as [|r l]; [done|]. rewrite fmap_cons in *. injection Hq as Hid Hl.
  rewrite filter_cons_False by (by intros Hn; apply Hn). rewrite filter_ids_ne; [done|].
  rewrite <-Hid. by apply NoDup_cons in Hqn as [? _].
Qed.

Lemma process_turn_spec e t fs id :
  from_option is_Exception true e.(te_io) = true → select_next t = Some id →
  ∃ s now out fs', process_turn e (t, fs) = ((update_row id (set_outcome s now out) t, fs'), Ok (Some id)) ∧
                   (s = COMPLETED ∨ s = FAILED).
Proof.
  intros He Hs. unfold process_turn. rewrite Hs. unfold mark_running.
  assert (∃ s now out fs', process_one e id fs = (fs', Ok (s, now, out))) as (s & now & out & fs' & E).
  { unfold process_one, try_except, bind. destruct (te_io e) as [x|]; cbn [from_option] in He.
    { cbn. rewrite He. by repeat eexists. }
    destruct (save_file _ _ _ _ _ _ _ _ fs) as [fs1 [f|x]] eqn:Es; [by repeat eexists|].
    rewrite (save_file_raises _ _ _ _ _ _ _ _ _ _ _ Es). by repeat eexists. }
  rewrite E. exists s, now, out, fs'. split; [|by eapply process_one_outcome].
  rewrite finish_update, update_row_twice by auto with py. done.
Qed.

Definition done_status (s : string) : Prop := s = "completed" ∨ s = "failed".

Lemma process_turns_spec es t fs :
  NoDup (batch_id <$> t) → Forall (λ e, from_option is_Exception true e.(te_io) = true) es →
  ∃ t' fs', process_turns es (t, fs) = ((t', fs'), Ok (take (length es) (queue t))) ∧
    batch_id <$> t' = batch_id <$> t ∧
    (∀ r, r.(batch_id) ∈ take (length es) (queue t) → r ∈ t' → done_status r.(status)) ∧
    (∀ r, r.(batch_id) ∉ take (length es) (queue t) → r ∈ t' ↔ r ∈ t).
Proof.
  intros Hnd Hes. revert t fs Hnd. induction Hes as [|e es He Hes IH]; intros t fs Hnd.
  { exists t, fs. rewrite take_0. split_and!; [done..|set_solver|done]. }
  destruct (queue t) as [|id rest] eqn:Eq.
  - destruct (IH t fs Hnd) as (t' & fs' & Hrun & H1 & H2 & H3). exists t', fs'.
    cbn [process_turns]. unfold bind, process_turn. rewrite select_next_queue, Eq. cbn [head hd_error].
    rewrite Hrun. rewrite Eq, !take_nil in *. done.
  - edestruct (process_turn_spec e t fs id He) as (s & now & out & fs1 & Hturn & Ho).
    { by rewrite select_next_queue, Eq. }
    assert (Hf : ∀ r, status (set_outcome s now out r) ≠ "pending") by (intros r; by destruct Ho as [-> | ->]).
    pose proof (queue_update id rest _ t Hnd Hf Eq) as Eq1.
    destruct (IH (update_row id (set_outcome s now out) t) fs1) as (t' & fs' & Hrun & H1 & H2 & H3).
    { by rewrite update_row_ids by auto with py. }
    rewrite Eq1 in *. exists t', fs'. cbn [process_turns length take]. unfold bind at 1. rewrite Hturn.
    unfold bind. rewrite Hrun. split_and!; [done|by rewrite H1, update_row_ids by auto with py| |].
    + assert (Hid : id ∉ take (length es) rest).
      { pose proof (queue_NoDup t Hnd) as Hq. rewrite Eq in Hq. apply NoDup_cons in Hq as [Hq _].
        intros Hi. apply Hq. by eapply subseteq_take. }
      intros r [Hr|Hr]%elem_of_cons Hr'; [|by apply H2]. rewrite <-Hr in Hid.
      apply (H3 r) in Hr'; [|done]. apply elem_of_update_row in Hr' as (r0 & _ & ->).
      destruct (decide (batch_id r0 = id)); [|congruence]. unfold done_status. destruct Ho as [-> | ->]; simpl; auto.
    + intros r [Hr Hr2]%not_elem_of_cons. rewrite (H3 r Hr2), elem_of_update_row. split.
      * intros (r0 & Hr0 & ->). by case_decide.
      * intros Hr0. exists r. by rewrite decide_False.
Qed.

(** C33: the background task drains the queue in order: over any number of undisturbed turns
    it processes the oldest pending batches, one a turn, whether writing their results
    succeeds or not; each becomes completed or failed, every other row is untouched, and
    once there are as many turns as pending batches none is pending. *)
Theorem background_task_drains_the_queue es t fs :
  NoDup (batch_id <$> t) → Forall (λ e, from_option is_Exception true e.(te_io) = true) es →
  ∃ t' fs', process_turns es (t, fs) = ((t', fs'), Ok (take (length es) (queue t))) ∧
    (∀ r, r.(batch_id) ∈ take (length es) (queue t) → r ∈ t' → done_status r.(status)) ∧
    (∀ r, r.(batch_id) ∉ take (length es) (queue t) → r ∈ t' ↔ r ∈ t) ∧
    (length (queue t) ≤ length es → queue t' = []).
Proof.
  intros Hnd Hes. destruct (process_turns_spec es t fs Hnd Hes) as (t' & fs' & Hrun & H1 & H2 & H3).
  exists t', fs'. split_and!; [done..|]. intros Hlen. rewrite take_ge in * by done.
  destruct (queue t') as [|id l] eqn:Eq; [done|]. exfalso.
  assert (Hs : select_next t' = Some id) by (by rewrite select_next_queue, Eq).
  apply select_next_elem in Hs as (r & Hr & <- & Hp).
  destruct (decide (batch_id r ∈ queue t)) as [Hin|Hin].
  - destruct (H2 r Hin Hr); congruence.
  - apply Hin. apply (H3 r Hin) in Hr. unfold queue. apply list_elem_of_fmap_2.
    rewrite order_by_Permutation. by apply list_elem_of_filter.
Qed.

(* ------------------------------------------------------------------ *)
(** ** The endpoints *)

Lemma find_row_elem id t r :
  NoDup (batch_id <$> t) → r ∈ t → r.(batch_id) = id → find_row id t = Some r.
Proof.
  unfold find_row. intros Hnd Hr <-. induction t as [|r' t IH]; [by apply not_elem_of_nil in Hr|].
  rewrite fmap_cons in Hnd. apply NoDup_cons in Hnd as [Hn Hnd].
  apply elem_of_cons in Hr as [<-|Hr]; [by rewrite filter_cons_True|].
  rewrite filter_cons_False; [by apply IH|]. intros E. apply Hn. rewrite E. by apply list_elem_of_fmap_2.
Qed.
Lemma find_row_None id t : find_row id t = None ↔ id ∉ batch_id <$> t.
Proof.
  unfold find_row. induction t as [|r t IH]; [split; [intros _; apply not_elem_of_nil|done]|].
  rewrite fmap_cons, not_elem_of_cons, filter_cons. case_decide; simpl.
  - split; [done|]. intros [H1 _]. congruence.
  - rewrite IH. split; [intros H1; split; congruence|by intros [_ H1]].
Qed.

Lemma find_row_fresh t r : r.(batch_id) ∉ batch_id <$> t → find_row r.(batch_id) (t ++ [r]) = Some r.
Proof.
  intros H%find_row_None. unfold find_row in *. rewrite filter_app.
  destruct (filter _ t) as [|r' l]; [|done]. simpl. by rewrite filter_cons_True.
Qed.

Definition metadata_ok (v : pyval) : Prop := truthy v = true → ∃ d, v = PDict d.
Definition text_ok (v : pyval) : Prop := v = PNone ∨ ∃ s, v = PStr s.
Definition dict_or_empty (v : pyval) : pyval := if truthy v then v else PDict [].

Lemma metadata_dict v : metadata_ok v → ∃ d, dict_or_empty v = PDict d.
Proof. unfold dict_or_empty, metadata_ok. destruct (truthy v); [auto|by eexists]. Qed.

Lemma sql_text_ok v : text_ok v → sql_text v = Ok v.
Proof. by intros [->|[s ->]]. Qed.
Lemma create_batch_ok hex6 now file_id where_ window metadata t :
  text_ok where_ → text_ok window → "batch_" +:+ hex6 ∉ batch_id <$> t →
  create_batch hex6 now file_id where_ window metadata t =
    (t ++ [mkRow ("batch_" +:+ hex6) "pending" file_id now where_ window None None (json_dumps (dict_or_empty metadata))],
     Ok (mkBatchInfo ("batch_" +:+ hex6) (SEnum PENDING) file_id now where_ window None None (dict_or_empty metadata))).
Proof.
  intros Hw Hwin Hid. unfold create_batch. rewrite (sql_text_ok where_ Hw), (sql_text_ok window Hwin).
  unfold bind, lift, gets. cbv beta iota zeta. by rewrite bool_decide_false.
Qed.
Lemma missing_file_present file_id f st :
  get_file base_path file_id DEFAULT_USER_ID st.2 = (st.2, Ok f) → missing_file file_id st = (st, Ok None).
Proof.
  destruct st as [t fs]. simpl. intros Hf. unfold missing_file, try_except, bind, on_files. by rewrite Hf.
Qed.
Lemma retrieve_batch_spec id t r :
  find_row id t = Some r → retrieve_batch id t = (t, info_of_row r).
Proof. intros H. unfold retrieve_batch. by rewrite H. Qed.
Lemma on_table_eq {A} (m : M table A) t fs t' r : m t = (t', r) → on_table m (t, fs) = ((t', fs), r).
Proof. intros H. unfold on_table. by rewrite H. Qed.

(** A batch that is accepted is there: when the file exists and the id is new, creating a
    batch answers 200 with a pending batch for that file and adds one row; asking for the
    batch gives the very same description back. *)
Theorem created_batches_are_served hex6 now d file_id where_ f t fs :
  dget "input_file_id" d = Some (PStr file_id) → dget "endpoint" d = Some where_ → text_ok where_ →
  text_ok (dget_or "completion_window" (PStr "5s") d) → metadata_ok (dget_or "metadata" PNone d) →
  get_file base_path file_id DEFAULT_USER_ID fs = (fs, Ok f) → "batch_" +:+ hex6 ∉ batch_id <$> t →
  ∃ r v, route_batches hex6 now (Some (PDict d)) (t, fs) = ((t ++ [r], fs), Ok (json 200 (PDict v))) ∧
    route_get_batch ("batch_" +:+ hex6) (t ++ [r], fs) = ((t ++ [r], fs), Ok (json 200 (PDict v))) ∧
    dget "id" v = Some (PStr ("batch_" +:+ hex6)) ∧ dget "status" v = Some (PStr "pending") ∧
    dget "input_file_id" v = Some (PStr file_id) ∧ dget "endpoint" v = Some where_.
Proof.
  intros Hfile Hep Hw Hwin Hmeta Hf Hfresh. destruct (metadata_dict _ Hmeta) as [m Hm].
  assert (Hin : ∀ k v, dget k d = Some v → din k d = true) by (intros k v Hv; unfold din; by rewrite Hv).
  eexists _, _. split_and!.
  - unfold route_batches, try_except, bind, lift, ret. cbn [of_option py_in subscript get_or].
    rewrite (Hin _ _ Hfile), (Hin _ _ Hep), Hfile, Hep. cbn [negb of_option as_str].
    rewrite (missing_file_present _ f) by done. cbv beta iota.
    erewrite on_table_eq by (by apply create_batch_ok). rewrite Hm. reflexivity.
  - unfold route_get_batch, or_404, try_except, bind, lift, ret.
    erewrite on_table_eq by (apply retrieve_batch_spec; exact (find_row_fresh t (mkRow _ _ _ _ _ _ _ _ _) Hfresh)).
    unfold info_of_row. simpl. rewrite json_roundtrip. reflexivity.
  - done.
  - done.
  - done.
  - done.
Qed.

(** An unknown batch is an exception of the handler, not the 404 it means to give. *)
Lemma unknown_batch_is_no_404 id t fs now :
  id ∉ batch_id <$> t →
  (route_get_batch id (t, fs)).2 = Err (ValueError ("Batch " +:+ id +:+ " not found")) ∧
  (route_cancel_batch now id (t, fs)).2 = Err (ValueError ("Batch " +:+ id +:+ " not found")).
Proof.
  intros H%find_row_None. unfold route_get_batch, route_cancel_batch, or_404, try_except, bind, on_table, cancel_batch, retrieve_batch, bind.
  by rewrite H.
Qed.

Lemma find_row_update id f t :
  keeps_description f → find_row id (update_row id f t) = f <$> find_row id t.
Proof.
  intros Hf. unfold find_row, update_row. induction t as [|r t IH]; [done|]. rewrite fmap_cons, !filter_cons.
  destruct (decide (batch_id r = id)) as [E|E].
  - rewrite decide_True; [done|]. by rewrite (description_id _ _ (Hf r)).
  - by rewrite decide_False.
Qed.

Lemma mapM_res_err {A B} (g : A → res B) l x e :
  x ∈ l → g x = Err e → ∃ y e', y ∈ l ∧ g y = Err e' ∧ mapM_res g l = Err e'.
Proof.
  intros Hx Hg. induction l as [|z l IH]; [by apply not_elem_of_nil in Hx|]. simpl.
  destruct (g z) as [b|e'] eqn:E; simpl.
  - apply elem_of_cons in Hx as [->|Hx]; [congruence|]. destruct (IH Hx) as (y & e' & Hy & Hgy & ->).
    exists y, e'. split_and!; [by right|done|done].
  - exists z, e'. split_and!; [by left|done|done].
Qed.

Definition not_a_status (s : string) : exn := ValueError ("'" +:+ s +:+ "' is not a valid BatchStatus").

Lemma info_of_row_error r e : info_of_row r = Err e → e ≠ FileNotFoundError.
Proof.
  unfold info_of_row, BatchStatus_of. intros H ->. revert H. repeat case_decide; simpl; try done.
  all: by destruct (json_loads _).
Qed.

(** A cancelled batch breaks the API that cancelled it: the cancellation is stored, but
    the handler then raises; from there on asking for the batch, cancelling it again and
    every listing that reaches it raise as well, since "cancelled" is no [BatchStatus]
    and the handlers expect no [ValueError]. *)
Theorem cancelled_batches_break_the_api now id r t fs metadata :
  find_row id t = Some r → r.(status) = "pending" ∨ r.(status) = "running" →
  json_loads r.(metadata_text) = Some metadata →
  let t' := update_row id (set_cancelled now) t in
  route_cancel_batch now id (t, fs) = ((t', fs), Err (AttributeError "value")) ∧
  route_get_batch id (t', fs) = ((t', fs), Err (not_a_status "cancelled")) ∧
  (∀ now', route_cancel_batch now' id (t', fs) = ((t', fs), Err (not_a_status "cancelled"))) ∧
  ∀ limit after, id ∈ batch_id <$> listed limit after t' →
    ∃ e, route_list_batches limit after (t', fs) = ((t', fs), Err e).
Proof.
  intros Hr Hs Hmeta t'.
  assert (Hr' : find_row id t' = Some (set_cancelled now r)).
  { unfold t'. rewrite find_row_update by auto with py. by rewrite Hr. }
  assert (Hget : retrieve_batch id t' = (t', Err (not_a_status "cancelled"))) by (rewrite (retrieve_batch_spec _ _ _ Hr'); reflexivity).
  assert (Hinfo : ∃ b, info_of_row r = Ok b ∧ may_cancel b = true).
  { unfold info_of_row. rewrite Hmeta. destruct Hs as [-> | ->]; by eexists. }
  destruct Hinfo as (b & Hb & Hc). split_and!.
  - unfold route_cancel_batch, or_404, try_except, bind, lift.
    erewrite on_table_eq.
    2:{ unfold cancel_batch, bind. rewrite (retrieve_batch_spec _ _ _ Hr), Hb. cbv beta iota. rewrite Hc. reflexivity. }
    done.
  - unfold route_get_batch, or_404, try_except, bind. by rewrite (on_table_eq _ _ _ _ _ Hget).
  - intros now'. unfold route_cancel_batch, or_404, try_except, bind.
    erewrite on_table_eq; [|unfold cancel_batch, bind; rewrite Hget; reflexivity]. done.
  - intros limit after (x & Hx & Hin)%list_elem_of_fmap.
    destruct (mapM_res_err (λ r, (retrieve_batch r.(batch_id) t').2) _ x (not_a_status "cancelled") Hin)
      as (y & e & Hy & He & Hmap); [by rewrite <-Hx, Hget|].
    exists e. unfold route_list_batches, or_404, try_except, bind.
    erewrite on_table_eq by (unfold list_batches; by rewrite Hmap). cbv beta iota.
    rewrite bool_decide_false; [done|]. unfold retrieve_batch in He. cbn [snd] in He. destruct (find_row (batch_id y) t') as [z|]; [by apply (info_of_row_error z)|].
    by injection He as <-.
Qed.
End processor.

(* ------------------------------------------------------------------ *)
(** ** Witnesses *)

#[local] Existing Instance os_example.
Definition float_text_example (q : Q) : string := "0.0".
Definition numeric_example (s : string) : option Q := inject_Z <$> int_of_str s.
Definition exn_str_example (e : exn) : string := match e with ValueError m => m | _ => "error" end.

Definition row_example (id : string) (status : string) (at_ : Z) : row :=
  mkRow id status "file-1" at_ (PStr "/v1/embeddings") (PStr "5s") None None (PDict []).
Definition env_example (hex6 : string) (now : Z) (io : option exn) : turn_env := mkEnv hex6 now "noon" io.

(** Three batches with the same creation time and a cancelled one; the second result
    cannot be written. *)
Definition table_example : list row :=
  [row_example "batch_a" "pending" 7; row_example "batch_b" "cancelled" 3; row_example "batch_c" "pending" 5;
   row_example "batch_d" "pending" 7].
Definition envs_example : list turn_env :=
  [env_example "1" 8 None; env_example "2" 9 (Some (OtherException "OSError")); env_example "3" 10 None;
   env_example "4" 11 None].
Lemma drains_witness :
  (process_turns "/tmp/files" envs_example (table_example, ∅)).2 = Ok (take 4 (queue table_example)) ∧
  take 4 (queue table_example) = ["batch_c"; "batch_a"; "batch_d"].
Proof.
  split; [|vm_compute; reflexivity].
  destruct (background_task_drains_the_queue "/tmp/files" envs_example table_example ∅) as (t' & fs' & Hrun & _).
  - apply (bool_decide_unpack _). vm_compute. exact I.
  - repeat constructor.
  - rewrite Hrun. reflexivity.
Defined.
Example drained_table :
  status <$> (process_turns "/tmp/files" envs_example (table_example, ∅)).1.1 =
    ["failed"; "cancelled"; "completed"; "completed"].
Proof. vm_compute. reflexivity. Qed.

(** A batch is created, picked, cancelled while it runs, and finished all the same: the
    cancellation is lost. *)
Definition created_table : list (@row pyval) :=
  (create_batch float_text_example "1" 5 "file-1" (PStr "/v1/embeddings") (PStr "5s") PNone []).1.
Definition state_example (t : list (@row pyval)) (w : task) (c : list string) : bstate := mkB t ∅ w c.
Definition cancelled_table : list (@row pyval) := (cancel_write 6 "batch_1" (mark_running "batch_1" created_table)).1.
Definition final_example : @bstate pyval :=
  state_example (finish "batch_1" (FAILED, 7%Z, None) cancelled_table) Polling [].

Lemma final_reachable :
  run float_text_example "/tmp/files" binit ([] ++ []) (state_example created_table Polling []) ∧
  run float_text_example "/tmp/files" (state_example created_table Polling [])
    (((((([] ++ []) ++ ["batch_1"]) ++ []) ++ []) ++ []) ++ []) final_example.
Proof.
  split.
  - eapply run_step; [apply run_nil|]. 
    eapply (step_create _ _ binit "1" 5 "file-1" (PStr "/v1/embeddings") (PStr "5s") PNone); reflexivity.
  - eapply run_step; [|apply (step_finish _ _ (state_example cancelled_table
      (Saved "batch_1" (FAILED, 7%Z, None)) []) "batch_1"); reflexivity].
    eapply run_step; [|apply (step_work _ _ (state_example cancelled_table (Working "batch_1") [])
      (env_example "2" 7 (Some (OtherException "OSError"))) "batch_1"); reflexivity].
    eapply run_step; [|apply (step_cancel_write _ _ (state_example (mark_running "batch_1" created_table)
      (Working "batch_1") ["batch_1"]) 6 "batch_1" [] []); reflexivity].
    eapply run_step; [|eapply (step_cancel_read _ _ (state_example (mark_running "batch_1" created_table)
      (Working "batch_1") []) "batch_1"); reflexivity].
    eapply run_step; [|apply (step_mark _ _ (state_example created_table (Picked "batch_1") []) "batch_1");
      reflexivity].
    eapply run_step; [apply run_nil|].
    apply (step_select _ _ (state_example created_table Polling []) "batch_1"); reflexivity.
Qed.
Lemma run_once_witness :
  run float_text_example "/tmp/files" (state_example created_table Polling []) ["batch_1"] final_example ∧
  NoDup ["batch_1"] ∧ status <$> cancelled_table = ["cancelled"] ∧ status <$> final_example.(rows) = ["failed"].
Proof.
  destruct final_reachable as [H1 H2].
  destruct (batches_run_at_most_once float_text_example "/tmp/files" _ _ _ _ H1 H2) as (Hnd & _).
  split; [exact H2|]. split; [exact Hnd|]. split; vm_compute; reflexivity.
Defined.

Definition create_example : dict string pyval :=
  [("input_file_id", PStr "file-1"); ("endpoint", PStr "/v1/embeddings"); ("metadata", PDict [("team", PStr "a")])].
Definition files_example : fsys :=
  mkFS {[["tmp"; "files"; "uid_default"; "file-1"] := mkFile "line" 1]}
    {[["tmp"]; ["tmp"; "files"]; ["tmp"; "files"; "uid_default"]]}.

Lemma created_witness :
  ∃ r v, route_batches float_text_example exn_str_example "/tmp/files" "9" 4 (Some (PDict create_example))
           (table_example, files_example) = ((table_example ++ [r], files_example), Ok (json 200 (PDict v))) ∧
    dget "id" v = Some (PStr "batch_9") ∧ dget "endpoint" v = Some (PStr "/v1/embeddings").
Proof.
  destruct (created_batches_are_served float_text_example exn_str_example "/tmp/files" "9" 4 create_example "file-1"
    (PStr "/v1/embeddings") (mkOpenAIFile "file-1" 4 1 "file-1" "batch") table_example files_example) as (r & v & Hr & _ & Hid & _ & _ & Hep).
  - reflexivity.
  - reflexivity.
  - right. by eexists.
  - right. by eexists.
  - intros _. by eexists.
  - vm_compute. reflexivity.
  - apply (bool_decide_unpack _). vm_compute. exact I.
  - by exists r, v.
Defined.

Lemma cancelled_witness :
  ∃ e, route_list_batches numeric_example 20 None (update_row "batch_a" (set_cancelled 9) table_example, files_example)
       = ((update_row "batch_a" (set_cancelled 9) table_example, files_example), Err e).
Proof.
  destruct (cancelled_batches_break_the_api numeric_example 9 "batch_a" (row_example "batch_a" "pending" 7)
    table_example files_example (PDict [])) as (_ & _ & _ & Hlist).
  - vm_compute. reflexivity.
  - left. reflexivity.
  - reflexivity.
  - apply (Hlist 20%Z None). apply (bool_decide_unpack _). vm_compute. exact I.
Defined.
