(* ===== verification/ProcessRequest.v ===== *)
(** * Proxying one request
      ([process_request] of src/src/vllm_router/services/request_service/request.py)

    [process_request] is an asynchronous generator: it opens the backend's response,
    yields its headers and then its chunks, and tells the statistics monitor when the
    request starts, gets its first byte and ends.  It is modelled as a computation that
    logs what it yields and which hooks it calls; what the backend does is a value of
    [Backend], and when the consumer stops reading is its quota. *)

From S2P Require Import Prelude PyDict PyStr PyVal RequestStats HttpBackend.

Local Open Scope py_scope.

(** What the generator yields. *)
Inductive item : Type :=
| IHeaders (headers : dict string string) (status : Z)
| IChunk (chunk : string)
| IErrorFrame (payload : pyval)
| IDoneFrame.

(** The calls to the statistics monitor on this attempt's handle. *)
Inductive hook : Type :=
| HNew (backend_url request_id : string)
| HResponse
| HComplete
| HFail
| HAbort.

Inductive action : Type :=
| Yield (i : item)
| Hook (h : hook)
| ErrorTotal (server : string) (model : pyval) (error : exn)
| TokensTotal (server : string) (model : pyval) (kind : string) (amount : pyval)
| CacheStore (last_chunk : bool)
| Latency (server : string) (model : pyval) (status : string).

(** What the backend does: fail before the response headers, or answer with headers
    and chunks and then end or raise.  [expired] says that the entry deadline has
    passed when the wait is cancelled. *)
Inductive Backend : Type :=
| BFail (e : exn) (expired : bool)
| BResponse (headers : dict string string) (status : Z) (chunks : list string) (fin : option exn).

Inductive Outcome : Type := OComplete | OFail | OAbort.

(** The generator's local variables, the log and the number of items the consumer
    still reads before it closes the generator. *)
Record gstate : Type := mkG {
  quota : option nat;
  glog : list action;
  terminal_outcome : Outcome;
  request_status : string;
  headers_sent : bool;
  received : list string;
  stall_error : option exn
}.
Definition g_init (q : option nat) : gstate := mkG q [] OAbort "aborted" false [] None.

Definition emit (a : action) : M gstate unit := modify (λ s,
  mkG s.(quota) (s.(glog) ++ [a]) s.(terminal_outcome) s.(request_status) s.(headers_sent)
    s.(received) s.(stall_error)).
(** [yield i]: the consumer may close the generator instead of asking for more. *)
Definition yield_ (i : item) : M gstate unit :=
  emit (Yield i) ;;;
  λ s, match s.(quota) with
       | Some 0 => (s, Err GeneratorExit)
       | Some (S n) => (mkG (Some n) s.(glog) s.(terminal_outcome) s.(request_status)
                          s.(headers_sent) s.(received) s.(stall_error), Ok tt)
       | None => (s, Ok tt)
       end.
Definition set_outcome (o : Outcome) (status : string) : M gstate unit := modify (λ s,
  mkG s.(quota) s.(glog) o status s.(headers_sent) s.(received) s.(stall_error)).
Definition set_headers_sent : M gstate unit := modify (λ s,
  mkG s.(quota) s.(glog) s.(terminal_outcome) s.(request_status) true s.(received) s.(stall_error)).
Definition receive (c : string) : M gstate unit := modify (λ s,
  mkG s.(quota) s.(glog) s.(terminal_outcome) s.(request_status) s.(headers_sent)
    (s.(received) ++ [c]) s.(stall_error)).
Definition stash (e : exn) : M gstate unit := modify (λ s,
  mkG s.(quota) s.(glog) s.(terminal_outcome) s.(request_status) s.(headers_sent) s.(received) (Some e)).

(* ------------------------------------------------------------------ *)
(** ** Token accounting *)

(** [counter.inc(v)]: a negative amount is a [ValueError], a non-number a [TypeError]. *)
Definition inc_amount (v : pyval) : res unit :=
  match v with
  | PInt z => if (z <? 0)%Z then Err (ValueError "amount") else Ok tt
  | PFloat q => if Qltb q 0 then Err (ValueError "amount") else Ok tt
  | PBool _ => Ok tt
  | _ => Err TypeError
  end.
Definition count_tokens (server : string) (model : pyval) (k kind : string) (usage : pyval) :
  M gstate unit :=
  present <- lift (py_in k usage) ;;
  if negb present then ret tt
  else
    amount <- lift (match usage with PDict d => of_option (KeyError k) (dget k d) | _ => Err TypeError end) ;;
    lift (inc_amount amount) ;;;
    emit (TokensTotal server model kind amount).

(** The usage block of a non-streaming response; a parse error skips it. *)
Definition track_usage (server : string) (model : pyval) (parsed : option pyval) : M gstate unit :=
  try_except
    (data <- lift (of_option JSONDecodeError parsed) ;;
     usage <- lift (match data with
                    | PDict d => Ok (dget_or "usage" (PDict []) d)
                    | _ => Err (AttributeError "get")
                    end) ;;
     count_tokens server model "prompt_tokens" "input" usage ;;;
     count_tokens server model "completion_tokens" "output" usage)
    (λ e, match e with JSONDecodeError | ValueError _ => ret tt | _ => raise e end).

(* ------------------------------------------------------------------ *)
(** ** The generator *)

Section process.
Context (format_g : Q → string).

(** The request: the parsed body ([None] when it is not JSON), whether the semantic
    cache is on and what storing in it comes to, and the backend timeout. *)
Record Job : Type := mkJob {
  j_body : option pyval;
  j_backend_url : string;
  j_request_id : string;
  j_timeout : ClientTimeout;
  j_cache : bool;
  j_cache_store : res unit;
  j_parse_response : list string → option pyval
}.

(** [async for chunk in backend_response.content.iter_any()]. *)
Fixpoint stream_chunks (first_token : bool) (chunks : list string) : M gstate unit :=
  match chunks with
  | [] => ret tt
  | c :: rest =>
      (if first_token then ret tt else emit (Hook HResponse)) ;;;
      receive c ;;;
      yield_ (IChunk c) ;;;
      stream_chunks true rest
  end.

(** After the last chunk: the token counters of a non-streaming response, and the
    semantic cache. *)
Definition account (j : Job) (is_streaming : bool) (model : pyval) : M gstate unit :=
  full <- gets received ;;
  (if negb is_streaming && bool_decide (join "" full ≠ "")
   then track_usage j.(j_backend_url) model (j.(j_parse_response) full) else ret tt) ;;;
  (if j.(j_cache) then emit (CacheStore is_streaming) ;;; lift j.(j_cache_store) else ret tt).

(** The [try] block. *)
Definition proxy_body (j : Job) (b : Backend) (is_streaming : bool) (model : pyval) : M gstate unit :=
  match b with
  | BFail e _ => raise e
  | BResponse headers status chunks fin =>
      yield_ (IHeaders headers status) ;;;
      set_headers_sent ;;;
      stream_chunks false chunks ;;;
      match fin with Some e => raise e | None => ret tt end ;;;
      set_outcome OComplete (if (400 <=? status)%Z then "error" else "success") ;;;
      account j is_streaming model
  end.

Definition content_type_of (b : Backend) : string :=
  match b with
  | BFail _ _ => ""
  | BResponse headers _ _ _ => default "" (Routing.header_get "content-type" headers)
  end.
Definition entry_expired (b : Backend) : bool :=
  match b with BFail _ expired => expired | BResponse _ _ _ _ => false end.

(** The [except] clauses. *)
Definition proxy_except (j : Job) (b : Backend) (model : pyval) (e : exn) : M gstate unit :=
  if negb (is_Exception e) then
    if entry_expired b then
      set_outcome OFail "error" ;;;
      emit (ErrorTotal j.(j_backend_url) model TimeoutError) ;;;
      raise e
    else set_outcome OAbort "aborted" ;;; raise e
  else
    set_outcome OFail "error" ;;;
    emit (ErrorTotal j.(j_backend_url) model e) ;;;
    sent <- gets headers_sent ;;
    if (sent : bool) && is_TimeoutError e then
      if startswith "text/event-stream" (lower (content_type_of b)) then
        stash e ;;;
        yield_ (IErrorFrame (sse_stall_payload format_g j.(j_timeout))) ;;;
        yield_ IDoneFrame
      else raise e
    else raise e.

(** The [finally] block. *)
Definition proxy_finally (j : Job) (model : pyval) : M gstate unit :=
  o <- gets terminal_outcome ;;
  emit (Hook match o with OComplete => HComplete | OFail => HFail | OAbort => HAbort end) ;;;
  status <- gets request_status ;;
  emit (Latency j.(j_backend_url) model status).

Definition process_request (j : Job) (b : Backend) : M gstate unit :=
  js <- lift (of_option (HTTPException 400 "Request body is not JSON parsable.") j.(j_body)) ;;
  d <- lift (match js with PDict d => Ok d | _ => Err (AttributeError "get") end) ;;
  let is_streaming := truthy (dget_or "stream" (PBool false) d) in
  let model := dget_or "model" (PStr "unknown") d in
  emit (Hook (HNew j.(j_backend_url) j.(j_request_id))) ;;;
  try_finally
    (try_except (proxy_body j b is_streaming model) (proxy_except j b model))
    (proxy_finally j model).

(* ------------------------------------------------------------------ *)
(** ** The hooks and the items of a run *)

Definition hooks (l : list action) : list hook :=
  omap (λ a, match a with Hook h => Some h | _ => None end) l.
Definition yields (l : list action) : list item :=
  omap (λ a, match a with Yield i => Some i | _ => None end) l.

Lemma hooks_app l k : hooks (l ++ k) = hooks l ++ hooks k.
Proof. apply omap_app. Qed.
Lemma yields_app l k : yields (l ++ k) = yields l ++ yields k.
Proof. apply omap_app. Qed.

(** A step that neither yields nor calls a hook: it only adds to the log. *)
Definition quiet (s s' : gstate) : Prop :=
  ∃ l, s' = mkG s.(quota) (s.(glog) ++ l) s.(terminal_outcome) s.(request_status)
              s.(headers_sent) s.(received) s.(stall_error) ∧ hooks l = [] ∧ yields l = [].

Lemma quiet_refl s : quiet s s.
Proof. exists []. rewrite app_nil_r. by destruct s. Qed.
Lemma quiet_trans s1 s2 s3 : quiet s1 s2 → quiet s2 s3 → quiet s1 s3.
Proof.
  intros (l & -> & Hh & Hy) (k & -> & Hh' & Hy'). exists (l ++ k).
  rewrite hooks_app, yields_app, Hh, Hh', Hy, Hy'. simpl. by rewrite app_assoc.
Qed.
Lemma quiet_emit a s : hooks [a] = [] → yields [a] = [] → quiet s (emit a s).1.
Proof. intros. by exists [a]. Qed.

(** A computation that is quiet and raises only ordinary exceptions. *)
Definition calm {A} (m : M gstate A) : Prop :=
  ∀ s, quiet s (m s).1 ∧ ∀ e, (m s).2 = Err e → is_Exception e = true.

Lemma calm_ret {A} (a : A) : calm (ret a).
Proof. intros s. split; [apply quiet_refl|done]. Qed.
Lemma calm_lift {A} (r : res A) : (∀ e, r = Err e → is_Exception e = true) → calm (lift r).
Proof. intros Hr s. split; [apply quiet_refl|]. intros e. apply Hr. Qed.
Lemma calm_bind {A B} (m : M gstate A) (f : A → M gstate B) :
  calm m → (∀ a, calm (f a)) → calm (bind m f).
Proof.
  intros Hm Hf s. unfold bind. destruct (Hm s) as [Hq He]. destruct (m s) as [s1 [a|e]]; simpl in *.
  - destruct (Hf a s1) as [Hq2 He2]. split; [by eapply quiet_trans|done].
  - split; [done|]. intros e' [= <-]. by apply He.
Qed.
Lemma calm_emit a : hooks [a] = [] → yields [a] = [] → calm (emit a).
Proof. intros Hh Hy s. split; [by apply quiet_emit|done]. Qed.
Lemma calm_try {A} (m : M gstate A) h : calm m → (∀ e, is_Exception e = true → calm (h e)) → calm (try_except m h).
Proof.
  intros Hm Hh s. unfold try_except. destruct (Hm s) as [Hq He].
  destruct (m s) as [s1 [a|e]]; simpl in *; [done|].
  destruct (Hh e (He e eq_refl) s1) as [Hq2 He2]. split; [by eapply quiet_trans|done].
Qed.

Lemma calm_count server model k kind usage : calm (count_tokens server model k kind usage).
Proof.
  unfold count_tokens. apply calm_bind.
  { apply calm_lift. intros e. unfold py_in. by case_match; intros [= <-]. }
  intros b. destruct b; simpl; [|apply calm_ret]. apply calm_bind.
  { apply calm_lift. intros e. unfold of_option. by repeat case_match; intros [= <-]. }
  intros a. apply calm_bind; [|intros _; by apply calm_emit].
  apply calm_lift. intros e. unfold inc_amount. by repeat case_match; intros [= <-].
Qed.
Lemma calm_track server model parsed : calm (track_usage server model parsed).
Proof.
  unfold track_usage. apply calm_try.
  - apply calm_bind; [apply calm_lift; intros e; by destruct parsed; intros [= <-]|]. intros data.
    apply calm_bind; [apply calm_lift; intros e; by destruct data; intros [= <-]|]. intros usage.
    apply calm_bind; [apply calm_count|]. intros _. apply calm_count.
  - intros e He. destruct e; try apply calm_ret; apply calm_lift; by intros ? [= <-].
Qed.

(** What the consumer's quota lets through of [n] items, and what is left of it. *)
Definition delivered (q : option nat) (n : nat) : nat :=
  match q with None => n | Some k => n `min` S k end.
Definition closes (q : option nat) (n : nat) : bool :=
  match q with None => false | Some k => k <? n end.
Definition quota_after (q : option nat) (n : nat) : option nat :=
  match q with None => None | Some k => Some (if k <? n then 0 else k - n) end.

Definition chunk_log (first_token : bool) (cs : list string) : list action :=
  (if first_token then [] else match cs with [] => [] | _ => [Hook HResponse] end) ++
  ((λ c, Yield (IChunk c)) <$> cs).

Lemma stream_chunks_spec ft chunks s :
  let m := delivered s.(quota) (length chunks) in
  stream_chunks ft chunks s =
    (mkG (quota_after s.(quota) (length chunks)) (s.(glog) ++ chunk_log ft (take m chunks))
       s.(terminal_outcome) s.(request_status) s.(headers_sent) (s.(received) ++ take m chunks)
       s.(stall_error),
     if closes s.(quota) (length chunks) then Err GeneratorExit else Ok tt).
Proof.
  revert ft s. induction chunks as [|c cs IH]; intros ft s m.
  { unfold m, chunk_log. destruct s as [[k|] lg o st hs rc se]; simpl;
      rewrite ?Nat.sub_0_r; destruct ft; simpl; rewrite ?app_nil_r; done. }
  assert (Hft : (if ft then ret tt else emit (Hook HResponse)) s =
    (mkG s.(quota) (s.(glog) ++ if ft then [] else [Hook HResponse]) s.(terminal_outcome)
       s.(request_status) s.(headers_sent) s.(received) s.(stall_error), Ok tt)).
  { destruct ft; [|done]. rewrite app_nil_r. by destruct s. }
  cbn [stream_chunks]. unfold bind at 1. rewrite Hft. unfold bind at 1, receive, modify.
  cbn [quota glog terminal_outcome request_status headers_sent received stall_error].
  unfold bind at 1, yield_, bind at 1, emit, modify.
  cbn [quota glog terminal_outcome request_status headers_sent received stall_error].
  destruct (quota s) as [[|k]|] eqn:Eq; unfold m; simpl.
  - unfold chunk_log. simpl. rewrite ?Nat.min_0_r. simpl. destruct ft; simpl; rewrite <-?app_assoc; done.
  - rewrite IH. simpl. unfold chunk_log. simpl. rewrite <-!app_assoc. by destruct ft.
  - rewrite IH. simpl. unfold chunk_log. simpl. rewrite <-!app_assoc. by destruct ft.
Qed.

(** ** The exception handlers *)

(** The handler turns the exception into a clean end of an event stream. *)
Definition stalls (b : Backend) (sent : bool) (e : exn) : bool :=
  sent && is_TimeoutError e && startswith "text/event-stream" (lower (content_type_of b)).

(** The items of the in-band error. *)
Definition stall_items (j : Job) (o : option exn) : list item :=
  match o with
  | Some _ => [IErrorFrame (sse_stall_payload format_g j.(j_timeout)); IDoneFrame]
  | None => []
  end.

(** The outcome an exception of the [try] block is recorded as. *)
Definition outcome_of_exn (b : Backend) (e : exn) : Outcome :=
  if is_Exception e || entry_expired b then OFail else OAbort.

Lemma except_plain j b model e s :
  stalls b s.(headers_sent) e = false →
  ∃ l st, proxy_except j b model e s =
    (mkG s.(quota) (s.(glog) ++ l) (outcome_of_exn b e) st s.(headers_sent) s.(received)
       s.(stall_error), Err e) ∧ hooks l = [] ∧ yields l = [].
Proof.
  intros Hst. unfold proxy_except, outcome_of_exn.
  destruct (is_Exception e) eqn:Ee; simpl.
  - exists [ErrorTotal (j_backend_url j) model e], "error". split; [|done].
    unfold bind, set_outcome, modify, emit, gets, raise. simpl. unfold stalls in Hst.
    destruct (headers_sent s && is_TimeoutError e); [|done]. simpl in Hst. by rewrite Hst.
  - destruct (entry_expired b); simpl.
    + by exists [ErrorTotal (j_backend_url j) model TimeoutError], "error".
    + exists [], "aborted". rewrite app_nil_r. done.
Qed.

Lemma except_stall j b model e s :
  stalls b s.(headers_sent) e = true →
  ∃ l n q r, proxy_except j b model e s =
    (mkG q (s.(glog) ++ l) OFail "error" s.(headers_sent) s.(received) (Some e), r) ∧
    hooks l = [] ∧ yields l = take n (stall_items j (Some e)) ∧ n ≤ 2 ∧
    (r = Ok tt ∧ n = 2 ∨ r = Err GeneratorExit ∧ s.(quota) ≠ None).
Proof.
  intros Hst. unfold proxy_except. unfold stalls in Hst.
  apply andb_true_iff in Hst as [[Hs Ht]%andb_true_iff Hsse].
  assert (is_Exception e = true) as -> by (by destruct e). simpl.
  unfold bind, set_outcome, modify, emit, gets, raise, stash, yield_. simpl.
  rewrite Hs, Ht, Hsse. simpl.
  destruct s as [[[|[|k]]|] lg o st hs rc se]; unfold bind, emit, modify; simpl.
  - eexists _, 1, _, _. split; [by rewrite <-!app_assoc|]. split_and!; [done|done|lia|by right].
  - eexists _, 2, _, _. split; [by rewrite <-!app_assoc|]. split_and!; [done|done|lia|by right].
  - eexists _, 2, _, _. split; [by rewrite <-!app_assoc|]. split_and!; [done|done|lia|by left].
  - eexists _, 2, _, _. split; [by rewrite <-!app_assoc|]. split_and!; [done|done|lia|by left].
Qed.

(** ** The [try] block as a whole *)

Definition backend_items (b : Backend) : list item :=
  match b with
  | BFail _ _ => []
  | BResponse hs st chunks _ => IHeaders hs st :: (IChunk <$> chunks)
  end.
Definition response_hook (received : list string) : list hook :=
  match received with [] => [] | _ => [HResponse] end.

(** The outcome of a run that left [stall_error] and ended with [r]. *)
Definition outcome_of (b : Backend) (stalled : option exn) (r : res unit) : Outcome :=
  match stalled, r with
  | Some _, _ => OFail
  | None, Ok _ => OComplete
  | None, Err e => outcome_of_exn b e
  end.

Lemma hooks_chunk_log cs : hooks (chunk_log false cs) = response_hook cs.
Proof.
  unfold chunk_log. rewrite hooks_app.
  assert (hooks ((λ c, Yield (IChunk c)) <$> cs) = []) as -> by (induction cs; done).
  rewrite app_nil_r. by destruct cs.
Qed.
Lemma yields_chunk_log cs : yields (chunk_log false cs) = IChunk <$> cs.
Proof.
  unfold chunk_log. rewrite yields_app.
  assert (yields match cs with [] => [] | _ => [Hook HResponse] end = []) as -> by (by destruct cs).
  simpl. induction cs as [|c cs IH]; [done|]. simpl. by f_equal.
Qed.

Definition started (q : option nat) (j : Job) : gstate :=
  mkG q [Hook (HNew j.(j_backend_url) j.(j_request_id))] OAbort "aborted" false [] None.

Definition run_ok (q : option nat) (j : Job) (b : Backend) (s : gstate) (r : res unit) : Prop :=
  hooks s.(glog) = HNew j.(j_backend_url) j.(j_request_id) :: response_hook s.(received) ∧
  s.(terminal_outcome) = outcome_of b s.(stall_error) r ∧
  ∃ k, yields s.(glog) = take k (backend_items b ++ stall_items j s.(stall_error)) ∧ 1 ≤ k ∧
    (q = None → length (backend_items b ++ stall_items j s.(stall_error)) ≤ k) ∧
    (r = Ok tt → length (backend_items b ++ stall_items j s.(stall_error)) ≤ k).

Lemma quiet_store b (r : res unit) s : quiet s ((emit (CacheStore b) ;;; lift r) s).1.
Proof. by exists [CacheStore b]. Qed.

Lemma try_plain q j b model m e s :
  m (started q j) = (s, Err e) → stalls b s.(headers_sent) e = false →
  hooks s.(glog) = HNew j.(j_backend_url) j.(j_request_id) :: response_hook s.(received) →
  s.(stall_error) = None →
  (∃ k, yields s.(glog) = take k (backend_items b) ∧ 1 ≤ k ∧ (q = None → length (backend_items b) ≤ k)) →
  let '(s', r) := try_except m (proxy_except j b model) (started q j) in run_ok q j b s' r.
Proof.
  intros Hm Hst Hh Hse (k & Hy & Hk1 & Hk). unfold try_except. rewrite Hm.
  destruct (except_plain j b model e s Hst) as (l & st & -> & Hl & Hl').
  unfold run_ok. cbn [glog received terminal_outcome stall_error]. rewrite Hse.
  rewrite hooks_app, Hh, Hl, app_nil_r. split; [done|]. split; [done|].
  exists k. rewrite yields_app, Hl', app_nil_r. simpl. rewrite app_nil_r. naive_solver.
Qed.

(** A stalled event stream, everything the backend sent having been passed on. *)
Lemma try_stall q j b model m e s :
  m (started q j) = (s, Err e) → stalls b s.(headers_sent) e = true →
  hooks s.(glog) = HNew j.(j_backend_url) j.(j_request_id) :: response_hook s.(received) →
  yields s.(glog) = backend_items b → 1 ≤ length (backend_items b) → (q = None → s.(quota) = None) →
  let '(s', r) := try_except m (proxy_except j b model) (started q j) in run_ok q j b s' r.
Proof.
  intros Hm Hst Hh Hy Hlen Hq. unfold try_except. rewrite Hm.
  destruct (except_stall j b model e s Hst) as (l & n & q' & r & -> & Hl & Hl' & Hn & Hres).
  unfold run_ok. cbn [glog received terminal_outcome stall_error].
  rewrite hooks_app, Hh, Hl, app_nil_r. split; [done|]. split; [done|].
  exists (length (backend_items b) + n). rewrite yields_app, Hl', Hy, length_app.
  change (length (stall_items j (Some e))) with 2. split_and!.
  - rewrite take_app. f_equal; [by rewrite take_ge by lia|f_equal; lia].
  - lia.
  - intros ->. destruct Hres as [[_ ->]|[_ Hne]]; [lia|]. by rewrite Hq in Hne.
  - intros ->. destruct Hres as [[_ ->]|[? _]]; [lia|done].
Qed.

(** What is left of the quota when the headers have been read. *)
Definition after_headers (q : option nat) : option nat :=
  match q with Some k => Some (k - 1) | None => None end.

(** The state after the headers and [cs] chunks. *)
Definition streamed (q : option nat) (j : Job) (hs : dict string string) (st : Z) (cs : list string) :
  gstate :=
  mkG q ([Hook (HNew j.(j_backend_url) j.(j_request_id)); Yield (IHeaders hs st)] ++ chunk_log false cs)
    OAbort "aborted" true cs None.

Lemma hooks_streamed q j hs st cs :
  hooks (streamed q j hs st cs).(glog) = HNew j.(j_backend_url) j.(j_request_id) :: response_hook cs.
Proof. unfold streamed. cbn [glog]. by rewrite hooks_app, hooks_chunk_log. Qed.
Lemma yields_streamed q j hs st cs :
  yields (streamed q j hs st cs).(glog) = IHeaders hs st :: (IChunk <$> cs).
Proof. unfold streamed. cbn [glog]. by rewrite yields_app, yields_chunk_log. Qed.

Lemma proxy_body_streamed q j hs st chunks fin is_streaming model :
  q ≠ Some 0 →
  let q1 := after_headers q in
  let s2 := streamed (quota_after q1 (length chunks)) j hs st (take (delivered q1 (length chunks)) chunks) in
  proxy_body j (BResponse hs st chunks fin) is_streaming model (started q j) =
    if closes q1 (length chunks) then (s2, Err GeneratorExit)
    else (match fin with Some e => raise e | None => ret tt end ;;;
          set_outcome OComplete (if (400 <=? st)%Z then "error" else "success") ;;;
          account j is_streaming model) s2.
Proof.
  intros Hq q1 s2. unfold proxy_body.
  assert (Hhead : ∀ f : M gstate unit,
    (yield_ (IHeaders hs st) ;;; set_headers_sent ;;; f) (started q j) = f (streamed q1 j hs st [])).
  { intros f. unfold q1, streamed, after_headers. destruct q as [[|k]|]; [done|..];
      unfold bind, yield_, emit, modify; simpl;
      unfold bind, set_headers_sent, modify; simpl; rewrite ?Nat.sub_0_r; done. }
  rewrite Hhead. unfold bind at 1. rewrite stream_chunks_spec. unfold streamed at 1 2 3 4 5 6 7 8.
  cbn [quota glog terminal_outcome request_status headers_sent received stall_error app chunk_log fmap list_fmap].
  fold s2. by destruct (closes _ _).
Qed.

Lemma quiet_account j is_streaming model s : quiet s (account j is_streaming model s).1.
Proof.
  unfold account, bind at 1, gets. unfold bind at 1. destruct (negb is_streaming && _).
  - destruct (calm_track (j_backend_url j) model (j_parse_response j (received s)) s) as [Hq _].
    destruct (track_usage _ _ _ s) as [s4 [[]|e]]; [|done]. simpl in Hq.
    destruct (j_cache j); [|done]. eapply quiet_trans; [done|]. apply quiet_store.
  - simpl. destruct (j_cache j); [apply quiet_store|apply quiet_refl].
Qed.

(** A complete response: only the accounting can still fail. *)
Lemma try_account q j b model m st' s is_streaming :
  m (started q j) = account j is_streaming model st' →
  hooks st'.(glog) = HNew j.(j_backend_url) j.(j_request_id) :: response_hook st'.(received) →
  yields st'.(glog) = backend_items b → 1 ≤ length (backend_items b) →
  st'.(terminal_outcome) = OComplete → st'.(stall_error) = None → st'.(headers_sent) = true →
  (q = None → st'.(quota) = None) → s = started q j →
  let '(s', r) := try_except m (proxy_except j b model) s in run_ok q j b s' r.
Proof.
  intros Hm Hh Hy Hlen Ho Hse Hsent Hq ->.
  pose proof (quiet_account j is_streaming model st') as Hquiet.
  destruct (account j is_streaming model st') as [s4 r4]. simpl in Hquiet.
  destruct Hquiet as (l4 & -> & Hl4 & Hl4'). set (s4 := mkG _ _ _ _ _ _ _) in Hm.
  assert (Hh4 : hooks s4.(glog) = HNew j.(j_backend_url) j.(j_request_id) :: response_hook s4.(received)).
  { unfold s4. cbn [glog received]. by rewrite hooks_app, Hh, Hl4, app_nil_r. }
  assert (Hy4 : yields s4.(glog) = backend_items b).
  { unfold s4. cbn [glog]. by rewrite yields_app, Hl4', app_nil_r. }
  destruct r4 as [[]|e].
  - unfold try_except. rewrite Hm. unfold run_ok. rewrite Hh4, Hy4. split; [done|].
    unfold s4. cbn [terminal_outcome stall_error received]. rewrite Hse, Ho. split; [done|].
    exists (length (backend_items b)). simpl stall_items. by rewrite app_nil_r, take_ge.
  - destruct (stalls b true e) eqn:Est.
    + eapply (try_stall _ _ _ _ _ e s4); try done. unfold s4. cbn [headers_sent]. by rewrite Hsent.
    + eapply (try_plain _ _ _ _ _ e s4); [done|unfold s4; cbn [headers_sent]; by rewrite Hsent|done|done|].
      exists (length (backend_items b)). by rewrite Hy4, take_ge.
Qed.

Lemma proxy_try_ok q j b is_streaming model :
  let '(s, r) := try_except (proxy_body j b is_streaming model) (proxy_except j b model)
                   (started q j) in
  run_ok q j b s r.
Proof.
  destruct b as [e x|hs st chunks fin].
  { eapply try_plain; [reflexivity|done|done|done|]. exists 1. split; [done|]. simpl. lia. }
  destruct (decide (q = Some 0)) as [->|Hq].
  { eapply (try_plain _ _ _ _ _ GeneratorExit); [reflexivity|done|done|done|]. by exists 1. }
  pose proof (proxy_body_streamed q j hs st chunks fin is_streaming model Hq) as Hbody.
  set (q1 := after_headers q) in Hbody. set (m := delivered q1 (length chunks)) in Hbody.
  cbv zeta in Hbody. set (s2 := streamed _ _ _ _ _) in Hbody. set (b := BResponse hs st chunks fin) in *.
  assert (Hh2 : hooks s2.(glog) = HNew j.(j_backend_url) j.(j_request_id) :: response_hook s2.(received))
    by apply hooks_streamed.
  assert (Hitems : yields s2.(glog) = take (S m) (backend_items b)).
  { unfold s2. rewrite yields_streamed. simpl. by rewrite fmap_take. }
  assert (Hlen : length (backend_items b) = S (length chunks)) by (simpl; by rewrite length_fmap).
  destruct (closes q1 (length chunks)) eqn:Ec.
  { eapply (try_plain _ _ _ _ _ GeneratorExit s2); [exact Hbody|done|done|done|].
    exists (S m). split; [done|]. split; [lia|]. by intros ->. }
  assert (Hm : m = length chunks).
  { unfold m, delivered. destruct q1 as [k|]; [|done]. simpl in Ec. apply Nat.ltb_ge in Ec. lia. }
  rewrite take_ge in Hitems by lia.
  assert (Hqn : q = None → s2.(quota) = None) by (by intros ->).
  destruct fin as [e|].
  - destruct (stalls b true e) eqn:Est.
    + eapply (try_stall _ _ _ _ _ e s2); try done. lia.
    + eapply (try_plain _ _ _ _ _ e s2); try done. exists (S m).
      split; [by rewrite take_ge by lia|]. split; [lia|]. intros _. lia.
  - eapply (try_account _ _ _ _ _
      (mkG s2.(quota) s2.(glog) OComplete (if (400 <=? st)%Z then "error" else "success") true
         s2.(received) None)); [exact Hbody|..]; try done. lia.
Qed.

Definition terminal_hook (o : Outcome) : hook :=
  match o with OComplete => HComplete | OFail => HFail | OAbort => HAbort end.

Lemma process_request_run q j b d :
  j.(j_body) = Some (PDict d) →
  ∃ s1 r st, run_ok q j b s1 r ∧
    process_request j b (g_init q) =
      (mkG s1.(quota) (s1.(glog) ++ [Hook (terminal_hook s1.(terminal_outcome));
          Latency j.(j_backend_url) (dget_or "model" (PStr "unknown") d) st])
         s1.(terminal_outcome) s1.(request_status) s1.(headers_sent) s1.(received) s1.(stall_error), r).
Proof.
  intros Hj. unfold process_request. unfold bind at 1, lift at 1. rewrite Hj. simpl of_option.
  unfold bind at 1, lift at 1. unfold bind at 1.
  change (emit (Hook (HNew (j_backend_url j) (j_request_id j))) (g_init q)) with (started q j, @Ok unit tt).
  pose proof (proxy_try_ok q j b (truthy (dget_or "stream" (PBool false) d))
    (dget_or "model" (PStr "unknown") d)) as Hrun.
  unfold try_finally. destruct (try_except _ _ (started q j)) as [s1 r] eqn:E.
  exists s1, r, s1.(request_status). split; [exact Hrun|].
  unfold proxy_finally, bind, gets, emit, modify.
  cbn [quota glog terminal_outcome request_status headers_sent received stall_error].
  rewrite <-app_assoc. reflexivity.
Qed.

Lemma process_request_bad_body q j b :
  (∀ d, j.(j_body) ≠ Some (PDict d)) →
  ∃ e, process_request j b (g_init q) = (g_init q, Err e) ∧
    (j.(j_body) = None → e = HTTPException 400 "Request body is not JSON parsable.").
Proof.
  intros Hj. unfold process_request, bind, lift.
  destruct (j_body j) as [[]|]; simpl; try (eexists; split; [done|congruence]); eauto.
  by destruct (Hj d).
Qed.

(** The hooks of any run: none, or the arrival, at most one first response and one
    terminal hook. *)
Lemma every_run_hooks q j b :
  let l := hooks (process_request j b (g_init q)).1.(glog) in
  l = [] ∨ ∃ mid T, l = HNew j.(j_backend_url) j.(j_request_id) :: mid ++ [T] ∧
    Forall (λ h, h = HResponse) mid ∧ (T = HComplete ∨ T = HFail ∨ T = HAbort).
Proof.
  assert (Hcase : (∃ d, j.(j_body) = Some (PDict d)) ∨ ∀ d, j.(j_body) ≠ Some (PDict d)).
  { destruct (j_body j) as [[]|]; eauto; right; congruence. }
  destruct Hcase as [[d Hd]|Hbad].
  - destruct (process_request_run q j b d Hd) as (s1 & r & st & (Hh & _) & ->). right.
    exists (response_hook s1.(received)), (terminal_hook s1.(terminal_outcome)).
    cbn [fst glog]. rewrite hooks_app, Hh. split; [done|].
    split; [|destruct (terminal_outcome s1); auto].
    destruct (received s1); by repeat constructor.
  - destruct (process_request_bad_body q j b Hbad) as (e & -> & _). by left.
Qed.

(** A backend that fails before its headers: the generator raises its exception and
    yields nothing.  One that answers: the first item is its headers. *)
Lemma process_request_fails q j e x d :
  j.(j_body) = Some (PDict d) →
  ∃ s, process_request j (BFail e x) (g_init q) = (s, Err e) ∧ yields s.(glog) = [].
Proof.
  intros Hj. unfold process_request. unfold bind at 1, lift at 1. rewrite Hj. simpl of_option.
  unfold bind at 1, lift at 1. unfold bind at 1.
  change (emit (Hook (HNew (j_backend_url j) (j_request_id j))) (g_init q)) with (started q j, @Ok unit tt).
  cbv beta iota. unfold try_finally, try_except, proxy_body, raise.
  destruct (except_plain j (BFail e x) (dget_or "model" (PStr "unknown") d) e (started q j))
    as (l & st & -> & Hl & Hl'); [done|].
  unfold proxy_finally, bind, gets, emit, modify. simpl. eexists. split; [done|].
  cbn [glog]. change (?a :: ?k) with ([a] ++ k) at 1. by rewrite !yields_app, Hl'.
Qed.
Lemma process_request_answers q j hs st chunks fin d :
  j.(j_body) = Some (PDict d) →
  ∃ s r items, process_request j (BResponse hs st chunks fin) (g_init q) = (s, r) ∧
    yields s.(glog) = IHeaders hs st :: items.
Proof.
  intros Hj. destruct (process_request_run q j (BResponse hs st chunks fin) d Hj)
    as (s1 & r & st1 & (_ & _ & k & Hy & Hk & _) & ->).
  destruct k as [|k]; [lia|]. eexists _, _, _. split; [done|].
  cbn [glog]. rewrite yields_app, Hy, app_nil_r. simpl. done.
Qed.

(** C34: every proxied attempt tells the statistics monitor exactly once how it
    ended: its hooks are the arrival, the first response if and only if a chunk was
    received, and one terminal hook, last; the terminal hook is a completion exactly
    when the generator ran to its end without an error, a failure when an ordinary
    exception or an expired entry deadline ended it or a stalled event stream was
    closed in band, and an abort when the client left.  The client is given the
    backend's headers and chunks, unchanged and in order, up to where it stopped
    reading, followed by the two error frames exactly when an event stream stalled.
    A body that is not a JSON object calls no hook and yields nothing. *)
Theorem every_attempt_ends_once q j b :
  let '(s, r) := process_request j b (g_init q) in
  match j.(j_body) with
  | Some (PDict _) =>
      hooks s.(glog) = HNew j.(j_backend_url) j.(j_request_id) ::
        response_hook s.(received) ++ [terminal_hook (outcome_of b s.(stall_error) r)] ∧
      (∃ k, yields s.(glog) = take k (backend_items b ++ stall_items j s.(stall_error))) ∧
      (q = None ∨ r = Ok tt → yields s.(glog) = backend_items b ++ stall_items j s.(stall_error))
  | _ => hooks s.(glog) = [] ∧ yields s.(glog) = [] ∧ is_ok r = false
  end.
Proof.
  assert (Hcase : (∃ d, j.(j_body) = Some (PDict d)) ∨ ∀ d, j.(j_body) ≠ Some (PDict d)).
  { destruct (j_body j) as [[]|]; eauto; right; congruence. }
  destruct Hcase as [[d Hd]|Hbad].
  - destruct (process_request_run q j b d Hd) as (s1 & r & st & (Hh & Ho & k & Hy & _ & Hq & Hr) & ->).
    rewrite Hd. cbn [glog received stall_error]. rewrite hooks_app, yields_app, Hh, Hy, Ho.
    simpl yields. rewrite app_nil_r. split; [done|]. split; [by exists k|].
    intros [Hc|Hc]; apply take_ge; auto.
  - destruct (process_request_bad_body q j b Hbad) as (e & -> & _).
    destruct (j_body j) as [[]|]; try done. by destruct (Hbad d).
Qed.

(** A complete response read to the end: what is left is the accounting. *)
Lemma proxy_body_complete j hs st chunks is_streaming model :
  let s := streamed None j hs st chunks in
  proxy_body j (BResponse hs st chunks None) is_streaming model (started None j) =
    account j is_streaming model
      (mkG None s.(glog) OComplete (if (400 <=? st)%Z then "error" else "success") true chunks None).
Proof.
  intros s. rewrite proxy_body_streamed by done. simpl closes. cbv iota. simpl delivered.
  by rewrite firstn_all.
Qed.

(** A response whose usage block is null is delivered in full and then recorded
    as a failure: the client has received every byte, the generator raises
    [TypeError] after the last one and the monitor is told the request failed. *)
Theorem null_usage_fails_a_complete_response j d u hs st chunks :
  j.(j_body) = Some (PDict d) → truthy (dget_or "stream" (PBool false) d) = false →
  join "" chunks ≠ "" → j.(j_parse_response) chunks = Some (PDict u) →
  dget "usage" u = Some PNone →
  let b := BResponse hs st chunks None in
  let '(s, r) := process_request j b (g_init None) in
  r = Err TypeError ∧ yields s.(glog) = backend_items b ∧ last (hooks s.(glog)) = Some HFail.
Proof.
  intros Hj Hns Hne Hp Hu b. set (model := dget_or "model" (PStr "unknown") d).
  assert (Hbody : ∃ lg stt, proxy_body j b false model (started None j) =
    (mkG None lg OComplete stt true chunks None, Err TypeError)).
  { unfold b. rewrite proxy_body_complete. unfold account, bind at 1, gets.
    cbn [received]. rewrite bool_decide_true by done. simpl.
    unfold bind at 1. unfold track_usage, try_except, bind, lift. rewrite Hp. simpl.
    unfold dget_or. rewrite Hu. simpl. eauto. }
  destruct Hbody as (lg & stt & Hbody).
  destruct (process_request_run None j b d Hj) as (s1 & r & st1 & (Hh & Ho & k & Hy & _ & Hq & _) & E).
  assert (Hr : r = Err TypeError ∧ s1.(stall_error) = None).
  { unfold process_request in E. unfold bind at 1, lift at 1 in E. rewrite Hj in E.
    simpl of_option in E. unfold bind at 1, lift at 1 in E. unfold bind at 1 in E.
    change (emit (Hook (HNew (j_backend_url j) (j_request_id j))) (g_init None))
      with (started None j, @Ok unit tt) in E.
    rewrite Hns in E. fold model in E. unfold try_finally, try_except in E. rewrite Hbody in E.
    simpl in E. unfold proxy_except in E. simpl in E. injection E. intros. split; congruence. }
  destruct Hr as [-> Hse]. rewrite E. cbn [glog]. split; [done|].
  rewrite yields_app, hooks_app, Hy, Hse. simpl yields. simpl hooks.
  rewrite !app_nil_r, last_snoc, Ho, Hse. split; [|done].
  apply take_ge. specialize (Hq eq_refl). by rewrite Hse, app_nil_r in Hq.
Qed.
End process.

Lemma null_usage_witness :
  let j := mkJob (Some (PDict [("model", PStr "m")])) "u" "r" (mkTimeout None None None None)
    false (Ok tt) (λ _, Some (PDict [("usage", PNone)])) in
  let '(s, r) := process_request (λ _, "1") j (BResponse [] 200 ["a"; "b"] None) (g_init None) in
  r = Err TypeError ∧
  yields s.(glog) = [IHeaders [] 200; IChunk "a"; IChunk "b"] ∧ last (hooks s.(glog)) = Some HFail.
Proof.
  intros j.
  exact (null_usage_fails_a_complete_response (λ _, "1") j [("model", PStr "m")]
    [("usage", PNone)] [] 200 ["a"; "b"] eq_refl eq_refl ltac:(done) eq_refl eq_refl).
Defined.
