(* ===== verification/RouteRequest.v ===== *)
(** * Routing one request
      ([route_general_request] of src/src/vllm_router/services/request_service/request.py)

    The handler parses the body, finds the engines that serve the model, asks the
    router for one and proxies the request to it ([process_request]); a backend that
    fails before its response headers is replaced by another one, as long as attempts
    and engines are left.  The handler is proved against the interface [Router] and
    runs the generator of ProcessRequest.v for every attempt.

    Parameters: [answer k u] is what the backend [u] does on the k-th attempt, [quota]
    is when the client stops reading, and user callbacks and external providers are
    functions of the application record. *)

From S2P Require Import Prelude PyDict PyStr PyVal Endpoint RequestStats Routing RouterInterface.
From S2P Require Import Utils ServiceDiscovery ServiceDiscoveryK8s DiscoveryRegistry.
From S2P Require Import HttpBackend ProcessRequest.

Local Open Scope py_scope.

(** What the handler returns: a JSON response, or a stream with the items that follow
    the headers and how the stream ends. *)
Inductive Response : Type :=
| RJson (r : JSONResponse)
| RStream (status : Z) (headers : dict string string) (media_type : string) (items : list item)
    (fin : res unit).

(** [{"error": message}] with the request id. *)
Definition error_json (status : Z) (message request_id : string) : JSONResponse :=
  mkJSON status (PDict [("error", PStr message)]) [("X-Request-Id", request_id)].

(** A value Python can hash. *)
Definition hashable (v : pyval) : bool :=
  match v with PList _ | PDict _ => false | _ => true end.

Section handler.
Context {R : Type} {HR : Router R} {body : Type} {HJ : JsonCodec body}.
Context (format_g : Q → string) (body_empty : body → bool) (body_length : body → nat).
Context (py_repr : pyval → string).

(** An incoming request; [in_uuid] is the fresh id used when it brings none. *)
Record Incoming : Type := mkIncoming {
  in_request : Request;
  in_uuid : string;
  in_body : body;
  in_query : dict string string
}.

(** The application's state the handler reads. *)
Record App : Type := mkApp {
  app_world : SDWorld;
  app_discovery : sd_global;
  app_stats : gmap string RequestStats;
  app_timeout : ClientTimeout;
  app_rewriter : bool;
  app_pre_request : Incoming → dict string pyval → option JSONResponse;
  app_is_external : pyval → bool;
  app_external : Incoming → dict string pyval → res Response;
  app_failover : Z;
  app_cache : bool;
  app_cache_store : res unit;
  app_parse_response : list string → option pyval
}.

(** The handler's state: the router, the request body and headers as they are
    rewritten, the actions of all attempts and the incoming-request counter. *)
Record hstate : Type := mkH {
  h_router : R;
  h_json : dict string pyval;
  h_body : body;
  h_request : Request;
  h_log : list action;
  h_incoming : list pyval
}.

Definition set_json (js : dict string pyval) : M hstate unit := modify (λ s,
  mkH s.(h_router) js s.(h_body) s.(h_request) s.(h_log) s.(h_incoming)).
(** A new body and its Content-Length header. *)
Definition set_body (js : dict string pyval) (b : body) : M hstate unit := modify (λ s,
  mkH s.(h_router) js b
    (mkRequest (update_content_length s.(h_request).(req_headers) (body_length b)))
    s.(h_log) s.(h_incoming)).
Definition log_actions (l : list action) : M hstate unit := modify (λ s,
  mkH s.(h_router) s.(h_json) s.(h_body) s.(h_request) (s.(h_log) ++ l) s.(h_incoming)).
Definition count_incoming (model : pyval) : M hstate unit := modify (λ s,
  mkH s.(h_router) s.(h_json) s.(h_body) s.(h_request) s.(h_log) (s.(h_incoming) ++ [model])).

(** [request.app.state.router.route_request(endpoints, ...)]. *)
Definition call_router (a : App) (endpoints : list EndpointInfo) : M hstate string := λ s,
  let '(r', o) := route_request endpoints a.(app_stats) s.(h_request) s.(h_json) s.(h_router) in
  match o with
  | Ok (u, js) => (mkH r' js s.(h_body) s.(h_request) s.(h_log) s.(h_incoming), Ok u)
  | Err e => (mkH r' s.(h_json) s.(h_body) s.(h_request) s.(h_log) s.(h_incoming), Err e)
  end.

(* ------------------------------------------------------------------ *)
(** ** The attempts *)

(** What is left of the generator once the headers have been read. *)
Record Answer : Type := mkAnswer {
  ans_headers : dict string string;
  ans_status : Z;
  ans_items : list item;
  ans_fin : res unit
}.

Definition job_of (a : App) (b : body) (u request_id : string) : Job :=
  mkJob (json_loads b) u request_id a.(app_timeout) a.(app_cache) a.(app_cache_store)
    a.(app_parse_response).

(** [await anext(stream_generator)]: the headers, or what the generator raised. *)
Definition first_item (s : gstate) (r : res unit) : res Answer :=
  match yields s.(glog) with
  | IHeaders headers status :: items => Ok (mkAnswer headers status items r)
  | _ => match r with Err e => Err e | Ok _ => Err (OtherException "StopAsyncIteration") end
  end.

Definition try_backend (a : App) (request_id : string) (answer : nat → string → Backend)
    (quota : option nat) (attempt : nat) (u : string) : M hstate (res Answer) :=
  b <- gets h_body ;;
  let '(s, r) := process_request format_g (job_of a b u request_id) (answer attempt u) (g_init quota) in
  log_actions s.(glog) ;;;
  ret (first_item s r).

(** How the loop over the attempts ends. *)
Inductive Verdict : Type :=
| Answered (x : Answer)
| TimedOut (e : exn)
| Exhausted (last_error : option exn).

(** The engine of an attempt: the first choice, then one of the engines that have not
    failed yet; [None] when none is left. *)
Definition next_server (a : App) (remaining : list EndpointInfo) (by_id : bool) (attempt : nat)
    (server_url : string) : M hstate (option string) :=
  if attempt =? 0 then ret (Some server_url)
  else match remaining with
       | [] => ret None
       | e0 :: _ =>
           if by_id then ret (Some e0.(url))
           else u <- call_router a remaining ;; ret (Some u)
       end.

(** [for attempt in range(max_attempts)]; [fuel] is the attempts left. *)
Fixpoint failover (a : App) (request_id : string) (answer : nat → string → Backend)
    (quota : option nat) (endpoints : list EndpointInfo) (by_id : bool) (fuel attempt : nat)
    (server_url : string) (error_urls : list string) (last_error : option exn) : M hstate Verdict :=
  match fuel with
  | 0 => ret (Exhausted last_error)
  | S fuel' =>
      let remaining := filter (λ e, e.(url) ∉ error_urls) endpoints in
      next <- next_server a remaining by_id attempt server_url ;;
      match next with
      | None => ret (Exhausted last_error)
      | Some u =>
          first <- try_backend a request_id answer quota attempt u ;;
          match first with
          | Ok x => ret (Answered x)
          | Err e =>
              match e with
              | HTTPException _ _ => raise e
              | _ =>
                  if is_connect_error e then
                    failover a request_id answer quota endpoints by_id fuel' (S attempt) u
                      (u :: error_urls) (Some e)
                  else if is_TimeoutError e then ret (TimedOut e)
                  else if is_Exception e then
                    failover a request_id answer quota endpoints by_id fuel' (S attempt) u
                      (u :: error_urls) (Some e)
                  else raise e
              end
          end
      end
  end.

(** After the loop. *)
Definition respond (a : App) (request_id : string) (v : Verdict) : res Response :=
  match v with
  | Answered x =>
      Ok (RStream x.(ans_status) (strip_response_headers x.(ans_headers) request_id)
            (default "text/event-stream" (header_get "content-type" x.(ans_headers)))
            x.(ans_items) x.(ans_fin))
  | TimedOut e => Ok (RJson (pre_header_timeout_response format_g request_id a.(app_timeout) e))
  | Exhausted (Some e) =>
      if is_connect_error e then Ok (RJson (backend_connect_error_response request_id)) else Err e
  | Exhausted None => Err (UnboundLocalError "status")
  end.

(** The first choice, the attempts and the response. *)
Definition dispatch (a : App) (request_id : string) (answer : nat → string → Backend)
    (quota : option nat) (endpoints : list EndpointInfo) (by_id : bool) : M hstate Response :=
  server_url <- (match endpoints with
                 | e0 :: _ => if by_id then ret e0.(url) else call_router a endpoints
                 | [] => raise IndexError
                 end) ;;
  router <- gets h_router ;;
  (if injects_priority router then js <- gets h_json ;; set_body js (json_dumps (PDict js)) else ret tt) ;;;
  v <- failover a request_id answer quota endpoints by_id
         (Z.to_nat (a.(app_failover) + 1)) 0 server_url [] None ;;
  lift (respond a request_id v).

(* ------------------------------------------------------------------ *)
(** ** Admission *)

(** The id of a request: its X-Request-Id header when it has a non-empty one. *)
Definition request_id_of (i : Incoming) : string :=
  match header_get "X-Request-Id" i.(in_request).(req_headers) with
  | Some x => if decide (x = "") then i.(in_uuid) else x
  | None => i.(in_uuid)
  end.

(** [json.loads(request_body) if request_body else {}], which must be an object. *)
Definition parse_body (i : Incoming) : JSONResponse + dict string pyval :=
  if body_empty i.(in_body) then inr []
  else match json_loads i.(in_body) with
       | None => inl (error_json 400 "Invalid request: request body must be valid JSON." (request_id_of i))
       | Some (PDict d) => inr d
       | Some _ => inl (error_json 400 "Invalid request: request body must be a JSON object." (request_id_of i))
       end.

(** The [id] query parameter, when it is there and not empty. *)
Definition request_endpoint (i : Incoming) : option string :=
  match dget "id" i.(in_query) with
  | Some x => if decide (x = "") then None else Some x
  | None => None
  end.

(** [NoopRequestRewriter.rewrite_request], the only rewriter there is. *)
Definition rewrite_request (b : body) : body := b.
Definition rewrite (a : App) : M hstate unit :=
  if a.(app_rewriter) then
    b <- gets h_body ;;
    let b := rewrite_request b in
    v <- lift (of_option JSONDecodeError (json_loads b)) ;;
    match v with
    | PDict js => modify (λ s, mkH s.(h_router) js b s.(h_request) s.(h_log) s.(h_incoming))
    | _ => raise TypeError
    end
  else ret tt.

(** [getattr(service_discovery, "aliases", None)]. *)
Definition aliases_of (sd : SD) : option (dict string string) :=
  match sd with SDStatic s => s.(Static.aliases) | _ => None end.

(** An alias is replaced by its model, in the body as well. *)
Definition resolve_alias (sd : SD) (requested_model : pyval) : M hstate pyval :=
  match aliases_of sd with
  | None | Some [] => ret requested_model
  | Some aliases =>
      if negb (hashable requested_model) then raise TypeError
      else match requested_model with
           | PStr m =>
               match dget m aliases with
               | Some target =>
                   js <- gets h_json ;;
                   let '(js, b) := replace_model_in_request_body js target in
                   set_body js b ;;; ret (PStr target)
               | None => ret requested_model
               end
           | _ => ret requested_model
           end
  end.

(** [has_ever_seen_model], where the discovery has it. *)
Definition model_ever_existed (sd : SD) (requested_model : pyval) : res bool :=
  match requested_model with
  | PStr m => Ok (default false (has_ever_seen_model m sd))
  | v => match sd with
         | SDPodIP _ => if hashable v then Ok false else Err TypeError
         | _ => Ok false
         end
  end.

(** An engine that can take the request: it serves the model, is awake and, when the
    request names an engine, is that one. *)
Definition serves (requested_model : pyval) (target : option string) (e : EndpointInfo) : bool :=
  match requested_model with PStr m => bool_decide (m ∈ e.(model_names)) | _ => false end &&
  match target with Some i => bool_decide (e.(Id) = i) | None => true end &&
  negb e.(sleep).

Definition py_str (v : pyval) : string := match v with PStr s => s | _ => py_repr v end.

Definition not_found (requested_model : pyval) (request_id : string) : JSONResponse :=
  error_json 404 ("Model '" +:+ py_str requested_model +:+
    "' not found. Available models can be listed at /v1/models.") request_id.
Definition unavailable (requested_model : pyval) (request_id : string) : JSONResponse :=
  error_json 503 ("Model '" +:+ py_str requested_model +:+
    "' is temporarily unavailable. Please try again later.") request_id.

(** From the resolved model on. *)
Definition route_model (a : App) (i : Incoming) (answer : nat → string → Backend)
    (quota : option nat) (sd : SD) (endpoints : list EndpointInfo) (requested_model : pyval) :
  M hstate Response :=
  let request_id := request_id_of i in
  if a.(app_is_external) requested_model then
    js <- gets h_json ;; lift (a.(app_external) i js)
  else
    ever <- lift (model_ever_existed sd requested_model) ;;
    let target := request_endpoint i in
    let endpoints := filter (λ e, serves requested_model target e = true) endpoints in
    count_incoming requested_model ;;;
    match endpoints with
    | [] => ret (RJson (if (ever : bool) then unavailable requested_model request_id
                        else not_found requested_model request_id))
    | _ => dispatch a request_id answer quota endpoints (bool_decide (is_Some target))
    end.

Definition route_general_request (a : App) (i : Incoming) (answer : nat → string → Backend)
    (quota : option nat) : M hstate Response :=
  let request_id := request_id_of i in
  match parse_body i with
  | inl response => ret (RJson response)
  | inr request_json =>
      match a.(app_pre_request) i request_json with
      | Some response =>
          ret (RJson (mkJSON response.(status_code) response.(content)
                 (header_set "X-Request-Id" request_id response.(response_headers))))
      | None =>
          match dget_or "model" PNone request_json with
          | PNone => ret (RJson (error_json 400 "Invalid request: missing 'model' in request body." request_id))
          | requested_model =>
              set_json request_json ;;;
              rewrite a ;;;
              sd <- lift (get_service_discovery a.(app_discovery)).2 ;;
              endpoints <- lift (get_endpoint_info a.(app_world) sd) ;;
              requested_model <- resolve_alias sd requested_model ;;
              route_model a i answer quota sd endpoints requested_model
          end
      end
  end.

(** The state in which the handler starts. *)
Definition h_init (router : R) (i : Incoming) : hstate :=
  mkH router [] i.(in_body) i.(in_request) [] [].

(* ------------------------------------------------------------------ *)
(** ** One attempt *)

(** The backends a log shows contact with. *)
Definition attempted (l : list action) : list string :=
  omap (λ h, match h with HNew u _ => Some u | _ => None end) (hooks l).

Lemma attempted_app l k : attempted (l ++ k) = attempted l ++ attempted k.
Proof. unfold attempted. by rewrite hooks_app, omap_app. Qed.

(** What the handler makes of a backend's behaviour. *)
Inductive kind : Type := KAnswer | KTimeout | KRetry | KRaise.
Definition kind_of (b : Backend) : kind :=
  match b with
  | BResponse _ _ _ _ => KAnswer
  | BFail (HTTPException _ _) _ => KRaise
  | BFail e _ =>
      if is_connect_error e then KRetry
      else if is_TimeoutError e then KTimeout
      else if is_Exception e then KRetry else KRaise
  end.

(** The body is a JSON object, as [process_request] expects. *)
Definition body_ok (s : hstate) : Prop := ∃ d, json_loads s.(h_body) = Some (PDict d).

(** Same state but for the log. *)
Definition with_log (s : hstate) (l : list action) : hstate :=
  mkH s.(h_router) s.(h_json) s.(h_body) s.(h_request) (s.(h_log) ++ l) s.(h_incoming).

Lemma try_backend_spec a rid answer quota k u s :
  body_ok s →
  ∃ l r, try_backend a rid answer quota k u s = (with_log s l, Ok r) ∧ attempted l = [u] ∧
    match answer k u with
    | BFail e _ => r = Err e
    | BResponse hs st _ _ => ∃ items fin, r = Ok (mkAnswer hs st items fin)
    end.
Proof.
  intros [d Hd]. unfold try_backend, bind, gets. set (j := job_of a (h_body s) u rid).
  pose proof (every_run_hooks format_g quota j (answer k u)) as Hh.
  assert (Hat : ∀ l, hooks l ≠ [] →
    (hooks l = [] ∨ ∃ mid T, hooks l = HNew u rid :: mid ++ [T] ∧ Forall (λ h, h = HResponse) mid ∧
      (T = HComplete ∨ T = HFail ∨ T = HAbort)) → attempted l = [u]).
  { intros l Hne [?|(mid & T & Hl & Hm & HT)]; [done|]. unfold attempted. rewrite Hl. simpl. f_equal.
    rewrite omap_app. assert (omap (λ h, match h with HNew u _ => Some u | _ => None end) mid = []) as ->.
    { clear Hl. induction Hm as [|x mid -> Hm IH]; [done|exact IH]. }
    by destruct HT as [->|[->| ->]]. }
  destruct (answer k u) as [e x|hs st chunks fin] eqn:Eb.
  - destruct (process_request_fails format_g quota j e x d Hd) as (g & Eg & Hy).
    rewrite Eg in Hh |- *. exists g.(glog), (Err e). split; [|split; [|done]].
    + unfold log_actions, modify, ret, with_log, first_item. by rewrite Hy.
    + apply Hat; [|exact Hh]. intros Hnil.
      destruct (process_request_run format_g quota j (BFail e x) d Hd) as (s1 & r & st & (Hh1 & _) & E).
      rewrite Eg in E. injection E as -> _. cbn [glog] in Hnil. by rewrite hooks_app, Hh1 in Hnil.
  - destruct (process_request_answers format_g quota j hs st chunks fin d Hd) as (g & r & items & Eg & Hy).
    rewrite Eg in Hh |- *. exists g.(glog), (Ok (mkAnswer hs st items r)). split; [|split; [|eauto]].
    + unfold log_actions, modify, ret, with_log, first_item. by rewrite Hy.
    + apply Hat; [|exact Hh]. intros Hnil.
      destruct (process_request_run format_g quota j (BResponse hs st chunks fin) d Hd)
        as (s1 & r1 & st1 & (Hh1 & _) & E).
      rewrite Eg in E. injection E as -> _. cbn [glog] in Hnil. by rewrite hooks_app, Hh1 in Hnil.
Qed.

(* ------------------------------------------------------------------ *)
(** ** The loop *)

(** The choice of an attempt: the router's state may change, nothing else does. *)
Lemma next_server_spec a remaining by_id attempt server_url s :
  router_inv s.(h_router) → (attempt = 0 → server_url ∈ url <$> remaining) →
  let '(s', r) := next_server a remaining by_id attempt server_url s in
  router_inv s'.(h_router) ∧ s'.(h_log) = s.(h_log) ∧ s'.(h_body) = s.(h_body) ∧
  match r with
  | Ok (Some u) => u ∈ url <$> remaining
  | Ok None => remaining = []
  | Err _ => True
  end.
Proof.
  intros Hinv H0. unfold next_server. destruct attempt as [|k]; simpl; [auto|].
  destruct remaining as [|e0 es]; [done|]. destruct by_id; simpl.
  - split_and!; try done. set_solver.
  - unfold bind, call_router.
    pose proof (route_request_listed (e0 :: es) (app_stats a) (h_request s) (h_json s) (h_router s)
      ltac:(done) Hinv) as Hr.
    destruct (route_request _ _ _ _ (h_router s)) as [r' [[u js]|e]]; destruct Hr as [Hr Hu]; done.
Qed.

(** A total router always chooses. *)
Lemma next_server_total `{!TotalRouter R} a remaining by_id attempt server_url s :
  router_inv s.(h_router) → remaining ≠ [] →
  ∃ u, (next_server a remaining by_id attempt server_url s).2 = Ok (Some u).
Proof.
  intros Hinv Hne. unfold next_server. destruct attempt as [|k]; simpl; [eauto|].
  destruct remaining as [|e0 es]; [done|]. destruct by_id; simpl; [eauto|]. unfold bind, call_router.
  pose proof (route_request_total (e0 :: es) (app_stats a) (h_request s) (h_json s) (h_router s)
    ltac:(done) Hinv) as Hr.
  destruct (route_request _ _ _ _ (h_router s)) as [r' [[u js]|e]]; [eauto|done].
Qed.

(** One turn of the loop, by the kind of the backend's behaviour. *)
Lemma failover_step a rid answer quota endpoints by_id fuel attempt server_url errs last s s1 u :
  next_server a (filter (λ e, e.(url) ∉ errs) endpoints) by_id attempt server_url s = (s1, Ok (Some u)) →
  body_ok s1 →
  ∃ l, attempted l = [u] ∧
    failover a rid answer quota endpoints by_id (S fuel) attempt server_url errs last s =
      match answer attempt u with
      | BResponse hs st _ _ =>
          match (try_backend a rid answer quota attempt u s1).2 with
          | Ok (Ok x) => (with_log s1 l, Ok (Answered x))
          | _ => (with_log s1 l, Err AssertionError)
          end
      | BFail e _ =>
          match kind_of (answer attempt u) with
          | KRetry => failover a rid answer quota endpoints by_id fuel (S attempt) u (u :: errs) (Some e)
                        (with_log s1 l)
          | KTimeout => (with_log s1 l, Ok (TimedOut e))
          | _ => (with_log s1 l, Err e)
          end
      end.
Proof.
  intros Hn Hb. destruct (try_backend_spec a rid answer quota attempt u s1 Hb) as (l & r & E & Hl & Hr).
  exists l. split; [done|]. cbn [failover]. unfold bind at 1. rewrite Hn. unfold bind at 1. rewrite E.
  destruct (answer attempt u) as [e x|hs st chunks fin].
  - subst r. destruct e; reflexivity.
  - destruct Hr as (items & fi & ->). reflexivity.
Qed.

(** What the loop may do: [us] are the backends contacted, from attempt [k] on. *)
Definition loop_ok (answer : nat → string → Backend) (endpoints : list EndpointInfo)
    (fuel k : nat) (errs : list string) (last_error : option exn) (us : list string)
    (r : res Verdict) : Prop :=
  length us ≤ fuel ∧ NoDup us ∧ (∀ u, u ∈ us → u ∈ url <$> endpoints ∧ u ∉ errs) ∧
  (∀ j u, us !! j = Some u → S j < length us → kind_of (answer (k + j) u) = KRetry) ∧
  match r with
  | Ok (Answered x) => ∃ n u chunks fin, length us = S n ∧ us !! n = Some u ∧
      answer (k + n) u = BResponse x.(ans_headers) x.(ans_status) chunks fin
  | Ok (TimedOut e) => ∃ n u b, length us = S n ∧ us !! n = Some u ∧
      answer (k + n) u = BFail e b ∧ kind_of (answer (k + n) u) = KTimeout
  | Ok (Exhausted o) =>
      (∀ j u, us !! j = Some u → kind_of (answer (k + j) u) = KRetry) ∧
      (length us = fuel ∨ ∀ e, e ∈ endpoints → e.(url) ∈ errs ∨ e.(url) ∈ us) ∧
      match length us with
      | 0 => o = last_error
      | S n => ∃ u e b, us !! n = Some u ∧ answer (k + n) u = BFail e b ∧ o = Some e
      end
  | Err _ => True
  end.

(** One more retried attempt in front. *)
Lemma loop_ok_cons answer endpoints fuel k errs last u e b us r :
  u ∈ url <$> endpoints → u ∉ errs → answer k u = BFail e b → kind_of (answer k u) = KRetry →
  loop_ok answer endpoints fuel (S k) (u :: errs) (Some e) us r →
  loop_ok answer endpoints (S fuel) k errs last (u :: us) r.
Proof.
  intros Hu Hn Hans Hk (Hlen & Hnd & Hin & Hre & Hr). unfold loop_ok. simpl.
  split; [lia|]. split; [constructor; [|done]; intros Hc; apply Hin in Hc as [_ Hc]; set_solver|].
  split; [intros v [->|Hv]%elem_of_cons; [done|]; apply Hin in Hv as [? Hv]; set_solver|].
  assert (Hshift : ∀ j, k + S j = S k + j) by (intros; lia).
  split.
  { intros [|j] v Hv Hj; simplify_eq/=; [by rewrite Nat.add_0_r|]. rewrite Hshift. apply Hre; [done|lia]. }
  destruct r as [[x|e'|o]|e']; [..|done].
  - destruct Hr as (n & v & chunks & fin & Hl & Hv & Ha). exists (S n), v, chunks, fin.
    rewrite Hshift. by rewrite Hl.
  - destruct Hr as (n & v & b' & Hl & Hv & Ha & Hkt). exists (S n), v, b'. rewrite Hshift. by rewrite Hl.
  - destruct Hr as (Hall & Hend & Hlast). split_and!.
    + intros [|j] v Hv; simplify_eq/=; [by rewrite Nat.add_0_r|]. rewrite Hshift. by apply Hall.
    + destruct Hend as [->|Hend]; [by left|right]. intros ep Hep.
      apply Hend in Hep as [[->|?]%elem_of_cons|?]; rewrite ?elem_of_cons; auto.
    + destruct us as [|v us]; simpl in *.
      * exists u, e, b. rewrite Nat.add_0_r. done.
      * destruct Hlast as (w & e' & b' & Hw & Ha & ->). exists w, e', b'. by rewrite Hshift.
Qed.

Lemma failover_spec a rid answer quota endpoints by_id fuel attempt server_url errs last s :
  router_inv s.(h_router) → body_ok s →
  (attempt = 0 → server_url ∈ url <$> filter (λ e, e.(url) ∉ errs) endpoints) →
  let '(s', r) := failover a rid answer quota endpoints by_id fuel attempt server_url errs last s in
  router_inv s'.(h_router) ∧
  ∃ us, attempted s'.(h_log) = attempted s.(h_log) ++ us ∧
    loop_ok answer endpoints fuel attempt errs last us r.
Proof.
  revert attempt server_url errs last s.
  induction fuel as [|fuel IH]; intros k server_url errs last s Hinv Hb H0.
  { simpl. split; [done|]. exists []. rewrite app_nil_r. split; [done|].
    split; [done|]. split; [constructor|]. split; [set_solver|]. split; [done|]. split; [done|]. by split; [left|]. }
  set (remaining := filter (λ e, e.(url) ∉ errs) endpoints) in *.
  pose proof (next_server_spec a remaining by_id k server_url s Hinv H0) as Hn.
  destruct (next_server a remaining by_id k server_url s) as [s1 o] eqn:En.
  destruct Hn as (Hinv1 & Hlog1 & Hbody1 & Ho). rewrite <-Hlog1.
  assert (Hb1 : body_ok s1) by (unfold body_ok; by rewrite Hbody1).
  destruct o as [[u|]|e].
  - destruct (failover_step a rid answer quota endpoints by_id fuel k server_url errs last s s1 u En Hb1)
      as (l & Hl & ->).
    assert (Hu : u ∈ url <$> endpoints ∧ u ∉ errs).
    { apply list_elem_of_fmap in Ho as (ep & -> & Hep). apply list_elem_of_filter in Hep as [? ?].
      split; [by apply list_elem_of_fmap_2|done]. }
    assert (Hone : attempted (with_log s1 l).(h_log) = attempted s1.(h_log) ++ [u]).
    { cbn [with_log h_log]. by rewrite attempted_app, Hl. }
    assert (Hstop : ∀ r, match r with
        | Ok (Answered x) => ∃ chunks fin, answer k u = BResponse x.(ans_headers) x.(ans_status) chunks fin
        | Ok (TimedOut e) => ∃ b, answer k u = BFail e b ∧ kind_of (answer k u) = KTimeout
        | Ok (Exhausted _) => False
        | Err _ => True
        end → loop_ok answer endpoints (S fuel) k errs last [u] r).
    { intros r Hr. split; [simpl; lia|]. split; [apply NoDup_singleton|].
      split; [by intros v ->%list_elem_of_singleton|]. split; [intros [|j] v Hv; simpl; [lia|done]|].
      destruct r as [[x|e'|o]|e']; [..|done|done].
      - destruct Hr as (chunks & fin & Ha). exists 0, u, chunks, fin. by rewrite Nat.add_0_r.
      - destruct Hr as (b & Ha). exists 0, u, b. by rewrite Nat.add_0_r. }
    destruct (answer k u) as [e b|hs st chunks fin] eqn:Ea.
    + destruct (kind_of (BFail e b)) eqn:Ek.
      * split; [done|]. exists [u]. split; [exact Hone|]. by apply Hstop.
      * split; [done|]. exists [u]. split; [exact Hone|]. apply Hstop. eauto.
      * pose proof (IH (S k) u (u :: errs) (Some e) (with_log s1 l) Hinv1 Hb1 ltac:(done)) as Hrec.
        destruct (failover _ _ _ _ _ _ _ _ _ _ _ _) as [s' r]. destruct Hrec as (Hinv' & us & Hat & Hok).
        split; [done|]. exists (u :: us). rewrite Hat, Hone, <-app_assoc. split; [done|].
        eapply loop_ok_cons; [apply Hu|apply Hu|exact Ea|by rewrite Ea|exact Hok].
      * split; [done|]. exists [u]. split; [exact Hone|]. by apply Hstop.
    + destruct (try_backend_spec a rid answer quota k u s1 Hb1) as (l' & r' & E & _ & Hr).
      rewrite Ea in Hr. destruct Hr as (items & fi & ->). rewrite E. cbn [snd].
      split; [done|]. exists [u]. split; [exact Hone|]. apply Hstop. simpl. eauto.
  - cbn [failover]. fold remaining. unfold bind at 1. rewrite En. cbv beta iota. split; [done|]. exists []. rewrite app_nil_r. split; [done|].
    split; [simpl; lia|]. split; [constructor|]. split; [set_solver|]. split; [done|]. split; [done|].
    split; [right|done]. intros ep Hep. destruct (decide (url ep ∈ errs)); [by left|].
    assert (Hc : ep ∈ remaining) by (by apply list_elem_of_filter). rewrite Ho in Hc. set_solver.
  - cbn [failover]. fold remaining. unfold bind at 1. rewrite En. cbv beta iota. split; [done|]. exists []. rewrite app_nil_r. split; [done|].
    split; [simpl; lia|]. split; [constructor|]. split; [set_solver|]. done.
Qed.

(** A loop over backends that answer or fail in a way the handler retries raises only
    what the router raises. *)
Lemma failover_returns `{!TotalRouter R} a rid answer quota endpoints by_id fuel attempt server_url errs
    last s :
  router_inv s.(h_router) → body_ok s →
  (attempt = 0 → server_url ∈ url <$> filter (λ e, e.(url) ∉ errs) endpoints) →
  (∀ k u, u ∈ url <$> endpoints →
     kind_of (answer k u) = KAnswer ∨ kind_of (answer k u) = KRetry) →
  is_ok (failover a rid answer quota endpoints by_id fuel attempt server_url errs last s).2 = true.
Proof.
  intros Hinv Hb H0 Hk. revert attempt server_url errs last s Hinv Hb H0.
  induction fuel as [|fuel IH]; intros k server_url errs last s Hinv Hb H0; [done|].
  set (remaining := filter (λ e, e.(url) ∉ errs) endpoints) in *.
  pose proof (next_server_spec a remaining by_id k server_url s Hinv H0) as Hn.
  destruct (next_server a remaining by_id k server_url s) as [s1 o] eqn:En.
  destruct Hn as (Hinv1 & _ & Hbody1 & Ho).
  assert (Hb1 : body_ok s1) by (unfold body_ok; by rewrite Hbody1).
  destruct o as [[u|]|e].
  - destruct (failover_step a rid answer quota endpoints by_id fuel k server_url errs last s s1 u En Hb1)
      as (l & _ & ->).
    assert (Hu : u ∈ url <$> endpoints).
    { apply list_elem_of_fmap in Ho as (ep & -> & Hep). apply list_elem_of_filter in Hep as [_ ?].
      by apply list_elem_of_fmap_2. }
    specialize (Hk k u Hu). destruct (answer k u) as [e b|hs st chunks fin] eqn:Ea.
    + destruct Hk as [Hk|Hk].
      * exfalso. simpl in Hk. by repeat case_match.
      * rewrite Hk. by apply IH.
    + destruct (try_backend_spec a rid answer quota k u s1 Hb1) as (l' & r' & E & _ & Hr).
      rewrite Ea in Hr. destruct Hr as (items & fi & ->). by rewrite E.
  - cbn [failover]. fold remaining. unfold bind at 1. by rewrite En.
  - exfalso. destruct (decide (remaining = [])) as [Hrem|Hrem].
    + rewrite Hrem in En. unfold next_server in En. destruct k; [|done].
      specialize (H0 eq_refl). rewrite Hrem in H0. set_solver.
    + destruct (next_server_total a remaining by_id k server_url s Hinv Hrem) as [u Hu].
      rewrite En in Hu. done.
Qed.

(* ------------------------------------------------------------------ *)
(** ** The handler *)

(** What the client gets, after the backends [us] were contacted. *)
Definition result_ok (a : App) (request_id : string) (answer : nat → string → Backend)
    (urls us : list string) (r : res Response) : Prop :=
  match r with
  | Ok (RStream st hs _ _ _) => ∃ n u bhs chunks fin, length us = S n ∧ us !! n = Some u ∧
      answer n u = BResponse bhs st chunks fin ∧ hs = strip_response_headers bhs request_id
  | Ok (RJson x) =>
      (us = [] ∧ urls = [] ∧ (x.(status_code) = 404 ∨ x.(status_code) = 503)%Z) ∨
      ∃ n u e b, length us = S n ∧ us !! n = Some u ∧ answer n u = BFail e b ∧
        ((kind_of (answer n u) = KTimeout ∧
          x = pre_header_timeout_response format_g request_id a.(app_timeout) e) ∨
         (is_connect_error e = true ∧ x = backend_connect_error_response request_id ∧
          (length us = Z.to_nat (a.(app_failover) + 1) ∨ ∀ u, u ∈ urls → u ∈ us)))
  | Err _ => True
  end.
Definition contract (a : App) (request_id : string) (answer : nat → string → Backend)
    (urls us : list string) (r : res Response) : Prop :=
  length us ≤ Z.to_nat (a.(app_failover) + 1) ∧ NoDup us ∧ (∀ u, u ∈ us → u ∈ urls) ∧
  (∀ j u, us !! j = Some u → S j < length us → kind_of (answer j u) = KRetry) ∧
  result_ok a request_id answer urls us r.

(** No backend was contacted. *)
Lemma contract_nil a rid answer urls r : result_ok a rid answer urls [] r → contract a rid answer urls [] r.
Proof. intros Hr. split; [simpl; lia|]. split; [constructor|]. split; [set_solver|]. done. Qed.

(** The first choice and the body that is sent. *)
Lemma dispatch_start a rid answer quota endpoints by_id s :
  router_inv s.(h_router) → body_ok s → endpoints ≠ [] →
  (∃ s1 e, dispatch a rid answer quota endpoints by_id s = (s1, Err e) ∧
     router_inv s1.(h_router) ∧ s1.(h_log) = s.(h_log) ∧
     is_ok (route_request endpoints a.(app_stats) s.(h_request) s.(h_json) s.(h_router)).2 = false) ∨
  ∃ s1 u, router_inv s1.(h_router) ∧ body_ok s1 ∧ s1.(h_log) = s.(h_log) ∧ u ∈ url <$> endpoints ∧
    dispatch a rid answer quota endpoints by_id s =
      (v <- failover a rid answer quota endpoints by_id (Z.to_nat (a.(app_failover) + 1)) 0 u [] None ;;
       lift (respond a rid v)) s1.
Proof.
  intros Hinv Hb Hne. unfold dispatch. destruct endpoints as [|e0 es]; [done|].
  assert (Hpick : (∃ s1 e, (if by_id then ret e0.(url) else call_router a (e0 :: es)) s = (s1, Err e) ∧
      router_inv s1.(h_router) ∧ s1.(h_log) = s.(h_log) ∧
      is_ok (route_request (e0 :: es) a.(app_stats) s.(h_request) s.(h_json) s.(h_router)).2 = false) ∨
    ∃ s1 u, (if by_id then ret e0.(url) else call_router a (e0 :: es)) s = (s1, Ok u) ∧
      router_inv s1.(h_router) ∧ body_ok s1 ∧ s1.(h_log) = s.(h_log) ∧ u ∈ url <$> e0 :: es).
  { destruct by_id; simpl.
    - right. exists s, e0.(url). split_and!; try done. set_solver.
    - unfold call_router.
      pose proof (route_request_listed (e0 :: es) (app_stats a) (h_request s) (h_json s) (h_router s)
        ltac:(done) Hinv) as Hr.
      destruct (route_request _ _ _ _ (h_router s)) as [r' [[u js]|e]]; destruct Hr as [Hr Hu].
      + right. by eexists _, u.
      + left. by eexists _, e. }
  destruct Hpick as [(s1 & e & E & ? & ? & ?)|(s1 & u & E & Hinv1 & Hb1 & Hlog & Hu)].
  - left. exists s1, e. unfold bind at 1. by rewrite E.
  - right. unfold bind at 1. rewrite E. unfold bind at 1, gets at 1. destruct (injects_priority (h_router s1)).
    + eexists _, u. split; [|split; [|split; [|split; [exact Hu|reflexivity]]]]; simpl; try done.
      exists (h_json s1). apply json_roundtrip.
    + exists s1, u. done.
Qed.

(** Distinct elements of a list, as many as it has values, are all its values. *)
Lemma covers (us urls : list string) x :
  NoDup us → (∀ u, u ∈ us → u ∈ urls) → size (list_to_set urls : gset string) ≤ length us →
  x ∈ urls → x ∈ us.
Proof.
  intros Hnd Hin Hsize Hx.
  assert (E : (list_to_set us : gset string) = list_to_set urls).
  { apply set_subseteq_size_eq; [set_solver|].
    pose proof (size_list_to_set (C := gset string) us Hnd). lia. }
  assert (Hc : x ∈ (list_to_set us : gset string)) by (rewrite E; by apply elem_of_list_to_set).
  by rewrite elem_of_list_to_set in Hc.
Qed.

Lemma dispatch_contract a rid answer quota endpoints by_id s :
  router_inv s.(h_router) → body_ok s → endpoints ≠ [] →
  let '(s', r) := dispatch a rid answer quota endpoints by_id s in
  router_inv s'.(h_router) ∧
  ∃ us, attempted s'.(h_log) = attempted s.(h_log) ++ us ∧
    contract a rid answer (url <$> endpoints) us r.
Proof.
  intros Hinv Hb Hne. destruct (dispatch_start a rid answer quota endpoints by_id s Hinv Hb Hne)
    as [(s1 & e & -> & Hi1 & Hl1 & _)|(s1 & u & Hi1 & Hb1 & Hl1 & Hu & ->)].
  { split; [done|]. exists []. rewrite app_nil_r, Hl1. split; [done|]. by apply contract_nil. }
  set (n := Z.to_nat (app_failover a + 1)).
  pose proof (failover_spec a rid answer quota endpoints by_id n 0 u [] None s1 Hi1 Hb1) as Hf.
  unfold bind at 1. destruct (failover _ _ _ _ _ _ _ _ _ _ _ s1) as [s2 r].
  destruct Hf as (Hi2 & us & Hat & Hlen & Hnd & Hin & Hre & Hr).
  { intros _. apply list_elem_of_fmap in Hu as (ep & -> & Hep). apply list_elem_of_fmap_2.
    apply list_elem_of_filter. set_solver. }
  rewrite Hl1 in Hat.
  assert (Hbase : ∀ r', result_ok a rid answer (url <$> endpoints) us r' →
    contract a rid answer (url <$> endpoints) us r').
  { intros r' Hr'. split; [done|]. split; [done|]. split; [intros v Hv; by apply Hin|]. by split. }
  destruct r as [v|e]; simpl; (split; [done|]; exists us; split; [done|]; apply Hbase); [|done].
  destruct v as [x|e|[e|]]; simpl.
  - destruct Hr as (m & v & chunks & fin & Hl & Hv & Ha). by exists m, v, (ans_headers x), chunks, fin.
  - right. destruct Hr as (m & v & b & Hl & Hv & Ha & Hk). exists m, v, e, b.
    split_and!; [done|done|exact Ha|]. left. by split.
  - destruct (is_connect_error e) eqn:Ec; [|done]. right.
    destruct Hr as (_ & Hend & Hlast). destruct (length us) as [|m] eqn:El; [done|].
    destruct Hlast as (v & e' & b & Hv & Ha & [= <-]). exists m, v, e, b.
    split_and!; try done. right. split_and!; try done.
    destruct Hend as [?|Hall]; [by left|right].
    intros w (ep & -> & Hep)%list_elem_of_fmap. apply Hall in Hep as [?|?]; [set_solver|done].
  - done.
Qed.

Lemma route_model_contract a i answer quota sd endpoints m s :
  router_inv s.(h_router) → body_ok s → a.(app_is_external) m = false →
  let engines := filter (λ e, serves m (request_endpoint i) e = true) endpoints in
  let '(s', r) := route_model a i answer quota sd endpoints m s in
  router_inv s'.(h_router) ∧
  ∃ us, attempted s'.(h_log) = attempted s.(h_log) ++ us ∧
    contract a (request_id_of i) answer (url <$> engines) us r.
Proof.
  intros Hinv Hb Hext engines. unfold route_model. rewrite Hext. fold engines.
  unfold bind at 1, lift. destruct (model_ever_existed sd m) as [ever|e].
  2:{ split; [done|]. exists []. rewrite app_nil_r. split; [done|]. by apply contract_nil. }
  unfold bind at 1, count_incoming, modify. destruct engines as [|e0 es] eqn:Ee.
  - simpl. split; [done|]. exists []. rewrite app_nil_r. split; [done|].
    apply contract_nil. left. destruct ever; simpl; auto.
  - rewrite <-Ee. refine (dispatch_contract _ _ _ _ _ _ (mkH _ _ _ _ _ _) Hinv Hb _). by rewrite Ee.
Qed.

(** C37: failover is bounded and safe: for any router that keeps its contract, a
    request for a model contacts only engines that are discovered, awake, serve the
    model and match the requested id; it contacts none twice, at most
    [max_instance_failover_reroute_attempts] + 1 in all, and goes on to another one
    only after a connection failure or another error before the response headers.  A
    stream carries the status and the headers of the last engine contacted; a 504
    says that the last one timed out, and is never retried; a 502 says that the last
    one refused the connection and that the attempts or the engines are used up; a
    404 or 503 says that no engine serves the model and none was contacted. *)
Theorem failover_is_bounded_and_safe a i answer quota sd endpoints m s :
  router_inv s.(h_router) → body_ok s → a.(app_is_external) m = false →
  let engines := filter (λ e, serves m (request_endpoint i) e = true) endpoints in
  let '(s', r) := route_model a i answer quota sd endpoints m s in
  router_inv s'.(h_router) ∧
  ∃ us, attempted s'.(h_log) = attempted s.(h_log) ++ us ∧
    contract a (request_id_of i) answer (url <$> engines) us r.
Proof. apply route_model_contract. Qed.

Lemma route_model_live `{!TotalRouter R} a i answer quota sd endpoints m s ever live :
  router_inv s.(h_router) → body_ok s → a.(app_is_external) m = false →
  model_ever_existed sd m = Ok ever →
  let engines := filter (λ e, serves m (request_endpoint i) e = true) endpoints in
  (∀ k u, u ∈ url <$> engines → kind_of (answer k u) = KAnswer ∨ kind_of (answer k u) = KRetry) →
  live ∈ url <$> engines → (∀ k, kind_of (answer k live) = KAnswer) →
  (Z.of_nat (size (url_set engines)) <= a.(app_failover) + 1)%Z →
  ∃ st hs mt items fin,
    (route_model a i answer quota sd endpoints m s).2 = Ok (RStream st hs mt items fin).
Proof.
  intros Hinv Hb Hext Hever engines Hk Hlive Hl Hn. unfold route_model. rewrite Hext. fold engines.
  unfold bind at 1, lift. rewrite Hever. unfold bind at 1, count_incoming, modify.
  destruct engines as [|e0 es] eqn:Ee; [set_solver|]. rewrite <-Ee in *. clear e0 es Ee.
  set (s0 := mkH _ _ _ _ _ _). assert (Hne : engines ≠ []) by (intros E; rewrite E in Hlive; set_solver).
  set (by_id := bool_decide _).
  destruct (dispatch_start a (request_id_of i) answer quota engines by_id s0 Hinv Hb Hne)
    as [(s1 & e & _ & _ & _ & Hraise)|(s1 & u & Hi1 & Hb1 & _ & Hu & ->)].
  { by rewrite route_request_total in Hraise. }
  set (n := Z.to_nat (app_failover a + 1)).
  assert (H0 : 0 = 0 → u ∈ url <$> filter (λ e, e.(url) ∉ []) engines).
  { intros _. apply list_elem_of_fmap in Hu as (ep & -> & Hep). apply list_elem_of_fmap_2.
    apply list_elem_of_filter. set_solver. }
  pose proof (failover_returns a (request_id_of i) answer quota engines by_id n 0 u [] None s1 Hi1 Hb1 H0 Hk) as Hok.
  pose proof (failover_spec a (request_id_of i) answer quota engines by_id n 0 u [] None s1 Hi1 Hb1 H0) as Hf.
  unfold bind at 1. destruct (failover _ _ _ _ _ _ _ _ _ _ _ s1) as [s2 [v|e]]; [|done].
  destruct Hf as (_ & us & _ & Hlen & Hnd & Hin & _ & Hr).
  destruct v as [x|e|o]; simpl; [by repeat eexists|exfalso..].
  - destruct Hr as (k & v & b & _ & Hv & _ & Hkt). apply list_elem_of_lookup_2, Hin in Hv as [Hv _].
    simpl in Hkt. destruct (Hk k v Hv); congruence.
  - destruct Hr as (Hall & Hend & _).
    assert (Hout : live ∉ us).
    { intros (j & Hj)%list_elem_of_lookup. apply Hall in Hj. simpl in Hj. by rewrite Hl in Hj. }
    destruct Hend as [Hfull|Hend].
    + apply Hout. eapply covers; [exact Hnd|intros w Hw; by apply Hin|rewrite Hfull; unfold n; unfold url_set in Hn; lia|done].
    + apply list_elem_of_fmap in Hlive as (ep & -> & Hep). apply Hend in Hep as [?|?]; [set_solver|done].
Qed.

(** C8: failover finds a live engine: suppose that every engine that serves the model either
    answers or fails, before its response headers, in a way the handler retries (a refused
    connection or another ordinary exception; a timeout of the read or of the entry is not
    one, it is answered with a 504 at once), that one of them always answers, that there are
    at least as many attempts as engines, and that the router always chooses, as round
    robin, session and priority routing do.  Then, whatever the router's choices, the
    client gets a stream with the status and the headers of the last engine contacted, which
    serves the model and answered. *)
Theorem failover_reaches_a_live_engine `{!TotalRouter R} a i answer quota sd endpoints m s ever live :
  router_inv s.(h_router) → body_ok s → a.(app_is_external) m = false →
  model_ever_existed sd m = Ok ever →
  let engines := filter (λ e, serves m (request_endpoint i) e = true) endpoints in
  (∀ k u, u ∈ url <$> engines → kind_of (answer k u) = KAnswer ∨ kind_of (answer k u) = KRetry) →
  live ∈ url <$> engines → (∀ k, kind_of (answer k live) = KAnswer) →
  (Z.of_nat (size (url_set engines)) <= a.(app_failover) + 1)%Z →
  let '(s', r) := route_model a i answer quota sd endpoints m s in
  ∃ us k u bhs st chunks fin mt items fin',
    attempted s'.(h_log) = attempted s.(h_log) ++ us ∧ length us = S k ∧ us !! k = Some u ∧ u ∈ url <$> engines ∧
    answer k u = BResponse bhs st chunks fin ∧
    r = Ok (RStream st (strip_response_headers bhs (request_id_of i)) mt items fin').
Proof.
  intros Hinv Hb Hext Hever engines Hk Hlive Hl Hn.
  destruct (route_model_live a i answer quota sd endpoints m s ever live Hinv Hb Hext Hever Hk Hlive Hl Hn)
    as (st & hs & mt & items & fin' & Hr).
  pose proof (route_model_contract a i answer quota sd endpoints m s Hinv Hb Hext) as H. fold engines in H.
  destruct (route_model a i answer quota sd endpoints m s) as [s' r]. cbn in Hr. subst r.
  destruct H as (_ & us & Hat & _ & _ & Hin & _ & k & u & bhs & chunks & fin & Hlen & Hu & Ha & ->).
  exists us, k, u, bhs, st, chunks, fin, mt, items, fin'. split; [done|]. split; [done|]. split; [done|].
  split; [|by split]. apply Hin. by eapply list_elem_of_lookup_2.
Qed.

(** ** Admission *)

(** The model an alias stands for. *)
Definition unalias (sd : SD) (m : string) : string :=
  match aliases_of sd with Some aliases => default m (dget m aliases) | None => m end.

Lemma resolve_alias_spec sd m s :
  ∃ s', resolve_alias sd (PStr m) s = (s', Ok (PStr (unalias sd m))) ∧
    s'.(h_router) = s.(h_router) ∧ s'.(h_log) = s.(h_log) ∧ s'.(h_incoming) = s.(h_incoming) ∧
    (body_ok s → body_ok s') ∧
    (unalias sd m ≠ m → dget "model" s'.(h_json) = Some (PStr (unalias sd m)) ∧
       json_loads s'.(h_body) = Some (PDict s'.(h_json))).
Proof.
  assert (Hsame : ∃ s', (s, Ok (PStr m)) = (s', @Ok pyval (PStr m)) ∧
    s'.(h_router) = s.(h_router) ∧ s'.(h_log) = s.(h_log) ∧ s'.(h_incoming) = s.(h_incoming) ∧
    (body_ok s → body_ok s') ∧
    (m ≠ m → dget "model" s'.(h_json) = Some (PStr m) ∧ json_loads s'.(h_body) = Some (PDict s'.(h_json))))
    by (exists s; split_and!; done).
  unfold resolve_alias, unalias. destruct (aliases_of sd) as [[|kv aliases]|]; [exact Hsame| |exact Hsame].
  simpl negb. cbv iota. destruct (dget m (kv :: aliases)) as [target|]; [|exact Hsame].
  unfold bind, gets, replace_model_in_request_body, set_body, modify. eexists. split; [done|].
  cbn [h_router h_log h_incoming h_json h_body]. split_and!; try done.
  - intros _. eexists. apply json_roundtrip.
  - intros _. split; [apply dget_dset_eq|apply json_roundtrip].
Qed.

Lemma rewrite_spec a s :
  body_ok s →
  ∃ js, rewrite a s = (mkH s.(h_router) js s.(h_body) s.(h_request) s.(h_log) s.(h_incoming), Ok tt) ∧
    (json_loads s.(h_body) = Some (PDict s.(h_json)) → js = s.(h_json)).
Proof.
  intros [d Hd]. unfold rewrite, rewrite_request. destruct (app_rewriter a).
  - exists d. unfold bind, gets, lift, modify. rewrite Hd. split; [done|]. congruence.
  - exists s.(h_json). by destruct s.
Qed.

Lemma parse_body_inr i js k v :
  parse_body i = inr js → dget k js = Some v → json_loads i.(in_body) = Some (PDict js).
Proof.
  unfold parse_body. destruct (body_empty _); [by intros [= <-]|].
  destruct (json_loads _) as [[]|]; naive_solver.
Qed.

(** The state after admission: the model is resolved, nothing else has happened. *)
Lemma admission a i answer quota router js m sd endpoints :
  parse_body i = inr js → a.(app_pre_request) i js = None → dget "model" js = Some (PStr m) →
  a.(app_discovery).(current) = Some sd → get_endpoint_info a.(app_world) sd = Ok endpoints →
  ∃ s, route_general_request a i answer quota (h_init router i) =
      route_model a i answer quota sd endpoints (PStr (unalias sd m)) s ∧
    s.(h_router) = router ∧ s.(h_log) = [] ∧ s.(h_incoming) = [] ∧ body_ok s.
Proof.
  intros Hp Hpre Hm Hsd Heps. pose proof (parse_body_inr _ _ _ _ Hp Hm) as Hb.
  unfold route_general_request. rewrite Hp, Hpre. unfold dget_or. rewrite Hm.
  change (default PNone (Some (PStr m))) with (PStr m). cbv iota.
  unfold bind at 1, set_json, modify. unfold bind at 1.
  destruct (rewrite_spec a (mkH router js i.(in_body) i.(in_request) [] [])) as (js' & E & _);
    [by exists js|].
  unfold h_init. cbn [h_router h_json h_body h_request h_log h_incoming] in E |- *. rewrite E.
  unfold bind at 1, lift at 1. unfold get_service_discovery. rewrite Hsd. simpl.
  unfold bind at 1, lift at 1. rewrite Heps. unfold bind at 1.
  destruct (resolve_alias_spec sd m (mkH router js' i.(in_body) i.(in_request) [] []))
    as (s' & -> & Hr & Hl & Hi & Hbs & _).
  exists s'. split_and!; try done. apply Hbs. by exists js.
Qed.

End handler.

(* ------------------------------------------------------------------ *)
(** ** Witnesses *)

(** Two static backends for the model [m], which also goes by the alias [gpt]; the
    first one refuses connections. *)
Definition static_example : SD := SDStatic
  (Static.mkState ["http://a:1"; "http://b:1"] ["m"; "m"] (Some [("gpt", "m")]) None None
     ["id-a"; "id-b"] 0 [] true None None).
Definition app_example : App (body := pyval) :=
  mkApp world_example (mkGlobal (Some static_example) []) ∅ DEFAULT_BACKEND_CLIENT_TIMEOUT
    true (λ _ _, None) (λ _, false) (λ _ _, Err AssertionError) 1 false (Ok tt) (λ _, None).
Definition incoming_example (model : string) : Incoming (body := pyval) :=
  mkIncoming (mkRequest [("X-Request-Id", "req-1")]) "uuid" (PDict [("model", PStr model)]) [].
Definition answer_example (k : nat) (u : string) : Backend :=
  if decide (u = "http://b:1") then BResponse [("content-type", "application/json")] 200 ["{}"] None
  else BFail ClientConnectorError false.
Definition endpoints_example : list EndpointInfo :=
  match get_endpoint_info world_example static_example with Ok l => l | Err _ => [] end.

Definition format_example (q : Q) : string := "1".
Definition repr_example (v : pyval) : string := "".
Definition start_example (model : string) : hstate (R := RoundRobinRouter.state) (body := pyval) :=
  h_init RoundRobinRouter.init (incoming_example model).

Lemma failover_bounded_witness :
  let '(s', r) := route_model format_example (λ _, 0) repr_example app_example (incoming_example "m")
    answer_example None static_example endpoints_example (PStr "m") (start_example "m") in
  ∃ us, attempted s'.(h_log) = us ∧ length us ≤ 2 ∧
    (∀ u, u ∈ us → u ∈ ["http://a:1"; "http://b:1"]).
Proof.
  pose proof (failover_is_bounded_and_safe format_example (λ _, 0) repr_example app_example
    (incoming_example "m") answer_example None static_example endpoints_example (PStr "m")
    (start_example "m")) as H.
  destruct (route_model _ _ _ _ _ _ _ _ _ _ _) as [s' r].
  destruct H as (_ & us & Hat & Hlen & _ & Hin & _).
  - exact RoundRobinRouter.inv_init.
  - exists [("model", PStr "m")]. reflexivity.
  - reflexivity.
  - exists us. split; [exact Hat|]. split; [exact Hlen|exact Hin].
Defined.

Lemma failover_live_witness :
  ∃ us k u bhs st chunks fin mt items fin',
    attempted (route_model format_example (λ _, 0) repr_example app_example (incoming_example "m")
       answer_example None static_example endpoints_example (PStr "m") (start_example "m")).1.(h_log) = us ∧
    us !! k = Some u ∧ answer_example k u = BResponse bhs st chunks fin ∧
    (route_model format_example (λ _, 0) repr_example app_example (incoming_example "m")
       answer_example None static_example endpoints_example (PStr "m") (start_example "m")).2
    = Ok (RStream st (strip_response_headers bhs "req-1") mt items fin').
Proof.
  pose proof (failover_reaches_a_live_engine format_example (λ _, 0) repr_example app_example
    (incoming_example "m") answer_example None static_example endpoints_example (PStr "m")
    (start_example "m") true "http://b:1") as H.
  destruct (route_model _ _ _ _ _ _ _ _ _ _ _) as [s' r].
  destruct H as (us & k & u & bhs & st & chunks & fin & mt & items & fin' & Hat & _ & Hu & _ & Ha & Hr).
  - exact RoundRobinRouter.inv_init.
  - exists [("model", PStr "m")]. reflexivity.
  - reflexivity.
  - reflexivity.
  - intros k u _. unfold answer_example. case_decide; [by left|by right].
  - vm_compute. right. left.
  - intros k. reflexivity.
  - vm_compute. discriminate.
  - exists us, k, u, bhs, st, chunks, fin, mt, items, fin'. split; [exact Hat|]. split; [exact Hu|]. split; [exact Ha|exact Hr].
Defined.

(** The alias is resolved, the first engine refuses the connection and the second
    one's answer is streamed. *)
Example alias_and_failover :
  let '(s, r) := route_general_request format_example (λ _ : pyval, false) (λ _, 0) repr_example
    app_example (incoming_example "gpt") answer_example None (start_example "gpt") in
  attempted s.(h_log) = ["http://a:1"; "http://b:1"] ∧
  s.(h_body) = PDict [("model", PStr "m")] ∧
  r = Ok (RStream 200 [("X-Request-Id", "req-1")] "application/json" [IChunk "{}"] (Ok tt)).
Proof. vm_compute. split_and!; reflexivity. Qed.

Example unknown_model_not_found :
  (route_general_request format_example (λ _ : pyval, false) (λ _, 0) repr_example
    app_example (incoming_example "x") answer_example None (start_example "x")).2 =
  Ok (RJson (not_found repr_example (PStr "x") "req-1")).
Proof. vm_compute. reflexivity. Qed.

