(* ===== verification/ExternalProviders.v ===== *)
(** * External providers
      (src/src/vllm_router/external_providers/ and [process_external_provider_request] of
       src/src/vllm_router/services/request_service/request.py)

    Models can be served by an outside provider instead of an engine: the manager reads
    the providers' configuration, indexes their models and aliases and, at startup,
    drops the models a provider does not serve; a request for such a model is sent to
    its provider, with retries.  The environment and the providers' answers are
    parameters; every request that leaves the process is logged. *)

From S2P Require Import Prelude PyDict PyStr PyVal Routing ServiceDiscovery.
From S2P Require Import RouterInterface HttpBackend ProcessRequest RouteRequest.

Local Open Scope py_scope.

(* ------------------------------------------------------------------ *)
(** ** Configuration (models.py) *)

Record ExternalModelConfig : Type := mkModel {
  em_id : string;
  em_type : string;
  em_aliases : list string
}.
Record ExternalProviderConfig : Type := mkProvider {
  ep_name : string;
  ep_type : string;
  ep_api_base : string;
  ep_models : list ExternalModelConfig;
  ep_api_key_env_var : option string;
  ep_timeout : Q;
  ep_max_retries : Z;
  ep_custom_headers : dict string string
}.

(** [data["k"]] and [data.get("k", default)]; a value of another type than the dataclass
    declares is refused here, where the code would carry it along. *)
Definition as_list_of {A} (f : pyval → res A) (v : pyval) : res (list A) :=
  match v with PList l => mapM_res f l | _ => Err TypeError end.
Definition as_dict (v : pyval) : res (dict string pyval) :=
  match v with PDict d => Ok d | _ => Err TypeError end.
Definition as_number (v : pyval) : res Q :=
  match v with PInt z => Ok (inject_Z z) | PFloat q => Ok q | _ => Err TypeError end.
Definition as_int (v : pyval) : res Z := match v with PInt z => Ok z | _ => Err TypeError end.
Definition as_opt_str (v : pyval) : res (option string) :=
  match v with PNone => Ok None | PStr s => Ok (Some s) | _ => Err TypeError end.
Definition required (k : string) (d : dict string pyval) : res pyval := of_option (KeyError k) (dget k d).

Definition model_from_dict (data : pyval) : res ExternalModelConfig :=
  rbind (as_dict data) (λ d,
  rbind (rbind (required "id" d) as_str) (λ id,
  rbind (as_str (dget_or "type" (PStr "chat") d)) (λ type,
  rbind (as_list_of as_str (dget_or "aliases" (PList []) d)) (λ aliases,
  Ok (mkModel id type aliases))))).
Definition header_item (kv : string * pyval) : res (string * string) :=
  rbind (as_str kv.2) (λ v, Ok (kv.1, v)).
Definition provider_from_dict (data : pyval) : res ExternalProviderConfig :=
  rbind (as_dict data) (λ d,
  rbind (as_list_of model_from_dict (dget_or "models" (PList []) d)) (λ models,
  rbind (rbind (required "name" d) as_str) (λ name,
  rbind (rbind (required "type" d) as_str) (λ type,
  rbind (rbind (required "api_base" d) as_str) (λ api_base,
  rbind (as_opt_str (dget_or "api_key_env_var" PNone d)) (λ env_var,
  rbind (as_number (dget_or "timeout" (PFloat 30) d)) (λ timeout,
  rbind (as_int (dget_or "max_retries" (PInt 3) d)) (λ max_retries,
  rbind (rbind (as_dict (dget_or "custom_headers" (PDict []) d)) (mapM_res header_item)) (λ headers,
  Ok (mkProvider name type api_base models env_var timeout max_retries headers)))))))))).

Definition model_ids (m : ExternalModelConfig) : list string := m.(em_id) :: m.(em_aliases).
Definition get_all_model_ids (c : ExternalProviderConfig) : list string :=
  mjoin (model_ids <$> c.(ep_models)).
(** The first model with that id or alias. *)
Definition resolve_model_id (c : ExternalProviderConfig) (requested_model : pyval) : option string :=
  em_id <$> find (λ m, eq_str requested_model m.(em_id) || existsb (eq_str requested_model) m.(em_aliases))
              c.(ep_models).

(** [self.api_key_env_var or default_env_var], then the environment. *)
Definition get_api_key (getenv : string → option string) (default_env_var : option string)
    (c : ExternalProviderConfig) : res (option string) :=
  let env_var := match c.(ep_api_key_env_var) with
                 | Some v => if decide (v = "") then default_env_var else Some v
                 | None => default_env_var
                 end in
  match env_var with
  | Some v =>
      if decide (v = "") then Ok None else
      match getenv v with
      | Some key => if decide (key = "") then Err (ValueError "API key for provider not found") else Ok (Some key)
      | None => Err (ValueError "API key for provider not found")
      end
  | None => Ok None
  end.

(* ------------------------------------------------------------------ *)
(** ** The manager (registry.py) *)

(** An [OpenAIProvider], the only adapter class there is. *)
Record adapter : Type := mkAdapter {
  config : ExternalProviderConfig;
  api_key : option string
}.
Definition ADAPTER_REGISTRY : list string := ["openai"].

Abbreviation entry := (string * adapter * string)%type.
Record manager : Type := mkManager {
  adapters : dict string adapter;
  model_index : dict string entry
}.
Definition manager_init : manager := mkManager [] [].

Section manager.
Context (getenv : string → option string).

Definition register_model_id (model_id provider_name : string) (a : adapter) (canonical_id : string) :
  M manager unit := λ s,
  let conflict := match dget model_id s.(model_index) with
                  | Some (existing_provider, _, _) => negb (bool_decide (existing_provider = provider_name))
                  | None => false
                  end in
  if conflict then (s, Err (ValueError "Model ID conflicts with another provider"))
  else (mkManager s.(adapters) (dset model_id (provider_name, a, canonical_id) s.(model_index)), Ok tt).

Definition register (c : ExternalProviderConfig) : M manager unit :=
  if bool_decide (c.(ep_type) ∈ ADAPTER_REGISTRY) then
    key <- lift (get_api_key getenv (Some "OPENAI_API_KEY") c) ;;
    let a := mkAdapter c key in
    modify (λ s, mkManager (dset c.(ep_name) a s.(adapters)) s.(model_index)) ;;;
    for_each c.(ep_models) (λ m,
      register_model_id m.(em_id) c.(ep_name) a m.(em_id) ;;;
      for_each m.(em_aliases) (λ alias, register_model_id alias c.(ep_name) a m.(em_id)))
  else raise (ValueError "No adapter found for provider type").

Definition create_external_provider_manager (provider_configs : list pyval) : res manager :=
  let '(s, r) := for_each provider_configs (λ config_dict,
      try_except (c <- lift (provider_from_dict config_dict) ;; register c)
        (λ e, if is_Exception e then raise (ValueError "Invalid provider configuration") else raise e))
      manager_init in
  rbind r (λ _, Ok s).

Definition is_external_model (model_id : string) (s : manager) : bool := din model_id s.(model_index).
Definition lookup_adapter (model_id : string) (s : manager) : option adapter :=
  (λ e, e.1.2) <$> dget model_id s.(model_index).
Definition get_canonical_model_id (model_id : string) (s : manager) : option string :=
  snd <$> dget model_id s.(model_index).
Definition get_provider_name (model_id : string) (s : manager) : option string :=
  (λ e, e.1.1) <$> dget model_id s.(model_index).
Definition get_all_external_model_ids (s : manager) : list string := dkeys s.(model_index).
Definition get_registered_providers (s : manager) : list string := dkeys s.(adapters).

(** [validate_models]: [fetch] is what reading a provider's model list comes to, empty when
    it cannot be read; the ids go into a set. *)
Definition misconfigured (provider_name : string) (available : list pyval) (x : string * entry) : bool :=
  bool_decide (x.2.1.1 = provider_name) && negb (existsb (λ v, eq_str v x.2.2) available).
Definition drop_unserved (provider_name : string) (available : list pyval) (s : manager) : manager :=
  let to_remove := (filter (λ x, misconfigured provider_name available x = true) s.(model_index)).*1 in
  mkManager s.(adapters) (foldl (λ index model_id, ddel model_id index) s.(model_index) to_remove).
Definition validate_provider (fetch : adapter → res (list pyval)) (x : string * adapter) : M manager unit :=
  let '(provider_name, a) := x in
  available <- lift (fetch a) ;;
  if negb (forallb hashable available) then raise TypeError
  else match available with
       | [] => ret tt
       | _ => modify (drop_unserved provider_name available)
       end.
Definition validate_models (fetch : adapter → res (list pyval)) : M manager unit :=
  l <- gets adapters ;; for_each l (validate_provider fetch).

Definition health_check (probe : adapter → res bool) (s : manager) : res (dict string bool) :=
  foldl (λ acc x, rbind acc (λ acc,
    match probe x.2 with
    | Ok healthy => Ok (dset x.1 healthy acc)
    | Err e => if is_Exception e then Ok (dset x.1 false acc) else Err e
    end)) (Ok []) s.(adapters).
Definition close (s : manager) : manager := manager_init.

(* ------------------------------------------------------------------ *)
(** ** What the index holds *)

(** The ids a provider claims, with what the index is to say of them. *)
Definition model_claims (name : string) (a : adapter) (m : ExternalModelConfig) : list (string * entry) :=
  (λ i, (i, (name, a, m.(em_id)))) <$> model_ids m.
Definition claims (a : adapter) : list (string * entry) :=
  mjoin (model_claims a.(config).(ep_name) a <$> a.(config).(ep_models)).

(** No id is claimed by two providers. *)
Definition agree (L : list (string * entry)) : Prop :=
  ∀ x y, x ∈ L → y ∈ L → x.1 = y.1 → x.2.1.1 = y.2.1.1.

Lemma dict_of_snoc {V} (L : list (string * V)) x : dict_of (L ++ [x]) = dset x.1 x.2 (dict_of L).
Proof. unfold dict_of, dupdate. by rewrite foldl_app. Qed.
Lemma dict_of_elem {V} (L : list (string * V)) k v : dget k (dict_of L) = Some v → (k, v) ∈ L.
Proof.
  revert v. induction L as [|[k' v'] L IH] using rev_ind; intros v; [done|].
  rewrite dict_of_snoc, dget_dset. simpl. rewrite elem_of_app, list_elem_of_singleton.
  case_decide; [intros [= ->]; subst; by right|]. intros Hd. left. by apply IH.
Qed.
Lemma dict_of_dom {V} (L : list (string * V)) k : is_Some (dget k (dict_of L)) ↔ k ∈ L.*1.
Proof.
  induction L as [|[k' v'] L IH] using rev_ind.
  { simpl. split; [by intros []|set_solver]. }
  rewrite dict_of_snoc, dget_dset, fmap_app, elem_of_app, <-IH. simpl. rewrite list_elem_of_singleton.
  case_decide; [split; eauto|]. split; [by left|]. intros [?| ->]; done.
Qed.

Lemma register_claim x L s :
  s.(model_index) = dict_of L → agree L →
  let '(s', r) := register_model_id x.1 x.2.1.1 x.2.1.2 x.2.2 s in
  r = Ok tt → s' = mkManager s.(adapters) (dict_of (L ++ [x])) ∧ agree (L ++ [x]).
Proof.
  destruct x as [id [[name a] canonical]]. cbn [fst snd]. intros Hs Hag. unfold register_model_id.
  rewrite Hs. destruct (dget id (dict_of L)) as [[[n a'] c']|] eqn:Ed; simpl.
  - case_bool_decide as Hn; simpl; [|done]. intros _. rewrite dict_of_snoc. split; [done|].
    apply dict_of_elem in Ed. intros x y.
    rewrite !elem_of_app, !list_elem_of_singleton. intros [Hx| ->] [Hy| ->]; simpl; [by apply Hag|..|done].
    + intros He. rewrite <-Hn. by apply (Hag _ _ Hx Ed).
    + intros He. rewrite <-Hn. by apply (Hag _ _ Ed Hy).
  - intros _. rewrite dict_of_snoc. split; [done|]. intros x y.
    assert (Hno : ∀ z, z ∈ L → z.1 ≠ id).
    { intros z Hz <-. assert (Hsome : is_Some (dget z.1 (dict_of L))).
      { apply dict_of_dom, list_elem_of_fmap. eauto. }
      rewrite Ed in Hsome. by apply is_Some_None in Hsome. }
    rewrite !elem_of_app, !list_elem_of_singleton. intros [Hx| ->] [Hy| ->]; simpl; [by apply Hag|..|done].
    + intros He. by destruct (Hno _ Hx).
    + intros He. by destruct (Hno _ Hy).
Qed.

Definition register_claims (l : list (string * entry)) : M manager unit :=
  for_each l (λ x, register_model_id x.1 x.2.1.1 x.2.1.2 x.2.2).

Lemma register_claims_spec l L s s' :
  s.(model_index) = dict_of L → agree L → register_claims l s = (s', Ok tt) →
  s' = mkManager s.(adapters) (dict_of (L ++ l)) ∧ agree (L ++ l).
Proof.
  revert L s. induction l as [|x l IH]; intros L s Hs Hag.
  { intros [= <-]. rewrite app_nil_r, <-Hs. by destruct s. }
  unfold register_claims. cbn [for_each]. unfold bind at 1.
  pose proof (register_claim x L s Hs Hag) as Hx.
  destruct (register_model_id _ _ _ _ s) as [s1 [[]|e]]; [|done].
  destruct (Hx eq_refl) as [-> Hag']. intros Hl. rewrite cons_middle, app_assoc.
  by apply (IH (L ++ [x])) in Hl as [-> ?].
Qed.

(** The nested loops of [register] register the claims one by one. *)
Lemma register_model_eq name a m s :
  (register_model_id m.(em_id) name a m.(em_id) ;;;
   for_each m.(em_aliases) (λ alias, register_model_id alias name a m.(em_id))) s =
  register_claims (model_claims name a m) s.
Proof.
  unfold register_claims, model_claims, model_ids. cbn [fmap list_fmap for_each fst snd].
  unfold bind. destruct (register_model_id _ _ _ _ s) as [s1 [[]|e]]; [|done].
  revert s1. generalize (em_id m) as c. induction (em_aliases m) as [|al als IH]; intros c s1; [done|].
  cbn [fmap list_fmap for_each fst snd]. unfold bind.
  destruct (register_model_id _ _ _ _ s1) as [s2 [[]|e]]; [|done]. apply IH.
Qed.
Lemma register_models_eq name a ms s :
  for_each ms (λ m, register_model_id m.(em_id) name a m.(em_id) ;;;
    for_each m.(em_aliases) (λ alias, register_model_id alias name a m.(em_id))) s =
  register_claims (mjoin (model_claims name a <$> ms)) s.
Proof.
  revert s. induction ms as [|m ms IH]; intros s; [done|]. cbn [for_each fmap list_fmap mjoin list_join].
  unfold register_claims. rewrite for_each_app. unfold bind at 1.
  rewrite register_model_eq. unfold bind, register_claims.
  destruct (for_each (model_claims name a m) _ s) as [s1 [[]|e]]; [|done]. apply IH.
Qed.

(** The adapter made for a configuration. *)
Definition made_for (c : ExternalProviderConfig) (a : adapter) : Prop :=
  a.(config) = c ∧ get_api_key getenv (Some "OPENAI_API_KEY") c = Ok a.(api_key) ∧
  c.(ep_type) ∈ ADAPTER_REGISTRY.

Lemma register_spec c L s s' :
  s.(model_index) = dict_of L → agree L → register c s = (s', Ok tt) →
  ∃ a, made_for c a ∧ agree (L ++ claims a) ∧
    s' = mkManager (dset c.(ep_name) a s.(adapters)) (dict_of (L ++ claims a)).
Proof.
  intros Hs Hag. unfold register. case_bool_decide as Ht; [|done].
  unfold bind at 1, lift. destruct (get_api_key _ _ c) as [key|] eqn:Ek; [|done].
  unfold bind at 1, modify. set (a := mkAdapter c key). rewrite register_models_eq.
  intros Hr. exists a. split; [done|].
  eapply register_claims_spec in Hr as [-> Hag']; [|exact Hs|exact Hag]. done.
Qed.

Lemma create_spec configs m :
  create_external_provider_manager configs = Ok m →
  ∃ cs l, mapM_res provider_from_dict configs = Ok cs ∧ Forall2 made_for cs l ∧
    m = mkManager (dict_of ((λ a, (a.(config).(ep_name), a)) <$> l)) (dict_of (mjoin (claims <$> l))) ∧
    agree (mjoin (claims <$> l)).
Proof.
  unfold create_external_provider_manager.
  set (step := λ config_dict : pyval, _).
  assert (Hgo : ∀ ds l0 s s', s = mkManager (dict_of ((λ a, (a.(config).(ep_name), a)) <$> l0))
      (dict_of (mjoin (claims <$> l0))) → agree (mjoin (claims <$> l0)) →
    for_each ds step s = (s', Ok tt) →
    ∃ cs l, mapM_res provider_from_dict ds = Ok cs ∧ Forall2 made_for cs l ∧
      s' = mkManager (dict_of ((λ a, (a.(config).(ep_name), a)) <$> (l0 ++ l))) (dict_of (mjoin (claims <$> (l0 ++ l)))) ∧
      agree (mjoin (claims <$> (l0 ++ l)))).
  { induction ds as [|d ds IH]; intros l0 s s' Hs Hag.
    { intros [= <-]. exists [], []. by rewrite app_nil_r. }
    cbn [for_each]. unfold bind at 1, step at 1, try_except, bind, lift.
    destruct (provider_from_dict d) as [c|e] eqn:Ec; [|by destruct (is_Exception e)].
    destruct (register c s) as [s1 [[]|e]] eqn:Er; [|by destruct (is_Exception e)].
    apply (register_spec c (mjoin (claims <$> l0))) in Er as (a & Ha & Hag1 & ->); [|by rewrite Hs|done].
    intros Hrest. destruct (IH (l0 ++ [a]) _ s' ltac:(reflexivity)) as (cs & l & Hcs & Hl & -> & Hag2).
    - by rewrite fmap_app, join_app; simpl; rewrite app_nil_r.
    - rewrite <-Hrest. f_equal. rewrite Hs. destruct Ha as [<- _]. f_equal.
      + rewrite fmap_app. cbn [fmap list_fmap]. by rewrite dict_of_snoc.
      + by rewrite fmap_app, join_app; simpl; rewrite app_nil_r.
    - exists (c :: cs), (a :: l). cbn [mapM_res]. rewrite Ec, Hcs. split; [done|].
      split; [by constructor|]. by rewrite <-!app_assoc in *. }
  destruct (for_each configs step manager_init) as [s' [[]|]] eqn:E; [|done]. intros [= <-].
  destruct (Hgo configs [] manager_init s' eq_refl) as (cs & l & ? & ? & ? & ?); [|done|].
  - intros x y Hx. by apply elem_of_nil in Hx.
  - by exists cs, l.
Qed.

Lemma elem_of_claims a x :
  x ∈ claims a ↔ ∃ m, m ∈ a.(config).(ep_models) ∧ x.1 ∈ model_ids m ∧
    x.2 = (a.(config).(ep_name), a, m.(em_id)).
Proof.
  unfold claims, model_claims. rewrite list_elem_of_join. split.
  - intros (l & Hx & (m & -> & Hm)%list_elem_of_fmap).
    apply list_elem_of_fmap in Hx as (i & -> & Hi). by exists m.
  - intros (m & Hm & Hi & He). eexists. split; [|apply list_elem_of_fmap; by exists m].
    apply list_elem_of_fmap. exists x.1. split; [|done]. destruct x. simpl in *. by subst.
Qed.
Lemma elem_of_ids c id : id ∈ get_all_model_ids c ↔ ∃ m, m ∈ c.(ep_models) ∧ id ∈ model_ids m.
Proof.
  unfold get_all_model_ids. rewrite list_elem_of_join. split.
  - intros (l & Hi & (m & -> & Hm)%list_elem_of_fmap). eauto.
  - intros (m & Hm & Hi). exists (model_ids m). split; [done|]. apply list_elem_of_fmap. eauto.
Qed.

Lemma named_spec id m :
  (eq_str (PStr id) m.(em_id) || existsb (eq_str (PStr id)) m.(em_aliases)) = true ↔ id ∈ model_ids m.
Proof.
  unfold model_ids. rewrite elem_of_cons, orb_true_iff, existsb_exists. simpl.
  rewrite bool_decide_eq_true. setoid_rewrite bool_decide_eq_true. setoid_rewrite <-list_elem_of_In.
  naive_solver.
Qed.

(** When no id of a provider is written twice, the provider and the index agree on what
    an alias stands for. *)
Lemma resolve_unambiguous c m id :
  NoDup (get_all_model_ids c) → m ∈ c.(ep_models) → id ∈ model_ids m →
  resolve_model_id c (PStr id) = Some m.(em_id).
Proof.
  unfold get_all_model_ids, resolve_model_id. induction (ep_models c) as [|m' ms IH]; [set_solver|].
  cbn [fmap list_fmap mjoin list_join find]. intros (Hnd & Hdisj & Hnd')%NoDup_app Hm Hid.
  destruct (_ || _) eqn:E.
  - apply named_spec in E. simpl. apply elem_of_cons in Hm as [->|Hm]; [done|]. exfalso.
    apply (Hdisj _ E). apply list_elem_of_join. exists (model_ids m). split; [done|].
    apply list_elem_of_fmap. eauto.
  - apply elem_of_cons in Hm as [->|Hm]; [|by apply IH]. by rewrite (proj2 (named_spec _ _) Hid) in E.
Qed.

(** The manager indexes exactly what is configured: once it has been built, a model is
    external exactly when some provider lists it as an id or an alias, no id belongs to
    two providers and the index names the provider that lists it; the adapter found for
    a model is one of a configured provider that lists the model, and, when that
    provider writes no id twice, adapter and index resolve the model alike. *)
Theorem model_index_is_faithful configs m :
  create_external_provider_manager configs = Ok m →
  ∃ cs, mapM_res provider_from_dict configs = Ok cs ∧
    (∀ id, is_external_model id m = true ↔ ∃ c, c ∈ cs ∧ id ∈ get_all_model_ids c) ∧
    (∀ c id, c ∈ cs → id ∈ get_all_model_ids c → get_provider_name id m = Some c.(ep_name)) ∧
    (∀ id a, lookup_adapter id m = Some a →
       a.(config) ∈ cs ∧ id ∈ get_all_model_ids a.(config) ∧
       (NoDup (get_all_model_ids a.(config)) →
        resolve_model_id a.(config) (PStr id) = get_canonical_model_id id m)).
Proof.
  intros (cs & l & Hcs & Hl & -> & Hag)%create_spec. exists cs. split; [done|].
  set (L := mjoin (claims <$> l)) in *.
  assert (HL : ∀ x, x ∈ L ↔ ∃ a, a ∈ l ∧ x ∈ claims a).
  { intros x. unfold L. rewrite list_elem_of_join. split.
    - intros (k & Hx & (a & -> & Ha)%list_elem_of_fmap). eauto.
    - intros (a & Ha & Hx). exists (claims a). split; [done|]. apply list_elem_of_fmap. eauto. }
  assert (Hcfg : ∀ c, c ∈ cs ↔ ∃ a, a ∈ l ∧ a.(config) = c).
  { intros c. clear -Hl. induction Hl as [|c' a cs l [Hc _] _ IH]; [set_solver|].
    rewrite elem_of_cons, IH. setoid_rewrite elem_of_cons. subst c'. naive_solver. }
  assert (Hclaim : ∀ c id, c ∈ cs → id ∈ get_all_model_ids c → ∃ x, x ∈ L ∧ x.1 = id ∧ x.2.1.1 = c.(ep_name)).
  { intros c id (a & Ha & <-)%Hcfg (mo & Hmo & Hid)%elem_of_ids.
    exists (id, (a.(config).(ep_name), a, mo.(em_id))). split_and!; [|done..].
    apply HL. exists a. split; [done|]. apply elem_of_claims. eauto. }
  cbn [model_index] in *. unfold is_external_model, get_provider_name, lookup_adapter, get_canonical_model_id.
  cbn [model_index]. split_and!.
  - intros id. unfold din. rewrite bool_decide_eq_true, dict_of_dom, list_elem_of_fmap. split.
    + intros (x & -> & (a & Ha & (mo & Hmo & Hi & _)%elem_of_claims)%HL).
      exists a.(config). split; [apply Hcfg; eauto|]. apply elem_of_ids. eauto.
    + intros (c & Hc & Hid). destruct (Hclaim c id Hc Hid) as (x & Hx & <- & _). eauto.
  - intros c id Hc Hid. destruct (Hclaim c id Hc Hid) as (x & Hx & <- & <-).
    assert (Hs : is_Some (dget x.1 (dict_of L))) by (apply dict_of_dom, list_elem_of_fmap; eauto).
    destruct Hs as [e He]. rewrite He. simpl. apply dict_of_elem in He.
    f_equal. by apply (Hag _ _ He Hx).
  - intros id a. destruct (dget id (dict_of L)) as [[[n a'] c]|] eqn:E; [|done]. intros [= ->].
    apply dict_of_elem, HL in E as (a2 & Ha & (mo & Hmo & Hi & [= -> -> ->])%elem_of_claims).
    split; [apply Hcfg; eauto|]. split; [apply elem_of_ids; eauto|]. intros Hnd. simpl.
    by apply resolve_unambiguous.
Qed.

End manager.

(* ------------------------------------------------------------------ *)
(** ** Validation against the providers' own lists *)

Lemma foldl_ddel_wf {V} (ks : list string) (d : dict string V) :
  dict_wf d → dict_wf (foldl (λ index k, ddel k index) d ks).
Proof. revert d. induction ks as [|k ks IH]; intros d Hd; [done|]. simpl. auto with py. Qed.
Lemma dget_foldl_ddel {V} (ks : list string) (d : dict string V) k :
  dict_wf d → dget k (foldl (λ index k, ddel k index) d ks) = if decide (k ∈ ks) then None else dget k d.
Proof.
  revert d. induction ks as [|k' ks IH]; intros d Hd; [by rewrite decide_False by set_solver|].
  cbn [foldl]. rewrite IH by auto with py. destruct (decide (k = k')) as [->|Hne].
  - rewrite (decide_True (P := k' ∈ k' :: ks)) by (by left). case_decide; [done|]. by apply dget_ddel_eq.
  - rewrite dget_ddel_ne by done. repeat case_decide; set_solver.
Qed.

Lemma existsb_eq_str available c : existsb (λ v, eq_str v c) available = true ↔ PStr c ∈ available.
Proof.
  rewrite existsb_exists. split.
  - intros (v & Hv & He). apply list_elem_of_In in Hv. destruct v; try done. cbn in He. bool_to_prop. by subst.
  - intros Hc. exists (PStr c). split; [by apply list_elem_of_In|]. cbn. by apply bool_decide_eq_true.
Qed.

(** An index entry survives a provider's validation unless it is that provider's and the
    provider does not list its canonical id. *)
Lemma drop_unserved_spec name available s id e :
  dict_wf s.(model_index) →
  dget id (drop_unserved name available s).(model_index) = Some e ↔
  dget id s.(model_index) = Some e ∧ (e.1.1 = name → PStr e.2 ∈ available).
Proof.
  intros Hwf. unfold drop_unserved. cbn [model_index]. rewrite dget_foldl_ddel by done.
  assert (Hrem : id ∈ (filter (λ y, misconfigured name available y = true) (model_index s)).*1 ↔
    ∃ e, dget id s.(model_index) = Some e ∧ e.1.1 = name ∧ PStr e.2 ∉ available).
  { rewrite list_elem_of_fmap. unfold misconfigured. setoid_rewrite <-existsb_eq_str. split.
    - intros (y & -> & [Hm Hy]%list_elem_of_filter). apply andb_true_iff in Hm as [Hn Hm]. bool_to_prop.
      exists y.2. split; [apply elem_dget; [done|by destruct y]|]. split; [done|]. by rewrite Hm.
    - intros (e' & He & Hn & Hc). exists (id, e'). split; [done|]. apply list_elem_of_filter.
      split; [|by apply dget_elem]. simpl. rewrite bool_decide_true by done. cbn. by destruct (existsb _ _). }
  case_decide as Hd; rewrite Hrem in Hd.
  - destruct Hd as (e' & He & Hn & Hc). split; [done|]. intros [He' Hok].
    rewrite He in He'. injection He' as <-. by destruct (Hc (Hok Hn)).
  - split; [|by intros [? _]]. intros He. split; [done|]. intros Hn.
    destruct (decide (e.2 ∈ omap (λ v, match v with PStr x => Some x | _ => None end) available)) as [Hin|Hout].
    + apply list_elem_of_omap in Hin as (v & Hv & Ev). destruct v; by simplify_eq/=.
    + exfalso. apply Hd. exists e. split; [done|]. split; [done|]. intros Hc. apply Hout. apply list_elem_of_omap. eauto.
Qed.

(** One turn: a list that can be read, of hashable ids. *)
Lemma validate_provider_spec fetch name a s l :
  dict_wf s.(model_index) → fetch a = Ok l → forallb hashable l = true →
  ∃ s', validate_provider fetch (name, a) s = (s', Ok tt) ∧ s'.(adapters) = s.(adapters) ∧ dict_wf s'.(model_index) ∧
    ∀ id e, dget id s'.(model_index) = Some e ↔
      dget id s.(model_index) = Some e ∧ (e.1.1 = name → l = [] ∨ PStr e.2 ∈ l).
Proof.
  intros Hwf Hf Hh. unfold validate_provider, bind, lift. rewrite Hf, Hh. cbn [negb]. destruct l as [|v l].
  - exists s. split; [done|]. split; [done|]. split; [done|]. naive_solver.
  - exists (drop_unserved name (v :: l) s). split; [done|]. split; [done|]. split; [by apply foldl_ddel_wf|].
    intros id e. rewrite drop_unserved_spec by done. naive_solver.
Qed.

(** Validation drops exactly the models that the provider they are registered for is
    known not to serve; a provider whose list cannot be read keeps all its models. *)
Lemma validate_models_spec fetch s :
  dict_wf s.(adapters) → dict_wf s.(model_index) →
  (∀ name a, dget name s.(adapters) = Some a → ∃ l, fetch a = Ok l ∧ forallb hashable l = true) →
  ∃ s', validate_models fetch s = (s', Ok tt) ∧ s'.(adapters) = s.(adapters) ∧
    ∀ id e, dget id s'.(model_index) = Some e ↔
      dget id s.(model_index) = Some e ∧
      ∀ a, dget e.1.1 s.(adapters) = Some a → fetch a = Ok [] ∨ ∃ l, fetch a = Ok l ∧ PStr e.2 ∈ l.
Proof.
  intros Hwa Hwf Hl. unfold validate_models, bind at 1, gets.
  assert (Hgo : ∀ l s0, dict_wf s0.(model_index) → (∀ x, x ∈ l → ∃ l, fetch x.2 = Ok l ∧ forallb hashable l = true) →
    ∃ s', for_each l (validate_provider fetch) s0 = (s', Ok tt) ∧ s'.(adapters) = s0.(adapters) ∧
      ∀ id e, dget id s'.(model_index) = Some e ↔ dget id s0.(model_index) = Some e ∧
        ∀ x, x ∈ l → e.1.1 = x.1 → fetch x.2 = Ok [] ∨ ∃ l, fetch x.2 = Ok l ∧ PStr e.2 ∈ l).
  { induction l as [|[n a] l IH]; intros s0 Hw Hx; [exists s0; split_and!; [done..|]; set_solver|].
    destruct (Hx (n, a)) as (l0 & Hf & Hh); [by left|]. cbn [snd] in Hf.
    destruct (validate_provider_spec fetch n a s0 l0 Hw Hf Hh) as (s1 & E1 & Ha1 & Hw1 & H1).
    destruct (IH s1 Hw1) as (s2 & E2 & Ha2 & H2); [intros x Hx'; apply Hx; by right|].
    exists s2. cbn [for_each]. unfold bind at 1. rewrite E1. split; [done|]. split; [by rewrite Ha2|].
    intros id e. rewrite H2, H1. setoid_rewrite elem_of_cons. split.
    - intros [[He Hok] Hall]. split; [done|]. intros x [->|Hx'] Hn; [|by apply Hall]. cbn in *.
      destruct (Hok Hn) as [->|?]; [by left|right; eauto].
    - intros [He Hall]. split; [split; [done|]|intros x Hx'; apply Hall; by right]. intros Hn.
      destruct (Hall (n, a) (or_introl eq_refl) Hn) as [E|(l' & E & ?)]; cbn in E; rewrite Hf in E; injection E as ->; auto. }
  destruct (Hgo s.(adapters) s Hwf) as (s' & E & Ha & H).
  { intros [n a] Hx. apply (Hl n). by apply elem_dget. }
  exists s'. split; [done|]. split; [done|]. intros id e. rewrite H. split; intros [He Hall]; (split; [done|]).
  - intros a Ha'. apply (Hall (e.1.1, a)); [by apply dget_elem|done].
  - intros [n a] Hx Hn. cbn in *. apply Hall. rewrite Hn. by apply elem_dget.
Qed.

Theorem validation_keeps_what_is_served fetch s id :
  dict_wf s.(adapters) → dict_wf s.(model_index) →
  (∀ name a, dget name s.(adapters) = Some a → ∃ l, fetch a = Ok l ∧ forallb hashable l = true) →
  ∃ s', validate_models fetch s = (s', Ok tt) ∧
  (is_external_model id s' = true ↔
   ∃ name a0 canonical, dget id s.(model_index) = Some (name, a0, canonical) ∧
     ∀ a, dget name s.(adapters) = Some a → fetch a = Ok [] ∨ ∃ l, fetch a = Ok l ∧ PStr canonical ∈ l).
Proof.
  intros Hwa Hwf Hl. destruct (validate_models_spec fetch s Hwa Hwf Hl) as (s' & E & _ & H). exists s'. split; [done|].
  unfold is_external_model, din. rewrite bool_decide_eq_true. split.
  - intros [[[name a0] c] He]. apply H in He as [He Hok]. by exists name, a0, c.
  - intros (name & a0 & c & He & Hok). exists (name, a0, c). by apply H.
Qed.

(* ------------------------------------------------------------------ *)
(** ** Requests (openai_provider.py, [process_external_provider_request]) *)

Record EPost : Type := mkEPost {
  x_url : string;
  x_json : dict string pyval;
  x_headers : dict string string
}.
Record EAnswer : Type := mkEAnswer {
  x_status : Z;
  x_answer_headers : dict string string;
  x_body : res pyval;
  x_chunks : list string;
  x_fin : option exn
}.
Inductive ExternalProviderResponse : Type :=
| ERBody (status : Z) (headers : dict string string) (body : pyval)
| ERStream (status : Z) (headers : dict string string) (chunks : list string) (fin : option exn).

(** [s.rstrip("/")]. *)
Fixpoint drop_slashes (s : string) : string :=
  match s with
  | EmptyString => EmptyString
  | String _ s' => if startswith "/" s then drop_slashes s' else s
  end.
Definition rstrip_slash (s : string) : string := String.rev (drop_slashes (String.rev s)).

Definition build_headers (a : adapter) : dict string string :=
  let headers := [("Content-Type", "application/json")] in
  let headers := match a.(api_key) with
                 | Some key => if decide (key = "") then headers
                               else dset "Authorization" ("Bearer " +:+ key) headers
                 | None => headers
                 end in
  dupdate headers a.(config).(ep_custom_headers).

(** The body with the canonical id of its model. *)
Definition canonical_payload (c : ExternalProviderConfig) (payload : dict string pyval) : dict string pyval :=
  let requested_model := dget_or "model" (PStr "") payload in
  match resolve_model_id c requested_model with
  | Some canonical_id =>
      if bool_decide (canonical_id ≠ "") && negb (eq_str requested_model canonical_id)
      then dset "model" (PStr canonical_id) payload else payload
  | None => payload
  end.

Section requests.
Context (exn_str : exn → string) (answer : nat → EPost → res EAnswer).

(** [_send_standard_request] and [_send_streaming_request]. *)
Definition send_once (stream : bool) (p : EPost) : M (list EPost) ExternalProviderResponse := λ l,
  (l ++ [p],
   rbind (answer (length l) p) (λ a,
   if stream then Ok (ERStream a.(x_status) a.(x_answer_headers) a.(x_chunks) a.(x_fin))
   else rbind a.(x_body) (λ v, Ok (ERBody a.(x_status) a.(x_answer_headers) v)))).

(** The loop over the attempts; without any attempt, [raise None] is a [TypeError]. *)
Fixpoint send_retrying (attempts : nat) (stream : bool) (p : EPost) (last_error : option exn) :
  M (list EPost) ExternalProviderResponse :=
  match attempts with
  | 0 => raise (default TypeError last_error)
  | S attempts =>
      try_except (send_once stream p)
        (λ e, if is_ClientError e then send_retrying attempts stream p (Some e) else raise e)
  end.

Definition provider_post (a : adapter) (endpoint : string) (payload : dict string pyval) : EPost :=
  mkEPost (rstrip_slash a.(config).(ep_api_base) +:+ endpoint)
    (canonical_payload a.(config) payload) (build_headers a).
Definition max_attempts (a : adapter) : nat := Z.to_nat (a.(config).(ep_max_retries) + 1).
Definition send_request (a : adapter) (endpoint : string) (payload : dict string pyval) (stream : bool) :
  M (list EPost) ExternalProviderResponse :=
  send_retrying (max_attempts a) stream (provider_post a endpoint payload) None.

(** [registry.lookup_adapter(model)] and the others on a JSON value. *)
Definition lookup_entry (m : manager) (model : pyval) : res (option entry) :=
  match model with
  | PStr s => Ok (dget s m.(model_index))
  | PList _ | PDict _ => Err TypeError
  | _ => Ok None
  end.

(** The posts, the incoming-request counter and the error counter. *)
Record estate : Type := mkE {
  e_posts : list EPost;
  e_incoming : list pyval;
  e_errors : list (option string * pyval * exn)
}.
Definition with_posts {A} (m : M (list EPost) A) : M estate A := λ s,
  let '(l, r) := m s.(e_posts) in (mkE l s.(e_incoming) s.(e_errors), r).

(** The client's response; a plain dictionary is asked for the content type. *)
Definition client_response (request_id : string) (r : ExternalProviderResponse) : Response :=
  let headers hs := dupdate [("X-Request-Id", request_id)]
                      (filter (λ kv, lower kv.1 ≠ "content-type") hs) in
  match r with
  | ERBody status hs body => RJson (mkJSON status body (headers hs))
  | ERStream status hs chunks fin =>
      RStream status (headers hs) (dget_or "content-type" "text/event-stream" hs) (IChunk <$> chunks)
        (match fin with Some e => Err e | None => Ok tt end)
  end.

Definition bad_gateway (provider_name : option string) (e : exn) : exn :=
  HTTPException 502 ("External provider '" +:+ default "None" provider_name +:+ "' request failed: " +:+ exn_str e).

Definition process_external_provider_request (m : manager) (endpoint request_id : string)
    (request_json : dict string pyval) : M estate Response :=
  let requested_model := dget_or "model" PNone request_json in
  let is_streaming := truthy (dget_or "stream" (PBool false) request_json) in
  found <- lift (lookup_entry m requested_model) ;;
  let provider_name := (λ e, e.1.1) <$> found in
  modify (λ s, mkE s.(e_posts) (s.(e_incoming) ++ [requested_model]) s.(e_errors)) ;;;
  try_except
    (a <- lift (of_option (AttributeError "send_request") ((λ e, e.1.2) <$> found)) ;;
     r <- with_posts (send_request a endpoint request_json is_streaming) ;;
     ret (client_response request_id r))
    (λ e, if is_Exception e then
            modify (λ s, mkE s.(e_posts) s.(e_incoming) (s.(e_errors) ++ [(provider_name, requested_model, e)])) ;;;
            raise (bad_gateway provider_name e)
          else raise e).

(* ------------------------------------------------------------------ *)
(** ** Properties *)

(** What one post comes to. *)
Definition outcome (stream : bool) (i : nat) (p : EPost) : res ExternalProviderResponse :=
  rbind (answer i p) (λ a,
  if stream then Ok (ERStream a.(x_status) a.(x_answer_headers) a.(x_chunks) a.(x_fin))
  else rbind a.(x_body) (λ v, Ok (ERBody a.(x_status) a.(x_answer_headers) v))).
Definition retryable (r : res ExternalProviderResponse) : Prop :=
  ∃ e, r = Err e ∧ is_ClientError e = true.

(** The posts of [send_retrying]: copies of one post, each but the last having failed with
    a client error, and the last one's outcome, unless the attempts ran out. *)
Lemma send_retrying_spec attempts stream p last l :
  ∃ n r, send_retrying attempts stream p last l = (l ++ replicate n p, r) ∧ n ≤ attempts ∧
    (∀ i, S i < n → retryable (outcome stream (length l + i) p)) ∧
    match n with
    | 0 => attempts = 0 ∧ r = Err (default TypeError last)
    | S k => r = outcome stream (length l + k) p ∧ (retryable r → n = attempts)
    end.
Proof.
  revert last l. induction attempts as [|attempts IH]; intros last l.
  { exists 0, (Err (default TypeError last)). rewrite app_nil_r. split; [done|]. split_and!; [lia|lia|done|done]. }
  cbn [send_retrying]. unfold try_except, send_once. fold (outcome stream (length l) p).
  destruct (outcome stream (length l) p) as [r|e] eqn:E.
  { exists 1, (Ok r). split; [done|]. split; [lia|]. split; [lia|]. rewrite Nat.add_0_r, E.
    split; [done|]. by intros (? & ? & _). }
  destruct (is_ClientError e) eqn:Ec.
  - destruct (IH (Some e) (l ++ [p])) as (n & r & -> & Hn & Hi & Hr).
    exists (S n), r. cbn [replicate]. rewrite <-app_assoc. split; [done|]. split; [lia|].
    rewrite length_app in *. cbn [length] in *. split.
    + intros [|i] Hlt; [rewrite Nat.add_0_r, E; by exists e|].
      replace (length l + S i) with (length l + 1 + i) by lia. apply Hi. lia.
    + destruct n as [|n].
      * destruct Hr as [-> ->]. rewrite Nat.add_0_r, E. done.
      * destruct Hr as [-> Hlast]. replace (length l + 1 + n) with (length l + S n) in * by lia.
        split; [done|]. intros H. f_equal. by apply Hlast.
  - exists 1, (Err e). split; [done|]. split; [lia|]. split; [lia|]. rewrite Nat.add_0_r, E.
    split; [done|]. intros (e' & [= <-] & ?). congruence.
Qed.

(** C12: a request for an external model goes to the provider registered for it and nowhere
    else: always the same post, to the provider's own URL with the model's canonical id
    and the provider's key, at most [max_retries + 1] times; it is repeated only after a
    client error, and as long as attempts are left.  The client gets the answer to the
    last post, or a 502 that names the provider, which the error counter records. *)
Theorem external_requests_are_retried_within_bounds m endpoint rid js model name a canonical s :
  dget "model" js = Some (PStr model) → dget model m.(model_index) = Some (name, a, canonical) →
  (0 <= a.(config).(ep_max_retries))%Z →
  let stream := truthy (dget_or "stream" (PBool false) js) in
  let p := provider_post a endpoint js in
  let '(s', r) := process_external_provider_request m endpoint rid js s in
  ∃ k, s'.(e_posts) = s.(e_posts) ++ replicate (S k) p ∧ (Z.of_nat k <= a.(config).(ep_max_retries))%Z ∧
    s'.(e_incoming) = s.(e_incoming) ++ [PStr model] ∧
    (∀ i, i < k → retryable (outcome stream (length s.(e_posts) + i) p)) ∧
    match outcome stream (length s.(e_posts) + k) p with
    | Ok x => r = Ok (client_response rid x) ∧ s'.(e_errors) = s.(e_errors)
    | Err e =>
        (is_ClientError e = true → Z.of_nat k = a.(config).(ep_max_retries)) ∧
        if is_Exception e
        then r = Err (bad_gateway (Some name) e) ∧
             s'.(e_errors) = s.(e_errors) ++ [(Some name, PStr model, e)]
        else r = Err e ∧ s'.(e_errors) = s.(e_errors)
    end.
Proof.
  intros Hm Ha Hpos stream p. unfold process_external_provider_request.
  replace (dget_or "model" PNone js) with (PStr model) by (unfold dget_or; by rewrite Hm).
  unfold bind at 1, lift at 1. cbn [lookup_entry]. rewrite Ha. unfold bind at 1, modify at 1.
  cbn [fmap option_fmap option_map fst snd]. unfold try_except, bind at 1, lift at 1. cbn [of_option].
  unfold bind, with_posts, send_request. fold stream p. cbn [e_posts].
  destruct (send_retrying_spec (max_attempts a) stream p None s.(e_posts)) as (n & r & -> & Hn & Hi & Hr).
  unfold max_attempts in *. destruct n as [|k]; [destruct Hr as [H0 _]; lia|].
  destruct Hr as [-> Hlast].
  destruct (outcome stream (length (e_posts s) + k) p) as [x|e] eqn:E.
  - exists k. cbn [ret e_posts e_incoming e_errors]. rewrite E. split_and!; try done; [lia|]. intros i Hik. apply Hi. lia.
  - destruct (is_Exception e) eqn:Ee; (exists k; unfold modify, raise; cbn [e_posts e_incoming e_errors]; rewrite E, Ee;
      split_and!; try done; [lia|intros i Hik; apply Hi; lia|]; intros Hc;
      assert (S k = Z.to_nat (ep_max_retries (config a) + 1)) by (apply Hlast; by exists e); lia).
Qed.
End requests.

(* ------------------------------------------------------------------ *)
(** ** Composition with the request handler *)

Section composition.
Context {R : Type} {HR : Router R} {body : Type} {HJ : JsonCodec body}.
Context (format_g : Q → string) (body_length : body → nat) (py_repr : pyval → string).
Context (exn_str : exn → string) (provider_answer : nat → EPost → res EAnswer).

(** The application with a manager: [registry.is_external_model] and
    [process_external_provider_request]. *)
Definition with_manager (m : manager) (endpoint : string) (a : App (body := body)) : App :=
  mkApp a.(app_world) a.(app_discovery) a.(app_stats) a.(app_timeout) a.(app_rewriter)
    a.(app_pre_request)
    (λ model, match lookup_entry m model with Ok (Some _) => true | _ => false end)
    (λ i js, (process_external_provider_request exn_str provider_answer m endpoint (request_id_of i) js
                (mkE [] [] [])).2)
    a.(app_failover) a.(app_cache) a.(app_cache_store) a.(app_parse_response).

(** An external model never reaches the fleet: no router is asked, no engine contacted,
    and the response is the provider's. *)
Lemma external_models_bypass_the_fleet m endpoint a i answer quota sd endpoints model (s : hstate (R := R)) :
  is_external_model model m = true →
  route_model format_g body_length py_repr (with_manager m endpoint a) i answer quota sd endpoints (PStr model) s =
  (s, (process_external_provider_request exn_str provider_answer m endpoint (request_id_of i) s.(h_json)
         (mkE [] [] [])).2).
Proof.
  intros Hex. unfold route_model. cbn [with_manager app_is_external lookup_entry].
  unfold is_external_model, din in Hex. apply bool_decide_eq_true in Hex as [e ->]. done.
Qed.
End composition.

(* ------------------------------------------------------------------ *)
(** ** Concrete providers *)

Definition env_keys (v : string) : option string :=
  if bool_decide (v = "OPENAI_API_KEY") then Some "sk-1" else None.
Definition provider_json (name api_base : string) (models : list pyval) : pyval :=
  PDict [("name", PStr name); ("type", PStr "openai"); ("api_base", PStr api_base); ("models", PList models);
         ("max_retries", PInt 1)].
Definition model_json (id : string) (aliases : list string) : pyval :=
  PDict [("id", PStr id); ("aliases", PList (PStr <$> aliases))].
Definition providers_example : list pyval :=
  [provider_json "openai" "https://api.openai.com/" [model_json "gpt-4o" ["gpt"; "best"]; model_json "o3" []];
   provider_json "other" "https://other.ai" [model_json "claude" []]].
Definition manager_example : manager :=
  match create_external_provider_manager env_keys providers_example with Ok m => m | Err _ => manager_init end.

Lemma index_witness :
  ∃ cs, mapM_res provider_from_dict providers_example = Ok cs ∧
    (is_external_model "best" manager_example = true ↔ ∃ c, c ∈ cs ∧ "best" ∈ get_all_model_ids c).
Proof.
  destruct (model_index_is_faithful env_keys providers_example manager_example ltac:(vm_compute; reflexivity))
    as (cs & Hcs & Hex & _).
  exists cs. split; [exact Hcs|apply Hex].
Defined.

(** Aliases that collide inside a provider: the index and the adapter disagree. *)
Example shadowed_alias :
  let m := match create_external_provider_manager env_keys
                   [provider_json "p" "https://p" [model_json "a" ["x"]; model_json "b" ["x"]]] with
           | Ok m => m | Err _ => manager_init end in
  get_canonical_model_id "x" m = Some "b" ∧
  (λ a, resolve_model_id a.(config) (PStr "x")) <$> lookup_adapter "x" m = Some (Some "a").
Proof. vm_compute. done. Qed.

(** The same id under two providers is refused. *)
Example conflicting_providers :
  create_external_provider_manager env_keys
    [provider_json "p" "https://p" [model_json "a" []]; provider_json "q" "https://q" [model_json "b" ["a"]]] =
  Err (ValueError "Invalid provider configuration").
Proof. vm_compute. done. Qed.

Lemma validation_witness :
  let served (a : adapter) := Ok (if bool_decide (a.(config).(ep_name) = "openai") then [PStr "gpt-4o"] else []) in
  (∃ s', validate_models served manager_example = (s', Ok tt) ∧ is_external_model "best" s' = true) ∧
  (∃ s', validate_models served manager_example = (s', Ok tt) ∧ is_external_model "claude" s' = true) ∧
  is_external_model "o3" (validate_models served manager_example).1 = false.
Proof.
  intros served.
  assert (Hwa : dict_wf manager_example.(adapters)) by (apply (bool_decide_unpack _); vm_compute; exact I).
  assert (Hwi : dict_wf manager_example.(model_index)) by (apply (bool_decide_unpack _); vm_compute; exact I).
  assert (Hl : ∀ name a, dget name manager_example.(adapters) = Some a → ∃ l, served a = Ok l ∧ forallb hashable l = true).
  { intros name a _. eexists. split; [reflexivity|]. by case_bool_decide. }
  split; [|split; [|vm_compute; reflexivity]].
  - destruct (validation_keeps_what_is_served served manager_example "best" Hwa Hwi Hl) as (s' & E & H). exists s'. split; [exact E|].
    apply H. eexists _, _, _. split; [vm_compute; reflexivity|]. intros a Ha. right. revert Ha. vm_compute. intros [= <-].
    eexists. split; [reflexivity|by left].
  - destruct (validation_keeps_what_is_served served manager_example "claude" Hwa Hwi Hl) as (s' & E & H). exists s'. split; [exact E|].
    apply H. eexists _, _, _. split; [vm_compute; reflexivity|]. intros a Ha. left. revert Ha. vm_compute. by intros [= <-].
Defined.

(** An id that cannot go into a set ends the start of the application. *)
Example unhashable_ids_end_startup :
  (validate_models (λ _, Ok [PList []]) manager_example).2 = Err TypeError.
Proof. vm_compute. reflexivity. Qed.

(** A provider that refuses the first connection and then answers. *)
Definition flaky (i : nat) (p : EPost) : res EAnswer :=
  if i =? 0 then Err ClientConnectorError
  else Ok (mkEAnswer 200 [("Content-Type", "application/json")] (Ok (PDict [("id", PStr "c")])) [] None).
Definition external_js : dict string pyval := [("model", PStr "best")].

Lemma retries_witness :
  let '(s', r) := process_external_provider_request (λ _, "") flaky manager_example "/v1/chat/completions" "rid"
                    external_js (mkE [] [] []) in
  ∃ k a, s'.(e_posts) = replicate (S k) (provider_post a "/v1/chat/completions" external_js) ∧ k ≤ 1.
Proof.
  pose proof (external_requests_are_retried_within_bounds (λ _, "") flaky manager_example "/v1/chat/completions"
    "rid" external_js "best") as H.
  destruct (dget "best" manager_example.(model_index)) as [[[name a] c]|] eqn:E; [|vm_compute in E; discriminate].
  assert (Hr : ep_max_retries a.(config) = 1%Z) by (revert E; vm_compute; by intros [= _ <- _]).
  specialize (H name a c (mkE [] [] []) eq_refl eq_refl ltac:(rewrite Hr; lia)). cbv zeta in H.
  destruct (process_external_provider_request _ _ _ _ _ _ _) as [s' r].
  destruct H as (k & Hp & Hk & _). exists k, a. split; [exact Hp|]. rewrite Hr in Hk. lia.
Defined.

Example the_posts_of_an_alias :
  let '(s', r) := process_external_provider_request (λ _, "") flaky manager_example "/v1/chat/completions" "rid"
                    external_js (mkE [] [] []) in
  (λ p, (p.(x_url), p.(x_json), dget "Authorization" p.(x_headers))) <$> s'.(e_posts) =
    replicate 2 ("https://api.openai.com/v1/chat/completions", [("model", PStr "gpt-4o")], Some "Bearer sk-1") ∧
  r = Ok (RJson (mkJSON 200 (PDict [("id", PStr "c")]) [("X-Request-Id", "rid")])).
Proof. vm_compute. done. Qed.
