(* ===== verification/ProviderModels.v ===== *)
(** * What a provider serves, and its sessions
      (src/src/vllm_router/external_providers/openai_provider.py)

    An adapter asks its provider for the list of its models, at startup, and for its
    health; both go through the HTTP session that the adapter opens when it first needs
    one and keeps.  What the provider answers to a GET is a parameter; the manager's
    validation (ExternalProviders.v) is then that against the lists the providers give. *)

From S2P Require Import Prelude PyDict PyStr PyVal HttpBackend RouteRequest ExternalProviders.

Local Open Scope py_scope.
Set Default Proof Using "Type".

(* ------------------------------------------------------------------ *)
(** ** Sessions *)

(** [_session] among the sessions the adapter has made, open or closed. *)
Record session : Type := mkSession {
  made : list bool;
  current : option nat
}.
Definition no_session : session := mkSession [] None.
Definition open_session (s : session) : option nat :=
  match s.(current) with
  | Some n => if default false (s.(made) !! n) then Some n else None
  | None => None
  end.
(** [_get_session]. *)
Definition get_session : M session nat :=
  s <- gets open_session ;;
  match s with
  | Some n => ret n
  | None =>
      n <- gets (λ s, length s.(made)) ;;
      modify (λ s, mkSession (s.(made) ++ [true]) (Some (length s.(made)))) ;;;
      ret n
  end.
(** [close]. *)
Definition close_session : M session unit := modify (λ s,
  match open_session s with
  | Some n => mkSession (<[n := false]> s.(made)) s.(current)
  | None => s
  end).

(** No session but the current one is open. *)
Definition session_ok (s : session) : Prop := ∀ n, s.(made) !! n = Some true → s.(current) = Some n.

Lemma get_session_spec s :
  session_ok s → ∃ s' n, get_session s = (s', Ok n) ∧ session_ok s' ∧ open_session s' = Some n ∧
    (∀ k, open_session s = Some k → s' = s ∧ n = k).
Proof.
  intros Hs. unfold get_session, bind, gets. destruct (open_session s) as [n|] eqn:Eo.
  - exists s, n. split; [done|]. split; [done|]. split; [done|]. by intros k [= <-].
  - eexists _, _. split; [reflexivity|]. cbn. split; [|split; [|done]].
    + intros n Hn. cbn in *. apply lookup_app_Some in Hn as [Hn|[Hl Hn]].
      * specialize (Hs n Hn). unfold open_session in Eo. rewrite Hs, Hn in Eo. done.
      * destruct (n - length (made s)) as [|k] eqn:Ek; [f_equal; lia|by destruct k].
    + unfold open_session. cbn. by rewrite lookup_app_r, Nat.sub_diag by lia.
Qed.

(** Closing leaves no session open, and closing again changes nothing. *)
Lemma close_session_closes s :
  session_ok s → (∀ n, (close_session s).1.(made) !! n ≠ Some true) ∧ (close_session (close_session s).1).1 = (close_session s).1.
Proof.
  intros Hs. unfold close_session, modify. cbn [fst].
  assert (Hno : ∀ n, match open_session s with Some n => mkSession (<[n:=false]> s.(made)) s.(current) | None => s end.(made) !! n ≠ Some true).
  { intros n Hn. destruct (open_session s) as [k|] eqn:Eo.
    - cbn in Hn. apply list_lookup_insert_Some in Hn as [(_ & ? & _)|[Hk Hn]]; [done|]. apply Hk.
      unfold open_session in Eo. rewrite (Hs n Hn) in Eo. rewrite Hn in Eo. by injection Eo.
    - unfold open_session in Eo. by rewrite (Hs n Hn), Hn in Eo. }
  split; [exact Hno|]. set (s' := match open_session s with Some _ => _ | None => _ end) in *.
  destruct (open_session s') as [k|] eqn:Eo; [|done]. exfalso. unfold open_session in Eo.
  destruct (current s') as [n|]; [|done]. destruct (made s' !! n) as [[]|] eqn:En; try done. by apply (Hno n).
Qed.

(* ------------------------------------------------------------------ *)
(** ** The list of models *)

Section provider.
(** The answer to a GET: its status and its [json()]. *)
Context (get : string → dict string string → res (Z * res pyval)).

Definition models_url (a : adapter) : string := rstrip_slash a.(config).(ep_api_base) +:+ "/v1/models".

(** [m["id"]]. *)
Definition id_of (m : pyval) : res pyval :=
  match m with PDict d => of_option (KeyError "id") (dget "id" d) | _ => Err TypeError end.
(** [[m["id"] for m in data.get("data", [])]]. *)
Definition ids_of (data : pyval) : res (list pyval) :=
  match data with
  | PDict d =>
      match dget_or "data" (PList []) d with
      | PList l => mapM_res id_of l
      | PStr "" | PDict [] => Ok []
      | _ => Err TypeError
      end
  | _ => Err (AttributeError "get")
  end.

Definition fetch_available_model_ids (a : adapter) : M session (list pyval) :=
  try_except
    (get_session ;;;
     response <- lift (get (models_url a) (build_headers a)) ;;
     if negb (response.1 =? 200)%Z then ret []
     else data <- lift response.2 ;; lift (ids_of data))
    (λ e, if is_Exception e then ret [] else raise e).

Definition provider_health (a : adapter) : M session bool :=
  try_except
    (get_session ;;;
     response <- lift (get (models_url a) (build_headers a)) ;;
     ret (response.1 =? 200)%Z)
    (λ e, if is_ClientError e then ret false else raise e).

(** What the manager is told, whatever session is used. *)
Definition served (a : adapter) : res (list pyval) := (fetch_available_model_ids a no_session).2.

Lemma fetch_served a s :
  session_ok s → (fetch_available_model_ids a s).2 = served a ∧ session_ok (fetch_available_model_ids a s).1.
Proof.
  intros Hs. unfold served, fetch_available_model_ids, try_except, bind.
  destruct (get_session_spec s Hs) as (s' & n & -> & Hs' & _). cbn.
  unfold lift. destruct (get _ _) as [[status body]|e]; cbn; [|by destruct (is_Exception e)].
  destruct (negb _); [done|]. destruct body as [v|e]; cbn; [|by destruct (is_Exception e)].
  destruct (ids_of v) as [l|e]; cbn; [done|]. by destruct (is_Exception e).
Qed.

(** The provider answers with a model list that names [id]. *)
Definition names_model (a : adapter) (id : string) : Prop :=
  ∃ d l ids, get (models_url a) (build_headers a) = Ok (200%Z, Ok (PDict d)) ∧ dget "data" d = Some (PList l) ∧
    mapM_res id_of l = Ok ids ∧ PStr id ∈ ids.

Lemma served_names a l id : served a = Ok l → PStr id ∈ l → names_model a id.
Proof.
  unfold served, fetch_available_model_ids, try_except, bind. cbn.
  destruct (get _ _) as [[status body]|e] eqn:Eg; cbn; [|by destruct (is_Exception e); intros [= <-] ?%elem_of_nil].
  destruct (status =? 200)%Z eqn:Est; cbn; [apply Z.eqb_eq in Est; subst|by intros [= <-] ?%elem_of_nil].
  destruct body as [v|e]; cbn; [|by destruct (is_Exception e); intros [= <-] ?%elem_of_nil].
  destruct (ids_of v) as [ids|e] eqn:Ei; cbn; [|by destruct (is_Exception e); intros [= <-] ?%elem_of_nil].
  intros [= <-] Hid. destruct v as [| | | | | |d]; try done. cbn in Ei. unfold dget_or in Ei.
  destruct (dget "data" d) as [x|] eqn:Ed; cbn in Ei; [|injection Ei as <-; by apply elem_of_nil in Hid].
  destruct x as [| | | |z|l0|d0]; try done.
  - destruct z; [|done]. injection Ei as <-. by apply elem_of_nil in Hid.
  - by exists d, l0, ids.
  - destruct d0; [|done]. injection Ei as <-. by apply elem_of_nil in Hid.
Qed.

(** Whoever answers without being cancelled gives a list. *)
Lemma served_total a :
  (∀ e, get (models_url a) (build_headers a) = Err e → is_Exception e = true) →
  (∀ status e, get (models_url a) (build_headers a) = Ok (status, Err e) → is_Exception e = true) →
  ∃ l, served a = Ok l.
Proof.
  intros H1 H2. unfold served, fetch_available_model_ids, try_except, bind. cbn.
  destruct (get _ _) as [[status body]|e]; cbn; [|rewrite (H1 e) by done; eauto].
  destruct (negb _); cbn; [eauto|]. destruct body as [v|e]; cbn; [|rewrite (H2 status e) by done; eauto].
  destruct (ids_of v) as [ids|e] eqn:Ei; cbn; [eauto|].
  assert (He : is_Exception e = true); [|rewrite He; eauto].
  unfold ids_of in Ei. destruct v as [| | | | | |d]; try by injection Ei as <-.
  destruct (dget_or _ _ _) as [| | | |z|l|d']; try by injection Ei as <-.
  - destruct z; [done|by injection Ei as <-].
  - clear H1 H2. revert Ei. induction l as [|m l IH]; [done|]. cbn [mapM_res]. unfold id_of at 1.
    destruct m as [| | | | | |dm]; try by intros [= <-].
    destruct (dget "id" dm); cbn; [|by intros [= <-]]. destruct (mapM_res id_of l); [done|]. exact IH.
  - destruct d'; [done|by injection Ei as <-].
Qed.
End provider.

Section validation.
Context (get : string → dict string string → res (Z * res pyval)).

Lemma names_served a id : names_model get a id → ∃ l, served get a = Ok l ∧ PStr id ∈ l.
Proof.
  intros (d & l & ids & Hg & Hd & Hids & Hid). exists ids. split; [|done].
  unfold served, fetch_available_model_ids, try_except, bind. cbn. rewrite Hg. cbn. unfold dget_or. rewrite Hd. cbn.
  by rewrite Hids.
Qed.

(** The start of the application keeps, of the models that are configured, exactly those
    that their provider names in the list it gives, and those of the providers whose list
    is empty or cannot be read. *)
Theorem validated_models_are_served s :
  dict_wf s.(adapters) → dict_wf s.(model_index) →
  (∀ name a, dget name s.(adapters) = Some a → ∃ l, served get a = Ok l ∧ forallb hashable l = true) →
  ∃ s', validate_models (served get) s = (s', Ok tt) ∧
  ∀ id, is_external_model id s' = true ↔
    ∃ name a0 canonical, dget id s.(model_index) = Some (name, a0, canonical) ∧
      ∀ a, dget name s.(adapters) = Some a → served get a = Ok [] ∨ names_model get a canonical.
Proof.
  intros Hwa Hwf Hl. destruct (validate_models_spec (served get) s Hwa Hwf Hl) as (s' & E & _ & H). exists s'.
  split; [done|]. intros id. unfold is_external_model, din. rewrite bool_decide_eq_true. split.
  - intros [[[name a0] c] He]. apply H in He as [He Hok]. exists name, a0, c. split; [done|]. intros a Ha.
    destruct (Hok a Ha) as [?|(l & El & Hc)]; [by left|right]. by eapply served_names.
  - intros (name & a0 & c & He & Hok). exists (name, a0, c). apply H. split; [done|]. intros a Ha.
    destruct (Hok a Ha) as [?|Hn]; [by left|right]. by apply names_served.
Qed.

(** A provider is healthy exactly when it answers its model list with a 200, and the
    manager's report never fails for a provider that cannot be reached. *)
Lemma provider_health_spec a s :
  session_ok s →
  (provider_health get a s).2 =
    match get (models_url a) (build_headers a) with
    | Ok (status, _) => Ok (status =? 200)%Z
    | Err e => if is_ClientError e then Ok false else Err e
    end.
Proof.
  intros Hs. unfold provider_health, try_except, bind. destruct (get_session_spec s Hs) as (s' & n & -> & _). cbn. unfold lift.
  destruct (get _ _) as [[status body]|e]; cbn; [done|]. by destruct (is_ClientError e).
Qed.
End validation.

(* ------------------------------------------------------------------ *)
(** ** Witnesses *)

(** The first provider lists one of its two models; the other one cannot be reached. *)
Definition get_example (u : string) (headers : dict string string) : res (Z * res pyval) :=
  if decide (u = "https://api.openai.com/v1/models")
  then Ok (200%Z, Ok (PDict [("data", PList [PDict [("id", PStr "gpt-4o")]])]))
  else Err ClientConnectorError.

Lemma validated_models_witness :
  ∃ s', validate_models (served get_example) manager_example = (s', Ok tt) ∧
    is_external_model "best" s' = true ∧ is_external_model "claude" s' = true.
Proof.
  destruct (validated_models_are_served get_example manager_example) as (s' & E & H).
  - apply (bool_decide_unpack _). vm_compute. exact I.
  - apply (bool_decide_unpack _). vm_compute. exact I.
  - intros name a Ha. apply dget_elem in Ha. vm_compute in Ha.
    apply elem_of_cons in Ha as [[= -> ->]|Ha]; [eexists; split; vm_compute; reflexivity|].
    apply elem_of_cons in Ha as [[= -> ->]|Ha]; [eexists; split; vm_compute; reflexivity|]. by apply elem_of_nil in Ha.
  - exists s'. split; [exact E|]. split; apply H; (eexists _, _, _; split; [vm_compute; reflexivity|]); intros a Ha.
    + right. revert Ha. vm_compute. intros [= <-]. eexists _, _, _. split; [reflexivity|]. split; [reflexivity|].
      split; [reflexivity|by left].
    + left. revert Ha. vm_compute. by intros [= <-].
Defined.
Example sessions_are_reused :
  (fetch_available_model_ids get_example (mkAdapter (mkProvider "p" "openai" "https://api.openai.com" [] None 30 3 []) None)
    (get_session no_session).1).1.(made) = [true].
Proof. vm_compute. reflexivity. Qed.
