(* ===== verification/Multipart.v ===== *)
(** * Multipart requests
      ([proxy_multipart_request], [route_multipart_request] and
       [route_general_transcriptions] of
       src/src/vllm_router/services/request_service/request.py)

    Audio and image-editing requests carry form data: the handler chooses an engine as
    for any other request, but makes one attempt only, and reports it to the statistics
    monitor as ProcessRequest.v does.  [attempt] is what happens once an engine has been
    chosen, as a computation on the log of hooks; [proxy_multipart_request] is the whole
    handler.  Parsing the form, and what the engine answers, are parameters. *)

From S2P Require Import Prelude PyDict PyStr PyVal Endpoint RequestStats Routing RouterInterface.
From S2P Require Import ServiceDiscovery DiscoveryRegistry HttpBackend ProcessRequest RouteRequest.

Local Open Scope py_scope.

(** A value of a parsed form: a text or an uploaded file. *)
Inductive form_value : Type :=
| FText (s : string)
| FUpload (filename : option string) (content : string) (content_type : option string).

(** What is posted to the engine: the raw body, or the fields of a new form. *)
Inductive field : Type :=
| FileField (key : string) (filename : option string) (content : string) (content_type : option string)
| ValueField (key : string) (value : form_value).
Inductive payload : Type :=
| PBytes (body : string)
| PFields (fields : list field).

(** The engine's answer: [read()], [json()] and [text()] of its body, and its chunks. *)
Record MAnswer : Type := mkMAnswer {
  a_headers : dict string string;
  a_status : Z;
  a_read : res string;
  a_json : res pyval;
  a_text : res string;
  a_chunks : list string;
  a_fin : option exn
}.

Inductive MResponse : Type :=
| MJson (r : JSONResponse)
| MRaw (status : Z) (headers : dict string string) (content : string)
| MStream (status : Z) (headers : dict string string) (media_type : string) (items : list item)
    (fin : res unit).

Definition non_empty (chunk : string) : bool := bool_decide (chunk ≠ "").

Definition terminal (o : Outcome) : hook :=
  match o with OComplete => HComplete | OFail => HFail | OAbort => HAbort end.

(* ------------------------------------------------------------------ *)
(** ** One attempt *)

Section attempt.
Context (exn_str : exn → string).

Definition hook_ (h : hook) : M (list action) unit := modify (λ l, l ++ [Hook h]).

(** [{k: v for k, v in headers.items() if k.lower() not in _HEADERS_TO_STRIP_FROM_RESPONSE}]. *)
Definition multipart_headers (hs : dict string string) (request_id : string) : dict string string :=
  dset "X-Request-Id" request_id
    (filter_headers (λ k, negb (bool_decide (lower k ∈ HEADERS_TO_STRIP_FROM_RESPONSE))) [] hs).

(** The loop of [traced_stream]: empty chunks are dropped, the first other one is the
    first token. *)
Fixpoint multipart_chunks (first_token : bool) (chunks : list string) : M gstate unit :=
  match chunks with
  | [] => ret tt
  | c :: rest =>
      if non_empty c then
        (if first_token then ret tt else emit (Hook HResponse)) ;;;
        yield_ (IChunk c) ;;;
        multipart_chunks true rest
      else multipart_chunks first_token rest
  end.
Definition traced_stream (a : MAnswer) : M gstate unit :=
  try_finally
    (try_except
       (multipart_chunks false a.(a_chunks) ;;;
        match a.(a_fin) with Some e => raise e | None => ret tt end ;;;
        set_outcome OComplete "complete")
       (λ e, if is_Exception e then set_outcome OFail "fail" ;;; raise e
             else set_outcome OAbort "abort" ;;; raise e))
    (o <- gets terminal_outcome ;; emit (Hook (terminal o))).

(** Reading a whole answer: opaque media are passed on, JSON and HTML are parsed. *)
Definition answer_body (a : MAnswer) (request_id : string) : res MResponse :=
  let resp_headers := multipart_headers a.(a_headers) request_id in
  let content_type := default "" (header_get "content-type" a.(a_headers)) in
  let media_type := lower (strip (partition_head ";" content_type)) in
  if negb (is_json_media_type content_type) && negb (bool_decide (media_type = "text/html"))
  then rbind a.(a_read) (λ c, Ok (MRaw a.(a_status) resp_headers c))
  else rbind a.(a_json) (λ v, Ok (MJson (mkJSON a.(a_status) v resp_headers))).

(** What does not parse becomes a 502; beside the response, the outcome the [finally]
    block reports. *)
Definition read_answer (a : MAnswer) (request_id : string) : Outcome * res MResponse :=
  match answer_body a request_id with
  | Ok r => (OComplete, Ok r)
  | Err e =>
      match e with
      | ContentTypeError | JSONDecodeError =>
          let text := match a.(a_text) with
                      | Err x => if is_ClientError x then Ok (exn_str e) else Err x
                      | ok => ok
                      end in
          match text with
          | Ok text_content =>
              (OComplete, Ok (MJson (mkJSON 502
                 (PDict [("error", PStr ("Backend returned non-JSON response: " +:+ text_content))])
                 (multipart_headers a.(a_headers) request_id))))
          | Err x => (OAbort, Err x)
          end
      | _ => (if is_Exception e then OFail else OAbort, Err e)
      end
  end.

(** From [on_new_request] to the answer's end.  Building the response headers and the
    streaming response raises nothing, so that the [except] clauses around them are
    never entered. *)
Definition attempt (backend_url request_id : string) (answer : res MAnswer) (stream : bool)
    (quota : option nat) : M (list action) MResponse :=
  hook_ (HNew backend_url request_id) ;;;
  a <- try_except (lift answer)
         (λ e, hook_ (if is_Exception e then HFail else HAbort) ;;; raise e) ;;
  if stream then
    let '(s, fin) := traced_stream a (g_init quota) in
    modify (λ l, l ++ s.(glog)) ;;;
    ret (MStream a.(a_status) (multipart_headers a.(a_headers) request_id)
           (default "text/event-stream" (header_get "content-type" a.(a_headers)))
           (yields s.(glog)) fin)
  else
    hook_ HResponse ;;;
    let '(o, r) := read_answer a request_id in
    hook_ (terminal o) ;;;
    lift r.

(* ------------------------------------------------------------------ *)
(** ** What an attempt reports *)

Definition received_chunks (a : MAnswer) : list string := filter (λ c, non_empty c = true) a.(a_chunks).

Lemma multipart_chunks_spec first chunks s :
  let ne := filter (λ c, non_empty c = true) chunks in
  let '(s', r) := multipart_chunks first chunks s in
  ∃ l k, s' = mkG s'.(quota) (s.(glog) ++ l) s.(terminal_outcome) s.(request_status)
                 s.(headers_sent) s.(received) s.(stall_error) ∧
    yields l = IChunk <$> take k ne ∧ k ≤ length ne ∧
    hooks l = (if first || (k =? 0) then [] else [HResponse]) ∧
    match r with
    | Ok _ => k = length ne
    | Err e => e = GeneratorExit ∧ s.(quota) ≠ None ∧ 0 < k
    end.
Proof.
  revert first s. induction chunks as [|c rest IH]; intros first s; cbv zeta.
  { exists [], 0. rewrite app_nil_r, orb_true_r. simpl. by destruct s. }
  cbn [multipart_chunks]. destruct (non_empty c) eqn:Ec.
  2: { rewrite filter_cons_False by (by rewrite Ec). apply IH. }
  rewrite filter_cons_True by done.
  set (l0 := (if first then [] else [Hook HResponse]) ++ [Yield (IChunk c)]).
  assert (Hstep : ((if first then ret tt else emit (Hook HResponse)) ;;; yield_ (IChunk c)) s =
    (mkG (match s.(quota) with Some (S n) => Some n | q => q end) (s.(glog) ++ l0) s.(terminal_outcome)
       s.(request_status) s.(headers_sent) s.(received) s.(stall_error),
     match s.(quota) with Some 0 => Err GeneratorExit | _ => Ok tt end)).
  { unfold bind, yield_, bind, emit, modify, ret, l0. destruct s as [q ??????], first; simpl;
      destruct q as [[|n]|]; by rewrite <-?app_assoc. }
  rewrite <-bind_assoc. unfold bind at 1. rewrite Hstep.
  assert (Hl0 : yields l0 = [IChunk c] ∧ hooks l0 = if first then [] else [HResponse]).
  { unfold l0. by destruct first. }
  destruct Hl0 as [Hy Hh].
  destruct (quota s) as [[|n]|] eqn:Eq.
  - exists l0, 1. split; [done|]. rewrite Hy, Hh. split; [done|]. split; [simpl; lia|].
    split; [by destruct first|]. split; [done|]. split; [congruence|lia].
  - match goal with |- context [multipart_chunks true rest ?s1] => specialize (IH true s1) end.
    cbv zeta in IH. destruct (multipart_chunks true rest _) as [s' r].
    destruct IH as (l & k & -> & Hy' & Hk & Hh' & Hr). exists (l0 ++ l), (S k).
    cbn [quota glog terminal_outcome request_status headers_sent received stall_error] in *.
    rewrite app_assoc, yields_app, hooks_app, Hy, Hy', Hh, Hh'. simpl.
    split; [done|]. split; [done|]. split; [lia|]. split; [by destruct first|].
    destruct r; [lia|]. destruct Hr as (-> & ? & ?). split; [done|]. split; [congruence|lia].
  - match goal with |- context [multipart_chunks true rest ?s1] => specialize (IH true s1) end.
    cbv zeta in IH. destruct (multipart_chunks true rest _) as [s' r].
    destruct IH as (l & k & -> & Hy' & Hk & Hh' & Hr). exists (l0 ++ l), (S k).
    cbn [quota glog terminal_outcome request_status headers_sent received stall_error] in *.
    rewrite app_assoc, yields_app, hooks_app, Hy, Hy', Hh, Hh'. simpl.
    split; [done|]. split; [done|]. split; [lia|]. split; [by destruct first|].
    destruct r; [lia|]. by destruct Hr as (_ & Hq & _).
Qed.

(** How a run that ended with [r] is reported. *)
Definition outcome_of_result {A} (r : res A) : Outcome :=
  match r with Ok _ => OComplete | Err e => if is_Exception e then OFail else OAbort end.
Definition first_token_hook (k : nat) : list hook := if k =? 0 then [] else [HResponse].

Lemma traced_stream_spec a q :
  let '(s, r) := traced_stream a (g_init q) in
  ∃ k, yields s.(glog) = IChunk <$> take k (received_chunks a) ∧ k ≤ length (received_chunks a) ∧
    hooks s.(glog) = first_token_hook k ++ [terminal (outcome_of_result r)] ∧
    (r = Ok tt → k = length (received_chunks a) ∧ a.(a_fin) = None) ∧
    (q = None → k = length (received_chunks a) ∧
                r = match a.(a_fin) with Some e => Err e | None => Ok tt end).
Proof.
  pose proof (multipart_chunks_spec false a.(a_chunks) (g_init q)) as Hc. cbv zeta in Hc.
  fold (received_chunks a) in Hc. unfold traced_stream, try_finally, try_except.
  destruct (multipart_chunks false (a_chunks a) (g_init q)) as [s1 r1] eqn:E.
  destruct Hc as (l & k & Es & Hy & Hk & Hh & Hr). cbn [g_init glog app orb] in *.
  assert (Hend : ∀ (s : gstate) (o : Outcome),
    yields (s.(glog) ++ [Hook (terminal o)]) = yields s.(glog) ∧
    hooks (s.(glog) ++ [Hook (terminal o)]) = hooks s.(glog) ++ [terminal o]).
  { intros s o. rewrite yields_app, hooks_app. by rewrite app_nil_r. }
  unfold bind at 1. rewrite E. destruct r1 as [[]|e].
  - subst k. destruct (a_fin a) as [e|] eqn:Ef.
    + unfold bind, raise. destruct (is_Exception e) eqn:Ee;
        unfold bind, set_outcome, modify, raise, gets, emit; simpl; rewrite Es; simpl;
        exists (length (received_chunks a)); rewrite yields_app, hooks_app, Hy, Hh; simpl;
        rewrite app_nil_r, Ee; by split_and!.
    + unfold bind, ret, set_outcome, modify, raise, gets, emit; simpl; rewrite Es; simpl;
        exists (length (received_chunks a)); rewrite yields_app, hooks_app, Hy, Hh; simpl;
        rewrite app_nil_r; by split_and!.
  - destruct Hr as (-> & Hq & Hpos). simpl. unfold bind, set_outcome, modify, raise, gets, emit; simpl.
    rewrite Es. simpl. exists k. rewrite yields_app, hooks_app, Hy, Hh. simpl. rewrite app_nil_r.
    split_and!; try done; by intros ->.
Qed.

Lemma read_answer_spec a rid :
  let '(o, r) := read_answer a rid in
  (o = OComplete ↔ is_ok r = true) ∧ (∀ e, r = Err e → is_Exception e = false → o = OAbort).
Proof.
  unfold read_answer. destruct (answer_body a rid) as [x|e]; [by split|].
  destruct e; simpl; try (split; [done|]; by intros ? [= <-]).
  all: destruct (a_text a) as [t|x]; [by split|]; destruct (is_ClientError x); by split.
Qed.

(** What an attempt does: it reports its arrival first and exactly one terminal outcome
    last, with at most one first response between them. *)
Definition attempt_ok (u rid : string) (answer : res MAnswer) (stream : bool) (q : option nat)
    (hs : list hook) (r : res MResponse) : Prop :=
  ∃ mid o, hs = HNew u rid :: mid ++ [terminal o] ∧ (mid = [] ∨ mid = [HResponse]) ∧
    match answer with
    | Err e => mid = [] ∧ r = Err e ∧ o = if is_Exception e then OFail else OAbort
    | Ok a =>
        if stream then
          ∃ media items fin,
            r = Ok (MStream a.(a_status) (multipart_headers a.(a_headers) rid) media items fin) ∧
            (∃ k, items = IChunk <$> take k (received_chunks a)) ∧
            (mid = [] ↔ items = []) ∧ o = outcome_of_result fin ∧
            (fin = Ok tt → items = IChunk <$> received_chunks a ∧ a.(a_fin) = None) ∧
            (q = None → items = IChunk <$> received_chunks a ∧
                        fin = match a.(a_fin) with Some e => Err e | None => Ok tt end)
        else mid = [HResponse] ∧ (o = OComplete ↔ is_ok r = true)
    end.

Lemma attempt_spec u rid answer stream q log :
  let '(log', r) := attempt u rid answer stream q log in
  ∃ l, log' = log ++ l ∧ attempt_ok u rid answer stream q (hooks l) r.
Proof.
  unfold attempt. unfold bind at 1, hook_ at 1, modify at 1. unfold bind at 1, try_except, lift at 1.
  destruct answer as [a|e].
  2: { unfold bind, hook_, modify, raise. exists [Hook (HNew u rid); Hook (if is_Exception e then HFail else HAbort)].
       split; [by rewrite <-app_assoc|]. exists [], (if is_Exception e then OFail else OAbort).
       destruct (is_Exception e); split_and!; auto. }
  destruct stream.
  - pose proof (traced_stream_spec a q) as Ht. destruct (traced_stream a (g_init q)) as [s fin].
    destruct Ht as (k & Hy & Hk & Hh & Hok & Hq). unfold bind, modify, ret.
    exists (Hook (HNew u rid) :: glog s). split; [by rewrite <-app_assoc|].
    exists (first_token_hook k), (outcome_of_result fin). split; [simpl; by rewrite Hh|].
    split; [unfold first_token_hook; destruct (k =? 0); auto|].
    eexists _, _, _. split; [done|]. rewrite Hy. split; [by exists k|]. split_and!.
    + unfold first_token_hook. destruct (Nat.eqb_spec k 0) as [->|Hne]; [by split|].
      split; [done|]. intros Hnil%fmap_nil_inv%(f_equal length). rewrite length_take in Hnil. simpl in Hnil. lia.
    + done.
    + intros [-> Hf]%Hok. split; [|done]. by rewrite take_ge.
    + intros [-> Hf]%Hq. split; [|done]. by rewrite take_ge.
  - pose proof (read_answer_spec a rid) as Hr. destruct (read_answer a rid) as [o r].
    unfold bind, hook_, modify, lift.
    exists [Hook (HNew u rid); Hook HResponse; Hook (terminal o)]. split; [by rewrite <-!app_assoc|].
    exists [HResponse], o. split; [by destruct o|]. split; [by right|]. split; [done|]. apply Hr.
Qed.
End attempt.

(* ------------------------------------------------------------------ *)
(** ** The handler *)

Section multipart.
Context {R : Type} {HR : Router R}.
Context (exn_str : exn → string) (show : form_value → string).
(** [isinstance(router, DisaggregatedPrefillRouter)]. *)
Context (plain_disaggregated : bool).

Record MCall : Type := mkMCall {
  m_url : string;
  m_payload : payload;
  m_headers : dict string string
}.
Record mstate : Type := mkM {
  m_router : R;
  m_log : list action;
  m_calls : list MCall
}.

(** The process the handler runs in; [mw_error_body] is [response_error.response] with
    its [json()] and [text()]. *)
Record MWorld : Type := mkMWorld {
  mw_world : SDWorld;
  mw_discovery : sd_global;
  mw_stats : gmap string RequestStats;
  mw_answer : MCall → res MAnswer;
  mw_error_body : res (option (res pyval * res string))
}.

(** [model in ep.model_names and not ep.sleep]. *)
Definition serves_model (model : form_value) (e : EndpointInfo) : bool :=
  match model with FText m => bool_decide (m ∈ e.(model_names)) | FUpload _ _ _ => false end &&
  negb e.(sleep).
Definition truthy_form (v : form_value) : bool :=
  match v with FText s => bool_decide (s ≠ "") | FUpload _ _ _ => true end.

(** The body a router is shown: there is no prompt to look at. *)
Definition routing_json (model : form_value) : dict string pyval :=
  if plain_disaggregated then []
  else [("model", PStr (show model)); ("prompt", PStr "")].

Definition choose_url (w : MWorld) (endpoints : list EndpointInfo) (request : Request) (model : form_value) :
  M mstate string := λ s,
  let '(r', o) := route_request endpoints w.(mw_stats) request (routing_json model) s.(m_router) in
  (mkM r' s.(m_log) s.(m_calls), rbind o (λ x, Ok x.1)).

Definition with_actions {A} (m : M (list action) A) : M mstate A := λ s,
  let '(l, o) := m s.(m_log) in (mkM s.(m_router) l s.(m_calls), o).

(** The outer [except] clauses. *)
Definition multipart_except (w : MWorld) (e : exn) : res MResponse :=
  match e with
  | ClientResponseError status message =>
      let text := "HTTP " +:+ str_of_int status +:+ ": " +:+ message in
      rbind w.(mw_error_body) (λ body,
      rbind (match body with
             | None => Ok (PDict [("error", PStr text)])
             | Some (Ok v, _) => Ok v
             | Some (Err x, t) =>
                 if is_ClientError x || bool_decide (x = JSONDecodeError) then
                   match t with
                   | Ok t => Ok (PDict [("error", PStr t)])
                   | Err x' => if is_ClientError x' then Ok (PDict [("error", PStr text)]) else Err x'
                   end
                 else Err x
             end) (λ error_content, Ok (MJson (mkJSON status error_content []))))
  | _ =>
      if is_ClientError e then
        Ok (MJson (mkJSON 503 (PDict [("error", PStr ("Failed to connect to backend: " +:+ exn_str e))]) []))
      else if is_Exception e then Ok (MJson (mkJSON 500 (PDict [("error", PStr "Internal server error")]) []))
      else Err e
  end.

Definition request_id_of_header (request : Request) (fresh : string) : string :=
  default fresh (header_get "X-Request-Id" request.(req_headers)).

Definition proxy_multipart_request (w : MWorld) (form_data : payload) (model : option form_value)
    (endpoint : string) (request : Request) (fresh : string) (stream : bool) (quota : option nat) :
  M mstate MResponse :=
  let request_id := request_id_of_header request fresh in
  match model with
  | None => ret (MJson (error_json 400 "Invalid request: missing 'model' in form data." request_id))
  | Some model =>
  if negb (truthy_form model)
  then ret (MJson (error_json 400 "Invalid request: missing 'model' in form data." request_id)) else
  sd <- lift (get_service_discovery w.(mw_discovery)).2 ;;
  endpoints <- lift (get_endpoint_info w.(mw_world) sd) ;;
  match filter (λ ep, serves_model model ep = true) endpoints with
  | [] => ret (MJson (mkJSON 404 (PDict [("error", PStr ("No backend for model " +:+ show model))]) []))
  | endpoints =>
      chosen_url <- choose_url w endpoints request model ;;
      let call := mkMCall (chosen_url +:+ endpoint) form_data
        (build_backend_request_headers request.(req_headers) request_id
           (match form_data with PBytes _ => true | PFields _ => false end)) in
      try_except
        (modify (λ s, mkM s.(m_router) s.(m_log) (s.(m_calls) ++ [call])) ;;;
         with_actions (attempt exn_str chosen_url request_id (w.(mw_answer) call) stream quota))
        (λ e, lift (multipart_except w e))
  end end.

(** [form] is what parsing the form gives. *)
Definition route_multipart_request (w : MWorld) (body : string) (form : res (dict string form_value))
    (endpoint : string) (request : Request) (fresh : string) (quota : option nat) : M mstate MResponse :=
  match form with
  | Err e =>
      if is_Exception e
      then ret (MJson (mkJSON 400 (PDict [("error", PStr "Invalid multipart/form-data request")]) []))
      else raise e
  | Ok form =>
      proxy_multipart_request w (PBytes body) (dget "model" form) endpoint request fresh false quota
  end.

(* ------------------------------------------------------------------ *)
(** ** Transcriptions *)

(** [str(float(s))], or [None] when [float] raises [ValueError]. *)
Context (float_str : string → option string).

Record Transcription : Type := mkTranscription {
  t_file : form_value;
  t_model : form_value;
  t_prompt : option form_value;
  t_response_format : option form_value;
  t_temperature : option string;
  t_language : option form_value;
  t_stream : bool
}.

Definition form_index (k : string) (form : dict string form_value) : res form_value :=
  of_option (KeyError k) (dget k form).

(** The fields in the order the code reads them. *)
Definition parse_transcription (form : dict string form_value) : res Transcription :=
  rbind (form_index "file" form) (λ file,
  rbind (form_index "model" form) (λ model,
  rbind (match dget "temperature" form with
         | None => Ok None
         | Some (FText s) => rbind (of_option (ValueError "could not convert string to float") (float_str s))
                               (λ x, Ok (Some x))
         | Some (FUpload _ _ _) => Err TypeError
         end) (λ temperature,
  rbind (match dget "stream" form with
         | None => Ok false
         | Some (FText s) => Ok (bool_decide (lower s = "true"))
         | Some (FUpload _ _ _) => Err (AttributeError "lower")
         end) (λ stream,
  Ok (mkTranscription file model (dget "prompt" form)
        (Some (dget_or "response_format" (FText "json") form)) temperature (dget "language" form) stream))))).

(** The language, when it is a meaningful text. *)
Definition language_field (language : option form_value) : list field :=
  match language with
  | Some (FText s) =>
      let stripped := strip s in
      if bool_decide (stripped ≠ "") && negb (bool_decide (lower stripped ∈ ["none"; "null"; "undefined"]))
      then [ValueField "language" (FText stripped)] else []
  | _ => []
  end.
Definition optional_field (k : string) (v : option form_value) : list field :=
  match v with Some v => if truthy_form v then [ValueField k v] else [] | None => [] end.

(** The form posted to the engine. *)
Definition transcription_fields (t : Transcription) (filename : option string) (content : string)
    (content_type : option string) : list field :=
  FileField "file" filename content content_type ::
  ValueField "model" t.(t_model) ::
  language_field t.(t_language) ++
  optional_field "prompt" t.(t_prompt) ++
  optional_field "response_format" t.(t_response_format) ++
  match t.(t_temperature) with Some x => [ValueField "temperature" (FText x)] | None => [] end ++
  (if t.(t_stream) then [ValueField "stream" (FText "true")] else []).

Definition route_general_transcriptions (w : MWorld) (form : res (dict string form_value))
    (endpoint : string) (request : Request) (fresh1 fresh2 : string) (quota : option nat) :
  M mstate MResponse :=
  let request_id :=
    match header_get "X-Request-Id" request.(req_headers) with
    | Some x => if decide (x = "") then fresh1 else x
    | None => fresh1
    end in
  match rbind form parse_transcription with
  | Err (KeyError k) =>
      ret (MJson (error_json 400 ("Invalid request: missing '" +:+ k +:+ "' in form data.") request_id))
  | Err (TypeError | ValueError _) =>
      ret (MJson (error_json 400 "Invalid multipart/form-data request" request_id))
  | Err e => raise e
  | Ok t =>
      match t.(t_file) with
      | FText _ => raise (AttributeError "filename")
      | FUpload filename content content_type =>
          proxy_multipart_request w (PFields (transcription_fields t filename content content_type))
            (Some t.(t_model)) endpoint request fresh2 t.(t_stream) quota
      end
  end.

(* ------------------------------------------------------------------ *)
(** ** Properties *)

(** One attempt and one request to an engine, which serves the model. *)
Definition attempted_once (w : MWorld) (form_data : payload) (model : option form_value)
    (endpoint rid : string) (stream : bool) (q : option nat) (s s' : mstate) (r : res MResponse) : Prop :=
  ∃ m sd endpoints e call l r0,
    model = Some m ∧ w.(mw_discovery).(current) = Some sd ∧
    get_endpoint_info w.(mw_world) sd = Ok endpoints ∧ e ∈ endpoints ∧ serves_model m e = true ∧
    call.(m_url) = e.(url) +:+ endpoint ∧ call.(m_payload) = form_data ∧
    s'.(m_calls) = s.(m_calls) ++ [call] ∧ s'.(m_log) = s.(m_log) ++ l ∧
    attempt_ok e.(url) rid (w.(mw_answer) call) stream q (hooks l) r0 ∧
    r = match r0 with Ok x => Ok x | Err x => multipart_except w x end.

Lemma proxy_multipart_spec w form_data model endpoint request fresh stream q s :
  router_inv s.(m_router) →
  let '(s', r) := proxy_multipart_request w form_data model endpoint request fresh stream q s in
  router_inv s'.(m_router) ∧
  ((s'.(m_calls) = s.(m_calls) ∧ s'.(m_log) = s.(m_log)) ∨
   attempted_once w form_data model endpoint (request_id_of_header request fresh) stream q s s' r).
Proof.
  intros Hinv. unfold proxy_multipart_request.
  destruct model as [m|]; [|split; [done|by left]].
  destruct (negb (truthy_form m)); [split; [done|by left]|].
  unfold bind at 1, lift at 1, get_service_discovery. cbn [snd].
  destruct (current (mw_discovery w)) as [sd|] eqn:Esd; cbn [of_option]; [|split; [done|by left]].
  unfold bind at 1, lift at 1.
  destruct (get_endpoint_info (mw_world w) sd) as [endpoints|] eqn:Eend; [|split; [done|by left]].
  destruct (filter (λ ep, serves_model m ep = true) endpoints) as [|e0 es] eqn:Ef;
    [split; [done|by left]|].
  unfold bind at 1, choose_url.
  pose proof (route_request_listed (e0 :: es) w.(mw_stats) request (routing_json m) s.(m_router)
    ltac:(done) Hinv) as Hr.
  destruct (route_request _ _ _ _ _) as [r' [[u js]|x]]; cbn [rbind]; [|by split; [apply Hr|left]].
  destruct Hr as [Hinv' (e & Hu & He)%list_elem_of_fmap]. cbn [fst].
  rewrite <-Ef, list_elem_of_filter in He. destruct He as [Hserve Hin]. subst u.
  set (call := mkMCall _ _ _). unfold try_except, bind, modify, with_actions.
  cbn [m_router m_log m_calls].
  pose proof (attempt_spec exn_str e.(url) (request_id_of_header request fresh) (mw_answer w call)
    stream q s.(m_log)) as Ha.
  destruct (attempt _ _ _ _ _ _ _) as [log' r0]. destruct Ha as (l & -> & Ha).
  destruct r0 as [x|x]; (split; [done|]); right; exists m, sd, endpoints, e, call, l;
    [exists (Ok x)|exists (Err x)]; by split_and!.
Qed.

(** C14: every multipart request is attempted at most once and every attempt is accounted
    for: a request without a model, or whose model nobody serves, reaches no engine and
    no hook; otherwise exactly one engine is contacted, one that is listed, awake and
    serves the model, with the client's form; the statistics monitor hears of the
    arrival, at most one first response and exactly one terminal outcome, last.  A
    stream is delivered without its empty chunks, in order, and completes exactly when
    the engine's stream ended by itself; a whole answer completes exactly when the client
    gets a response made from it, the 502 for an unreadable one included. *)
Theorem multipart_is_attempted_once w body form endpoint request fresh q s :
  router_inv s.(m_router) →
  let '(s', r) := route_multipart_request w body form endpoint request fresh q s in
  router_inv s'.(m_router) ∧
  ((s'.(m_calls) = s.(m_calls) ∧ s'.(m_log) = s.(m_log)) ∨
   ∃ d, form = Ok d ∧
     attempted_once w (PBytes body) (dget "model" d) endpoint (request_id_of_header request fresh)
       false q s s' r).
Proof.
  intros Hinv. unfold route_multipart_request. destruct form as [d|e].
  - pose proof (proxy_multipart_spec w (PBytes body) (dget "model" d) endpoint request fresh false q s Hinv) as H.
    destruct (proxy_multipart_request _ _ _ _ _ _ _ _ _) as [s' r]. destruct H as [? [?|?]]; eauto.
  - destruct (is_Exception e); split; auto.
Qed.

(** A transcription is validated before anything else: the form must hold a file and a
    model, a number as temperature and a text as stream flag; the engine then gets the
    file and the model, a language only if it is a meaningful one, and the optional
    fields that are not empty. *)
Theorem transcriptions_are_validated_then_attempted_once w form endpoint request fresh1 fresh2 q s :
  router_inv s.(m_router) →
  let '(s', r) := route_general_transcriptions w form endpoint request fresh1 fresh2 q s in
  router_inv s'.(m_router) ∧
  (((s'.(m_calls) = s.(m_calls)) ∧ s'.(m_log) = s.(m_log)) ∨
   ∃ d t filename content content_type,
     form = Ok d ∧ parse_transcription d = Ok t ∧ t.(t_file) = FUpload filename content content_type ∧
     attempted_once w (PFields (transcription_fields t filename content content_type)) (Some t.(t_model))
       endpoint (request_id_of_header request fresh2) t.(t_stream) q s s' r).
Proof.
  intros Hinv. unfold route_general_transcriptions.
  destruct (rbind form parse_transcription) as [t|e] eqn:Ep.
  - destruct (t_file t) as [|filename content content_type] eqn:Ef; [split; auto|].
    destruct form as [d|]; [|done]. simpl in Ep.
    match goal with |- context [proxy_multipart_request w ?p ?m endpoint request fresh2 ?st q s] =>
      pose proof (proxy_multipart_spec w p m endpoint request fresh2 st q s Hinv) as H;
      destruct (proxy_multipart_request w p m endpoint request fresh2 st q s) as [s' r]
    end.
    destruct H as [Hi [?|?]]; (split; [done|]); [by left|]. right. exists d, t, filename, content, content_type.
    done.
  - destruct e; split; auto.
Qed.

(** The languages that are forwarded. *)
Lemma language_field_spec l :
  language_field l = match l with
                     | Some (FText s) =>
                         if decide (strip s = "" ∨ lower (strip s) ∈ ["none"; "null"; "undefined"]) then []
                         else [ValueField "language" (FText (strip s))]
                     | _ => []
                     end.
Proof.
  destruct l as [[s|]|]; [|done..]. unfold language_field.
  destruct (decide (strip s = "")) as [E|E].
  - rewrite E. by rewrite decide_True by auto.
  - rewrite bool_decide_true by done. simpl. case_bool_decide; case_decide; tauto.
Qed.
End multipart.

(* ------------------------------------------------------------------ *)
(** ** Concrete requests *)

Definition show_example (v : form_value) : string := match v with FText s => s | _ => "file" end.
Definition mworld_example (answer : res MAnswer) : MWorld :=
  mkMWorld world_example (mkGlobal (Some static_example) []) ∅ (λ _, answer) (Err (AttributeError "response")).
Definition mstart_example : mstate (R := RoundRobinRouter.state) := mkM RoundRobinRouter.init [] [].
Lemma rr_starts : router_inv mstart_example.(m_router).
Proof. exact RoundRobinRouter.inv_init. Qed.
Definition html_answer : MAnswer :=
  mkMAnswer [("Content-Type", "text/html")] 200 (Ok "<p>") (Err ContentTypeError) (Ok "<p>") [] None.

(** An HTML error page becomes a 502, and a completed request. *)
Definition html_run : mstate * res MResponse :=
  route_multipart_request (λ _, "") show_example false (mworld_example (Ok html_answer))
    "raw" (Ok [("model", FText "m")]) "/v1/images/edits" (mkRequest []) "uuid" None mstart_example.

Example html_becomes_502 :
  hooks html_run.1.(m_log) = [HNew "http://a:1" "uuid"; HResponse; HComplete] ∧
  m_url <$> html_run.1.(m_calls) = ["http://a:1/v1/images/edits"] ∧
  match html_run.2 with Ok (MJson r) => r.(status_code) = 502%Z | _ => False end.
Proof. vm_compute. done. Qed.

Lemma multipart_witness :
  ∃ u mid o, hooks html_run.1.(m_log) = HNew u "uuid" :: mid ++ [terminal o] ∧ (mid = [] ∨ mid = [HResponse]).
Proof.
  pose proof (multipart_is_attempted_once (R := RoundRobinRouter.state) (λ _, "") show_example false
    (mworld_example (Ok html_answer)) "raw" (Ok [("model", FText "m")]) "/v1/images/edits" (mkRequest [])
    "uuid" None mstart_example rr_starts) as H.
  fold html_run in H. assert (Hne : m_calls html_run.1 ≠ []) by (vm_compute; discriminate).
  destruct html_run as [s' r]. destruct H as [_ [[Hc _]|H]].
  - exfalso. exact (Hne Hc).
  - destruct H as (d & _ & m & sd & eps & e & call & l & r0 & _ & _ & _ & _ & _ & _ & _ & _ & El & Ha & _).
    destruct Ha as (mid & o & Hh & Hm & _).
    exists (url e), mid, o. split; [|exact Hm]. cbn [fst]. rewrite El. exact Hh.
Defined.

(** A transcription whose stream breaks off: its two chunks are delivered, its empty one
    is not, and it is reported as failed. *)
Definition broken_stream : MAnswer :=
  mkMAnswer [("Content-Type", "text/event-stream")] 200 (Ok "") (Err ContentTypeError) (Ok "")
    ["a"; ""; "b"] (Some ServerTimeoutError).
Definition audio_form : dict string form_value :=
  [("file", FUpload (Some "a.wav") "RIFF" (Some "audio/wav")); ("model", FText "m");
   ("language", FText " None "); ("temperature", FText "0.5"); ("stream", FText "True")].
Definition audio_run : mstate * res MResponse :=
  route_general_transcriptions (λ _, "") show_example false Some (mworld_example (Ok broken_stream))
    (Ok audio_form) "/v1/audio/transcriptions" (mkRequest []) "u1" "u2" None mstart_example.

Example broken_transcription :
  hooks audio_run.1.(m_log) = [HNew "http://a:1" "u2"; HResponse; HFail] ∧
  m_payload <$> audio_run.1.(m_calls) =
    [PFields [FileField "file" (Some "a.wav") "RIFF" (Some "audio/wav"); ValueField "model" (FText "m");
              ValueField "response_format" (FText "json"); ValueField "temperature" (FText "0.5");
              ValueField "stream" (FText "true")]] ∧
  match audio_run.2 with
  | Ok (MStream 200 _ _ items fin) => items = [IChunk "a"; IChunk "b"] ∧ fin = Err ServerTimeoutError
  | _ => False
  end.
Proof. vm_compute. done. Qed.

Lemma transcription_witness :
  ∃ e mid o, hooks audio_run.1.(m_log) = HNew e "u2" :: mid ++ [terminal o] ∧ length audio_run.1.(m_calls) = 1.
Proof.
  pose proof (transcriptions_are_validated_then_attempted_once (R := RoundRobinRouter.state) (λ _, "")
    show_example false Some (mworld_example (Ok broken_stream)) (Ok audio_form) "/v1/audio/transcriptions"
    (mkRequest []) "u1" "u2" None mstart_example rr_starts) as H.
  fold audio_run in H. assert (Hne : m_calls audio_run.1 ≠ []) by (vm_compute; discriminate).
  destruct audio_run as [s' r]. destruct H as [_ [[Hc _]|H]].
  - exfalso. exact (Hne Hc).
  - destruct H as (d & t & fn & c & ct & _ & _ & _ & m & sd & eps & e & call & l & r0 & _ & _ & _ & _ & _ & _ & _ &
      Ec & El & Ha & _).
    destruct Ha as (mid & o & Hh & _). exists (url e), mid, o. cbn [fst]. rewrite El, Ec. split; [exact Hh|done].
Defined.
