(* ===== verification/RequestLifecycle.v ===== *)
(** * Concurrent requests and the statistics monitor

    Many runs of [process_request] and of [proxy_multipart_request] share one
    [RequestStatsMonitor].  Each run's calls
    to the monitor are the hooks of its log; the event loop and the monitor's lock
    interleave the hooks of different runs in any order.  The transition system below
    is that interleaving; its theorem joins the generators' contracts
    (ProcessRequest.v, Multipart.v) with the monitor's ledger (RequestStats.v). *)

From S2P Require Import Prelude PyDict PyStr PyVal RequestStats HttpBackend ProcessRequest Multipart.

(** A run: all its hooks, those still to be called, and its handle once issued. *)
Record proc : Type := mkProc {
  p_all : list hook;
  p_todo : list hook;
  p_handle : option RequestHandle
}.

(** The monitor call of a hook on a handle. *)
Definition hook_event (h : hook) (hd : RequestHandle) (t : Q) : option event :=
  match h with
  | HNew _ _ => None
  | HResponse => Some (Response hd t)
  | HComplete => Some (Complete hd t)
  | HFail => Some (Fail hd t)
  | HAbort => Some (Abort hd t)
  end.

Section lifecycle.
Context (format_g : Q → string) (w : Q).

Definition hooks_of (j : Job) (b : Backend) (q : option nat) : list hook :=
  hooks (process_request format_g j b (g_init q)).1.(glog).

(** The hooks a run may call: those of an attempt of a general or a multipart request. *)
Inductive run_hooks : list hook → Prop :=
| rh_general j b q : run_hooks (hooks_of j b q)
| rh_multipart exn_str u rid answer stream q :
    run_hooks (hooks (attempt exn_str u rid answer stream q []).1).

(** A state: the trace of monitor calls so far and the runs. *)
Abbreviation sys := (list event * list proc)%type.

Inductive sstep : sys → sys → Prop :=
| s_spawn tr ps all :
    run_hooks all → sstep (tr, ps) (tr, ps ++ [mkProc all all None])
| s_new tr ps i all u rid rest t :
    ps !! i = Some (mkProc all (HNew u rid :: rest) None) →
    sstep (tr, ps) (tr ++ [New u rid t],
      <[i := mkProc all rest (Some (on_new_request u rid t (run w tr)).2)]> ps)
| s_hook tr ps i all h rest hd t e :
    ps !! i = Some (mkProc all (h :: rest) (Some hd)) → hook_event h hd t = Some e →
    sstep (tr, ps) (tr ++ [e], <[i := mkProc all rest (Some hd)]> ps)
| s_query tr ps t : sstep (tr, ps) (tr ++ [Query t], ps).

Definition completed_on (u : string) (p : proc) : bool :=
  match p.(p_all), last p.(p_all) with
  | HNew u' _ :: _, Some HComplete => bool_decide (u' = u)
  | _, _ => false
  end.

(** ** The invariant *)

Definition terminal_status (h : hook) : option Status :=
  match h with HComplete => Some Finished | HFail | HAbort => Some Dropped | _ => None end.

(** A run against the ledger: not started; or started with its entry live and its
    terminal hook still to come; or done with its entry retired accordingly. *)
Definition proc_ok (L : ledger) (p : proc) : Prop :=
  p = mkProc [] [] None ∨
  ∃ u rid mid T st, p.(p_all) = HNew u rid :: mid ++ [T] ∧ Forall (λ h, h = HResponse) mid ∧
    terminal_status T = Some st ∧
    ((p.(p_handle) = None ∧ p.(p_todo) = p.(p_all)) ∨
     ∃ hd mid', p.(p_handle) = Some hd ∧ Forall (λ h, h = HResponse) mid' ∧
       ((p.(p_todo) = mid' ++ [T] ∧ ∃ sg, L !! hd.(handle_value) = Some (u, Live sg)) ∨
        (p.(p_todo) = [] ∧ L !! hd.(handle_value) = Some (u, st)))).

Record life_inv (s : sys) : Prop := {
  li_procs : Forall (proc_ok (ledger_run s.1)) s.2;
  li_handles : omap p_handle s.2 ≡ₚ mkHandle <$> seq 0 (length (ledger_run s.1))
}.

Lemma run_hooks_shape all : run_hooks all → proc_ok [] (mkProc all all None).
Proof.
  destruct 1 as [j b q|exn_str u rid answer stream q]; unfold proc_ok; cbn [p_all p_handle p_todo].
  - unfold hooks_of.
    pose proof (every_run_hooks format_g q j b) as [->|(mid & T & -> & Hm & HT)]; [by left|right].
    exists (j_backend_url j), (j_request_id j), mid, T.
    destruct HT as [-> | [-> | ->]]; eexists; (split; [done|]; split; [done|]; split; [done|]; by left).
  - right. pose proof (attempt_spec exn_str u rid answer stream q []) as Ha.
    destruct (attempt exn_str u rid answer stream q []) as [log r].
    destruct Ha as (l & -> & mid & o & Hh & Hm & _). cbn [fst app]. rewrite Hh.
    exists u, rid, mid, (terminal o).
    assert (Hmid : Forall (λ h, h = HResponse) mid) by (destruct Hm as [->| ->]; by repeat constructor).
    destruct o; eexists; (split; [done|]; split; [done|]; split; [done|]; by left).
Qed.

Lemma proc_ok_frame L L' p :
  proc_ok L p →
  (∀ hd x, p.(p_handle) = Some hd → L !! hd.(handle_value) = Some x → L' !! hd.(handle_value) = Some x) →
  proc_ok L' p.
Proof.
  intros [Hp|(u & rid & mid & T & st & Ha & Hm & HT & Hc)] Hf; [by left|right].
  exists u, rid, mid, T, st. split_and!; try done.
  destruct Hc as [?|(hd & mid' & Hh & Hm' & [(Ht & sg & HL)|(Ht & HL)])]; [by left|right|right];
    exists hd, mid'; eauto 8.
Qed.

Lemma omap_insert_None (ps : list proc) i p p' h :
  ps !! i = Some p → p.(p_handle) = None → p'.(p_handle) = Some h →
  omap p_handle (<[i := p']> ps) ≡ₚ omap p_handle ps ++ [h].
Proof.
  intros Hi Hn Hs. rewrite <-(take_drop_middle _ _ _ Hi) at 2.
  rewrite insert_take_drop by (by eapply lookup_lt_Some).
  rewrite !omap_app. simpl. rewrite Hn, Hs. rewrite <-app_assoc.
  apply Permutation_app_head, Permutation_cons_append.
Qed.
Lemma omap_insert_Some (ps : list proc) i p p' :
  ps !! i = Some p → p'.(p_handle) = p.(p_handle) →
  omap p_handle (<[i := p']> ps) = omap p_handle ps.
Proof.
  revert i. induction ps as [|x ps IH]; intros [|i] Hi He; simplify_eq/=; [by rewrite He|].
  by rewrite (IH _ Hi He).
Qed.
Lemma omap_NoDup_inj (ps : list proc) i j p1 p2 h :
  NoDup (omap p_handle ps) → ps !! i = Some p1 → ps !! j = Some p2 →
  p1.(p_handle) = Some h → p2.(p_handle) = Some h → i = j.
Proof.
  revert i j. induction ps as [|x ps IH]; intros [|i] [|j] Hnd Hi Hj H1 H2; simplify_eq/=; try done.
  - rewrite H1 in Hnd. apply NoDup_cons in Hnd as [Hn _]. exfalso. apply Hn.
    apply list_elem_of_omap. exists p2. split; [by eapply list_elem_of_lookup_2|done].
  - rewrite H2 in Hnd. apply NoDup_cons in Hnd as [Hn _]. exfalso. apply Hn.
    apply list_elem_of_omap. exists p1. split; [by eapply list_elem_of_lookup_2|done].
  - f_equal. eapply IH; try done. destruct (p_handle x); [|done]. by apply NoDup_cons in Hnd as [_ ?].
Qed.

Lemma Forall_insert_other (P P' : proc → Prop) ps i p' :
  Forall P ps → P' p' → (∀ j p, ps !! j = Some p → j ≠ i → P p → P' p) →
  Forall P' (<[i := p']> ps).
Proof.
  intros Hall Hp Ho. apply Forall_lookup. intros j p Hj.
  destruct (decide (i = j)) as [->|Hne].
  - destruct (decide (j < length ps)).
    + rewrite list_lookup_insert_eq in Hj by done. by injection Hj as <-.
    + rewrite list_insert_ge in Hj by lia. apply lookup_lt_Some in Hj. lia.
  - rewrite list_lookup_insert_ne in Hj by done. apply (Ho j); [done|done|].
    by eapply Forall_lookup_1.
Qed.

Lemma ledger_snoc tr e : ledger_run (tr ++ [e]) = ledger_step (ledger_run tr) e.
Proof. unfold ledger_run. by rewrite foldl_app. Qed.

Lemma handle_eta hd : mkHandle hd.(handle_value) = hd.
Proof. by destruct hd. Qed.

(** The entry of an event on a live handle. *)
Lemma ledger_hook L h hd t e u sg :
  hook_event h hd t = Some e → L !! hd.(handle_value) = Some (u, Live sg) →
  length (ledger_step L e) = length L ∧
  (∀ k, k ≠ hd.(handle_value) → ledger_step L e !! k = L !! k) ∧
  match terminal_status h with
  | Some st => ledger_step L e !! hd.(handle_value) = Some (u, st)
  | None => ∃ sg', ledger_step L e !! hd.(handle_value) = Some (u, Live sg')
  end.
Proof.
  intros He HL. apply lookup_lt_Some in HL as Hlt.
  destruct h; simpl in He; simplify_eq/=; rewrite HL;
    try (rewrite length_insert, list_lookup_insert_eq by done; split; [done|]; split; [|done];
         intros; by rewrite list_lookup_insert_ne).
  destruct sg.
  - rewrite length_insert, list_lookup_insert_eq by done. split; [done|]. split; [|by eexists].
    intros. by rewrite list_lookup_insert_ne.
  - split; [done|]. split; [done|by eexists].
Qed.

Lemma life_inv_step s s' : life_inv s → sstep s s' → life_inv s'.
Proof.
  intros [Hps Hh] Hstep. inversion Hstep as [tr ps all Hall|tr ps i all u rid rest t Hi|
    tr ps i all h rest hd t e Hi He|tr ps t]; subst; simpl in *.
  - split; simpl.
    + apply Forall_app. split; [done|]. constructor; [|done].
      eapply proc_ok_frame; [by apply run_hooks_shape|]. by intros.
    + rewrite omap_app. simpl. by rewrite app_nil_r.
  - pose proof (refines_run w tr) as R. set (L := ledger_run tr) in *.
    pose proof (ref_next _ _ R) as Hhd. rewrite Hhd. split; simpl; rewrite ledger_snoc; fold L; simpl.
    + eapply Forall_insert_other; [exact Hps| |].
      * pose proof (Forall_lookup_1 _ _ _ _ Hps Hi) as Hp.
        destruct Hp as [Hp|(u' & rid' & mid & T & st & Ha & Hm & HT & Hc)]; [done|right].
        simpl in *. destruct Hc as [[_ Ht]|(hd & mid' & Hx & _)]; [|done].
        rewrite Ha in Ht. injection Ht as -> -> ->.
        exists u', rid', mid, T, st. split_and!; try done. right.
        exists (mkHandle (length L)), mid. split_and!; try done. left. split; [done|].
        exists prefill. simpl. by rewrite lookup_app_r, Nat.sub_diag by lia.
      * intros k p _ _ Hp. eapply proc_ok_frame; [exact Hp|]. intros hd x _ HL.
        by apply lookup_app_l_Some.
    + rewrite (omap_insert_None _ _ _ _ (mkHandle (length L)) Hi) by done.
      rewrite Hh, length_app. simpl. rewrite Nat.add_1_r, seq_S, fmap_app. done.
  - set (L := ledger_run tr) in *.
    pose proof (Forall_lookup_1 _ _ _ _ Hps Hi) as Hp.
    destruct Hp as [Hp|(u & rid & mid & T & st & Ha & Hm & HT & Hc)]; [done|].
    simpl in *. destruct Hc as [[? _]|(hd' & mid' & Hx & Hm' & Hc)]; [done|].
    injection Hx as <-. destruct Hc as [(Ht & sg & HL)|[? _]]; [|done].
    destruct (ledger_hook L h hd t e u sg He HL) as (Hlen & Hother & Hself).
    assert (Hnd : NoDup (omap p_handle ps)).
    { rewrite Hh. apply NoDup_fmap; [intros ?? [= ->]; done|]. apply NoDup_seq. }
    split; simpl; rewrite ledger_snoc; fold L.
    + eapply Forall_insert_other; [exact Hps| |].
      * right. exists u, rid, mid, T, st. split_and!; try done. right. simpl.
        destruct mid' as [|x mid'].
        -- injection Ht as -> ->. exists hd, []. rewrite HT in Hself. auto 6.
        -- injection Ht as <- ->. apply Forall_cons in Hm' as [-> Hm']. simpl in Hself.
           exists hd, mid'. auto 6.
      * intros k p Hk Hne Hp. eapply proc_ok_frame; [exact Hp|]. intros hd2 x Hhd2 HL2.
        rewrite Hother; [done|]. intros Heq. apply Hne.
        eapply (omap_NoDup_inj _ _ _ _ _ hd Hnd Hk Hi); [|done].
        by rewrite Hhd2, <-(handle_eta hd2), Heq, handle_eta.
    + rewrite (omap_insert_Some _ _ _ _ Hi) by done. rewrite Hh. by rewrite Hlen.
  - split; simpl; by rewrite ledger_snoc.
Qed.

Lemma life_inv_reachable s : rtc sstep ([], []) s → life_inv s.
Proof.
  intros Hr. remember ([], []) as s0 eqn:E. assert (H0 : life_inv s0).
  { subst. split; [constructor|done]. }
  clear E. induction Hr as [|s1 s2 s3 Hs _ IH]; [done|]. by apply IH, (life_inv_step s1).
Qed.

(** The ledger entry a finished run leaves. *)
Definition entry_of (p : proc) : option (string * Status) :=
  match p.(p_all), last p.(p_all) with
  | HNew u _ :: _, Some T => (λ st, (u, st)) <$> terminal_status T
  | _, _ => None
  end.

Lemma finished_entries L ps :
  Forall (proc_ok L) ps → Forall (λ p, p.(p_todo) = []) ps →
  (λ h, L !! h.(handle_value)) <$> omap p_handle ps = Some <$> omap entry_of ps.
Proof.
  induction 1 as [|p ps Hp Hps IH]; intros Hd; [done|]. apply Forall_cons in Hd as [Ht Hd].
  specialize (IH Hd). simpl.
  destruct Hp as [->|(u & rid & mid & T & st & Ha & Hm & HT & Hc)]; [done|].
  destruct Hc as [[_ Htodo]|(hd & mid' & Hh & _ & [[Htodo _]|[_ HL]])].
  - rewrite Ht, Ha in Htodo. done.
  - rewrite Ht in Htodo. by destruct mid'.
  - assert (Hent : entry_of p = Some (u, st)).
    { unfold entry_of. rewrite Ha. rewrite app_comm_cons, last_snoc. simpl. by rewrite HT. }
    rewrite Hh, Hent. simpl. rewrite HL. by f_equal.
Qed.

Lemma omap_Some_id {A} (l : list A) : omap id (Some <$> l) = l.
Proof. induction l; f_equal/=; auto. Qed.

Lemma seq_lookup_all {A} (l : list A) : (λ i, l !! i) <$> seq 0 (length l) = Some <$> l.
Proof.
  induction l as [|x l IH]; [done|]. cbn [length seq]. rewrite !fmap_cons. f_equal.
  rewrite <-IH, <-fmap_S_seq, <-list_fmap_compose. done.
Qed.

Lemma entry_of_finished u p : entry_of p = Some (u, Finished) ↔ completed_on u p = true.
Proof.
  unfold entry_of, completed_on. destruct (p_all p) as [|[v ?| | | |] ?]; try done.
  destruct (last _) as [[]|]; simpl; rewrite ?bool_decide_eq_true; split; congruence.
Qed.

Lemma finished_count u (ps : list proc) :
  length (filter (λ y, y = (u, Finished)) (omap entry_of ps)) =
  length (filter (λ p, completed_on u p = true) ps).
Proof.
  induction ps as [|p ps IH]; [done|]. cbn [omap list_omap]. fold (omap entry_of ps).
  pose proof (entry_of_finished u p) as Hone. destruct (completed_on u p) eqn:Ec.
  - rewrite (filter_cons_True _ p) by done. rewrite (proj2 Hone eq_refl).
    rewrite filter_cons_True by done. cbn [length]. f_equal. exact IH.
  - rewrite (filter_cons_False _ p) by congruence.
    destruct (entry_of p) as [x|]; [|exact IH].
    rewrite filter_cons_False; [exact IH|]. intros ->. destruct Hone as [H _].
    by specialize (H eq_refl).
Qed.

(** C3: proxied requests leave nothing behind: however the monitor calls of any
    number of concurrent requests interleave, with statistics read in between, once
    every request has ended the monitor has no active request, every engine's
    prefill and decoding counts are zero, and its finished count is the number of
    requests to it whose generator, or whose multipart attempt, completed. *)
Theorem proxied_requests_leave_no_trace tr ps u :
  rtc sstep ([], []) (tr, ps) → Forall (λ p, p.(p_todo) = []) ps →
  let s := run w tr in
  s.(active_requests) = ∅ ∧
  default 0%Z (s.(in_prefill) !! u) = 0%Z ∧ default 0%Z (s.(in_decoding) !! u) = 0%Z ∧
  default 0%Z (s.(finished) !! u) = Z.of_nat (length (filter (λ p, completed_on u p = true) ps)).
Proof.
  intros Hr Hd s. destruct (life_inv_reachable _ Hr) as [Hps Hh]. simpl in *.
  pose proof (refines_run w tr) as R. fold s in R. set (L := ledger_run tr) in *.
  assert (HL : L ≡ₚ omap entry_of ps).
  { rewrite <-(omap_Some_id L), <-(omap_Some_id (omap entry_of ps)).
    rewrite <-(finished_entries L ps Hps Hd), Hh, <-list_fmap_compose.
    by rewrite <-(seq_lookup_all L). }
  assert (Hlive : ∀ v sg, (v, Live sg) ∉ L).
  { intros v sg. rewrite HL. intros (p & Hp & Hent)%list_elem_of_omap. unfold entry_of in Hent.
    destruct (p_all p) as [|[] ?]; try done. destruct (last _) as [T|]; [|done].
    by destruct T. }
  assert (Htally : ∀ x, x ∉ L → tally x L = 0%Z).
  { intros x Hx. unfold tally. destruct (filter (λ y, y = x) L) as [|y l] eqn:E; [done|].
    assert (Hy : y ∈ filter (λ y, y = x) L) by (rewrite E; by left).
    apply list_elem_of_filter in Hy as [-> ?]. done. }
  rewrite (ref_prefill _ _ R), (ref_decoding _ _ R), (ref_finished _ _ R).
  split; [|split; [by apply Htally|split; [by apply Htally|]]].
  - apply map_eq. intros h. rewrite lookup_empty. pose proof (ref_active _ _ R h) as Ha.
    fold L in Ha. destruct (L !! handle_value h) as [[v []]|] eqn:E; try done.
    apply list_elem_of_lookup_2 in E. by apply Hlive in E.
  - unfold tally. rewrite HL. f_equal. apply finished_count.
Qed.
End lifecycle.

(** Two requests to one engine: the first ends with a null usage block while the
    second is still waiting, and is recorded as dropped; the second, a multipart request, completes. *)
Definition witness_job (body : dict string pyval) (parsed : option pyval) : Job :=
  mkJob (Some (PDict body)) "u" "r" (mkTimeout None None None None) false (Ok tt) (λ _, parsed).
Definition witness_backend : Backend := BResponse [] 200 ["x"] None.

Lemma leave_no_trace_witness :
  let fmt := λ _ : Q, "1"%string in
  let j1 := witness_job [] (Some (PDict [("usage"%string, PNone)])) in
  let mk all := mkProc all [] in
  let l1 := [HNew "u" "r"; HResponse; HFail] in
  let l2 := [HNew "u" "r"; HResponse; HComplete] in
  let tr := [New "u" "r" 1; New "u" "r" 2; Response (mkHandle 0) 3; Query 4;
             Response (mkHandle 1) 5; Fail (mkHandle 0) 6; Complete (mkHandle 1) 7] in
  let ps := [mk l1 (Some (mkHandle 0)); mk l2 (Some (mkHandle 1))] in
  rtc (sstep fmt 60) ([], []) (tr, ps) ∧
  (run 60 tr).(active_requests) = ∅ ∧
  default 0%Z ((run 60 tr).(in_prefill) !! "u"%string) = 0%Z ∧
  default 0%Z ((run 60 tr).(in_decoding) !! "u"%string) = 0%Z ∧
  default 0%Z ((run 60 tr).(finished) !! "u"%string) = 1%Z.
Proof.
  intros fmt j1 mk l1 l2 tr ps.
  assert (Hr : rtc (sstep fmt 60) ([], []) (tr, ps)).
  { eapply rtc_l; [apply (s_spawn fmt 60 _ _ l1); exact (rh_general fmt j1 witness_backend None)|].
    eapply rtc_l; [apply (s_spawn fmt 60 _ _ l2); exact (rh_multipart fmt (λ _, "") "u" "r" (Ok html_answer) false None)|].
    eapply rtc_l; [eapply (s_new fmt 60 _ _ 0 _ _ _ _ 1); vm_compute; reflexivity|].
    eapply rtc_l; [eapply (s_new fmt 60 _ _ 1 _ _ _ _ 2); vm_compute; reflexivity|].
    eapply rtc_l; [eapply (s_hook fmt 60 _ _ 0 _ _ _ _ 3); vm_compute; reflexivity|].
    eapply rtc_l; [eapply (s_query fmt 60 _ _ 4)|].
    eapply rtc_l; [eapply (s_hook fmt 60 _ _ 1 _ _ _ _ 5); vm_compute; reflexivity|].
    eapply rtc_l; [eapply (s_hook fmt 60 _ _ 0 _ _ _ _ 6); vm_compute; reflexivity|].
    eapply rtc_l; [eapply (s_hook fmt 60 _ _ 1 _ _ _ _ 7); vm_compute; reflexivity|].
    apply rtc_refl. }
  split; [exact Hr|].
  destruct (proxied_requests_leave_no_trace fmt 60 tr ps "u" Hr) as (H1 & H2 & H3 & H4).
  { repeat constructor. }
  split; [exact H1|]. split; [exact H2|]. split; [exact H3|]. rewrite H4. reflexivity.
Defined.
