(* ===== verification/LoadRouting.v ===== *)
(** * Routing by the load there is
      (src/src/vllm_router/stats/request_stats.py under
       src/src/vllm_router/routers/routing_logic.py)

    The priority, load-aware and session routers choose by the statistics that the request
    service reads from the monitor just before it asks them.  Here the routers meet the
    monitor: in every state that concurrent requests can reach (RequestLifecycle.v), with
    the statistics read at that moment, the loads the routers compare are the numbers of
    requests that are being proxied to each engine, and the rates are the arrivals of the
    last window.  Between the reading and the choice there is no await for the priority and
    the session router; for the load-aware one, which asks its controller in between, the
    loads are those of the moment of reading. *)

From S2P Require Import Prelude PyDict PyStr PyVal Endpoint RequestStats RequestWindow Routing.
From S2P Require Import RoutingPriority RoutingKv HttpBackend ProcessRequest Multipart RequestLifecycle.

From Stdlib Require Import Qminmax.

Local Open Scope py_scope.
Set Default Proof Using "Type".

(* ------------------------------------------------------------------ *)
(** ** The requests in flight *)

(** A run that has called [on_new_request] for an engine and not yet its terminal hook. *)
Definition working (u : string) (p : proc) : bool :=
  match p.(p_all), p.(p_handle), p.(p_todo) with
  | HNew v _ :: _, Some _, _ :: _ => bool_decide (v = u)
  | _, _, _ => false
  end.
Definition in_flight_on (u : string) (ps : list proc) : Z :=
  Z.of_nat (length (filter (λ p, working u p = true) ps)).

(** The ledger's entry of such a run. *)
Definition live_on (u : string) (o : option (string * Status)) : bool :=
  match o with Some (v, Live _) => bool_decide (v = u) | _ => false end.

Lemma length_filter_fmap {A B} (f : A → B) (P : B → bool) (l : list A) :
  length (filter (λ y, P y = true) (f <$> l)) = length (filter (λ x, P (f x) = true) l).
Proof.
  induction l as [|x l IH]; [done|]. rewrite fmap_cons. destruct (P (f x)) eqn:E.
  - rewrite !filter_cons_True by done. cbn. by rewrite IH.
  - rewrite !filter_cons_False by congruence. exact IH.
Qed.

Lemma tally_live u (L : ledger) :
  (tally (u, Live prefill) L + tally (u, Live decoding) L)%Z =
  Z.of_nat (length (filter (λ o, live_on u o = true) (Some <$> L))).
Proof.
  induction L as [|[v st] L IH]; [done|]. rewrite !tally_cons, fmap_cons.
  assert (E : live_on u (Some (v, st)) =
    bool_decide ((v, st) = (u, Live prefill)) || bool_decide ((v, st) = (u, Live decoding))).
  { destruct st as [[]| |]; cbn; repeat case_bool_decide; simplify_eq; done. }
  destruct (live_on u (Some (v, st))) eqn:El.
  - rewrite filter_cons_True by done. cbn [length]. symmetry in E. apply orb_true_iff in E.
    repeat case_decide; bool_to_prop; simplify_eq; destruct E; bool_to_prop; simplify_eq; lia.
  - rewrite filter_cons_False by congruence. symmetry in E. apply orb_false_iff in E as [E1 E2].
    apply bool_decide_eq_false in E1, E2. rewrite !decide_False by done. lia.
Qed.

Lemma working_handles u L ps :
  Forall (proc_ok L) ps →
  length (filter (λ h, live_on u (L !! h.(handle_value)) = true) (omap p_handle ps)) =
  length (filter (λ p, working u p = true) ps).
Proof.
  induction 1 as [|p ps Hp _ IH]; [done|]. cbn [omap list_omap]. fold (omap p_handle ps).
  destruct Hp as [->|(v & rid & mid & T & st & Ha & Hm & HT & Hc)].
  { by rewrite filter_cons_False. }
  destruct Hc as [[Hh _]|(hd & mid' & Hh & _ & Hc)].
  { rewrite Hh, filter_cons_False; [exact IH|]. unfold working. by rewrite Ha, Hh. }
  rewrite Hh. assert (E : live_on u (L !! hd.(handle_value)) = working u p).
  { unfold working. rewrite Ha, Hh. destruct Hc as [(Ht & sg & HL)|[Ht HL]]; rewrite Ht, HL.
    - by destruct mid'.
    - destruct T; simplify_eq/=; done. }
  destruct (working u p) eqn:Ew.
  - rewrite !filter_cons_True by done. cbn. by rewrite IH.
  - rewrite !filter_cons_False by congruence. exact IH.
Qed.

Section load.
Context (format_g : Q → string) (w : Q).

(** What the ledger counts as live are the runs in flight. *)
Lemma live_requests tr ps u :
  rtc (sstep format_g w) ([], []) (tr, ps) →
  (tally (u, Live prefill) (ledger_run tr) + tally (u, Live decoding) (ledger_run tr))%Z = in_flight_on u ps.
Proof.
  intros Hr. destruct (life_inv_reachable format_g w _ Hr) as [Hps Hh]. cbn [fst snd] in *.
  set (L := ledger_run tr) in *. rewrite tally_live. unfold in_flight_on. f_equal.
  rewrite <-(working_handles u L ps Hps), Hh, <-seq_lookup_all.
  by rewrite !(length_filter_fmap _ (λ o, live_on u o)), (length_filter_fmap _ (λ h : RequestHandle, live_on u _)).
Qed.

Lemma tally_absent u st (L : ledger) : u ∉ L.*1 → tally (u, st) L = 0%Z.
Proof.
  intros Hu. unfold tally. destruct (filter _ _) as [|y l] eqn:Ef; [done|]. exfalso. apply Hu.
  assert (Hy : y ∈ filter (λ y, y = (u, st)) L) by (rewrite Ef; by left).
  apply list_elem_of_filter in Hy as [-> Hy]. by apply (list_elem_of_fmap_2 fst) in Hy.
Qed.

(** The statistics read in such a state report them. *)
Lemma reported_load tr ps now :
  ¬ (w == 0)%Q → rtc (sstep format_g w) ([], []) (tr, ps) →
  ∃ s' stats, get_request_stats now (run w tr) = (s', Ok stats) ∧ ∀ u, in_flight stats u = in_flight_on u ps.
Proof.
  intros Hw Hr. destruct (get_request_stats_value w tr now Hw) as (s' & stats & E & H).
  exists s', stats. split; [done|]. intros u. rewrite <-(live_requests tr ps u Hr). unfold in_flight. rewrite H.
  pose proof (refines_run w tr) as R. case_decide as Hu.
  - cbn. by rewrite (ref_prefill _ _ R), (ref_decoding _ _ R).
  - by rewrite !tally_absent.
Qed.
End load.

(* ------------------------------------------------------------------ *)
(** ** Priority routing *)

Section routing.
Context (format_g : Q → string) (w : Q).
Implicit Types (tr : list event) (ps : list proc).

(** C15: an urgent request goes to the engine that has the fewest requests in flight:
    however the concurrent requests have interleaved, when the statistics are read and the
    priority router is asked with them, it chooses a listed engine to which no more runs
    are being proxied than to any other listed one, the lexicographically first of those
    that tie. *)
Theorem urgent_requests_go_to_the_idlest_engine tr ps now endpoints request js st :
  ¬ (w == 0)%Q → rtc (sstep format_g w) ([], []) (tr, ps) → endpoints ≠ [] →
  (PriorityRouter.extract_priority request js st < st.(PriorityRouter.priority_threshold))%Z →
  ∃ s' stats st' u js', get_request_stats now (run w tr) = (s', Ok stats) ∧
    PriorityRouter.route_request endpoints stats request js st = (st', Ok (u, js')) ∧ u ∈ url <$> endpoints ∧
    ∀ e, e ∈ endpoints → (in_flight_on u ps <= in_flight_on e.(url) ps)%Z ∧
      (in_flight_on e.(url) ps = in_flight_on u ps → String.le u e.(url)).
Proof.
  intros Hw Hr Hne Hp. destruct (reported_load format_g w tr ps now Hw Hr) as (s' & stats & E & Hload).
  destruct (PriorityRouter.urgent_goes_to_least_loaded endpoints stats request js st Hne Hp) as (st' & u & Eu & _ & Hu & Hmin).
  eexists s', stats, st', u, _. split; [done|]. split; [exact Eu|]. split; [done|].
  intros e He. rewrite <-!Hload. by apply Hmin.
Qed.

(* ------------------------------------------------------------------ *)
(** ** Load-aware routing *)

(** How far an engine's requests in flight are above the mean, in units of the mean. *)
Definition relative_in_flight (ps : list proc) (endpoints : list EndpointInfo) : dict string Q :=
  let loads := dict_of ((λ e, (e.(url), in_flight_on e.(url) ps)) <$> endpoints) in
  match loads with
  | [] => []
  | _ =>
      let mean := (Qsum (inject_Z <$> dvalues loads) / inject_Z (Z.of_nat (length loads)))%Q in
      (λ ul, (ul.1, (inject_Z ul.2 - mean) / Qmax 1 mean)%Q) <$> loads
  end.
Definition placement_score (beta : Q) (endpoints : list EndpointInfo) (ps : list proc) (layout_info : layout)
    (prompt_tokens : Z) (m : dict string string) (u : string) : Q :=
  score_endpoint beta (dget_or u 0%Z (matched_tokens_by_url layout_info m)) prompt_tokens
    (dget_or u 0%Q (relative_in_flight ps endpoints)).

Lemma relative_loads_in_flight stats ps endpoints :
  (∀ u, in_flight stats u = in_flight_on u ps) → relative_loads stats endpoints = relative_in_flight ps endpoints.
Proof.
  intros H. unfold relative_loads, relative_in_flight.
  assert (E : (λ e, (e.(url), load_penalty stats e.(url))) <$> endpoints =
    (λ e, (e.(url), in_flight_on e.(url) ps)) <$> endpoints).
  { apply list_fmap_ext. intros _ e _. unfold load_penalty. by rewrite H. }
  by rewrite E.
Qed.

(** C19: the load-aware router places a request where it is worth most: when the statistics
    are read and the controller then reports a holder of the prompt, the request goes to a
    listed engine whose share of the prompt already cached, less the weight times its
    relative number of requests in flight at the reading, no listed engine exceeds, the
    lexicographically first of those that tie. *)
Theorem requests_are_placed_where_they_are_worth_most {ring : Type} `{HashRing ring} tr ps now beta sv sched endpoints request js
    (s s1 s2 : kv_state ring) ids layout_info :
  ¬ (w == 0)%Q → rtc (sstep format_g w) ([], []) (tr, ps) → endpoints ≠ [] → layout_info ≠ [] →
  tokenize_prompt sv endpoints js s = (s1, Ok ids) → sv.(lookup_msg) ids = Ok (Some layout_info) →
  refresh_instance_map sv sched endpoints layout_info s1 = (s2, Ok tt) →
  let score := placement_score beta endpoints ps layout_info (Z.of_nat (length ids)) s2.(instance_id_to_ip) in
  ∃ s' stats u, get_request_stats now (run w tr) = (s', Ok stats) ∧
    la_route_request beta sv sched endpoints stats request js s = (s2, Ok (Some u)) ∧ u ∈ url <$> endpoints ∧
    ∀ e, e ∈ endpoints → (score e.(url) <= score u)%Q ∧ ((score e.(url) == score u)%Q → String.le u e.(url)).
Proof.
  intros Hw Hr Hne Hl Ht Hlk Href score. destruct (reported_load format_g w tr ps now Hw Hr) as (s' & stats & E & Hload).
  destruct (loadaware_routes_to_the_best_score beta sv sched endpoints stats request js s s1 s2 ids layout_info Hne Hl Ht Hlk
    Href) as (u & Eu & Hu & Hbest).
  exists s', stats, u. split; [done|]. split; [done|]. split; [done|]. intros e He. specialize (Hbest e He).
  unfold endpoint_score in Hbest. by rewrite (relative_loads_in_flight stats ps endpoints Hload) in Hbest.
Qed.

(* ------------------------------------------------------------------ *)
(** ** Routing without a session *)

(** The requests that arrived on an engine in the window before [now]. *)
Definition recent (u : string) (now : Q) tr : nat := length (within (now - w) (arrivals u tr)).

Lemma never_asked u tr : u ∉ (ledger_run tr).*1 ↔ arrivals u tr = [].
Proof.
  pose proof (ledger_urls tr u) as Hl. split.
  - intros Hu. destruct (arrivals u tr) as [|t l]; [done|]. destruct (filter _ _) as [|y l'] eqn:E; [done|].
    assert (Hy : y ∈ filter (λ y, y = u) (ledger_run tr).*1) by (rewrite E; by left).
    apply list_elem_of_filter in Hy as [-> ?]. done.
  - intros Ha Hu. rewrite Ha in Hl. assert (Hin : u ∈ filter (λ y, y = u) (ledger_run tr).*1) by (by apply list_elem_of_filter).
    destruct (filter _ _); [by apply elem_of_nil in Hin|done].
Qed.

Lemma qps_order now tr u v qu qv :
  (0 < w)%Q → (qu == inject_Z (Z.of_nat (recent u now tr)) / w)%Q → (qv == inject_Z (Z.of_nat (recent v now tr)) / w)%Q →
  (qu <= qv)%Q → recent u now tr ≤ recent v now tr.
Proof.
  intros Hw -> -> Hle. apply Nat2Z.inj_le. rewrite Zle_Qle.
  apply (Qmult_le_compat_r _ _ w) in Hle; [|lra]. unfold Qdiv in Hle. rewrite <-!Qmult_assoc in Hle.
  rewrite (Qmult_comm (/ w)), Qmult_inv_r, !Qmult_1_r in Hle; [done|lra].
Qed.

(** C5: a request without a session goes to an engine that was asked least: when calls to
    the monitor come in the order of their timestamps and the session router is asked with
    the statistics read at [now], it chooses a listed engine that has never received a
    request, if there is one, and otherwise one on which no more requests arrived in the
    last window than on any other listed engine. *)
Theorem sessionless_requests_go_to_the_least_asked {ring : Type} `{HashRing ring} tr now endpoints request js
    (r : SessionRouter.state ring) :
  (0 < w)%Q → in_time_order (tr ++ [Query now]) → endpoints ≠ [] →
  extract_session_id (Some r.(SessionRouter.session_key)) request js = None →
  ∃ s' stats r' u, get_request_stats now (run w tr) = (s', Ok stats) ∧
    SessionRouter.route_request endpoints stats request js r = (r', Ok (Some u)) ∧ u ∈ url <$> endpoints ∧
    (arrivals u tr = [] ∨
     ∀ e, e ∈ endpoints → arrivals e.(url) tr ≠ [] ∧ recent u now tr ≤ recent e.(url) now tr).
Proof.
  intros Hw Ho Hne Hsid. assert (Hw0 : ¬ (w == 0)%Q) by lra.
  destruct (get_request_stats_value w tr now Hw0) as (s' & stats & E & Hst).
  assert (Hq : ∀ v st, stats !! v = Some st → (st.(qps) == inject_Z (Z.of_nat (recent v now tr)) / w)%Q).
  { intros v st Hv. destruct (decide (v ∈ (ledger_run tr).*1)) as [Hin|Hn]; [|by rewrite Hst, decide_False in Hv].
    destruct (reported_qps_is_the_window_rate w tr now v Hw0 Ho Hin) as (s1 & stats1 & st1 & E1 & Hv1 & Hq1).
    rewrite E in E1. injection E1 as _ <-. rewrite Hv in Hv1. by injection Hv1 as <-. }
  assert (Hnone : ∀ v, stats !! v = None ↔ arrivals v tr = []).
  { intros v. rewrite Hst, <-never_asked. case_decide; split; [done..|]. by intros. }
  destruct (qps_routing_is_Some endpoints stats Hne) as [u Hu].
  eexists s', stats, _, u. split; [done|].
  split; [unfold SessionRouter.route_request, session_route; rewrite Hsid, Hu; reflexivity|]. split; [by eapply qps_routing_elem|].
  apply qps_routing_go_spec in Hu as [[Hn _]|(q & [(e & st & He & Hue & Hs & <-)|?] & Hall & _)]; [|right|done].
  { left. by apply Hnone. }
  intros e' He'. destruct (Hall e' He') as (st' & Hs' & Hle). split.
  - rewrite <-Hnone. congruence.
  - rewrite <-Hue in *. eapply qps_order; [done|by apply Hq|by apply Hq|exact Hle].
Qed.
End routing.

(* ------------------------------------------------------------------ *)
(** ** Urgent requests level the load *)

(** What the handler does for a request between two awaits: it reads the statistics, asks
    the priority router, and the proxying of the request begins with [on_new_request]. *)
Record arrival : Type := mkArrival {
  ar_request : Request;
  ar_json : dict string pyval;
  ar_id : string;
  ar_time : Q
}.
Definition serve_one (endpoints : list EndpointInfo) (x : arrival) : M (RequestStatsMonitor * PriorityRouter.state) string := λ s,
  match get_request_stats x.(ar_time) s.1 with
  | (m, Err e) => ((m, s.2), Err e)
  | (m, Ok stats) =>
      match PriorityRouter.route_request endpoints stats x.(ar_request) x.(ar_json) s.2 with
      | (r, Err e) => ((m, r), Err e)
      | (r, Ok (u, _)) => (((on_new_request u x.(ar_id) x.(ar_time) m).1, r), Ok u)
      end
  end.
Definition serve_all (endpoints : list EndpointInfo) (l : list arrival) : M (RequestStatsMonitor * PriorityRouter.state) unit :=
  for_each l (λ x, serve_one endpoints x ;;; ret tt).

Definition load (m : RequestStatsMonitor) (u : string) : Z :=
  (default 0 (m.(in_prefill) !! u) + default 0 (m.(in_decoding) !! u))%Z.
(** No engine has two requests more in flight than another. *)
Definition level (endpoints : list EndpointInfo) (m : RequestStatsMonitor) : Prop :=
  ∀ e1 e2, e1 ∈ endpoints → e2 ∈ endpoints → (load m e1.(url) <= load m e2.(url) + 1)%Z.
Definition urgent (x : arrival) (r : PriorityRouter.state) : Prop :=
  (PriorityRouter.extract_priority x.(ar_request) x.(ar_json) r < r.(PriorityRouter.priority_threshold))%Z.

(** The router's options do not change when it is asked. *)
Lemma route_keeps_options endpoints stats request js r x :
  let r' := (PriorityRouter.route_request endpoints stats request js r).1 in urgent x r → urgent x r'.
Proof.
  cbv zeta. unfold PriorityRouter.route_request, urgent. destruct endpoints as [|e0 es]; [done|].
  by destruct (_ <? _)%Z.
Qed.

Lemma run_load w tr u :
  load (run w tr) u = (tally (u, Live prefill) (ledger_run tr) + tally (u, Live decoding) (ledger_run tr))%Z.
Proof. pose proof (refines_run w tr) as R. unfold load. by rewrite (ref_prefill _ _ R), (ref_decoding _ _ R). Qed.
Lemma stats_load w tr stats s' now :
  ¬ (w == 0)%Q → get_request_stats now (run w tr) = (s', Ok stats) → ∀ u, in_flight stats u = load (run w tr) u.
Proof.
  intros Hw E u. destruct (get_request_stats_value w tr now Hw) as (s1 & stats1 & E1 & H). rewrite E in E1.
  injection E1 as _ <-. unfold in_flight. rewrite H. case_decide as Hu; [done|].
  by rewrite run_load, !tally_absent.
Qed.

Lemma sum_bump (f g : string → Z) u (endpoints : list EndpointInfo) :
  NoDup (url <$> endpoints) → u ∈ url <$> endpoints → (∀ v, g v = f v + if decide (u = v) then 1 else 0)%Z →
  foldr Z.add 0%Z ((λ e, g e.(url)) <$> endpoints) = (foldr Z.add 0 ((λ e, f e.(url)) <$> endpoints) + 1)%Z.
Proof.
  intros Hnd Hu Hg.
  assert (Hout : ∀ l : list EndpointInfo, u ∉ url <$> l →
    foldr Z.add 0%Z ((λ e, g e.(url)) <$> l) = foldr Z.add 0%Z ((λ e, f e.(url)) <$> l)).
  { induction l as [|e l IH]; [done|]. rewrite !fmap_cons, not_elem_of_cons. intros [Hne Hl]. cbn.
    rewrite Hg, decide_False, IH by done. lia. }
  induction endpoints as [|e l IH]; [by apply elem_of_nil in Hu|]. rewrite !fmap_cons in *. cbn.
  apply NoDup_cons in Hnd as [Hn Hnd]. rewrite Hg. apply elem_of_cons in Hu as [->|Hu].
  - rewrite decide_True, Hout by done. lia.
  - rewrite decide_False, IH by first [done|set_solver]. lia.
Qed.

Lemma run_snoc w tr e : run w (tr ++ [e]) = (step (run w tr) e).1.
Proof. unfold run. by rewrite foldl_app. Qed.

Lemma serve_spec w tr r endpoints x :
  ¬ (w == 0)%Q → endpoints ≠ [] → urgent x r →
  ∃ r' u tr', serve_one endpoints x (run w tr, r) = ((run w tr', r'), Ok u) ∧ u ∈ url <$> endpoints ∧
    (∀ e, e ∈ endpoints → load (run w tr) u <= load (run w tr) e.(url))%Z ∧
    (∀ v, load (run w tr') v = load (run w tr) v + if decide (u = v) then 1 else 0)%Z ∧
    ∀ y, urgent y r → urgent y r'.
Proof.
  intros Hw Hne Hx. destruct (get_request_stats_value w tr x.(ar_time) Hw) as (m & stats & E & _).
  destruct (PriorityRouter.urgent_goes_to_least_loaded endpoints stats x.(ar_request) x.(ar_json) r Hne Hx)
    as (r' & u & Er & _ & Hu & Hmin).
  assert (Em : m = run w (tr ++ [Query x.(ar_time)])).
  { rewrite run_snoc. cbn [step]. by rewrite E. }
  exists r', u, ((tr ++ [Query x.(ar_time)]) ++ [New u x.(ar_id) x.(ar_time)]). split; [|split; [done|split; [|split]]].
  - unfold serve_one. cbn [fst snd]. rewrite E, Er, Em. by rewrite (run_snoc w (tr ++ _)).
  - intros e He. rewrite <-!(stats_load w tr stats m _ Hw E). by apply Hmin.
  - intros v. rewrite !run_load. unfold ledger_run. rewrite !foldl_app. cbn [foldl ledger_step]. fold (ledger_run tr).
    rewrite !tally_app. repeat case_decide; simplify_eq; lia.
  - intros y Hy. pose proof (route_keeps_options endpoints stats x.(ar_request) x.(ar_json) r y Hy) as H. by rewrite Er in H.
Qed.

(** C2: urgent requests level the load: whatever has happened before, as long as the
    engines' requests in flight differ by at most one they still do after any number of
    urgent requests were admitted, each with the statistics it read itself; every one of
    them is admitted, and the number in flight grows by their number. *)
Theorem urgent_requests_level_the_load w tr r endpoints l :
  ¬ (w == 0)%Q → endpoints ≠ [] → NoDup (url <$> endpoints) → Forall (λ x, urgent x r) l → level endpoints (run w tr) →
  ∃ r' tr', serve_all endpoints l (run w tr, r) = ((run w tr', r'), Ok tt) ∧ level endpoints (run w tr') ∧
    (foldr Z.add 0 ((λ e, load (run w tr') e.(url)) <$> endpoints) =
     foldr Z.add 0 ((λ e, load (run w tr) e.(url)) <$> endpoints) + Z.of_nat (length l))%Z.
Proof.
  intros Hw Hne Hnd. revert tr r. induction l as [|x l IH]; intros tr r Hl Hlev.
  { exists r, tr. split; [done|]. split; [done|]. cbn. lia. }
  apply Forall_cons in Hl as [Hx Hl]. destruct (serve_spec w tr r endpoints x Hw Hne Hx) as (r1 & u & tr1 & E & Hu & Hmin & Hload & Hopt).
  destruct (IH tr1 r1) as (r' & tr' & E' & Hlev' & Hsum).
  - eapply Forall_impl; [exact Hl|]. intros y. apply Hopt.
  - intros e1 e2 H1 H2. rewrite !Hload. specialize (Hlev e1 e2 H1 H2). specialize (Hmin e2 H2).
    repeat case_decide; subst; lia.
  - exists r', tr'. split; [|split; [done|]].
    + unfold serve_all. cbn [for_each]. unfold bind at 1 2. rewrite E. exact E'.
    + rewrite Hsum, (sum_bump (load (run w tr)) (load (run w tr1)) u endpoints Hnd Hu Hload). cbn [length]. lia.
Qed.

(* ------------------------------------------------------------------ *)
(** ** Witnesses *)

(** Two requests are being proxied to the first engine, one of them decoding. *)
Definition load_job : Job :=
  mkJob (Some (PDict [])) "http://a:1" "r" (mkTimeout None None None None) false (Ok tt) (λ _, Some (PDict [])).
Definition load_hooks : list hook := [HNew "http://a:1" "r"; HResponse; HComplete].
Definition load_format (q : Q) : string := "1".
Definition load_trace : list event := [New "http://a:1" "r" 1; New "http://a:1" "r" 2; Response (mkHandle 0) 3]%Q.
Definition load_procs : list proc :=
  [mkProc load_hooks [HComplete] (Some (mkHandle 0)); mkProc load_hooks [HResponse; HComplete] (Some (mkHandle 1))].

Lemma load_reached : rtc (sstep load_format 60) ([], []) (load_trace, load_procs).
Proof.
  eapply rtc_l; [apply (s_spawn load_format 60 _ _ load_hooks); exact (rh_general load_format load_job witness_backend None)|].
  eapply rtc_l; [apply (s_spawn load_format 60 _ _ load_hooks); exact (rh_general load_format load_job witness_backend None)|].
  eapply rtc_l; [eapply (s_new load_format 60 _ _ 0 _ _ _ _ 1); vm_compute; reflexivity|].
  eapply rtc_l; [eapply (s_new load_format 60 _ _ 1 _ _ _ _ 2); vm_compute; reflexivity|].
  eapply rtc_l; [eapply (s_hook load_format 60 _ _ 0 _ _ _ _ 3); vm_compute; reflexivity|].
  apply rtc_refl.
Qed.
Example load_counts : in_flight_on "http://a:1" load_procs = 2%Z ∧ in_flight_on "http://b:1" load_procs = 0%Z.
Proof. done. Qed.

Lemma idlest_engine_witness :
  ∃ s' stats st' u js', get_request_stats 5 (run 60 load_trace) = (s', Ok stats) ∧
    PriorityRouter.route_request kv_eps stats (mkRequest [("X-Request-Priority", "-5")]) []
      (PriorityRouter.init "x-request-priority" "priority" 0 None) = (st', Ok (u, js')) ∧
    (in_flight_on u load_procs <= 0)%Z.
Proof.
  destruct (urgent_requests_go_to_the_idlest_engine load_format 60 load_trace load_procs 5 kv_eps
    (mkRequest [("X-Request-Priority", "-5")]) [] (PriorityRouter.init "x-request-priority" "priority" 0 None))
    as (s' & stats & st' & u & js' & E & Er & _ & Hmin).
  - discriminate.
  - exact load_reached.
  - discriminate.
  - vm_compute. reflexivity.
  - exists s', stats, st', u, js'. split; [exact E|]. split; [exact Er|].
    destruct (Hmin (ep_of "http://b:1")) as [Hle _]; [by left|exact Hle].
Defined.

Lemma worth_most_witness :
  ∃ s' stats u s2, get_request_stats 5 (run 60 load_trace) = (s', Ok stats) ∧
    la_route_request (1 # 4) sv_example [ep_of "http://a:1"; ep_of "http://b:1"] kv_eps stats (mkRequest []) [] kv_state_example =
      (s2, Ok (Some u)) ∧ u ∈ url <$> kv_eps.
Proof.
  destruct (requests_are_placed_where_they_are_worth_most load_format 60 load_trace load_procs 5 (1 # 4) sv_example
    [ep_of "http://a:1"; ep_of "http://b:1"] kv_eps (mkRequest []) [] kv_state_example
    (add_tokenizer "m" kv_state_example)
    (set_map [("ia", "http://a:1"); ("ib", "http://b:1")] (add_tokenizer "m" kv_state_example))
    [1; 2; 3; 4]%Z [("ia", ("LocalCPU", 4%Z)); ("dead", ("LocalCPU", 4%Z))])
    as (s' & stats & u & E & Er & Hu & _).
  - discriminate.
  - exact load_reached.
  - discriminate.
  - discriminate.
  - vm_compute. reflexivity.
  - reflexivity.
  - vm_compute. reflexivity.
  - eexists s', stats, u, _. split; [exact E|]. split; [exact Er|exact Hu].
Defined.

Lemma least_asked_witness :
  ∃ s' stats r' u, get_request_stats 5 (run 60 load_trace) = (s', Ok stats) ∧
    SessionRouter.route_request (ring := gset string) kv_eps stats (mkRequest []) [] (SessionRouter.mkState "x-user" ∅) =
      (r', Ok (Some u)) ∧ (arrivals u load_trace = [] ∨ recent 60 u 5 load_trace = 0).
Proof.
  destruct (sessionless_requests_go_to_the_least_asked (ring := gset string) 60 load_trace 5 kv_eps (mkRequest []) []
    (SessionRouter.mkState "x-user" ∅)) as (s' & stats & r' & u & E & Er & _ & Hu).
  - reflexivity.
  - repeat constructor; discriminate.
  - discriminate.
  - reflexivity.
  - exists s', stats, r', u. split; [exact E|]. split; [exact Er|]. destruct Hu as [Hu|Hu]; [by left|right].
    destruct (Hu (ep_of "http://b:1")) as [Hn _]; [by left|]. by destruct Hn.
Defined.

Definition urgent_arrival (id : string) (t : Q) : arrival := mkArrival (mkRequest [("X-Request-Priority", "-5")]) [] id t.
Lemma level_witness :
  ∃ r' tr', serve_all kv_eps [urgent_arrival "r1" 1; urgent_arrival "r2" 2; urgent_arrival "r3" 3]
      (run 60 [], PriorityRouter.init "x-request-priority" "priority" 0 None) = ((run 60 tr', r'), Ok tt) ∧
    level kv_eps (run 60 tr').
Proof.
  destruct (urgent_requests_level_the_load 60 [] (PriorityRouter.init "x-request-priority" "priority" 0 None) kv_eps
    [urgent_arrival "r1" 1; urgent_arrival "r2" 2; urgent_arrival "r3" 3]) as (r' & tr' & E & Hl & _).
  - discriminate.
  - discriminate.
  - apply (bool_decide_unpack _). vm_compute. exact I.
  - repeat constructor.
  - intros e1 e2 _ _. vm_compute. discriminate.
  - exists r', tr'. split; [exact E|exact Hl].
Defined.
