(* ===== verification/Disaggregated.v ===== *)
(** * Disaggregated prefill
      (src/src/vllm_router/services/request_service/request.py:
       [send_request_to_prefiller], [send_request_to_decode],
       [route_disaggregated_prefill_request], [route_orchestrated_disaggregated_request])

    A request is first sent to a prefill engine, for one token, and then to a decode
    engine.  The plain flow uses the two client sessions of the application state; the
    orchestrated flow picks both engines in rotation and hands the prefill engine's
    [kv_transfer_params] to the decode engine.  The HTTP answers are the parameter
    [answer]; every post is logged. *)

From S2P Require Import Prelude PyDict PyStr PyVal Endpoint Routing RoutingPriority ServiceDiscovery.
From S2P Require Import HttpBackend RouteRequest.

Local Open Scope py_scope.
Import DisaggregatedPrefillOrchestratedRouter.

(** A post: the URL (or the session's base URL and the endpoint), the body and the
    headers. *)
Record Post : Type := mkPost {
  post_url : string;
  post_json : pyval;
  post_headers : dict string string
}.

(** The client's response: a JSON response or a stream. *)
Inductive ditem : Type := DChunk (chunk : string) | DError (payload : pyval).
Inductive DResponse : Type :=
| DJson (r : JSONResponse)
| DStream (headers : dict string string) (media_type : string) (items : list ditem) (fin : res unit).

Section flow.
Context (exn_str : exn → string) (api_key : option string).
Context (answer : nat → Post → res PostResponse).

(** The orchestrated router and the posts made so far. *)
Record dgstate : Type := mkDG {
  g_router : state;
  g_posts : list Post
}.
Definition with_router {A} (m : M state A) : M dgstate A := λ s,
  let '(r, o) := m s.(g_router) in (mkDG r s.(g_posts), o).
Definition post (p : Post) : M dgstate PostResponse := λ s,
  (mkDG s.(g_router) (s.(g_posts) ++ [p]), answer (length s.(g_posts)) p).

Definition rid_header (request_id : string) : dict string string := [("X-Request-Id", request_id)].
(** [f"Bearer {os.environ.get('OPENAI_API_KEY')}"]. *)
Definition bearer (request_id : string) : dict string string :=
  [("Authorization", "Bearer " +:+ default "None" api_key); ("X-Request-Id", request_id)].

(* ------------------------------------------------------------------ *)
(** ** The plain flow *)

(** The body [send_request_to_prefiller] posts. *)
Definition prefiller_data (req_data : dict string pyval) : dict string pyval :=
  let d := dset "max_tokens" (PInt 1) req_data in
  let d := if din "max_completion_tokens" d then dset "max_completion_tokens" (PInt 1) d else d in
  let d := ddel "min_tokens" d in
  let d := dset "stream" (PBool false) d in
  ddel "stream_options" d.
Definition send_request_to_prefiller (client endpoint : string) (req_data : dict string pyval)
    (request_id : string) : M dgstate pyval :=
  r <- post (mkPost (client +:+ endpoint) (PDict (prefiller_data req_data)) (bearer request_id)) ;;
  lift (raise_for_status r) ;;;
  lift r.(pr_json).

(** The chunks of the decode engine, up to an exception. *)
Definition send_request_to_decode (client endpoint : string) (req_data : pyval) (request_id : string) :
  M dgstate (list string * res unit) :=
  r <- post (mkPost (client +:+ endpoint) req_data (bearer request_id)) ;;
  lift (raise_for_status r) ;;;
  ret (r.(pr_chunks), match r.(pr_fin) with Some e => Err e | None => Ok tt end).

Definition error_payload (message ty : string) (code : Z) : pyval :=
  PDict [("error", PDict [("message", PStr message); ("type", PStr ty); ("code", PInt code)])].

Definition prefiller_error (request_id : string) (e : exn) : JSONResponse :=
  match e with
  | ClientResponseError status message =>
      mkJSON status (error_payload ("Prefiller error: " +:+ message) "prefiller_error" status)
        (rid_header request_id)
  | e => mkJSON 500 (error_payload ("Prefiller error: " +:+ exn_str e) "prefiller_error" 500)
           (rid_header request_id)
  end.
Definition decoder_error (e : exn) : pyval :=
  match e with
  | ClientResponseError status message =>
      error_payload ("Decoder error: " +:+ message) "decoder_error" status
  | e => error_payload ("Decoder error: " +:+ exn_str e) "decoder_error" 500
  end.

(** [generate_stream]: an exception becomes an error payload in the stream. *)
Definition decode_stream (clients : Clients) (endpoint : string) (req_data : pyval)
    (request_id : string) : M dgstate (list ditem * res unit) :=
  let caught chunks e :=
    if is_Exception e then ret ((DChunk <$> chunks) ++ [DError (decoder_error e)], Ok tt)
    else ret (DChunk <$> chunks, Err e) in
  try_except
    (client <- lift (of_option (AttributeError "decode_client") clients.(decode_client)) ;;
     cr <- send_request_to_decode client endpoint req_data request_id ;;
     match cr.2 with
     | Ok _ => ret (DChunk <$> cr.1, Ok tt)
     | Err e => caught cr.1 e
     end)
    (λ e, caught [] e).

(** A JSON value's [.copy()] and the assignment to its [max_tokens]. *)
Definition copy_of (v : res pyval) : res (dict string pyval) :=
  rbind v (λ v, match v with
                | PDict d => Ok d
                | PList _ => Err TypeError
                | _ => Err (AttributeError "copy")
                end).

Definition route_disaggregated_prefill_request (clients : Clients) (endpoint request_id : string)
    (request_json : res pyval) : M dgstate DResponse :=
  orig_request_json <- lift (copy_of request_json) ;;
  let request_json := ddel "max_completion_tokens" (dset "max_tokens" (PInt 1) orig_request_json) in
  prefilled <- try_except
    (client <- lift (of_option (AttributeError "prefill_client") clients.(prefill_client)) ;;
     send_request_to_prefiller client endpoint request_json request_id ;;;
     ret None)
    (λ e, if is_Exception e then ret (Some (prefiller_error request_id e)) else raise e) ;;
  match prefilled with
  | Some response => ret (DJson response)
  | None =>
      lift (of_option (AttributeError "decode_client") clients.(decode_client)) ;;;
      items <- decode_stream clients endpoint (PDict orig_request_json) request_id ;;
      ret (DStream (rid_header request_id) "application/json" items.1 items.2)
  end.

(* ------------------------------------------------------------------ *)
(** ** The orchestrated flow *)

(** The parameters that put the prefill engine in disaggregated mode. *)
Definition kv_request : pyval := PDict
  [("do_remote_decode", PBool true); ("do_remote_prefill", PBool false);
   ("remote_engine_id", PNone); ("remote_block_ids", PNone); ("remote_host", PNone);
   ("remote_port", PNone)].
Definition prefill_request_json (request_json : dict string pyval) : dict string pyval :=
  let d := dset "max_tokens" (PInt 1) request_json in
  let d := if din "max_completion_tokens" d then dset "max_completion_tokens" (PInt 1) d else d in
  let d := dset "kv_transfer_params" kv_request d in
  let d := dset "stream" (PBool false) d in
  ddel "stream_options" d.

(** [prefill_url.split("://")[1].split(":")[0]]. *)
Definition remote_host (prefill_url : string) : res string :=
  rbind (of_option IndexError (split "://" prefill_url !! 1)) (λ rest,
  of_option IndexError (head (split ":" rest))).

Definition decode_request_json (request_json : dict string pyval) (prefill_url : string)
    (prefill_data : pyval) : res (dict string pyval) :=
  match prefill_data with
  | PDict d =>
      let kv := dget_or "kv_transfer_params" (PDict []) d in
      if truthy kv then
        rbind (remote_host prefill_url) (λ host,
        match kv with
        | PDict params =>
            Ok (dset "kv_transfer_params" (PDict (dset "remote_host" (PStr host) params)) request_json)
        | _ => Err TypeError
        end)
      else Ok request_json
  | _ => Err (AttributeError "get")
  end.

Definition json_headers (request_id : string) : dict string string :=
  [("Content-Type", "application/json"); ("X-Request-Id", request_id)].

Definition non_empty (chunk : string) : bool := bool_decide (chunk ≠ "").

(** From the two engines on. *)
Definition orchestrate (endpoint request_id : string) (request_json : dict string pyval)
    (prefill_url decode_url : string) : M dgstate DResponse :=
  try_except
    (prefill_resp <- post (mkPost (prefill_url +:+ endpoint) (PDict (prefill_request_json request_json))
                             (json_headers request_id)) ;;
     if negb (prefill_resp.(pr_status) =? 200)%Z then
       error_text <- lift prefill_resp.(pr_text) ;;
       ret (DJson (error_json prefill_resp.(pr_status) ("Prefill failed: " +:+ error_text) request_id))
     else
       prefill_data <- lift prefill_resp.(pr_json) ;;
       decode_request <- lift (decode_request_json request_json prefill_url prefill_data) ;;
       decode_resp <- post (mkPost (decode_url +:+ endpoint) (PDict decode_request)
                              (json_headers request_id)) ;;
       if negb (decode_resp.(pr_status) =? 200)%Z then
         error_text <- lift decode_resp.(pr_text) ;;
         ret (DJson (error_json decode_resp.(pr_status) ("Decode failed: " +:+ error_text) request_id))
       else if truthy (dget_or "stream" (PBool false) request_json) then
         ret (DStream (rid_header request_id) "text/event-stream"
                (DChunk <$> filter (λ c, non_empty c = true) decode_resp.(pr_chunks))
                (match decode_resp.(pr_fin) with Some e => Err e | None => Ok tt end))
       else
         content <- lift decode_resp.(pr_loads) ;;
         ret (DJson (mkJSON 200 content (rid_header request_id))))
    (λ e, if is_ClientError e then ret (DJson (error_json 503 ("HTTP error: " +:+ exn_str e) request_id))
          else if is_Exception e
          then ret (DJson (error_json 500 ("Unexpected error: " +:+ exn_str e) request_id))
          else raise e).

Definition route_orchestrated_disaggregated_request (endpoint request_id : string)
    (request_json : res pyval) (endpoints : list EndpointInfo) : M dgstate DResponse :=
  js <- lift request_json ;;
  pools <- try_except (pools <- with_router (find_endpoints endpoints) ;; ret (inr pools))
             (λ e, match e with
                   | ValueError m => ret (inl (error_json 503 m request_id))
                   | e => raise e
                   end) ;;
  match pools with
  | inl response => ret (DJson response)
  | inr (prefillers, decoders) =>
      prefill_endpoint <- with_router (select_prefill_endpoint prefillers) ;;
      decode_endpoint <- with_router (select_decode_endpoint decoders) ;;
      request_json <- lift (copy_of (Ok js)) ;;
      orchestrate endpoint request_id request_json prefill_endpoint.(url) decode_endpoint.(url)
  end.

(* ------------------------------------------------------------------ *)
(** ** The hand-over *)

Lemma rest_of_prefill js k :
  k ∉ ["max_tokens"; "max_completion_tokens"; "kv_transfer_params"; "stream"; "stream_options"] →
  dget k (prefill_request_json js) = dget k js.
Proof.
  intros Hk. rewrite !not_elem_of_cons in Hk. unfold prefill_request_json.
  destruct (din _ _); rewrite dget_ddel_ne, !dget_dset_ne by tauto; done.
Qed.

(** A prefill request asks for one token, without streaming, and for its KV cache to be
    kept for a remote decode. *)
Lemma prefill_request_spec js :
  dict_wf js →
  let d := prefill_request_json js in
  dget "max_tokens" d = Some (PInt 1) ∧
  (din "max_completion_tokens" js = true → dget "max_completion_tokens" d = Some (PInt 1)) ∧
  dget "stream" d = Some (PBool false) ∧ dget "stream_options" d = None ∧
  dget "kv_transfer_params" d = Some kv_request.
Proof.
  intros Hwf d. unfold d, prefill_request_json. clear d.
  assert (Hin : din "max_completion_tokens" (dset "max_tokens" (PInt 1) js)
                = din "max_completion_tokens" js).
  { unfold din. by rewrite dget_dset_ne. }
  rewrite Hin. split_and!.
  - destruct (din _ js); by rewrite dget_ddel_ne, !dget_dset_ne, dget_dset_eq by done.
  - intros ->. by rewrite dget_ddel_ne, !dget_dset_ne, dget_dset_eq by done.
  - by rewrite dget_ddel_ne, dget_dset_eq by done.
  - apply dget_ddel_eq. destruct (din _ js); auto with py.
  - by rewrite dget_ddel_ne, dget_dset_ne, dget_dset_eq by done.
Qed.

(** What the decode engine receives: the client's request, except for the hand-over
    parameters; those are the prefill engine's own, with its host. *)
Definition handed_over (js : dict string pyval) (prefill_url : string) (pd b : dict string pyval) : Prop :=
  (∀ k, k ≠ "kv_transfer_params" → dget k b = dget k js) ∧
  ∀ kv, dget "kv_transfer_params" pd = Some (PDict kv) → kv ≠ [] →
    ∃ host kv', remote_host prefill_url = Ok host ∧
      dget "kv_transfer_params" b = Some (PDict kv') ∧
      dget "remote_host" kv' = Some (PStr host) ∧
      ∀ k, k ≠ "remote_host" → dget k kv' = dget k kv.

Lemma decode_request_spec js prefill_url v b :
  decode_request_json js prefill_url v = Ok b →
  ∃ pd, v = PDict pd ∧ handed_over js prefill_url pd b.
Proof.
  unfold decode_request_json. destruct v as [| | | | | |pd]; try done. intros E. exists pd.
  split; [done|]. destruct (truthy _) eqn:T; simplify_eq.
  - unfold rbind in E. destruct (remote_host prefill_url) as [host|] eqn:Eh; [|done].
    destruct (dget_or _ _ _) as [| | | | | |params] eqn:Ed; simplify_eq.
    split; [intros k Hk; by apply dget_dset_ne|]. intros kv Hkv _.
    unfold dget_or in Ed. rewrite Hkv in Ed. injection Ed as ->.
    exists host, (dset "remote_host" (PStr host) params).
    split; [done|]. split; [apply dget_dset_eq|]. split; [apply dget_dset_eq|].
    intros k Hk. by apply dget_dset_ne.
  - split; [done|]. intros kv Hkv Hne. unfold dget_or in T. rewrite Hkv in T. by destruct kv.
Qed.

Definition prefill_post (endpoint request_id : string) (js : dict string pyval) (p : EndpointInfo) : Post :=
  mkPost (p.(url) +:+ endpoint) (PDict (prefill_request_json js)) (json_headers request_id).
Definition decode_post (endpoint request_id : string) (b : dict string pyval) (d : EndpointInfo) : Post :=
  mkPost (d.(url) +:+ endpoint) (PDict b) (json_headers request_id).

Lemma route_orchestrated_eq endpoint rid js endpoints g p d s :
  select_pair endpoints g.(g_router) = (s, Ok (p, d)) →
  route_orchestrated_disaggregated_request endpoint rid (Ok (PDict js)) endpoints g =
  orchestrate endpoint rid js p.(url) d.(url) (mkDG s g.(g_posts)).
Proof.
  unfold select_pair, route_orchestrated_disaggregated_request, bind, with_router, try_except, lift, ret.
  destruct (find_endpoints endpoints (g_router g)) as [s1 [[P D]|e]] eqn:E; [|done].
  cbn [fst snd g_router g_posts].
  destruct (select_prefill_endpoint P s1) as [s2 [p'|]]; [|done]. cbn [g_router g_posts].
  destruct (select_decode_endpoint D s2) as [s3 [d'|]]; [|done]. by intros [= -> -> ->].
Qed.

(** The posts of the hand-over: the prefill post first, and a decode post only after a
    prefill engine answered 200 with a JSON object. *)
Definition posted (endpoint request_id : string) (js : dict string pyval) (p d : EndpointInfo)
    (n : nat) (l : list Post) : Prop :=
  l = [prefill_post endpoint request_id js p] ∨
  ∃ r pd b, answer n (prefill_post endpoint request_id js p) = Ok r ∧ r.(pr_status) = 200%Z ∧
    r.(pr_json) = Ok (PDict pd) ∧ handed_over js p.(url) pd b ∧
    l = [prefill_post endpoint request_id js p; decode_post endpoint request_id b d].

Lemma orchestrate_posts endpoint rid js p d g :
  ∃ l, (orchestrate endpoint rid js p.(url) d.(url) g).1 = mkDG g.(g_router) (g.(g_posts) ++ l) ∧
    posted endpoint rid js p d (length g.(g_posts)) l.
Proof.
  assert (Hcatch : ∀ (m : M dgstate DResponse) h, (∀ e s, (h e s).1 = s) →
    (try_except m h g).1 = (m g).1).
  { intros m h Hh. unfold try_except. destruct (m g) as [s [?|e]]; [done|apply Hh]. }
  unfold orchestrate. rewrite Hcatch by (intros e s; by destruct (is_ClientError e), (is_Exception e)).
  unfold bind at 1, post at 1. fold (prefill_post endpoint rid js p).
  destruct (answer _ (prefill_post endpoint rid js p)) as [r|e] eqn:Ea.
  2: { exists [prefill_post endpoint rid js p]. split; [done|by left]. }
  destruct (Z.eqb_spec (pr_status r) 200) as [Hs|Hs]; cbn [negb].
  2: { exists [prefill_post endpoint rid js p]. split; [|by left].
       unfold bind, lift. by destruct (pr_text r). }
  unfold bind at 1, lift at 1. destruct (pr_json r) as [v|e] eqn:Ej.
  2: { exists [prefill_post endpoint rid js p]. split; [done|by left]. }
  unfold bind at 1, lift at 1. destruct (decode_request_json js _ v) as [b|e] eqn:Eb.
  2: { exists [prefill_post endpoint rid js p]. split; [done|by left]. }
  destruct (decode_request_spec _ _ _ _ Eb) as (pd & -> & Hh).
  exists [prefill_post endpoint rid js p; decode_post endpoint rid b d].
  split; [|right; by eexists _, _, _].
  replace (g_posts g ++ [_; _])
    with ((g_posts g ++ [prefill_post endpoint rid js p]) ++ [decode_post endpoint rid b d])
    by (by rewrite <-app_assoc).
  unfold bind at 1, post at 1. fold (decode_post endpoint rid b d). cbn [g_posts g_router].
  destruct (answer _ (decode_post endpoint rid b d)) as [r'|e']; [|done].
  repeat split_if; try done; unfold bind, lift;
    match goal with |- context [match ?x with Ok _ => _ | Err _ => _ end] => by destruct x end.
Qed.

(** C27: the orchestrated hand-over.  With an engine in each pool, a request is sent to
    the prefill engine whose turn it is, once, asking for one token without streaming;
    the decode engine whose turn it is gets a request, at most once, and only after the
    prefill engine answered 200 with a JSON object; that request is the client's own,
    with the prefill engine's transfer parameters pointing at its host.  A prefill
    engine that answers another status is not followed by a decode request, and the
    client gets that status.  Both counters move by one. *)
Theorem orchestrated_handover endpoint rid js endpoints g P D :
  let s := g.(g_router) in
  with_label s.(prefill_model_labels) endpoints = Ok P →
  with_label s.(decode_model_labels) endpoints = Ok D →
  let run := route_orchestrated_disaggregated_request endpoint rid (Ok (PDict js)) endpoints g in
  P ≠ [] → D ≠ [] →
  ∃ p d l,
    py_sorted url P !! (s.(prefill_idx) mod length P) = Some p ∧
    py_sorted url D !! (s.(decode_idx) mod length D) = Some d ∧
    run.1 = mkDG (mkState s.(prefill_model_labels) s.(decode_model_labels)
                    (S s.(prefill_idx)) (S s.(decode_idx))) (g.(g_posts) ++ l) ∧
    posted endpoint rid js p d (length g.(g_posts)) l ∧
    ∀ r text, answer (length g.(g_posts)) (prefill_post endpoint rid js p) = Ok r →
      r.(pr_status) ≠ 200%Z → r.(pr_text) = Ok text →
      l = [prefill_post endpoint rid js p] ∧
      run.2 = Ok (DJson (error_json r.(pr_status) ("Prefill failed: " +:+ text) rid)).
Proof.
  intros s EP ED run HP HD. destruct (select_pair_spec endpoints s P D EP ED HP HD) as (p & d & Es & Hp & Hd).
  unfold run. rewrite (route_orchestrated_eq _ _ _ _ _ _ _ _ Es).
  set (g1 := mkDG _ g.(g_posts)).
  destruct (orchestrate_posts endpoint rid js p d g1) as (l & El & Hl).
  exists p, d, l. split; [done|]. split; [done|]. split; [done|]. split; [done|].
  intros r text Ea Hr Ht. split.
  - destruct Hl as [?|(r' & ? & ? & Ea' & Hr' & _)]; [done|]. cbn [g1 g_posts] in Ea'. congruence.
  - unfold orchestrate, try_except, bind at 1, post at 1. cbn [g1 g_posts g_router].
    fold (prefill_post endpoint rid js p). rewrite Ea.
    apply Z.eqb_neq in Hr. rewrite Hr. cbn [negb]. unfold bind, lift, ret. by rewrite Ht.
Qed.

Lemma send_prefiller_eq client endpoint js rid g :
  let p := mkPost (client +:+ endpoint) (PDict (prefiller_data js)) (bearer rid) in
  send_request_to_prefiller client endpoint js rid g =
  (mkDG g.(g_router) (g.(g_posts) ++ [p]),
   rbind (answer (length g.(g_posts)) p) (λ r, rbind (raise_for_status r) (λ _, r.(pr_json)))).
Proof.
  intros p. unfold send_request_to_prefiller, bind, post, lift. fold p.
  destruct (answer _ p) as [r|]; [|done]. simpl. by destruct (raise_for_status r).
Qed.

Lemma decode_stream_posts pc dc endpoint v rid g :
  (decode_stream (mkClients pc (Some dc)) endpoint v rid g).1 =
  mkDG g.(g_router) (g.(g_posts) ++ [mkPost (dc +:+ endpoint) v (bearer rid)]).
Proof.
  unfold decode_stream, try_except, send_request_to_decode, bind, lift, post, ret. cbn [of_option decode_client].
  destruct (answer _ _) as [r|e]; [|by destruct (is_Exception e)].
  destruct (raise_for_status r) as [|e]; [|by destruct (is_Exception e)].
  cbn [fst snd]. destruct (pr_fin r) as [e|]; [by destruct (is_Exception e)|done].
Qed.

(** The plain flow: a prefill engine that fails ends the request, without a decode
    request; otherwise the decode engine gets the client's own request. *)
Lemma plain_flow_posts pc dc endpoint rid js g :
  let clients := mkClients (Some pc) (Some dc) in
  let run := route_disaggregated_prefill_request clients endpoint rid (Ok (PDict js)) g in
  let first := mkPost (pc +:+ endpoint) (PDict (prefiller_data
    (ddel "max_completion_tokens" (dset "max_tokens" (PInt 1) js)))) (bearer rid) in
  match rbind (answer (length g.(g_posts)) first) (λ r, rbind (raise_for_status r) (λ _, r.(pr_json))) with
  | Ok _ => run.1.(g_posts) = g.(g_posts) ++ [first; mkPost (dc +:+ endpoint) (PDict js) (bearer rid)]
  | Err e => run.1.(g_posts) = g.(g_posts) ++ [first] ∧
             run.2 = if is_Exception e then Ok (DJson (prefiller_error rid e)) else Err e
  end.
Proof.
  intros clients run first. unfold run, route_disaggregated_prefill_request, clients. clear run clients.
  unfold bind, try_except, lift. cbn [copy_of rbind of_option prefill_client decode_client].
  rewrite send_prefiller_eq. fold first.
  destruct (rbind _ _) as [v|e]; [|by destruct (is_Exception e)].
  pose proof (decode_stream_posts (Some pc) dc endpoint (PDict js) rid
                (mkDG g.(g_router) (g.(g_posts) ++ [first]))) as Hd.
  unfold ret. destruct (decode_stream _ _ _ _ _) as [s [x|e]]; simpl in *; subst s; simpl;
    by rewrite <-app_assoc.
Qed.
End flow.

(* ------------------------------------------------------------------ *)
(** ** Concrete runs *)

Definition pd_endpoints : list EndpointInfo :=
  [labelled_ep "http://d1:8000" "d"; labelled_ep "http://p2:8000" "p"; labelled_ep "http://p1:8000" "p"].
Definition pd_answer (n : nat) (p : Post) : res PostResponse :=
  if n =? 0 then
    Ok (mkResp 200 "OK" (Ok "")
          (Ok (PDict [("kv_transfer_params", PDict [("remote_host", PStr "0.0.0.0"); ("remote_port", PInt 5600)])]))
          (Err JSONDecodeError) [] None)
  else Ok (mkResp 200 "OK" (Ok "") (Err ContentTypeError) (Ok (PDict [("id", PStr "cmpl")])) [] None).
Definition pd_start : dgstate := mkDG (init (Some (LabelText "p")) (Some (LabelText "d"))) [].
Definition pd_js : dict string pyval := [("model", PStr "m"); ("max_tokens", PInt 64)].

Example handed_over_once :
  let '(s, r) := route_orchestrated_disaggregated_request (λ _, "") pd_answer "/v1/completions" "r"
                   (Ok (PDict pd_js)) pd_endpoints pd_start in
  post_url <$> s.(g_posts) = ["http://p1:8000/v1/completions"; "http://d1:8000/v1/completions"] ∧
  (post_json <$> s.(g_posts)) !! 1 = Some (PDict
     (pd_js ++ [("kv_transfer_params", PDict [("remote_host", PStr "p1"); ("remote_port", PInt 5600)])])) ∧
  r = Ok (DJson (mkJSON 200 (PDict [("id", PStr "cmpl")]) [("X-Request-Id", "r")])).
Proof. vm_compute. done. Qed.

(** A prefill engine that answers 507. *)
Definition pd_full (n : nat) (p : Post) : res PostResponse :=
  Ok (mkResp 507 "full" (Ok "no blocks") (Err ContentTypeError) (Err JSONDecodeError) [] None).

Lemma handover_witness :
  let run := route_orchestrated_disaggregated_request (λ _, "") pd_full "/v1/completions" "r"
               (Ok (PDict pd_js)) pd_endpoints pd_start in
  length run.1.(g_posts) = 1 ∧
  run.2 = Ok (DJson (error_json 507 "Prefill failed: no blocks" "r")).
Proof.
  intros run.
  destruct (orchestrated_handover (λ _, "") pd_full "/v1/completions" "r" pd_js pd_endpoints pd_start
    [labelled_ep "http://p2:8000" "p"; labelled_ep "http://p1:8000" "p"] [labelled_ep "http://d1:8000" "d"])
    as (p & d & l & _ & _ & E & _ & Hfail); [vm_compute; reflexivity..|discriminate|discriminate|].
  destruct (Hfail _ "no blocks" eq_refl ltac:(vm_compute; discriminate) eq_refl) as [-> Hr].
  split; [|exact Hr]. unfold run. rewrite E. reflexivity.
Defined.
