(* ===== verification/SleepRouting.v ===== *)
(** * Putting engines to sleep
      ([route_sleep_wakeup_request] of src/src/vllm_router/services/request_service/request.py and
       the sleep labels of src/src/vllm_router/service_discovery.py)

    A sleep or wake-up request names an engine by its id: it is forwarded to that engine
    and, once the engine has accepted it, the pod is labelled so that the engine is no
    longer routed to.  The engines' and the Kubernetes API's answers are the record
    [Outside]; every call that leaves the process is logged. *)

From S2P Require Import Prelude PyDict PyStr PyVal Endpoint Routing ServiceDiscovery.
From S2P Require Import ServiceDiscoveryK8s DiscoveryRegistry HttpBackend RouteRequest.

Local Open Scope py_scope.

(** A label of a patch: a value, or [None] to remove it. *)
Abbreviation labels := (dict string (option string)).

Inductive call : Type :=
| EngineGet (url : string) (headers params : dict string string)
| EnginePost (url : string) (json : option pyval) (headers params : dict string string)
| PatchPod (name : option string) (namespace_ : string) (body : labels)
| PatchService (name : option string) (namespace_ : string) (body : labels).

Record Outside : Type := mkOutside {
  engine : call → res PostResponse;
  pod_labels : option string → string → res (option (dict string string));
  service_labels : option string → string → res (option (dict string string));
  patch : call → res unit;
  vllm_api_key : option string
}.

(* ------------------------------------------------------------------ *)
(** ** The sleep labels *)

Section labels.
Context (o : Outside).

Definition out (c : call) : M (list call) unit := modify (λ l, l ++ [c]).
Definition send_patch (c : call) : M (list call) unit := out c ;;; lift (o.(patch) c).
(** [except client.rest.ApiException]: logged. *)
Definition api_logged (m : M (list call) unit) : M (list call) unit :=
  try_except m (λ e, match e with ApiException => ret tt | _ => raise e end).

Definition pod_add_sleep_label (ns : string) (pod_name : option string) : M (list call) unit :=
  api_logged
    (found <- lift (o.(pod_labels) pod_name ns) ;;
     d <- lift (of_option (AttributeError "update") found) ;;
     send_patch (PatchPod pod_name ns ((λ kv, (kv.1, Some kv.2)) <$> dset "sleeping" "true" d))).
Definition pod_remove_sleep_label (ns : string) (pod_name : option string) : M (list call) unit :=
  api_logged
    (found <- lift (o.(pod_labels) pod_name ns) ;;
     d <- lift (of_option TypeError found) ;;
     if din "sleeping" d then send_patch (PatchPod pod_name ns [("sleeping", None)]) else ret tt).

Definition service_add_sleep_label (ns : string) (service_name : option string) : M (list call) unit :=
  api_logged (send_patch (PatchService service_name ns [("sleeping", Some "true")])).
Definition service_remove_sleep_label (ns : string) (service_name : option string) : M (list call) unit :=
  api_logged
    (found <- lift (o.(service_labels) service_name ns) ;;
     d <- lift (of_option TypeError found) ;;
     if din "sleeping" d then send_patch (PatchService service_name ns [("sleeping", None)]) else ret tt).

(** The two methods on the installed discovery; the static and the external-only ones
    have neither. *)
Definition add_sleep_label (sd : SD) (name : option string) : M (list call) unit :=
  match sd with
  | SDPodIP s => pod_add_sleep_label s.(PodIP.namespace_) name
  | SDServiceName s => service_add_sleep_label s.(ServiceName.namespace_) name
  | SDStatic _ | SDExternalOnly => raise (AttributeError "add_sleep_label")
  end.
Definition remove_sleep_label (sd : SD) (name : option string) : M (list call) unit :=
  match sd with
  | SDPodIP s => pod_remove_sleep_label s.(PodIP.namespace_) name
  | SDServiceName s => service_remove_sleep_label s.(ServiceName.namespace_) name
  | SDStatic _ | SDExternalOnly => raise (AttributeError "remove_sleep_label")
  end.

(* ------------------------------------------------------------------ *)
(** ** The handler *)

Context {body : Type} {HJ : JsonCodec body} (body_empty : body → bool).

Definition upstream_headers (request_id : string) : dict string string :=
  ("X-Request-Id", request_id) ::
  match o.(vllm_api_key) with
  | Some key => if decide (key = "") then [] else [("Authorization", "Bearer " +:+ key)]
  | None => []
  end.
Definition upstream_params (query : dict string string) : dict string string :=
  filter (λ kv, kv.1 ≠ "id") query.

Definition engine_call (c : call) : M (list call) PostResponse :=
  out c ;;;
  response <- lift (o.(engine) c) ;;
  lift (raise_for_status response) ;;;
  ret response.

(** The body of a POST: parsed when there is one. *)
Definition post_json (b : body) : res (option pyval) :=
  if body_empty b then Ok None
  else rbind (of_option JSONDecodeError (json_loads b)) (λ v, Ok (Some v)).

Definition route_sleep_wakeup_request (w : SDWorld) (g : sd_global) (i : Incoming (body := body))
    (endpoint : string) : M (list call) JSONResponse :=
  let request_id := request_id_of i in
  match dget "id" i.(in_query) with
  | None => ret (error_json 400 "Invalid request: missing target Engine Id." request_id)
  | Some request_endpoint =>
      sd <- lift (get_service_discovery g).2 ;;
      endpoints <- lift (get_endpoint_info w sd) ;;
      match filter (λ x, x.(Id) = request_endpoint) endpoints with
      | [] => ret (mkJSON 400 (PDict [("error", PStr ("Engine with Id " +:+ request_endpoint +:+ " not found."))]) [])
      | e :: _ =>
          let url := e.(url) +:+ endpoint in
          let headers := upstream_headers request_id in
          let params := upstream_params i.(in_query) in
          if decide (endpoint = "/is_sleeping") then
            response <- engine_call (EngineGet url headers params) ;;
            v <- lift response.(pr_json) ;;
            ret (mkJSON 200 v [])
          else
            json <- lift (post_json i.(in_body)) ;;
            response <- engine_call (EnginePost url json headers params) ;;
            (if decide (endpoint = "/sleep") then add_sleep_label sd e.(pod_name)
             else if decide (endpoint = "/wake_up") then remove_sleep_label sd e.(pod_name)
             else ret tt) ;;;
            ret (mkJSON response.(pr_status) (PDict [("status", PStr "success")])
                   [("X-Request-Id", request_id)])
      end
  end.

(* ------------------------------------------------------------------ *)
(** ** Properties *)

(** The engine a request names: the first one listed with its id. *)
Definition target (w : SDWorld) (g : sd_global) (i : Incoming (body := body)) (sd : SD) (e : EndpointInfo) :
  Prop :=
  g.(current) = Some sd ∧
  ∃ endpoints rest id, get_endpoint_info w sd = Ok endpoints ∧ dget "id" i.(in_query) = Some id ∧
    filter (λ x, x.(Id) = id) endpoints = e :: rest.

(** The request forwarded to it. *)
Definition forwarded (i : Incoming (body := body)) (endpoint : string) (e : EndpointInfo) (json : option pyval) :
  call :=
  EnginePost (e.(url) +:+ endpoint) json (upstream_headers (request_id_of i)) (upstream_params i.(in_query)).

Definition accepted (c : call) (status : Z) : Prop :=
  ∃ r, o.(engine) c = Ok r ∧ r.(pr_status) = status ∧ (status < 400)%Z.

(** What changes the label after a request that puts to sleep or wakes up, and what that
    comes to. *)
Definition relabel (verb : string) (sd : SD) (name : option string) : M (list call) unit :=
  if decide (verb = "/sleep") then add_sleep_label sd name else remove_sleep_label sd name.
Definition recording (verb : string) (sd : SD) (e : EndpointInfo) : list call * res unit :=
  relabel verb sd e.(pod_name) [].

Lemma try_out_eq (m : M (list call) unit) l :
  (∀ l, m l = (l ++ (m []).1, (m []).2)) →
  api_logged m l = (l ++ (api_logged m []).1, (api_logged m []).2).
Proof.
  intros Hm. unfold api_logged, try_except. rewrite (Hm l). destruct (m []) as [k [?|e]]; [done|].
  by destruct e.
Qed.
Lemma relabel_frame verb sd name l :
  relabel verb sd name l = (l ++ (relabel verb sd name []).1, (relabel verb sd name []).2).
Proof.
  unfold relabel. case_decide; destruct sd as [s|s|s|]; simpl; try (by rewrite app_nil_r); apply try_out_eq; intros k;
    unfold bind, lift; try done.
  - destruct (pod_labels _ _ _) as [[d|]|e]; simpl; by rewrite ?app_nil_r.
  - destruct (pod_labels _ _ _) as [[d|]|e]; simpl; [destruct (din _ d)|..]; simpl; by rewrite ?app_nil_r.
  - destruct (service_labels _ _ _) as [[d|]|e]; simpl; [destruct (din _ d)|..]; simpl; by rewrite ?app_nil_r.
Qed.

Lemma route_verb_eq verb w g i sd e json :
  target w g i sd e → post_json i.(in_body) = Ok json → verb = "/sleep" ∨ verb = "/wake_up" →
  route_sleep_wakeup_request w g i verb [] =
  (let c := forwarded i verb e json in
   match rbind (o.(engine) c) (λ r, rbind (raise_for_status r) (λ _, Ok r)) with
   | Err x => ([c], Err x)
   | Ok r => let '(l, x) := recording verb sd e in
             (c :: l, rbind x (λ _, Ok (mkJSON r.(pr_status) (PDict [("status", PStr "success")])
                                          [("X-Request-Id", request_id_of i)])))
   end).
Proof.
  intros (Hg & endpoints & rest & id & Hl & Hid & Hf) Hj Hv.
  unfold route_sleep_wakeup_request. rewrite Hid. unfold get_service_discovery. rewrite Hg.
  unfold bind at 1, lift at 1. cbn [snd of_option]. unfold bind at 1, lift at 1. rewrite Hl, Hf.
  rewrite decide_False by (by destruct Hv as [->| ->]). unfold bind at 1, lift at 1. rewrite Hj.
  cbv zeta. fold (forwarded i verb e json). set (c := forwarded i verb e json).
  unfold bind at 1, engine_call. unfold bind at 1 2 3, out, modify, lift, ret. cbn [app].
  destruct (engine o c) as [r|x]; [|done]. cbn [rbind].
  destruct (raise_for_status r) as [|x]; [|done]. cbn [rbind].
  replace (if decide (verb = "/sleep") then add_sleep_label sd (pod_name e)
           else if decide (verb = "/wake_up") then remove_sleep_label sd (pod_name e) else _)
    with (relabel verb sd (pod_name e)).
  2: { unfold relabel. destruct Hv as [->| ->]; done. }
  unfold bind. rewrite relabel_frame. unfold recording.
  by destruct (relabel verb sd (pod_name e) []) as [l [?|x]].
Qed.

(** A patch whose error the API raised is only logged. *)
Definition patched (c : call) : Prop := o.(patch) c = Ok tt ∨ o.(patch) c = Err ApiException.
Lemma send_patch_logged c :
  (api_logged (send_patch c) []).1 = [c] ∧ (is_ok (api_logged (send_patch c) []).2 = true ↔ patched c).
Proof.
  unfold api_logged, try_except, send_patch, bind, lift, out, modify, patched. simpl.
  destruct (patch o c) as [[]|[]]; simpl; (split; [done|]); naive_solver.
Qed.

(** The body that puts the label beside the ones the pod has. *)
Definition sleeping_labels (d : dict string string) : labels := (λ kv, (kv.1, Some kv.2)) <$> dset "sleeping" "true" d.
Lemma sleeping_labels_spec d :
  dget "sleeping" (sleeping_labels d) = Some (Some "true") ∧
  ∀ k, k ≠ "sleeping" → dget k (sleeping_labels d) = Some <$> dget k d.
Proof.
  assert (Hfmap : ∀ k (d : dict string string), dget k ((λ kv, (kv.1, Some kv.2)) <$> d) = Some <$> dget k d).
  { intros k l. induction l as [|[k' v'] l IH]; simpl; [done|]. by case_decide. }
  unfold sleeping_labels. rewrite Hfmap, dget_dset_eq. split; [done|]. intros k Hk. by rewrite Hfmap, dget_dset_ne.
Qed.

(** What the recording of an accepted request sends, and when it fails. *)
Definition recorded (verb : string) (sd : SD) (e : EndpointInfo) (sent : list call) (ok : Prop) : Prop :=
  let sends c := sent = [c] ∧ (ok ↔ patched c) in
  let nothing := sent = [] ∧ ok in
  match sd with
  | SDPodIP s =>
      ∀ d, o.(pod_labels) e.(pod_name) s.(PodIP.namespace_) = Ok (Some d) →
        if decide (verb = "/sleep") then
          ∃ body, sends (PatchPod e.(pod_name) s.(PodIP.namespace_) body) ∧
            dget "sleeping" body = Some (Some "true") ∧ (∀ k, k ≠ "sleeping" → dget k body = Some <$> dget k d)
        else if din "sleeping" d then sends (PatchPod e.(pod_name) s.(PodIP.namespace_) [("sleeping", None)])
        else nothing
  | SDServiceName s =>
      if decide (verb = "/sleep")
      then sends (PatchService e.(pod_name) s.(ServiceName.namespace_) [("sleeping", Some "true")])
      else ∀ d, o.(service_labels) e.(pod_name) s.(ServiceName.namespace_) = Ok (Some d) →
        if din "sleeping" d then sends (PatchService e.(pod_name) s.(ServiceName.namespace_) [("sleeping", None)])
        else nothing
  | SDStatic _ | SDExternalOnly => sent = [] ∧ ¬ ok
  end.
Lemma recording_spec verb sd e :
  recorded verb sd e (recording verb sd e).1 (is_ok (recording verb sd e).2 = true).
Proof.
  unfold recorded, recording, relabel. destruct sd as [s|s|s|]; case_decide; try done.
  - intros d Hd. exists (sleeping_labels d). split; [|apply sleeping_labels_spec].
    simpl. unfold pod_add_sleep_label, api_logged, try_except, bind at 1, lift at 1. rewrite Hd. apply send_patch_logged.
  - intros d Hd. simpl. unfold pod_remove_sleep_label, api_logged, try_except, bind at 1, lift at 1. rewrite Hd.
    unfold bind, lift. simpl. destruct (din "sleeping" d); [apply send_patch_logged|done].
  - apply send_patch_logged.
  - intros d Hd. simpl. unfold service_remove_sleep_label, api_logged, try_except, bind at 1, lift at 1. rewrite Hd.
    unfold bind, lift. simpl. destruct (din "sleeping" d); [apply send_patch_logged|done].
Qed.

(** C16: a sleep or wake-up is recorded only after it happened, and only where it can be:
    the engine with the requested id gets exactly one request, the one that was asked for.
    When the engine refuses, no label changes and the client gets an error.  When it
    accepts, what is sent next depends on the discovery.  With pod discovery a sleep
    patches the pod's labels to hold [sleeping=true] beside the labels it had, and a
    wake-up removes that label if the pod has it and otherwise sends nothing; with discovery
    by service name the same patches go to the service named [pod_name], which no engine of
    that discovery has; with static discovery nothing is recorded and the client gets an
    error although the engine obeyed.  As long as the labels can be read, the client gets an
    answer, with the engine's status, exactly when the patch, if there is one, succeeds or
    fails with an error of the API. *)
Theorem sleep_is_recorded_after_it_happened w g i sd e json verb :
  target w g i sd e → post_json i.(in_body) = Ok json → verb = "/sleep" ∨ verb = "/wake_up" →
  let c := forwarded i verb e json in
  let '(log, r) := route_sleep_wakeup_request w g i verb [] in
  (¬ (∃ status, accepted c status) → log = [c] ∧ is_ok r = false) ∧
  (∀ status, accepted c status →
     ∃ sent, log = c :: sent ∧ recorded verb sd e sent (is_ok r = true) ∧
       ∀ x, r = Ok x → x.(status_code) = status).
Proof.
  intros Ht Hj Hv c. rewrite (route_verb_eq verb w g i sd e json Ht Hj Hv). cbv zeta. fold c.
  destruct (engine o c) as [r|x] eqn:Ee; cbn [rbind].
  2: { split; [done|]. intros status (r & Hr & _). congruence. }
  destruct (raise_for_status r) as [[]|x] eqn:Er; cbn [rbind]; unfold raise_for_status in Er;
    destruct (Z.leb_spec 400 (pr_status r)) as [Hst|Hst]; try done.
  - pose proof (recording_spec verb sd e) as Hrec. destruct (recording verb sd e) as [l y]. split.
    { intros Hno. exfalso. apply Hno. by exists (pr_status r), r. }
    intros status (r' & Hr & <- & _). rewrite Ee in Hr. injection Hr as <-. exists l. split; [done|]. split.
    + by destruct y.
    + destruct y; [by intros ? [= <-]|done].
  - split; [done|]. intros status (r' & Hr & <- & Hlt). rewrite Ee in Hr. injection Hr as <-. lia.
Qed.

(** A request without an id, or with the id of no listed engine, reaches nothing. *)
Lemma sleep_target_errors w g i endpoint sd endpoints :
  g.(current) = Some sd → get_endpoint_info w sd = Ok endpoints →
  (dget "id" i.(in_query) = None ∨
   ∃ id, dget "id" i.(in_query) = Some id ∧ Forall (λ e, e.(Id) ≠ id) endpoints) →
  ∃ r, route_sleep_wakeup_request w g i endpoint [] = ([], Ok r) ∧ r.(status_code) = 400%Z.
Proof.
  intros Hg Hl [Hno|(id & Hid & Hall)]; unfold route_sleep_wakeup_request.
  - rewrite Hno. eexists. split; [done|]. done.
  - rewrite Hid. unfold bind, lift, get_service_discovery. rewrite Hg. cbn [snd of_option].
    rewrite Hl. replace (filter (λ x, Id x = id) endpoints) with (@nil EndpointInfo).
    { by eexists. }
    clear -Hall. induction Hall as [|e l He Hall IH]; [done|]. by rewrite filter_cons_False.
Qed.
End labels.

(* ------------------------------------------------------------------ *)
(** ** Engines discovered by service name have no pod *)

Definition no_pod (s : ServiceName.state) : Prop :=
  Forall (λ kv, kv.2.(pod_name) = None) s.(ServiceName.available_engines).

Lemma Forall_ddel {A} (P : string * A → Prop) k (d : dict string A) : Forall P d → Forall P (ddel k d).
Proof. induction 1 as [|[k' v] d Hk Hd IH]; simpl; [done|]. case_decide; [done|by constructor]. Qed.
Lemma Forall_dset {A} (P : string * A → Prop) k v (d : dict string A) :
  P (k, v) → Forall P d → Forall P (dset k v d).
Proof.
  intros Hv. induction 1 as [|[k' v'] d Hk Hd IH]; simpl; [by constructor|].
  case_decide; by constructor.
Qed.

Lemma service_update_no_pod ev : preserves no_pod (ServiceName.handle_event ev).
Proof.
  assert (Hdel : ∀ n, preserves no_pod (ServiceName.delete_if_present n)).
  { intros n s Hs. rewrite ServiceName.sn_delete_if_present_spec. by apply Forall_ddel. }
  assert (Hadd : ∀ api n names label, preserves no_pod (ServiceName.add_engine api n names label)).
  { intros. apply preserves_bind; [apply preserves_lift|]. intros m.
    apply preserves_bind; [apply preserves_gets|]. intros p. apply preserves_modify.
    intros s Hs. by apply Forall_dset. }
  unfold ServiceName.handle_event. case_decide; [apply Hdel|].
  apply preserves_bind; [apply preserves_lift|]. intros ready.
  apply preserves_bind; [apply preserves_gets|]. intros p.
  unfold ServiceName.on_engine_update. repeat case_decide; try apply preserves_ret; try apply Hdel.
  all: destruct ready; simpl; try apply preserves_ret; try apply Hdel.
  all: destruct (ServiceName.get_model_names _ _ _); try apply preserves_ret; try apply Hdel; apply Hadd.
Qed.

(** However the services change, no engine found by service name has a pod name: the
    label of a sleeping one is never set on its service. *)
Lemma service_engines_have_no_pod ns port p d streams e :
  e ∈ ServiceName.get_endpoint_info
        (ServiceName.watch_engines streams (ServiceName.init ns port p d)).1 →
  e.(pod_name) = None.
Proof.
  assert (Hinv : preserves no_pod (ServiceName.watch_engines streams)).
  { apply preserves_for_each. intros evs. apply preserves_bind; [apply preserves_gets|]. intros r.
    apply preserves_if; [|apply preserves_ret]. apply preserves_try_except.
    - apply preserves_for_each. apply service_update_no_pod.
    - intros x. apply preserves_if; [apply preserves_ret|apply preserves_raise]. }
  specialize (Hinv (ServiceName.init ns port p d) ltac:(constructor)).
  unfold no_pod in Hinv. rewrite Forall_forall in Hinv.
  intros (kv & -> & Hkv)%list_elem_of_fmap. by apply Hinv.
Qed.

(* ------------------------------------------------------------------ *)
(** ** Concrete requests *)

Definition pod_engine : EndpointInfo :=
  mkEndpoint "http://10.0.0.1:8000" ["m"] "id-a" 0 None false true (Some "pod-a") None (Some "ns") None.
Definition pods_example : SD :=
  SDPodIP (PodIP.set_engines [("pod-a", pod_engine)] (PodIP.init "ns" "8000" None None)).
Definition outside_example : Outside := mkOutside
  (λ _, Ok (mkResp 200 "OK" (Ok "") (Ok (PDict [])) (Ok (PDict [])) [] None))
  (λ _ _, Ok (Some [("app", "vllm")])) (λ _ _, Ok None) (λ _, Ok tt) (Some "key").
Definition sleep_incoming : Incoming (body := pyval) :=
  mkIncoming (mkRequest []) "uuid" PNone [("id", "id-a"); ("level", "1")].

Lemma sleep_recorded_witness :
  let run verb := route_sleep_wakeup_request outside_example (λ b, is_none b) world_example
               (mkGlobal (Some pods_example) []) sleep_incoming verb [] in
  (∃ body, (run "/sleep").1 = [forwarded outside_example sleep_incoming "/sleep" pod_engine None;
                   PatchPod (Some "pod-a") "ns" body] ∧
    dget "sleeping" body = Some (Some "true") ∧ dget "app" body = Some (Some "vllm")) ∧
  (run "/wake_up").1 = [forwarded outside_example sleep_incoming "/wake_up" pod_engine None].
Proof.
  intros run.
  assert (Ht : target world_example (mkGlobal (Some pods_example) []) sleep_incoming pods_example pod_engine).
  { split; [reflexivity|]. exists [pod_engine], [], "id-a". split_and!; reflexivity. }
  assert (H : ∀ verb, verb = "/sleep" ∨ verb = "/wake_up" →
    ∃ sent, (run verb).1 = forwarded outside_example sleep_incoming verb pod_engine None :: sent ∧
      recorded outside_example verb pods_example pod_engine sent (is_ok (run verb).2 = true)).
  { intros verb Hv.
    pose proof (sleep_is_recorded_after_it_happened outside_example (λ b, is_none b) world_example
      (mkGlobal (Some pods_example) []) sleep_incoming pods_example pod_engine None verb Ht eq_refl Hv) as H.
    cbv zeta in H. fold (run verb) in H. destruct (run verb) as [log r]. destruct H as [_ H].
    destruct (H 200%Z ltac:(eexists; split_and!; [reflexivity|reflexivity|lia])) as (sent & E & Hrec & _). by exists sent. }
  split.
  - destruct (H "/sleep" ltac:(by left)) as (sent & E & Hrec). destruct (Hrec _ eq_refl) as (b & [-> _] & Hb & Hk).
    exists b. split; [exact E|]. split; [exact Hb|]. by apply Hk.
  - destruct (H "/wake_up" ltac:(by right)) as (sent & E & Hrec). destruct (Hrec _ eq_refl) as [-> _]. exact E.
Defined.

(** With static discovery an accepted sleep request ends in an error: the engine has
    been put to sleep and stays listed as awake. *)
Example static_sleep_is_lost :
  let run := route_sleep_wakeup_request outside_example (λ b, is_none b) world_example
               (mkGlobal (Some static_example) []) sleep_incoming "/sleep" [] in
  (∃ json params, run.1 = [EnginePost "http://a:1/sleep" json [("X-Request-Id", "uuid"); ("Authorization", "Bearer key")]
                             params]) ∧
  run.2 = Err (AttributeError "add_sleep_label") ∧
  sleep <$> match get_endpoint_info world_example static_example with Ok l => l | Err _ => [] end
    = [false; false].
Proof. split; [|by vm_compute]. eexists _, _. vm_compute. done. Qed.
