(* ===== verification/DynamicConfig.v ===== *)
(** * Dynamic configuration (src/src/vllm_router/dynamic_config.py, with the flags of
      src/src/vllm_router/parsers/parser.py)

    A thread re-reads a configuration file: when it differs from the configuration in
    force, the service discovery, the router and the callbacks are rebuilt from it.
    The threads' effects are the ticks of [watch_worker], one per turn of the loop. *)

From S2P Require Import Prelude PyDict PyStr PyVal Endpoint Routing RoutingRegistry Utils.
From S2P Require Import RoutingPriority RoutingPrefix ServiceDiscovery ServiceDiscoveryK8s DiscoveryRegistry.

Local Open Scope py_scope.

(** [a == b] on values: booleans, integers and floats compare by value, dictionaries
    without regard to order. *)
Definition as_number (v : pyval) : option Q :=
  match v with
  | PBool b => Some (inject_Z (if b then 1 else 0))
  | PInt z => Some (inject_Z z)
  | PFloat q => Some q
  | _ => None
  end.
Fixpoint py_eq (a b : pyval) {struct a} : bool :=
  match as_number a, as_number b with
  | Some x, Some y => Qeq_bool x y
  | None, None =>
      match a, b with
      | PNone, PNone => true
      | PStr x, PStr y => bool_decide (x = y)
      | PList l, PList k =>
          (fix go (l k : list pyval) : bool :=
             match l, k with
             | [], [] => true
             | x :: l', y :: k' => py_eq x y && go l' k'
             | _, _ => false
             end) l k
      | PDict d, PDict e =>
          (length d =? length e) &&
          (fix go (d : list (string * pyval)) : bool :=
             match d with
             | [] => true
             | (k, x) :: d' =>
                 match dget k e with Some y => py_eq x y | None => false end && go d'
             end) d
      | _, _ => false
      end
  | _, _ => false
  end.

Definition scalar (v : pyval) : bool := match v with PList _ | PDict _ => false | _ => true end.

Lemma py_eq_refl v : scalar v = true → py_eq v v = true.
Proof.
  destruct v; simpl; intros; try done; try (apply Qeq_bool_iff; reflexivity).
  by apply bool_decide_eq_true.
Qed.

(* ------------------------------------------------------------------ *)
(** ** The configuration *)

(** The fields of [DynamicRouterConfig] with their defaults; the first two have none. *)
Definition FIELDS : list (string * option pyval) :=
  [("service_discovery", None); ("routing_logic", None);
   ("static_backends", Some PNone); ("static_models", Some PNone);
   ("static_aliases", Some PNone); ("static_model_labels", Some PNone);
   ("static_model_types", Some PNone); ("static_backend_health_checks", Some (PBool false));
   ("static_backend_health_check_interval", Some (PInt 60));
   ("static_backend_health_check_timeout_seconds", Some (PInt 10));
   ("prefill_model_labels", Some PNone); ("decode_model_labels", Some PNone);
   ("k8s_port", Some (PInt 8000)); ("k8s_namespace", Some (PStr "default"));
   ("k8s_label_selector", Some (PStr "")); ("session_key", Some PNone);
   ("priority_header", Some (PStr "x-request-priority")); ("priority_field", Some (PStr "priority"));
   ("priority_default", Some (PInt 0)); ("priority_threshold", Some PNone);
   ("callbacks", Some PNone); ("timeout_keep_alive", Some (PInt 5))].
Definition known_fields : list string := FIELDS.*1.

(** The argparse destinations of [build_parser]. *)
Definition parser_dests : list string :=
  ["help"; "host"; "port"; "root_path"; "timeout_keep_alive"; "backend_connect_timeout";
   "backend_read_timeout"; "service_discovery"; "k8s_service_discovery_type"; "static_backends";
   "static_models"; "static_aliases"; "static_model_types"; "static_model_labels";
   "static_backend_health_checks"; "static_backend_health_check_interval";
   "static_backend_health_check_timeout_seconds"; "k8s_port"; "k8s_namespace";
   "k8s_label_selector"; "k8s_watcher_timeout_seconds"; "backend_health_check_timeout_seconds";
   "routing_logic"; "lmcache_controller_port"; "lmcache_controller_reply_port";
   "lmcache_controller_heartbeat_port"; "session_key"; "callbacks"; "request_rewriter";
   "enable_batch_api"; "file_storage_class"; "file_storage_path"; "batch_processor";
   "engine_stats_interval"; "request_stats_window"; "log_stats"; "log_stats_interval";
   "dynamic_config_yaml"; "dynamic_config_json"; "version"; "feature_gates"; "log_level";
   "log_format"; "sentry_dsn"; "sentry_traces_sample_rate"; "sentry_profile_session_sample_rate";
   "otel_endpoint"; "otel_service_name"; "otel_secure"; "prefill_model_labels";
   "decode_model_labels"; "kv_aware_threshold"; "loadaware_beta"; "prefix_min_match_length";
   "priority_header"; "priority_field"; "priority_default"; "priority_threshold";
   "max_instance_failover_reroute_attempts"; "lmcache_health_check_interval";
   "lmcache_worker_timeout"; "external_providers_config"].
(** The flags of the semantic cache, when it is installed. *)
Definition semantic_cache_dests : list string :=
  ["semantic_cache_model"; "semantic_cache_dir"; "semantic_cache_threshold"].
Definition recognized_arg_dests (semantic_cache : bool) : list string :=
  parser_dests ++ if semantic_cache then semantic_cache_dests else [].

(** A configuration: every field with its value. *)
Abbreviation config := (list (string * pyval)).
Definition cfg (k : string) (c : config) : pyval := dget_or k PNone c.
(** [config == other] on the dataclass: field by field. *)
Definition config_eq (c1 c2 : config) : bool :=
  forallb (λ k, py_eq (cfg k c1) (cfg k c2)) known_fields.

(** [from_args]: the parsed command line, every flag having a value. *)
Definition from_args (args : dict string pyval) : config :=
  (λ k, (k, cfg k args)) <$> known_fields.

(** [_from_config_dict]: typos are refused, startup-only flags are ignored, the
    dataclass fills in the defaults and wants its two required fields. *)
Definition from_config_dict (semantic_cache : bool) (file : dict string pyval) : res config :=
  let recognized := recognized_arg_dests semantic_cache in
  let extra := filter (λ k, k ∉ known_fields) (dkeys file) in
  let unrecognized := filter (λ k, k ∉ recognized) extra in
  match unrecognized with
  | _ :: _ => Err (ValueError "Unrecognized dynamic-config key(s)")
  | [] =>
      if din "service_discovery" file && din "routing_logic" file
      then Ok ((λ f : string * option pyval,
                 (f.1, dget_or f.1 (default PNone f.2) file)) <$> FIELDS)
      else Err TypeError
  end.

(* ------------------------------------------------------------------ *)
(** ** Reconfiguration *)

(** A value used where the code needs another type. *)
Definition ill_typed : exn := OtherException "ill-typed configuration value".

Definition str_arg (v : pyval) : res string :=
  match v with PStr s => Ok s | _ => Err (AttributeError "split") end.
Definition comma_arg (v : pyval) : res (option (list string)) :=
  match v with
  | PNone => Ok (parse_comma_separated_args None)
  | v => rbind (str_arg v) (λ s, Ok (parse_comma_separated_args (Some s)))
  end.
Definition aliases_arg (v : pyval) : res (option (dict string string)) :=
  if truthy v then rbind (str_arg v) (λ s, rbind (parse_static_aliases s) (λ d, Ok (Some d)))
  else Ok None.
Definition opt_str (v : pyval) : res (option string) :=
  match v with PNone => Ok None | PStr s => Ok (Some s) | _ => Err ill_typed end.
Definition opt_int (v : pyval) : res (option Z) :=
  match v with
  | PNone => Ok None
  | PInt z => Ok (Some z)
  | PBool b => Ok (Some (if b then 1 else 0)%Z)
  | _ => Err ill_typed
  end.
(** The port as it is formatted into an engine's URL. *)
Definition port_arg (v : pyval) : res string :=
  match v with PInt z => Ok (str_of_int z) | PStr s => Ok s | _ => Err ill_typed end.
Definition needed {A} (r : res (option A)) : res A := rbind r (λ o, of_option ill_typed o).

(** The discovery a configuration asks for; the kind of Kubernetes discovery is not
    among the fields, so it is the default one. *)
Definition discovery_request (c : config) : res SDRequest :=
  if eq_str (cfg "service_discovery" c) "static" then
    rbind (str_arg (cfg "static_backends" c)) (λ backends,
    rbind (comma_arg (cfg "static_models" c)) (λ models,
    rbind (aliases_arg (cfg "static_aliases" c)) (λ aliases,
    rbind (comma_arg (cfg "static_model_labels" c)) (λ labels,
    rbind (comma_arg (cfg "static_model_types" c)) (λ types,
    rbind (comma_arg (cfg "prefill_model_labels" c)) (λ prefill,
    rbind (comma_arg (cfg "decode_model_labels" c)) (λ decode,
    Ok (STATIC (parse_static_urls backends) models aliases labels types (LabelList <$> prefill)
          (LabelList <$> decode)))))))))
  else if eq_str (cfg "service_discovery" c) "k8s" then
    rbind (needed (opt_str (cfg "k8s_namespace" c))) (λ ns,
    rbind (port_arg (cfg "k8s_port" c)) (λ port,
    rbind (comma_arg (cfg "prefill_model_labels" c)) (λ prefill,
    rbind (comma_arg (cfg "decode_model_labels" c)) (λ decode,
    Ok (K8S None ns port (LabelList <$> prefill) (LabelList <$> decode))))))
  else Err (ValueError "Invalid service discovery type").

(** [routing_logic == RoutingLogic.X] on a string enumeration. *)
Definition RoutingLogic_of (v : pyval) : option RoutingLogic :=
  find (λ rl, eq_str v (RoutingLogic_value rl))
    [ROUND_ROBIN; SESSION_BASED; KVAWARE; LOADAWARE; PREFIXAWARE; DISAGGREGATED_PREFILL;
     DISAGGREGATED_PREFILL_ORCHESTRATED; PRIORITY].

(** The keyword arguments a reload passes, as far as the constructor of that kind reads
    them; the other ones of startup are absent.  The constructors store a value of
    another type unchecked, and a request stumbles over it; here it is [ill_typed]. *)
Definition reload_kwargs (rl : RoutingLogic) (c : config) : res Kwargs :=
  rbind (match rl with
         | SESSION_BASED | KVAWARE | LOADAWARE => opt_str (cfg "session_key" c)
         | _ => Ok None
         end) (λ session_key,
  match rl with
  | PRIORITY =>
      rbind (needed (opt_str (cfg "priority_header" c))) (λ header,
      rbind (needed (opt_str (cfg "priority_field" c))) (λ field,
      rbind (needed (opt_int (cfg "priority_default" c))) (λ dflt,
      rbind (opt_int (cfg "priority_threshold" c)) (λ threshold,
      Ok (mkKwargs session_key None None None None None (Some header) (Some field) (Some dflt)
            threshold None)))))
  | _ => Ok (mkKwargs session_key None None None None None None None None None None)
  end).

(** The fields that the code would store unchecked have the types it needs. *)
Definition typed_fields (c : config) : bool :=
  match discovery_request c with Err e => negb (bool_decide (e = ill_typed)) | Ok _ => true end &&
  match RoutingLogic_of (cfg "routing_logic" c) with
  | Some rl => is_ok (reload_kwargs rl c)
  | None => true
  end.

Section watcher.
Context {ring : Type} {HR : HashRing ring}.

#[local] Abbreviation router := (Router ring).
#[local] Abbreviation registry := (list (RouterClass * router)).

(** What reconfiguring meets outside the process: the routers' and the discovery's
    environments, and importing the callbacks' module and taking its instance. *)
Record World : Type := mkDWorld {
  w_env : Env;
  w_sd : SDWorld;
  w_import : string → string → res string;
  w_semantic_cache : bool
}.

(** The process: the global discovery, the router classes' instances, the router and
    the callbacks of [app.state], and the watcher's own fields. *)
Record dstate : Type := mkD {
  d_discovery : sd_global;
  d_routers : registry;
  d_router : option router;
  d_callbacks : option string;
  d_current : config;
  d_running : bool
}.

Definition with_discovery {A} (m : M sd_global A) : M dstate A := λ s,
  let '(g, r) := m s.(d_discovery) in
  (mkD g s.(d_routers) s.(d_router) s.(d_callbacks) s.(d_current) s.(d_running), r).
Definition with_routers {A} (m : M registry A) : M dstate A := λ s,
  let '(reg, r) := m s.(d_routers) in
  (mkD s.(d_discovery) reg s.(d_router) s.(d_callbacks) s.(d_current) s.(d_running), r).
Definition set_router (r : option router) : M dstate unit := modify (λ s,
  mkD s.(d_discovery) s.(d_routers) r s.(d_callbacks) s.(d_current) s.(d_running)).
Definition set_callbacks (c : option string) : M dstate unit := modify (λ s,
  mkD s.(d_discovery) s.(d_routers) s.(d_router) c s.(d_current) s.(d_running)).
Definition set_current (c : config) : M dstate unit := modify (λ s,
  mkD s.(d_discovery) s.(d_routers) s.(d_router) s.(d_callbacks) c s.(d_running)).

Definition reconfigure_discovery (w : World) (c : config) : M dstate unit :=
  r <- lift (discovery_request c) ;;
  with_discovery (reconfigure_service_discovery w.(w_sd) r) ;;;
  ret tt.

(** The singletons are cleaned up before the kind and the arguments are looked at. *)
Definition reconfigure_router (w : World) (c : config) : M dstate unit :=
  match rbind (of_option (ValueError "Invalid routing logic") (RoutingLogic_of (cfg "routing_logic" c)))
          (λ rl, rbind (reload_kwargs rl c) (λ kw, Ok (rl, kw))) with
  | Err e => with_routers (cleanup_routing_logic w.(w_env)) ;;; raise e
  | Ok (rl, kw) =>
      cls <- with_routers (reconfigure_routing_logic w.(w_env) rl kw) ;;
      reg <- gets d_routers ;;
      set_router (dget cls reg)
  end.

(** [configure_custom_callbacks]: everything before the last dot is the module. *)
Definition configure_custom_callbacks (w : World) (location : string) : M dstate unit :=
  let parts := split "." location in
  handle <- lift (w.(w_import) (join "." (removelast parts)) (default "" (last parts))) ;;
  set_callbacks (Some handle).
Definition reconfigure_callbacks (w : World) (c : config) : M dstate unit :=
  if truthy (cfg "callbacks" c)
  then location <- lift (str_arg (cfg "callbacks" c)) ;; configure_custom_callbacks w location
  else set_callbacks None.

Definition reconfigure_all (w : World) (c : config) : M dstate unit :=
  reconfigure_discovery w c ;;;
  reconfigure_router w c ;;;
  reconfigure_callbacks w c.

(** One turn of the watcher's loop: [load] is what reading and parsing the file gives. *)
Definition watch_tick (w : World) (load : res (dict string pyval)) : M dstate unit :=
  try_except
    (file <- lift load ;;
     c <- lift (from_config_dict w.(w_semantic_cache) file) ;;
     current <- gets d_current ;;
     if config_eq c current then ret tt
     else reconfigure_all w c ;;; set_current c)
    (λ e, if is_Exception e then ret tt else raise e).
Definition watch_worker (w : World) (loads : list (res (dict string pyval))) : M dstate unit :=
  for_each loads (λ load, r <- gets d_running ;; if (r : bool) then watch_tick w load else ret tt).
Definition close : M dstate unit := modify (λ s,
  mkD s.(d_discovery) s.(d_routers) s.(d_router) s.(d_callbacks) s.(d_current) false).

(* ------------------------------------------------------------------ *)
(** ** Properties *)

(** The service discovery a configuration builds. *)
Definition built_discovery (w : World) (c : config) : res SD :=
  rbind (discovery_request c) (create_service_discovery w.(w_sd)).

Lemma reconfigure_discovery_spec w c s old :
  s.(d_discovery).(current) = Some old →
  reconfigure_discovery w c s =
    match built_discovery w c with
    | Ok sd => (mkD (mkGlobal (Some sd) (sd_close old :: s.(d_discovery).(closed))) s.(d_routers)
                  s.(d_router) s.(d_callbacks) s.(d_current) s.(d_running), Ok tt)
    | Err e => (s, Err e)
    end.
Proof.
  intros Hold. unfold reconfigure_discovery, built_discovery, bind, lift.
  destruct (discovery_request c) as [r|e]; [|done]. simpl.
  unfold with_discovery, reconfigure_service_discovery. rewrite Hold.
  destruct (create_service_discovery (w_sd w) r); [done|]. by destruct s.
Qed.

(** The router a configuration builds. *)
Definition built_router (w : World) (c : config) : res (RouterClass * router) :=
  rbind (of_option (ValueError "Invalid routing logic") (RoutingLogic_of (cfg "routing_logic" c))) (λ rl,
  rbind (reload_kwargs rl c) (λ kw,
  rbind (construct w.(w_env) rl kw) (λ st, Ok (router_class rl, fresh_router rl kw st)))).

Lemma reconfigure_router_spec w c s :
  manager_closes w.(w_env) → dict_wf s.(d_routers) →
  reconfigure_router w c s =
    match built_router w c with
    | Ok (cls, r) => (mkD s.(d_discovery) [(cls, r)] (Some r) s.(d_callbacks) s.(d_current) s.(d_running), Ok tt)
    | Err e => (mkD s.(d_discovery) [] s.(d_router) s.(d_callbacks) s.(d_current) s.(d_running), Err e)
    end.
Proof.
  intros Hm Hwf. unfold reconfigure_router, built_router.
  assert (Hclean : ∀ e, (with_routers (cleanup_routing_logic w.(w_env)) ;;; raise e) s =
    (mkD s.(d_discovery) [] s.(d_router) s.(d_callbacks) s.(d_current) s.(d_running), Err e : res unit)).
  { intros e. unfold bind, with_routers. by rewrite cleanup_empties. }
  destruct (RoutingLogic_of _) as [rl|]; [|apply Hclean]. cbn [of_option rbind].
  destruct (reload_kwargs rl c) as [kw|e]; [|apply Hclean]. cbn [rbind].
  unfold bind, with_routers. rewrite reconfigure_spec by done.
  destruct (construct _ _ _) as [st|e]; simpl; [|done].
  unfold gets, set_router, modify. simpl. by rewrite decide_True.
Qed.

(** The callbacks a configuration asks for. *)
Definition loaded_callbacks (w : World) (c : config) : res (option string) :=
  if truthy (cfg "callbacks" c)
  then rbind (str_arg (cfg "callbacks" c)) (λ location,
       let parts := split "." location in
       rbind (w.(w_import) (join "." (removelast parts)) (default "" (last parts))) (λ handle,
       Ok (Some handle)))
  else Ok None.
Lemma reconfigure_callbacks_spec w c s :
  reconfigure_callbacks w c s =
    match loaded_callbacks w c with
    | Ok cb => (mkD s.(d_discovery) s.(d_routers) s.(d_router) cb s.(d_current) s.(d_running), Ok tt)
    | Err e => (s, Err e)
    end.
Proof.
  unfold reconfigure_callbacks, loaded_callbacks. destruct (truthy _); [|done].
  unfold configure_custom_callbacks, bind, lift. destruct (str_arg _) as [loc|e]; [|done]. simpl.
  by destruct (w_import w _ _).
Qed.

Lemma reconfigure_all_spec w c s old :
  s.(d_discovery).(current) = Some old → manager_closes w.(w_env) → dict_wf s.(d_routers) →
  reconfigure_all w c s =
    match built_discovery w c with
    | Err e => (s, Err e)
    | Ok sd =>
        let g := mkGlobal (Some sd) (sd_close old :: s.(d_discovery).(closed)) in
        match built_router w c with
        | Err e => (mkD g [] s.(d_router) s.(d_callbacks) s.(d_current) s.(d_running), Err e)
        | Ok (cls, r) =>
            match loaded_callbacks w c with
            | Err e => (mkD g [(cls, r)] (Some r) s.(d_callbacks) s.(d_current) s.(d_running), Err e)
            | Ok cb => (mkD g [(cls, r)] (Some r) cb s.(d_current) s.(d_running), Ok tt)
            end
        end
    end.
Proof.
  intros Hold Hm Hwf. unfold reconfigure_all. unfold bind at 1.
  rewrite (reconfigure_discovery_spec w c s old Hold).
  destruct (built_discovery w c) as [sd|e]; [|done].
  unfold bind at 1. rewrite reconfigure_router_spec by done.
  destruct (built_router w c) as [[cls r]|e]; [|done]. rewrite reconfigure_callbacks_spec.
  by destruct (loaded_callbacks w c).
Qed.

(** A reload keeps the bound on fail-over attempts at its default, whatever the one
    the router was started with. *)
Lemma built_router_failover w c cls r :
  built_router w c = Ok (cls, r) → r.(failover) = Some 0%Z ∨ r.(failover) = None.
Proof.
  unfold built_router. destruct (RoutingLogic_of _) as [rl|]; simpl; [|done].
  destruct (reload_kwargs rl c) as [kw|e] eqn:Ekw; [|done]. simpl.
  assert (Hf : k_max_instance_failover_reroute_attempts kw = None).
  { unfold reload_kwargs in Ekw. apply rbind_Ok in Ekw as (? & _ & Ekw).
    destruct rl; try by injection Ekw as <-.
    do 4 (apply rbind_Ok in Ekw as (? & _ & Ekw)). by injection Ekw as <-. }
  destruct (construct _ _ _) as [st|e]; simpl; [|done]. intros [= _ <-].
  destruct rl; simpl; rewrite ?Hf; auto.
Qed.

Lemma from_config_dict_raises sc file e : from_config_dict sc file = Err e → is_Exception e = true.
Proof. unfold from_config_dict. by repeat case_match; intros [= <-]. Qed.

(** How a turn ends: an exception is logged, anything else ends the thread. *)
Definition ended (s : dstate) (r : res unit) : dstate * res unit :=
  (s, match r with Err e => if is_Exception e then Ok tt else Err e | Ok _ => Ok tt end).

Lemma watch_tick_eq w load s :
  watch_tick w load s =
    match rbind load (from_config_dict w.(w_semantic_cache)) with
    | Err e => ended s (Err e)
    | Ok c => if config_eq c s.(d_current) then (s, Ok tt)
              else match reconfigure_all w c s with
                   | (s1, Ok _) => set_current c s1
                   | (s1, Err e) => ended s1 (Err e)
                   end
    end.
Proof.
  unfold watch_tick, try_except, bind, lift, gets, ended. destruct load as [file|e]; simpl.
  - destruct (from_config_dict _ file) as [c|e]; [|by destruct (is_Exception e)].
    destruct (config_eq _ _); [done|]. destruct (reconfigure_all w c s) as [s1 [[]|e]]; [done|].
    simpl. by destruct (is_Exception e).
  - by destruct (is_Exception e).
Qed.

(** C40: one turn of the watcher, outcome by outcome.  A file that cannot be loaded, holds
    an unknown key, or equals the configuration in force changes nothing.  Otherwise the
    outcome is the first of: the discovery cannot be built, and nothing changes; the
    router cannot, and the new discovery is in use, the old one closed, while the old
    router is still attached and no router class is registered; the callbacks cannot be
    loaded, and discovery and router are the new ones but the callbacks still the old
    ones; or discovery, router (the only one registered) and callbacks (none, or what
    their module holds) are those of the file.  Only then is the file's configuration the
    one in force: after the mixed outcomes the next turn tries again.  A failure that is
    an [Exception] is only logged.  The router's fail-over bound falls back to its
    default.  Provided that closing the old router's cluster monitor does not fail, and
    for a new configuration that the values the code stores unchecked have the types it
    needs. *)
Theorem reload_replaces_or_keeps w load s old :
  manager_closes w.(w_env) → dict_wf s.(d_routers) → s.(d_discovery).(current) = Some old →
  match rbind load (from_config_dict w.(w_semantic_cache)) with
  | Err e => watch_tick w load s = ended s (Err e)
  | Ok c =>
      if config_eq c s.(d_current) then watch_tick w load s = (s, Ok tt)
      else typed_fields c = true →
      match built_discovery w c with
      | Err e => watch_tick w load s = ended s (Err e)
      | Ok sd =>
          let new := mkGlobal (Some sd) (sd_close old :: s.(d_discovery).(closed)) in
          match built_router w c with
          | Err e =>
              watch_tick w load s =
                ended (mkD new [] s.(d_router) s.(d_callbacks) s.(d_current) s.(d_running)) (Err e)
          | Ok (cls, r) =>
              (r.(failover) = Some 0%Z ∨ r.(failover) = None) ∧
              watch_tick w load s =
                match loaded_callbacks w c with
                | Err e => ended (mkD new [(cls, r)] (Some r) s.(d_callbacks) s.(d_current) s.(d_running)) (Err e)
                | Ok callbacks => (mkD new [(cls, r)] (Some r) callbacks c s.(d_running), Ok tt)
                end
          end
      end
  end.
Proof.
  intros Hm Hwf Hold. rewrite watch_tick_eq.
  destruct (rbind load _) as [c|e]; [|done]. destruct (config_eq c (d_current s)); [done|]. intros _.
  rewrite (reconfigure_all_spec w c s old Hold Hm Hwf).
  destruct (built_discovery w c) as [sd|e]; [|done]. cbv zeta.
  destruct (built_router w c) as [[cls r]|e] eqn:Er; [|done].
  split; [by eapply built_router_failover|]. by destruct (loaded_callbacks w c).
Qed.

End watcher.

(* ------------------------------------------------------------------ *)
(** ** The first turn *)

(** The flags' own defaults, as [build_parser] declares them for the same fields. *)
Definition parser_defaults : dict string pyval :=
  [("timeout_keep_alive", PInt 5); ("service_discovery", PNone); ("static_backends", PNone);
   ("static_models", PNone); ("static_aliases", PNone); ("static_model_types", PNone);
   ("static_model_labels", PNone); ("static_backend_health_checks", PBool false);
   ("static_backend_health_check_interval", PInt 60);
   ("static_backend_health_check_timeout_seconds", PInt 10); ("k8s_port", PInt 8000);
   ("k8s_namespace", PStr "default"); ("k8s_label_selector", PStr ""); ("routing_logic", PNone);
   ("session_key", PNone); ("callbacks", PNone); ("prefill_model_labels", PNone);
   ("decode_model_labels", PNone); ("priority_header", PStr "x-request-priority");
   ("priority_field", PStr "priority"); ("priority_default", PInt 0); ("priority_threshold", PNone)].
(** The flags declared with [type=int]: argparse converts a string default. *)
Definition int_flags : list string :=
  ["timeout_keep_alive"; "static_backend_health_check_interval";
   "static_backend_health_check_timeout_seconds"; "k8s_port"; "priority_default";
   "priority_threshold"].

(** [parser.set_defaults] with the file's values and [parse_args], no flag of these
    being on the command line. *)
Definition startup_value (file : dict string pyval) (kd : string * pyval) : res (string * pyval) :=
  match dget_or kd.1 kd.2 file with
  | PStr v =>
      if bool_decide (kd.1 ∈ int_flags)
      then rbind (of_option (OtherException "SystemExit") (int_of_str v)) (λ z, Ok (kd.1, PInt z))
      else Ok (kd.1, PStr v)
  | v => Ok (kd.1, v)
  end.
Definition startup_args (file : dict string pyval) : res (dict string pyval) :=
  mapM_res (startup_value file) parser_defaults.

Lemma startup_args_spec file :
  (∀ k v, k ∈ int_flags → dget k file ≠ Some (PStr v)) →
  startup_args file = Ok ((λ kd : string * pyval, (kd.1, dget_or kd.1 kd.2 file)) <$> parser_defaults).
Proof.
  intros Hint. unfold startup_args.
  assert (Hgen : ∀ l : list (string * pyval),
    (∀ kd v, kd ∈ l → kd.1 ∈ int_flags → kd.2 ≠ PStr v) →
    mapM_res (startup_value file) l = Ok ((λ kd, (kd.1, dget_or kd.1 kd.2 file)) <$> l)).
  { induction l as [|[k d] l IH]; intros Hd; [done|]. cbn [mapM_res].
    assert (E : startup_value file (k, d) = Ok (k, dget_or k d file)).
    { unfold startup_value. simpl. destruct (dget_or k d file) as [| | | |v| |] eqn:E; try done.
      destruct (bool_decide (k ∈ int_flags)) eqn:Eb; [|done]. exfalso. bool_to_prop.
      unfold dget_or in E. destruct (dget k file) as [w|] eqn:Ew; simpl in E; subst.
      - by eapply Hint.
      - eapply (Hd (k, PStr v)); [by left|done|done]. }
    rewrite E. simpl. rewrite IH by (intros; eapply Hd; [by right|done]). done. }
  apply Hgen. intros kd v Hkd Hk Hv.
  assert (Hall : forallb (λ kd : string * pyval,
      negb (bool_decide (kd.1 ∈ int_flags) && match kd.2 with PStr _ => true | _ => false end))
    parser_defaults = true) by (vm_compute; reflexivity).
  rewrite forallb_forall in Hall. apply list_elem_of_In in Hkd.
  specialize (Hall kd Hkd). rewrite Hv in Hall. by rewrite bool_decide_true in Hall.
Qed.

(** The parser's defaults are the dataclass's. *)
Lemma defaults_agree file k :
  din "service_discovery" file = true → din "routing_logic" file = true → k ∈ known_fields →
  cfg k (from_args ((λ kd : string * pyval, (kd.1, dget_or kd.1 kd.2 file)) <$> parser_defaults)) =
  cfg k ((λ f : string * option pyval, (f.1, dget_or f.1 (default PNone f.2) file)) <$> FIELDS).
Proof.
  intros H1 H2 Hk. unfold known_fields, FIELDS in Hk. simpl in Hk.
  repeat (apply elem_of_cons in Hk as [->|Hk]; [reflexivity|]). by apply elem_of_nil in Hk.
Qed.

(** The watcher's first turn is quiet: when the router was started with its flags
    taken from the file, a file of scalars whose integers are not written as strings
    gives back the configuration the process was started with, so the first turn
    reconfigures nothing. *)
Lemma quiet_first_turn {ring : Type} {HR : HashRing ring} w file c args
    (s : dstate (ring := ring)) :
  from_config_dict w.(w_semantic_cache) file = Ok c →
  (∀ k v, dget k file = Some v → scalar v = true) →
  (∀ k v, k ∈ int_flags → dget k file ≠ Some (PStr v)) →
  startup_args file = Ok args → s.(d_current) = from_args args →
  watch_tick w (Ok file) s = (s, Ok tt).
Proof.
  intros Hc Hscalar Hint Hargs Hcur. rewrite startup_args_spec in Hargs by done.
  apply Ok_inj in Hargs. subst args. rewrite watch_tick_eq. cbn [rbind]. rewrite Hc, Hcur.
  replace (config_eq c _) with true; [done|]. symmetry. unfold config_eq.
  apply forallb_forall. intros k Hk%list_elem_of_In. unfold from_config_dict in Hc.
  destruct (filter _ (filter _ _)); [|done].
  destruct (din "service_discovery" file) eqn:H1; [|done].
  destruct (din "routing_logic" file) eqn:H2; [|done]. apply Ok_inj in Hc. subst c.
  cbv beta. rewrite (defaults_agree file k H1 H2 Hk). apply py_eq_refl.
  unfold cfg, dget_or at 1. destruct (dget k _) as [v|] eqn:E; [|done]. simpl.
  apply dget_elem, list_elem_of_fmap in E as ([k' o] & [= -> ->] & Hf). simpl. unfold dget_or.
  destruct (dget k' file) as [v|] eqn:Ev; [by eapply Hscalar|]. simpl.
  unfold FIELDS in Hf. repeat (apply elem_of_cons in Hf as [[= _ ->]|Hf]; [reflexivity|]).
  by apply elem_of_nil in Hf.
Qed.

(* ------------------------------------------------------------------ *)
(** ** Witnesses *)

Definition dworld_example : World := mkDWorld env_example world_example
  (λ m i, if bool_decide (m = "hooks") then Ok ("hooks:" +:+ i) else Err AssertionError) false.
Definition file_example (logic : string) : dict string pyval :=
  [("service_discovery", PStr "static"); ("routing_logic", PStr logic);
   ("static_backends", PStr "http://a:1,http://b:1"); ("static_models", PStr "m,m");
   ("backend_read_timeout", PInt 60)].
Definition config_of (file : dict string pyval) : config :=
  match from_config_dict false file with Ok c => c | Err _ => [] end.
Definition dstate_example : dstate (ring := gset string) :=
  mkD (mkGlobal (Some SDExternalOnly) []) [(CSession, mkRouter (SSession (SessionRouter.mkState "x" ∅)) (Some 3%Z))]
    None None (config_of (file_example "session")) true.

(** The file's callbacks are taken from their module. *)
Lemma reload_witness :
  let file := ("callbacks", PStr "hooks.mine") :: file_example "roundrobin" in
  let p := watch_tick dworld_example (Ok file) dstate_example in
  p.2 = Ok tt ∧ p.1.(d_callbacks) = Some "hooks:mine" ∧ p.1.(d_current) = config_of file ∧
  p.1.(d_routers) = [(CRoundRobin, mkRouter (SRoundRobin RoundRobinRouter.init) (Some 0%Z))].
Proof.
  intros file p. subst p.
  pose proof (reload_replaces_or_keeps dworld_example (Ok file) dstate_example
    SDExternalOnly (or_intror eq_refl) ltac:(vm_compute; repeat constructor; set_solver) eq_refl) as H.
  vm_compute (rbind _ _) in H. cbv beta iota in H.
  vm_compute (config_eq _ _) in H. cbv beta iota in H. specialize (H ltac:(vm_compute; reflexivity)).
  vm_compute (built_discovery _ _) in H. cbv beta iota zeta in H.
  vm_compute (built_router _ _) in H. cbv beta iota in H.
  vm_compute (loaded_callbacks _ _) in H. cbv beta iota in H.
  destruct H as [_ H]. rewrite H. repeat split; vm_compute; reflexivity.
Defined.

(** Callbacks that cannot be loaded leave the new router with the old callbacks, and the
    old configuration in force. *)
Example lost_callbacks_keep_the_configuration :
  let file := ("callbacks", PStr "gone.mine") :: file_example "roundrobin" in
  let p := watch_tick dworld_example (Ok file) dstate_example in
  p.2 = Ok tt ∧ dkeys p.1.(d_routers) = [CRoundRobin] ∧ p.1.(d_current) = d_current dstate_example.
Proof. vm_compute. done. Qed.
(** A typo is refused and the running configuration is kept; an unknown routing logic
    leaves no router registered. *)
Example typo_keeps_the_configuration :
  watch_tick dworld_example (Ok (("callback", PStr "x.y") :: file_example "roundrobin")) dstate_example
  = (dstate_example, Ok tt).
Proof. vm_compute. reflexivity. Qed.
Example unknown_logic_unregisters_the_router :
  let s' := (watch_tick dworld_example (Ok (file_example "random")) dstate_example).1 in
  s'.(d_routers) = [] ∧ s'.(d_current) = d_current dstate_example.
Proof. vm_compute. split; reflexivity. Qed.

Definition args_example : dict string pyval :=
  match startup_args (file_example "session") with Ok a => a | Err _ => [] end.

Lemma first_turn_witness :
  let s := mkD (mkGlobal (Some SDExternalOnly) []) [] None None (from_args args_example) true in
  watch_tick (ring := gset string) dworld_example (Ok (file_example "session")) s = (s, Ok tt).
Proof.
  intros s.
  apply (quiet_first_turn dworld_example (file_example "session") (config_of (file_example "session"))
    args_example s).
  - vm_compute. reflexivity.
  - intros k v Hk. apply dget_elem in Hk. unfold file_example in Hk.
    repeat (apply elem_of_cons in Hk as [[= _ ->]|Hk]; [reflexivity|]). by apply elem_of_nil in Hk.
  - intros k v Hin Hk. unfold int_flags in Hin.
    repeat (apply elem_of_cons in Hin as [->|Hin]; [vm_compute in Hk; discriminate|]).
    by apply elem_of_nil in Hin.
  - vm_compute. reflexivity.
  - reflexivity.
Defined.
