(* ===== verification/ConfigFile.v ===== *)
(** * The YAML configuration file (src/src/vllm_router/parsers/yaml_utils.py)

    A file may describe the static backends as a map from models to their details and the
    aliases as a map; both are flattened into the comma-separated flags that static
    discovery parses back.  Parsing YAML is third-party: the model starts from the parsed
    document, whose dictionaries have string keys. *)

From S2P Require Import Prelude PyDict PyStr PyVal Utils ServiceDiscovery DiscoveryRegistry DynamicConfig.

Local Open Scope py_scope.
Set Default Proof Using "Type".

(** [v.items()], [v[k]], [len(v)] and [",".join(l)]. *)
Definition items (v : pyval) : res (dict string pyval) :=
  match v with PDict d => Ok d | _ => Err (AttributeError "items") end.
Definition getitem (k : string) (v : pyval) : res pyval :=
  match v with PDict d => of_option (KeyError k) (dget k d) | _ => Err TypeError end.
Definition py_len (v : pyval) : res nat :=
  match v with
  | PStr s => Ok (slen s)
  | PList l => Ok (length l)
  | PDict d => Ok (length d)
  | _ => Err TypeError
  end.
Definition str_join (l : list pyval) : res string := rbind (mapM_res as_str l) (λ ss, Ok (join "," ss)).

(** What each of the loops over the models appends for one model. *)
Definition backends_of (kv : string * pyval) : res (list pyval) :=
  rbind (py_in "static_backends" kv.2) (λ has,
  if has : bool then rbind (getitem "static_backends" kv.2) iterate else Ok []).
Definition names_of (kv : string * pyval) : res (list pyval) :=
  rbind (py_in "static_backends" kv.2) (λ has,
  if has : bool then rbind (getitem "static_backends" kv.2) (λ v,
    rbind (py_len v) (λ n, Ok (replicate n (PStr kv.1)))) else Ok []).
Definition types_of (kv : string * pyval) : res (list pyval) :=
  rbind (py_in "static_model_type" kv.2) (λ typed,
  if typed : bool then
    rbind (py_in "static_backends" kv.2) (λ has,
    if has : bool then
      rbind (getitem "static_model_type" kv.2) (λ ty,
      rbind (getitem "static_backends" kv.2) (λ v,
      rbind (py_len v) (λ n, Ok (replicate n ty))))
    else Ok [])
  else Ok []).
Definition flatten (f : string * pyval → res (list pyval)) (models : pyval) : res string :=
  rbind (items models) (λ d, rbind (mapM_res f d) (λ ls, str_join (mjoin ls))).

Definition generate_static_backends : pyval → res string := flatten backends_of.
Definition generate_static_models : pyval → res string := flatten names_of.
Definition generate_static_model_types : pyval → res string := flatten types_of.

Section yaml.
(** [str(v)] of a value that is no string. *)
Context (py_str : pyval → string).

Definition generate_static_aliases (aliases : pyval) : res string :=
  rbind (items aliases) (λ d,
  Ok (join "," ((λ kv, kv.1 +:+ ":" +:+ format_value py_str kv.2) <$> d))).

(** [read_and_process_yaml_config_file], on the document. *)
Definition process_yaml_config (doc : pyval) : res (dict string pyval) :=
  if negb (truthy doc) then Ok [] else
  match doc with
  | PDict d =>
      let models := dget_or "static_models" PNone d in
      let aliases := dget_or "static_aliases" PNone d in
      let d := ddel "static_aliases" (ddel "static_models" d) in
      rbind (if truthy models then
               rbind (generate_static_backends models) (λ backends,
               rbind (generate_static_models models) (λ names,
               rbind (generate_static_model_types models) (λ types,
               Ok (dset "static_model_types" (PStr types)
                    (dset "static_models" (PStr names) (dset "static_backends" (PStr backends) d))))))
             else Ok d) (λ d,
      if truthy aliases then
        rbind (generate_static_aliases aliases) (λ a, Ok (dset "static_aliases" (PStr a) d))
      else Ok d)
  | PList _ => Err TypeError
  | _ => Err (AttributeError "pop")
  end.

(** [DynamicRouterConfig.from_yaml]. *)
Definition from_yaml (semantic_cache : bool) (doc : pyval) : res config :=
  rbind (process_yaml_config doc) (from_config_dict semantic_cache).

End yaml.

(* ------------------------------------------------------------------ *)
(** ** From the file to the backends and back *)

(** A declaration: a model, its backends and perhaps its type. *)
Record declaration : Type := mkDecl {
  d_name : string;
  d_urls : list string;
  d_type : option string
}.
Definition declares (kv : string * pyval) (x : declaration) : Prop :=
  kv.1 = x.(d_name) ∧ ∃ details, kv.2 = PDict details ∧
    dget "static_backends" details = Some (PList (PStr <$> x.(d_urls))) ∧
    dget "static_model_type" details = PStr <$> x.(d_type).
(** The backends declared, each with what its model says. *)
Definition spread {A} (f : declaration → A) (xs : list declaration) : list A :=
  mjoin ((λ x, replicate (length x.(d_urls)) (f x)) <$> xs).
Definition urls_of (xs : list declaration) : list string := mjoin (d_urls <$> xs).

Lemma as_str_list l : mapM_res as_str (PStr <$> l) = Ok l.
Proof. induction l as [|s l IH]; [done|]. cbn. by rewrite IH. Qed.
Lemma str_join_strs l : str_join (PStr <$> l) = Ok (join "," l).
Proof. unfold str_join. by rewrite as_str_list. Qed.

Section declared.
Context (d : dict string pyval) (xs : list declaration).
Context (Hd : Forall2 declares d xs).

Lemma flatten_spec f (g : declaration → list string) :
  (∀ kv x, declares kv x → f kv = Ok (PStr <$> g x)) →
  flatten f (PDict d) = Ok (join "," (mjoin (g <$> xs))).
Proof using Hd.
  intros Hf. unfold flatten. cbn [items rbind].
  assert (H : mapM_res f d = Ok ((λ x, PStr <$> g x) <$> xs)).
  { revert Hd. generalize d xs. induction 1 as [|kv x d' xs' Hx _ IH]; [done|]. cbn [mapM_res].
    by rewrite (Hf kv x Hx), IH. }
  rewrite H. cbn [rbind]. rewrite <-str_join_strs. f_equal.
  clear. induction xs as [|x l IH]; [done|]. rewrite !fmap_cons. cbn. rewrite fmap_app. f_equal. exact IH.
Qed.
Lemma backends_spec : generate_static_backends (PDict d) = Ok (join "," (urls_of xs)).
Proof using Hd.
  apply flatten_spec. intros [k v] x (_ & details & Hv & Hb & _). cbn in Hv. subst v. unfold backends_of. cbn [py_in snd rbind].
  unfold din. rewrite Hb. cbn. by rewrite Hb.
Qed.
Lemma names_spec : generate_static_models (PDict d) = Ok (join "," (spread d_name xs)).
Proof using Hd.
  apply flatten_spec. intros [k v] x (Hk & details & Hv & Hb & _). cbn in Hk, Hv. subst v. unfold names_of. cbn [py_in snd fst rbind].
  unfold din. rewrite Hb. cbn. rewrite Hb. cbn. by rewrite length_fmap, fmap_replicate, Hk.
Qed.
(** A model without a type contributes nothing. *)
Lemma types_spec :
  generate_static_model_types (PDict d) =
  Ok (join "," (mjoin ((λ x, match x.(d_type) with Some t => replicate (length x.(d_urls)) t | None => [] end) <$> xs))).
Proof using Hd.
  apply flatten_spec. intros [k v] x (_ & details & Hv & Hb & Ht). cbn in Hv. subst v. unfold types_of. cbn [py_in snd rbind].
  unfold din. rewrite Ht. destruct (d_type x) as [t|]; [|done]. repeat (cbn; rewrite ?Ht, ?Hb).
  by rewrite length_fmap, fmap_replicate.
Qed.
End declared.

(** Text that survives the flags: no comma, and for aliases no colon either. *)
Definition plain (c : Ascii.ascii) (s : string) : Prop := ¬ has_char c s.
#[local] Abbreviation comma := (Ascii.ascii_of_nat 44).
#[local] Abbreviation colon := (Ascii.ascii_of_nat 58).

#[global] Instance plain_dec c s : Decision (plain c s).
Proof. unfold plain, has_char. apply _. Defined.

Lemma split_comma l : l ≠ [] → Forall (plain comma) l → split "," (join "," l) = l.
Proof. apply (split_join comma). Qed.

Definition alias_dict (al : dict string string) : dict string pyval := (λ kv, (kv.1, PStr kv.2)) <$> al.
Definition alias_ok (kv : string * string) : Prop :=
  plain comma kv.1 ∧ plain comma kv.2 ∧ plain colon kv.1 ∧ plain colon kv.2.
Lemma parse_aliases_go_spec al acc :
  dict_wf (acc ++ al) → Forall alias_ok al →
  parse_aliases_go ((λ kv, kv.1 +:+ ":" +:+ kv.2) <$> al) acc = Ok (acc ++ al).
Proof.
  revert acc. induction al as [|[a m] al IH]; intros acc Hnd Hf; [by rewrite app_nil_r|].
  apply Forall_cons in Hf as [(_ & _ & Ha & Hm) Hf]. rewrite fmap_cons. cbn [parse_aliases_go fst snd].
  assert (Hs : split ":" (a +:+ ":" +:+ m) = [a; m]).
  { change (a +:+ ":" +:+ m) with (join (String colon "") [a; m]). apply (split_join colon); [done|]. by repeat constructor. }
  rewrite Hs. replace (dset a m acc) with (acc ++ [(a, m)]).
  - rewrite IH; [by rewrite <-app_assoc| |done]. by rewrite <-app_assoc.
  - unfold dict_wf, dkeys in Hnd. rewrite fmap_app, fmap_cons in Hnd. apply NoDup_app in Hnd as (_ & Hn & _).
    assert (Hna : a ∉ dkeys acc) by (intros H; apply (Hn _ H); by left).
    clear -Hna. induction acc as [|[k v] acc IHa]; [done|]. rewrite dkeys_cons, not_elem_of_cons in Hna.
    destruct Hna as [Hne Hna]. cbn. rewrite decide_False by done. by rewrite IHa.
Qed.
Lemma char_app c s t : has_char c (s +:+ t) ↔ has_char c s ∨ has_char c t.
Proof. unfold has_char. by rewrite list_ascii_app, elem_of_app. Qed.
Lemma aliases_spec py_str al :
  al ≠ [] → dict_wf al → Forall alias_ok al →
  ∃ s, generate_static_aliases py_str (PDict (alias_dict al)) = Ok s ∧ parse_static_aliases s = Ok al.
Proof.
  intros Hne Hnd Hf. eexists. split; [reflexivity|]. unfold parse_static_aliases, alias_dict.
  rewrite <-list_fmap_compose.
  change ((λ kv : string * pyval, _) ∘ _) with (λ kv : string * string, kv.1 +:+ ":" +:+ kv.2).
  rewrite split_comma; [by apply parse_aliases_go_spec|by destruct al|].
  apply Forall_fmap. eapply Forall_impl; [exact Hf|]. intros [a m] (H1 & H2 & _). cbn in *. unfold plain in *.
  rewrite !char_app. unfold has_char at 2. simpl. rewrite elem_of_cons, elem_of_nil. naive_solver.
Qed.

Lemma mjoin_cons {A} (x : list A) (l : list (list A)) : mjoin (x :: l) = x ++ mjoin l.
Proof. done. Qed.
Lemma length_spread {A} (f : declaration → A) xs : length (spread f xs) = length (urls_of xs).
Proof.
  unfold spread, urls_of. induction xs as [|x xs IH]; [done|]. rewrite !fmap_cons, !mjoin_cons.
  by rewrite !length_app, length_replicate, <-IH.
Qed.
Lemma zip_spread xs : zip (urls_of xs) (spread d_name xs) = mjoin ((λ x, (λ u, (u, x.(d_name))) <$> x.(d_urls)) <$> xs).
Proof.
  unfold spread, urls_of. induction xs as [|x xs IH]; [done|]. rewrite !fmap_cons, !mjoin_cons.
  rewrite zip_with_app by (by rewrite length_replicate). f_equal; [|exact IH].
  induction (d_urls x) as [|u us IHu]; [done|]. cbn. by rewrite IHu.
Qed.
Lemma elem_of_spread {A} (f : declaration → A) xs a : a ∈ spread f xs → ∃ x, x ∈ xs ∧ a = f x.
Proof.
  unfold spread. rewrite list_elem_of_join. intros (l & Ha & (x & -> & Hx)%list_elem_of_fmap).
  apply elem_of_replicate in Ha as [-> _]. eauto.
Qed.

(** A document that describes static backends: models with their types, all of whose names,
    URLs and types survive the flags, and aliases. *)
Record describes (doc : dict string pyval) (xs : list declaration) (al : dict string string) : Prop := {
  ds_models : ∃ d, dget "static_models" doc = Some (PDict d) ∧ Forall2 declares d xs;
  ds_aliases : dget "static_aliases" doc = Some (PDict (alias_dict al));
  ds_kind : dget "service_discovery" doc = Some (PStr "static");
  ds_rest : ∀ k, k ∈ ["static_model_labels"; "prefill_model_labels"; "decode_model_labels"] → dget k doc = None;
  ds_some : urls_of xs ≠ [];
  ds_plain : ∀ x, x ∈ xs → plain comma x.(d_name) ∧ ∃ t, x.(d_type) = Some t ∧ plain comma t;
  ds_urls : Forall (λ u, plain comma u ∧ validate_url u = true) (urls_of xs);
  ds_alias : al ≠ [] ∧ dict_wf al ∧ Forall alias_ok al
}.

Section described.
Context (py_str : pyval → string) (doc : dict string pyval) (xs : list declaration) (al : dict string string).
Context (Hdoc : describes doc xs al).

Lemma spread_comma (f : declaration → string) :
  (∀ x, x ∈ xs → plain comma (f x)) → split "," (join "," (spread f xs)) = spread f xs.
Proof using Hdoc.
  intros Hf. apply split_comma.
  - intros H. apply (f_equal length) in H. rewrite length_spread in H.
    apply (ds_some _ _ _ Hdoc). by apply length_zero_iff_nil.
  - apply Forall_forall. intros s Hs%elem_of_spread. destruct Hs as (x & Hx & ->). auto.
Qed.
Lemma spread_models : split "," (join "," (spread d_name xs)) = spread d_name xs.
Proof using Hdoc. apply spread_comma. intros x Hx. by apply (ds_plain _ _ _ Hdoc). Qed.
Lemma spread_types :
  split "," (join "," (spread (λ x, default "" x.(d_type)) xs)) = spread (λ x, default "" x.(d_type)) xs.
Proof using Hdoc.
  apply spread_comma. intros x Hx. by destruct (ds_plain _ _ _ Hdoc x Hx) as (_ & t & -> & ?).
Qed.
Lemma spread_urls : parse_static_urls (join "," (urls_of xs)) = urls_of xs.
Proof using Hdoc.
  assert (Hu := ds_urls _ _ _ Hdoc). unfold parse_static_urls. rewrite split_comma; [|apply Hdoc|].
  - induction Hu as [|u l [_ Hv] _ IH]; [done|]. by rewrite filter_cons_True, IH.
  - eapply Forall_impl; [exact Hu|]. by intros u [? _].
Qed.
(** The flags the file is turned into. *)
Lemma process_described : ∃ file a,
  process_yaml_config py_str (PDict doc) = Ok file ∧ parse_static_aliases a = Ok al ∧
  dget "static_backends" file = Some (PStr (join "," (urls_of xs))) ∧
  dget "static_models" file = Some (PStr (join "," (spread d_name xs))) ∧
  dget "static_model_types" file = Some (PStr (join "," (spread (λ x, default "" x.(d_type)) xs))) ∧
  dget "static_aliases" file = Some (PStr a) ∧ a ≠ "" ∧
  ∀ k, k ∉ ["static_backends"; "static_models"; "static_model_types"; "static_aliases"] → dget k file = dget k doc.
Proof using Hdoc.
  destruct (ds_models _ _ _ Hdoc) as (d & Hd & H2). destruct (ds_alias _ _ _ Hdoc) as (Hne & Hnd & Hf).
  destruct (aliases_spec py_str al Hne Hnd Hf) as (a & Ha & Hp).
  assert (Hdne : d ≠ []).
  { intros ->. apply Forall2_nil_inv_l in H2 as ->. by apply (ds_some _ _ _ Hdoc). }
  assert (Hdocne : truthy (PDict doc) = true) by (destruct doc; done).
  assert (Htypes : mjoin ((λ x, match x.(d_type) with Some t => replicate (length x.(d_urls)) t | None => [] end) <$> xs)
                   = spread (λ x, default "" x.(d_type)) xs).
  { unfold spread. f_equal. apply list_fmap_ext. intros i x Hx. apply list_elem_of_lookup_2 in Hx.
    by destruct (ds_plain _ _ _ Hdoc x Hx) as (_ & t & -> & _). }
  eexists _, a. split.
  { unfold process_yaml_config, dget_or. rewrite Hdocne, Hd, (ds_aliases _ _ _ Hdoc). cbn [negb default id].
    replace (truthy (PDict d)) with true by (by destruct d).
    replace (truthy (PDict (alias_dict al))) with true by (by destruct al).
    rewrite (backends_spec d xs H2), (names_spec d xs H2), (types_spec d xs H2), Htypes, Ha. reflexivity. }
  split; [done|]. rewrite !dget_dset. split_and!; try done.
  - intros ->. destruct al as [|[k v] l]; [done|]. cbn in Ha. injection Ha as Ha. destruct l; by destruct k.
  - intros k Hk. rewrite !not_elem_of_cons in Hk. destruct Hk as (?&?&?&?&_).
    by rewrite !dget_dset_ne, !dget_ddel_ne by done.
Qed.
End described.

Lemma from_config_dict_cfg sc file c k o :
  from_config_dict sc file = Ok c → dget k FIELDS = Some o → cfg k c = dget_or k (default PNone o) file.
Proof.
  unfold from_config_dict. destruct (filter _ (filter _ _)); [|done]. destruct (_ && _); [|done].
  intros Hc Hk. apply Ok_inj in Hc. subst c. unfold cfg, dget_or at 1.
  assert (H : ∀ l : list (string * option pyval), dget k l = Some o →
    dget k ((λ f : string * option pyval, (f.1, dget_or f.1 (default PNone f.2) file)) <$> l) =
    Some (dget_or k (default PNone o) file)).
  { induction l as [|[k' o'] l IH]; [done|]. rewrite fmap_cons. cbn [dget fst snd].
    case_decide; [by intros [= ->]; subst|exact IH]. }
  by rewrite (H _ Hk).
Qed.

(** C17. A configuration file that declares models with their backends and types, and
    aliases, configures a static discovery that pairs each backend with the model it was
    declared under, gives it that model's type, and knows exactly the declared aliases: what
    the file is flattened into is parsed back without loss. *)
Theorem yaml_backends_reach_discovery py_str w sc doc xs al c :
  describes doc xs al → from_yaml py_str sc (PDict doc) = Ok c →
  ∃ s, rbind (discovery_request c) (create_service_discovery w) = Ok (SDStatic s) ∧
    zip (Static.urls s) (Static.models s) = mjoin ((λ x, (λ u, (u, x.(d_name))) <$> x.(d_urls)) <$> xs) ∧
    length (Static.urls s) = length (Static.models s) ∧
    Static.model_types s = Some (spread (λ x, default "" x.(d_type)) xs) ∧
    Static.aliases s = Some al.
Proof.
  intros Hdoc Hc. destruct (process_described py_str doc xs al Hdoc) as (file & a & Hf & Ha & H1 & H2 & H3 & H4 & Hne & H).
  unfold from_yaml in Hc. rewrite Hf in Hc. cbn [rbind] in Hc.
  assert (Hg : ∀ k o, dget k FIELDS = Some o → cfg k c = dget_or k (default PNone o) file)
    by (intros k o; by apply (from_config_dict_cfg sc file)).
  assert (Hkind := ds_kind _ _ _ Hdoc).
  assert (Hplain : ∀ k, k ∈ ["static_model_labels"; "prefill_model_labels"; "decode_model_labels"] → cfg k c = PNone).
  { intros k Hk. assert (Hdk := ds_rest _ _ _ Hdoc k Hk). rewrite <-(H k) in Hdk by set_solver.
    rewrite (Hg k (Some PNone)) by (repeat (apply elem_of_cons in Hk as [->|Hk]; [done|]); by apply elem_of_nil in Hk).
    unfold dget_or. by rewrite Hdk. }
  rewrite <-(H "service_discovery") in Hkind by set_solver.
  unfold discovery_request.
  rewrite (Hg "service_discovery" None), (Hg "static_backends" (Some PNone)), (Hg "static_models" (Some PNone)),
    (Hg "static_aliases" (Some PNone)), (Hg "static_model_types" (Some PNone)) by (vm_compute; reflexivity).
  rewrite (Hplain "static_model_labels"), (Hplain "prefill_model_labels"), (Hplain "decode_model_labels")
    by (rewrite !elem_of_cons; auto).
  unfold dget_or. rewrite Hkind, H1, H2, H3, H4. cbn [default id eq_str str_arg comma_arg rbind parse_comma_separated_args fmap].
  rewrite bool_decide_true by done. unfold aliases_arg. cbn [truthy]. rewrite bool_decide_true by done.
  cbn [str_arg rbind]. rewrite Ha. cbn [rbind option_fmap option_map create_service_discovery of_option].
  unfold parse_comma_separated_args. cbn [fmap option_fmap option_map of_option rbind].
  rewrite (spread_urls doc xs al Hdoc), (spread_models doc xs al Hdoc), (spread_types doc xs al Hdoc).
  unfold Static.init. rewrite length_spread, Nat.eqb_refl. cbn [negb rbind].
  eexists. split; [reflexivity|]. cbn. rewrite zip_spread, length_spread. done.
Qed.

(** A model without a type among models with one: the types move up, so that the backends of
    the later models are probed with the wrong one. *)
Example untyped_models_shift_the_types :
  let details (u : string) (rest : dict string pyval) := PDict (("static_backends", PList [PStr u]) :: rest) in
  let models := PDict [("a", details "http://a:1" []); ("b", details "http://b:1" [("static_model_type", PStr "chat")])] in
  generate_static_models models = Ok "a,b" ∧ generate_static_model_types models = Ok "chat".
Proof. split; reflexivity. Qed.
(** A backend given as a text instead of a list is spread character by character. *)
Example text_backends_are_characters :
  generate_static_backends (PDict [("a", PDict [("static_backends", PStr "http")])]) = Ok "h,t,t,p".
Proof. reflexivity. Qed.

(* ------------------------------------------------------------------ *)
(** ** Witness *)

Definition details_example (us : list string) (ty : string) : pyval :=
  PDict [("static_model_type", PStr ty); ("static_backends", PList (PStr <$> us))].
Definition declared_example : list declaration :=
  [mkDecl "m1" ["http://a:1"; "http://b:1"] (Some "chat"); mkDecl "m2" ["http://c:1"] (Some "completion")].
Definition doc_example : dict string pyval :=
  [("service_discovery", PStr "static"); ("routing_logic", PStr "roundrobin");
   ("static_models", PDict [("m1", details_example ["http://a:1"; "http://b:1"] "chat");
                            ("m2", details_example ["http://c:1"] "completion")]);
   ("static_aliases", PDict [("gpt", PStr "m1")])].
Definition yaml_config_example : config :=
  match from_yaml (λ _, "") false (PDict doc_example) with Ok c => c | Err _ => [] end.

Lemma describes_example : describes doc_example declared_example [("gpt", "m1")].
Proof.
  split.
  - eexists. split; [reflexivity|]. repeat constructor; (eexists; split; [reflexivity|]; split; reflexivity).
  - reflexivity.
  - reflexivity.
  - intros k Hk. repeat (apply elem_of_cons in Hk as [->|Hk]; [reflexivity|]). by apply elem_of_nil in Hk.
  - discriminate.
  - intros x Hx. unfold declared_example in Hx. repeat (apply elem_of_cons in Hx as [->|Hx];
      [split; [apply (bool_decide_unpack _); vm_compute; exact I|
               eexists; split; [reflexivity|apply (bool_decide_unpack _); vm_compute; exact I]]|]).
    by apply elem_of_nil in Hx.
  - apply (bool_decide_unpack _). vm_compute. exact I.
  - split; [discriminate|]. split; [repeat constructor; set_solver|].
    repeat constructor; apply (bool_decide_unpack _); vm_compute; exact I.
Qed.
Lemma yaml_witness :
  ∃ s, rbind (discovery_request yaml_config_example) (create_service_discovery world_example) = Ok (SDStatic s) ∧
    zip (Static.urls s) (Static.models s) = [("http://a:1", "m1"); ("http://b:1", "m1"); ("http://c:1", "m2")].
Proof.
  destruct (yaml_backends_reach_discovery (λ _, "") world_example false doc_example declared_example [("gpt", "m1")]
    yaml_config_example describes_example eq_refl) as (s & H1 & H2 & _).
  exists s. split; [exact H1|exact H2].
Defined.
