(* ===== verification/Tracing.v ===== *)
(** * Tracing (src/src/vllm_router/experimental/otel/tracing.py and its uses in
      src/src/vllm_router/services/request_service/request.py)

    With tracing enabled the handler of the inference endpoints starts a span for every
    request and [process_request] one for every attempt.  OpenTelemetry is third-party: the
    module's state is its globals and the calls made to spans ([event]), in order.  The
    traced handler below runs next to the one of RouteRequest.v, on a pair of states, and is
    proved to do the same; the spans are then accounted for.  The response's stream is read
    to its end or closed, so the span that ends with the stream is ended within the
    handler's computation.  The trace context that is read from and written to the headers
    is not modelled: the span of a request has no parent here. *)

From S2P Require Import Prelude PyDict PyStr PyVal Endpoint RequestStats Routing RouterInterface.
From S2P Require Import Utils ServiceDiscovery ServiceDiscoveryK8s DiscoveryRegistry.
From S2P Require Import HttpBackend ProcessRequest RouteRequest.

Local Open Scope py_scope.
Set Default Proof Using "Type".

(* ------------------------------------------------------------------ *)
(** ** The module (tracing.py) *)

Inductive SpanKind : Type := SERVER | CLIENT.
(** The calls to the tracer, to spans and to the provider. *)
Inductive event : Type :=
| Started (span : nat) (name : string) (kind : SpanKind) (parent : option nat)
| Attribute (span : nat) (key : string) (value : pyval)
| ErrorRecorded (span : nat) (error : exn)
| Ended (span : nat)
| ProviderShutdown.

(** [_tracer], [_provider] (the service name, the endpoint and whether it is insecure),
    [_tracing_enabled], and what was called; spans are numbered. *)
Record tracing : Type := mkTracing {
  tracer : bool;
  provider : option (string * string * bool);
  tracing_enabled : bool;
  next_span : nat;
  events : list event
}.
Definition tracing_init : tracing := mkTracing false None false 0 [].
Definition record_events (l : list event) : M tracing unit := modify (λ t,
  mkTracing t.(tracer) t.(provider) t.(tracing_enabled) t.(next_span) (t.(events) ++ l)).

(** [exporter] is what building the exporter comes to. *)
Definition initialize_tracing (exporter : res unit) (service_name otlp_endpoint : string) (insecure : bool) :
  M tracing unit :=
  enabled <- gets tracing_enabled ;;
  if (enabled : bool) then ret tt
  else
    lift exporter ;;;
    modify (λ t, mkTracing true (Some (service_name, otlp_endpoint, insecure)) true t.(next_span) t.(events)).
Definition shutdown_tracing : M tracing unit :=
  p <- gets provider ;;
  match p with Some _ => record_events [ProviderShutdown] | None => ret tt end ;;;
  modify (λ t, mkTracing t.(tracer) t.(provider) false t.(next_span) t.(events)).
Definition is_tracing_enabled : M tracing bool := gets tracing_enabled.
Definition get_tracer : M tracing unit :=
  t <- gets tracer ;; if (t : bool) then ret tt else raise (OtherException "RuntimeError").

Definition start_span (name : string) (parent : option nat) (kind : SpanKind) (attributes : dict string pyval) :
  M tracing nat :=
  get_tracer ;;;
  n <- gets next_span ;;
  modify (λ t, mkTracing t.(tracer) t.(provider) t.(tracing_enabled) (S n)
                 (t.(events) ++ [Started n name kind parent])) ;;;
  record_events ((λ kv, Attribute n kv.1 kv.2) <$> attributes) ;;;
  ret n.
Definition set_attribute (span : option nat) (key : string) (value : pyval) : M tracing unit :=
  match span with Some n => record_events [Attribute n key value] | None => ret tt end.
Definition end_span (span : option nat) (error : option exn) (status_code : option Z) : M tracing unit :=
  match span with
  | None => ret tt
  | Some n =>
      match status_code with Some c => record_events [Attribute n "http.status_code" (PInt c)] | None => ret tt end ;;;
      match error with Some e => record_events [ErrorRecorded n e] | None => ret tt end ;;;
      record_events [Ended n]
  end.

(* ------------------------------------------------------------------ *)
(** ** One attempt ([process_request]) *)

Section process.
Context (format_g : Q → string) (http_method endpoint : string).

Definition traced_body (span : option nat) (j : Job) (b : Backend) (is_streaming : bool) (model : pyval) :
  M (gstate * tracing) unit :=
  match b with
  | BFail _ _ => on_fst (proxy_body j b is_streaming model)
  | BResponse _ status _ _ =>
      on_snd (set_attribute span "http.status_code" (PInt status)) ;;;
      on_fst (proxy_body j b is_streaming model)
  end.
(** Both [except] clauses end the span, but not when the consumer went away. *)
Definition traced_except (span : option nat) (j : Job) (b : Backend) (model : pyval) (e : exn) :
  M (gstate * tracing) unit :=
  (if is_Exception e || entry_expired b then on_snd (end_span span (Some e) None) else ret tt) ;;;
  on_fst (proxy_except format_g j b model e).
(** So does [finally]. *)
Definition traced_finally (span : option nat) (j : Job) (model : pyval) : M (gstate * tracing) unit :=
  on_fst (proxy_finally j model) ;;; on_snd (end_span span None None).

(** The span is a child of the request's, and there is none when that one is missing. *)
Definition start_child (parent : option nat) (j : Job) : M tracing (option nat) :=
  match parent with
  | None => ret None
  | Some _ =>
      n <- start_span "process_request" parent CLIENT
             [("http.method", PStr http_method); ("http.url", PStr (j.(j_backend_url) +:+ endpoint));
              ("vllm.backend_url", PStr j.(j_backend_url)); ("vllm.request_id", PStr j.(j_request_id))] ;;
      ret (Some n)
  end.
Definition traced_process_request (parent : option nat) (j : Job) (b : Backend) : M (gstate * tracing) unit :=
  span <- on_snd (start_child parent j) ;;
  js <- lift (of_option (HTTPException 400 "Request body is not JSON parsable.") j.(j_body)) ;;
  d <- lift (match js with PDict d => Ok d | _ => Err (AttributeError "get") end) ;;
  let is_streaming := dget_or "stream" (PBool false) d in
  let model := dget_or "model" (PStr "unknown") d in
  on_fst (emit (Hook (HNew j.(j_backend_url) j.(j_request_id)))) ;;;
  on_snd (set_attribute span "vllm.is_streaming" is_streaming) ;;;
  try_finally
    (try_except (traced_body span j b (truthy is_streaming) model) (traced_except span j b model))
    (traced_finally span j model).
End process.

(* ------------------------------------------------------------------ *)
(** ** The handler ([route_general_request]) *)

Section handler.
Context {R : Type} {HR : Router R} {body : Type} {HJ : JsonCodec body}.
Context (format_g : Q → string) (body_empty : body → bool) (body_length : body → nat).
Context (py_repr : pyval → string) (http_method http_url endpoint router_name : string).

(** The module's state and [request.state.backend_stream_stall_error]. *)
Definition tstate : Type := tracing * option exn.
#[local] Abbreviation THandler := (M (hstate (R := R) (body := body) * tstate)).
Definition on_tracing {S A} (m : M tracing A) : M (S * tstate) A := on_snd (on_fst m).

Definition traced_try_backend (span : option nat) (a : App (body := body)) (request_id : string) (answer : nat → string → Backend)
    (quota : option nat) (attempt : nat) (u : string) : THandler (res Answer) :=
  b <- on_fst (gets h_body) ;;
  λ st,
  let '((s, t), r) := traced_process_request format_g http_method endpoint span (job_of a b u request_id)
                        (answer attempt u) (g_init quota, st.2.1) in
  (on_fst (log_actions s.(glog)) ;;; ret (first_item s r)) (st.1, (t, s.(stall_error))).

Fixpoint traced_failover (span : option nat) (a : App (body := body)) (request_id : string) (answer : nat → string → Backend)
    (quota : option nat) (endpoints : list EndpointInfo) (by_id : bool) (fuel attempt : nat)
    (server_url : string) (error_urls : list string) (last_error : option exn) : THandler Verdict :=
  match fuel with
  | 0 => ret (Exhausted last_error)
  | S fuel' =>
      let remaining := filter (λ e, e.(url) ∉ error_urls) endpoints in
      next <- on_fst (next_server a remaining by_id attempt server_url) ;;
      match next with
      | None => ret (Exhausted last_error)
      | Some u =>
          on_tracing (set_attribute (if attempt =? 0 then None else span) "vllm.backend_url" (PStr u)) ;;;
          first <- traced_try_backend span a request_id answer quota attempt u ;;
          match first with
          | Ok x => ret (Answered x)
          | Err e =>
              match e with
              | HTTPException _ _ => raise e
              | _ =>
                  if is_connect_error e then
                    traced_failover span a request_id answer quota endpoints by_id fuel' (S attempt) u
                      (u :: error_urls) (Some e)
                  else if is_TimeoutError e then
                    on_tracing (end_span span (Some e) (Some 504%Z)) ;;; ret (TimedOut e)
                  else if is_Exception e then
                    traced_failover span a request_id answer quota endpoints by_id fuel' (S attempt) u
                      (u :: error_urls) (Some e)
                  else raise e
              end
          end
      end
  end.

(** [traced_stream], once the stream is exhausted, broken or closed. *)
Definition end_of_stream (span : option nat) (x : Answer) : M tstate unit :=
  match x.(ans_fin) with
  | Ok _ =>
      stalled <- gets snd ;;
      on_fst (end_span span stalled (Some x.(ans_status)))
  | Err e =>
      if is_Exception e then on_fst (end_span span (Some e) (Some 500%Z))
      else on_fst (end_span span None (Some 499%Z))
  end.
Definition traced_respond (span : option nat) (a : App (body := body)) (request_id : string) (v : Verdict) :
  THandler Response :=
  match v with
  | Answered x => on_snd (end_of_stream span x)
  | TimedOut _ => ret tt
  | Exhausted (Some e) =>
      on_tracing (end_span span (Some e) (Some (if is_connect_error e then 502 else 500)%Z))
  | Exhausted None => ret tt
  end ;;;
  lift (respond format_g a request_id v).

Definition traced_dispatch (span : option nat) (a : App (body := body)) (request_id : string) (answer : nat → string → Backend)
    (quota : option nat) (endpoints : list EndpointInfo) (by_id : bool) : THandler Response :=
  server_url <- on_fst (match endpoints with
                        | e0 :: _ => if by_id then ret e0.(url) else call_router a endpoints
                        | [] => raise IndexError
                        end) ;;
  router <- on_fst (gets h_router) ;;
  on_fst (if injects_priority router then js <- gets h_json ;; set_body body_length js (json_dumps (PDict js)) else ret tt) ;;;
  on_tracing (set_attribute span "vllm.backend_url" (PStr server_url)) ;;;
  on_tracing (set_attribute span "vllm.routing_logic" (PStr router_name)) ;;;
  v <- traced_failover span a request_id answer quota endpoints by_id
         (Z.to_nat (a.(app_failover) + 1)) 0 server_url [] None ;;
  traced_respond span a request_id v.

Definition status_of (r : Response) : Z :=
  match r with RJson x => x.(status_code) | RStream status _ _ _ _ => status end.
Definition traced_external (span : option nat) (a : App (body := body)) (i : Incoming) : THandler Response :=
  js <- on_fst (gets h_json) ;;
  try_except
    (response <- lift (a.(app_external) i js) ;;
     on_tracing (end_span span None (Some (status_of response))) ;;;
     ret response)
    (λ e, (if is_Exception e then on_tracing (end_span span (Some e) (Some 502%Z)) else ret tt) ;;; raise e).

Definition traced_route_model (span : option nat) (a : App (body := body)) (i : Incoming) (answer : nat → string → Backend)
    (quota : option nat) (sd : SD) (endpoints : list EndpointInfo) (requested_model : pyval) :
  THandler Response :=
  let request_id := request_id_of i in
  if a.(app_is_external) requested_model then traced_external span a i
  else
    ever <- lift (model_ever_existed sd requested_model) ;;
    let target := request_endpoint i in
    let endpoints := filter (λ e, serves requested_model target e = true) endpoints in
    on_fst (count_incoming requested_model) ;;;
    match endpoints with
    | [] =>
        on_tracing (end_span span None (Some (if (ever : bool) then 503 else 404)%Z)) ;;;
        ret (RJson (if (ever : bool) then unavailable py_repr requested_model request_id
                    else not_found py_repr requested_model request_id))
    | _ => traced_dispatch span a request_id answer quota endpoints (bool_decide (is_Some target))
    end.

(** [traced] is [otel_available and request.app.state.otel_enabled]. *)
Definition start_request (traced : bool) (request_id : string) : M tracing (option nat) :=
  if traced then
    n <- start_span ("router " +:+ endpoint) None SERVER
           [("http.method", PStr http_method); ("http.url", PStr http_url); ("http.target", PStr endpoint);
            ("vllm.request_id", PStr request_id)] ;;
    ret (Some n)
  else ret None.

Definition traced_route_general_request (traced : bool) (a : App (body := body)) (i : Incoming)
    (answer : nat → string → Backend) (quota : option nat) : THandler Response :=
  let request_id := request_id_of i in
  match parse_body body_empty i with
  | inl response => ret (RJson response)
  | inr request_json =>
      span <- on_tracing (start_request traced request_id) ;;
      match a.(app_pre_request) i request_json with
      | Some response =>
          ret (RJson (mkJSON response.(status_code) response.(content)
                 (header_set "X-Request-Id" request_id response.(response_headers))))
      | None =>
          match dget_or "model" PNone request_json with
          | PNone =>
              on_tracing (end_span span None (Some 400%Z)) ;;;
              ret (RJson (error_json 400 "Invalid request: missing 'model' in request body." request_id))
          | requested_model =>
              on_tracing (set_attribute span "vllm.model" requested_model) ;;;
              on_fst (set_json request_json) ;;;
              on_fst (rewrite a) ;;;
              sd <- lift (get_service_discovery a.(app_discovery)).2 ;;
              endpoints <- lift (get_endpoint_info a.(app_world) sd) ;;
              requested_model <- on_fst (resolve_alias body_length sd requested_model) ;;
              traced_route_model span a i answer quota sd endpoints requested_model
          end
      end
  end.
End handler.

(* ------------------------------------------------------------------ *)
(** ** Tracing changes nothing *)

(** The computation on pairs does what [m] does on the first halves, whatever the second
    one is, as long as it stays [usable]. *)
Definition erases {S T A} (usable : T → Prop) (mt : M (S * T) A) (m : M S A) : Prop :=
  ∀ s t, usable t → ∃ t', mt (s, t) = ((m s).1, t', (m s).2) ∧ usable t'.
(** A computation that always returns and stays usable. *)
Definition silent {T A} (usable : T → Prop) (m : M T A) : Prop :=
  ∀ t, usable t → ∃ t' a, m t = (t', Ok a) ∧ usable t'.

Section erases.
Context {S T : Type} (usable : T → Prop).

Lemma erases_on_fst {A} (m : M S A) : erases usable (on_fst m) m.
Proof. intros s t Ht. exists t. unfold on_fst. cbn. by destruct (m s). Qed.
Lemma erases_lift {A} (r : res A) : erases usable (lift r) (@lift S A r).
Proof. intros s t Ht. by exists t. Qed.
Lemma erases_ret {A} (a : A) : erases usable (ret a) (@ret S A a).
Proof. apply (erases_lift (Ok a)). Qed.
Lemma erases_raise {A} e : erases usable (raise e) (@raise S A e).
Proof. apply (erases_lift (Err e)). Qed.
Lemma erases_bind {A B} (mt : M (S * T) A) m (kt : A → M (S * T) B) k :
  erases usable mt m → (∀ a, erases usable (kt a) (k a)) → erases usable (bind mt kt) (bind m k).
Proof.
  intros Hm Hk s t Ht. unfold bind. destruct (Hm s t Ht) as (t' & -> & Ht').
  destruct (m s) as [s' [a|e]]; cbn; [by apply Hk|by exists t'].
Qed.
Lemma erases_then {A B} (q : M T A) (kt : A → M (S * T) B) m :
  silent usable q → (∀ a, erases usable (kt a) m) → erases usable (bind (on_snd q) kt) m.
Proof.
  intros Hq Hk s t Ht. unfold bind, on_snd. cbn. destruct (Hq t Ht) as (t' & a & -> & Ht'). by apply Hk.
Qed.
Lemma erases_ext {A} (mt : M (S * T) A) m m' : (∀ s, m s = m' s) → erases usable mt m → erases usable mt m'.
Proof. intros E Hm s t Ht. rewrite <-E. by apply Hm. Qed.
Lemma erases_after (mt : M (S * T) unit) m (q : M T unit) :
  erases usable mt m → silent usable q → erases usable (bind mt (λ _, on_snd q)) m.
Proof.
  intros Hm Hq s t Ht. unfold bind. destruct (Hm s t Ht) as (t' & -> & Ht').
  destruct (m s) as [s' [[]|e]]; cbn; [|by exists t']. unfold on_snd. cbn.
  destruct (Hq t' Ht') as (t2 & [] & -> & Ht2). by exists t2.
Qed.
Lemma erases_try_except {A} (mt : M (S * T) A) m ht h :
  erases usable mt m → (∀ e, erases usable (ht e) (h e)) → erases usable (try_except mt ht) (try_except m h).
Proof.
  intros Hm Hh s t Ht. unfold try_except. destruct (Hm s t Ht) as (t' & -> & Ht').
  destruct (m s) as [s' [a|e]]; cbn; [by exists t'|by apply Hh].
Qed.
Lemma erases_try_finally {A} (mt : M (S * T) A) m ft f :
  erases usable mt m → erases usable ft f → erases usable (try_finally mt ft) (try_finally m f).
Proof.
  intros Hm Hf s t Ht. unfold try_finally. destruct (Hm s t Ht) as (t' & -> & Ht').
  destruct (m s) as [s' r]; cbn. destruct (Hf s' t' Ht') as (t2 & -> & Ht2).
  destruct (f s') as [s2 []]; cbn; by exists t2.
Qed.
Lemma silent_if (b : bool) (q : M T unit) : silent usable q → silent usable (if b then q else ret tt).
Proof. intros Hq. destruct b; [done|]. intros t Ht. by exists t, tt. Qed.
Lemma erases_if (b : bool) {A} (mt mt' : M (S * T) A) m m' :
  erases usable mt m → erases usable mt' m' → erases usable (if b then mt else mt') (if b then m else m').
Proof. by destruct b. Qed.
End erases.

(** The tracer is there: the module was initialized. *)
Definition has_tracer (t : tracing) : Prop := tracer t = true.

Lemma silent_set_attribute span k v : silent has_tracer (set_attribute span k v).
Proof. intros t Ht. destruct span; by eexists _, _. Qed.
Lemma silent_end_span span e c : silent has_tracer (end_span span e c).
Proof. intros t Ht. destruct span, e, c; by eexists _, _. Qed.
Lemma start_span_eq name parent kind attrs t :
  has_tracer t →
  start_span name parent kind attrs t =
    (mkTracing true t.(provider) t.(tracing_enabled) (S t.(next_span))
       (t.(events) ++ Started t.(next_span) name kind parent ::
        ((λ kv, Attribute t.(next_span) kv.1 kv.2) <$> attrs)), Ok t.(next_span)).
Proof.
  intros Ht. unfold has_tracer in Ht. unfold start_span, get_tracer, bind, gets. rewrite Ht.
  unfold modify, record_events, ret. cbn. rewrite Ht, <-app_assoc. done.
Qed.
Lemma silent_start_child format_g endpoint parent j : silent has_tracer (start_child format_g endpoint parent j).
Proof.
  intros t Ht. unfold start_child. destruct parent; [|by exists t, None].
  unfold bind. rewrite start_span_eq by done. by eexists _, _.
Qed.
Lemma silent_start_request m u e traced request_id : silent has_tracer (start_request m u e traced request_id).
Proof.
  intros t Ht. unfold start_request. destruct traced; [|by exists t, None].
  unfold bind. rewrite start_span_eq by done. by eexists _, _.
Qed.

(** An attempt yields, counts and raises as it does untraced. *)
Lemma process_request_erases format_g http_method endpoint parent j b :
  erases has_tracer (traced_process_request format_g http_method endpoint parent j b) (process_request format_g j b).
Proof.
  unfold traced_process_request, process_request. apply erases_then; [apply silent_start_child|]. intros span.
  apply erases_bind; [apply erases_lift|]. intros js. apply erases_bind; [apply erases_lift|]. intros d.
  apply erases_bind; [apply erases_on_fst|]. intros _. apply erases_then; [apply silent_set_attribute|]. intros _.
  apply erases_try_finally; [apply erases_try_except|].
  - unfold traced_body. destruct b; [apply erases_on_fst|].
    apply erases_then; [apply silent_set_attribute|]. intros _. apply erases_on_fst.
  - intros e. unfold traced_except. destruct (is_Exception e || _).
    + apply erases_then; [apply silent_end_span|]. intros _. apply erases_on_fst.
    + intros s t Ht. apply (erases_on_fst has_tracer _ s t Ht).
  - apply erases_after; [apply erases_on_fst|apply silent_end_span].
Qed.

(* ------------------------------------------------------------------ *)
(** ** Every span is ended *)

(** How often a span was ended. *)
Definition ends_it (p : nat) (e : event) : bool := match e with Ended q => bool_decide (q = p) | _ => false end.
Definition ends (p : nat) (t : tracing) : nat := length (filter (λ e, ends_it p e = true) t.(events)).

(** The module was initialized, and spans that were not started were not ended. *)
Definition ready (t : tracing) : Prop := has_tracer t ∧ ∀ q, t.(next_span) ≤ q → ends q t = 0.

(** Nothing is left behind: the spans that were there are as they were, and those started
    since are ended. *)
Record tidy (t t' : tracing) : Prop := {
  tidy_ready : ready t';
  tidy_next : t.(next_span) ≤ t'.(next_span);
  tidy_old p : p < t.(next_span) → ends p t' = ends p t;
  tidy_new q : t.(next_span) ≤ q → q < t'.(next_span) → 1 ≤ ends q t'
}.
Lemma tidy_refl t : ready t → tidy t t.
Proof. intros Hr. constructor; [done|lia|done|]. lia. Qed.
Lemma tidy_trans t1 t2 t3 : tidy t1 t2 → tidy t2 t3 → tidy t1 t3.
Proof.
  intros [H1 N1 O1 W1] [H2 N2 O2 W2]. constructor; [done|lia| |].
  - intros p Hp. rewrite O2 by lia. by apply O1.
  - intros q Hq Hq'. destruct (decide (q < next_span t2)) as [Hlt|]; [|apply W2; lia].
    rewrite O2 by done. by apply W1.
Qed.

Lemma ends_record p l t :
  ends p (record_events l t).1 = ends p t + length (filter (λ e, ends_it p e = true) l).
Proof. unfold ends. cbn. by rewrite filter_app, length_app. Qed.
Lemma ends_set_attribute p span k v t : ends p (set_attribute span k v t).1 = ends p t.
Proof. destruct span; [|done]. unfold set_attribute. rewrite ends_record. apply Nat.add_0_r. Qed.
Lemma next_set_attribute span k v t : next_span (set_attribute span k v t).1 = next_span t.
Proof. by destruct span. Qed.
Lemma ends_end_span p span e c t :
  ends p (end_span span e c t).1 = ends p t + if decide (span = Some p) then 1 else 0.
Proof.
  destruct span as [n|]; [|rewrite decide_False by done; cbn; lia].
  assert (H : (end_span (Some n) e c t).1 = (record_events
    (match c with Some c => [Attribute n "http.status_code" (PInt c)] | None => [] end ++
     match e with Some e => [ErrorRecorded n e] | None => [] end ++ [Ended n]) t).1).
  { destruct e, c; cbn; f_equal; by rewrite <-?app_assoc. }
  rewrite H, ends_record, !filter_app, !length_app. f_equal.
  assert (E1 : length (filter (λ e, ends_it p e = true)
    match c with Some c => [Attribute n "http.status_code" (PInt c)] | None => [] end) = 0) by (by destruct c).
  assert (E2 : length (filter (λ e, ends_it p e = true)
    match e with Some e => [ErrorRecorded n e] | None => [] end) = 0) by (by destruct e).
  rewrite E1, E2. destruct (decide (n = p)) as [->|Hn].
  - rewrite filter_cons_True by (by apply bool_decide_eq_true). by rewrite decide_True by done.
  - rewrite filter_cons_False by (cbn [ends_it]; by rewrite bool_decide_eq_true). by rewrite decide_False by naive_solver.
Qed.
Lemma next_end_span span e c t : next_span (end_span span e c t).1 = next_span t.
Proof. by destruct span, e, c. Qed.
Lemma tracer_set_attribute span k v t : tracer (set_attribute span k v t).1 = tracer t.
Proof. by destruct span. Qed.
Lemma tracer_end_span span e c t : tracer (end_span span e c t).1 = tracer t.
Proof. by destruct span, e, c. Qed.

Lemma tidy_attribute span k v t : ready t → tidy t (set_attribute span k v t).1.
Proof.
  intros [Ht Hf]. constructor; [split; [unfold has_tracer; by rewrite tracer_set_attribute|]|..];
    intros; rewrite ?ends_set_attribute, ?next_set_attribute in *; auto; lia.
Qed.

(** The numbers after a span was started. *)
Lemma started_span name parent kind attrs t :
  ready t →
  ∃ t1, start_span name parent kind attrs t = (t1, Ok t.(next_span)) ∧ has_tracer t1 ∧
    t1.(next_span) = S t.(next_span) ∧ (∀ p, ends p t1 = ends p t).
Proof.
  intros [Ht _]. rewrite start_span_eq by done. eexists. split; [done|]. split; [done|]. split; [done|].
  intros p. unfold ends. cbn [events]. rewrite filter_app, length_app, filter_cons_False by done.
  assert (E : filter (λ e, ends_it p e = true) ((λ kv, Attribute (next_span t) kv.1 kv.2) <$> attrs) = []).
  { induction attrs as [|kv attrs IH]; [done|]. rewrite fmap_cons. by rewrite filter_cons_False by done. }
  rewrite E. apply Nat.add_0_r.
Qed.

(** While a span is open only that span is ended. *)
Definition busy (span : option nat) (t t' : tracing) : Prop :=
  has_tracer t' ∧ t'.(next_span) = t.(next_span) ∧ ∀ p, span ≠ Some p → ends p t' = ends p t.
Section attempt.
Context (format_g : Q → string) (http_method endpoint : string) (span : option nat) (t : tracing).
Definition attempt_busy (st : gstate * tracing) : Prop := busy span t st.2.

Lemma busy_on_fst {A} (m : M gstate A) : preserves attempt_busy (on_fst m).
Proof. intros [g t'] H. unfold on_fst. cbn. by destruct (m g). Qed.
Lemma busy_set_attribute k v : preserves attempt_busy (on_snd (set_attribute span k v)).
Proof.
  intros [g t'] (Ht & Hn & He). unfold attempt_busy, busy, on_snd. cbn.
  pose proof (tracer_set_attribute span k v t') as T. pose proof (next_set_attribute span k v t') as N.
  pose proof (λ p, ends_set_attribute p span k v t') as X. destruct (set_attribute span k v t') as [t2 r]. cbn in *.
  split; [unfold has_tracer; congruence|]. split; [congruence|]. intros p Hp. rewrite X. by apply He.
Qed.
Lemma busy_end_span e c : preserves attempt_busy (on_snd (end_span span e c)).
Proof.
  intros [g t'] (Ht & Hn & He). unfold attempt_busy, busy, on_snd. cbn.
  pose proof (tracer_end_span span e c t') as T. pose proof (next_end_span span e c t') as N.
  pose proof (λ p, ends_end_span p span e c t') as X. destruct (end_span span e c t') as [t2 r]. cbn in *.
  split; [unfold has_tracer; congruence|]. split; [congruence|]. intros p Hp. rewrite X, decide_False by done.
  rewrite <-He by done. lia.
Qed.
Lemma busy_try j b is_streaming model :
  preserves attempt_busy
    (try_except (traced_body span j b is_streaming model) (traced_except format_g span j b model)).
Proof.
  apply preserves_try_except.
  - unfold traced_body. destruct b; [apply busy_on_fst|].
    apply preserves_bind; [apply busy_set_attribute|]. intros _. apply busy_on_fst.
  - intros e. unfold traced_except. apply preserves_bind; [|intros _; apply busy_on_fst].
    destruct (is_Exception e || _); [apply busy_end_span|apply preserves_ret].
Qed.
End attempt.

(** An attempt at a request whose body is an object ends its own span and no other. *)
Lemma attempt_tidy format_g http_method endpoint parent j b d g t :
  j.(j_body) = Some (PDict d) → ready t →
  tidy t (traced_process_request format_g http_method endpoint parent j b (g, t)).1.2.
Proof.
  intros Hd Hr. unfold traced_process_request.
  assert (Hstart : ∃ span t1, start_child http_method endpoint parent j t = (t1, Ok span) ∧ has_tracer t1 ∧
    (∀ p, ends p t1 = ends p t) ∧ match span with
    | Some n => n = t.(next_span) ∧ t1.(next_span) = S n
    | None => t1.(next_span) = t.(next_span)
    end).
  { unfold start_child. destruct parent; [|exists None, t; by destruct Hr].
    edestruct started_span as (t1 & E & Ht1 & Hn1 & He1); [exact Hr|].
    unfold bind. rewrite E. by exists (Some t.(next_span)), t1. }
  destruct Hstart as (span & t1 & Es & Ht1 & He1 & Hn1).
  unfold bind at 1, on_snd at 1. cbn [fst snd]. rewrite Es. cbv beta iota.
  unfold bind at 1, lift at 1. rewrite Hd. cbn [of_option]. unfold bind at 1, lift at 1.
  cbv zeta beta.
  set (k := try_finally _ _). unfold bind at 1, on_fst at 1. cbn [fst snd emit modify].
  set (g1 := mkG _ _ _ _ _ _ _).
  assert (Hb0 : attempt_busy span t1 (g1, t1)) by (split; [done|by split]).
  pose proof (busy_set_attribute span t1 "vllm.is_streaming" (dget_or "stream" (PBool false) d) (g1, t1) Hb0) as Hb1.
  unfold bind. destruct (silent_set_attribute span "vllm.is_streaming" (dget_or "stream" (PBool false) d) t1 Ht1)
    as (t2 & [] & E2 & _).
  unfold on_snd in Hb1 |- *. cbn [fst snd] in Hb1 |- *. rewrite E2 in Hb1 |- *. cbn [fst snd] in Hb1 |- *.
  unfold k, try_finally.
  pose proof (busy_try format_g span t1 j b (truthy (dget_or "stream" (PBool false) d))
    (dget_or "model" (PStr "unknown") d) (g1, t2) Hb1) as Hb3.
  destruct (try_except _ _ _) as [[g3 t3] r3]. cbn [fst snd] in Hb3. destruct Hb3 as (Ht3 & Hn3 & He3). cbn in Ht3, Hn3, He3.
  unfold traced_finally, bind at 1, on_fst. cbn [fst snd].
  destruct (proxy_finally j _ g3) as [g4 rf] eqn:Ef.
  assert (Hrf : rf = Ok tt) by (unfold proxy_finally, bind, gets, emit, modify in Ef; cbn in Ef; by injection Ef).
  subst rf. unfold on_snd. cbn [fst snd].
  pose proof (λ p, ends_end_span p span None None t3) as X. pose proof (next_end_span span None None t3) as N.
  pose proof (tracer_end_span span None None t3) as T.
  destruct (silent_end_span span None None t3 Ht3) as (t4 & [] & E4 & _). rewrite E4 in X, N, T |- *. cbn in *.
  assert (Hold : ∀ p, span ≠ Some p → ends p t4 = ends p t).
  { intros p Hp. rewrite X, decide_False, He3, He1 by done. lia. }
  destruct Hr as [Ht Hf]. constructor; [split; [unfold has_tracer in *; congruence|]|..].
  - intros q Hq. destruct span as [n|]; rewrite Hold, Hf; first [done|lia|congruence||(injection; lia)].
  - destruct span; lia.
  - intros p Hp. apply Hold. destruct span; [|done]. intros [= <-]. lia.
  - intros q Hq Hq'. destruct span as [n|]; [|lia]. assert (q = n) as -> by lia. rewrite X, decide_True by done. lia.
Qed.

(* ------------------------------------------------------------------ *)
(** ** Nothing is recorded on other spans *)

Definition span_of (e : event) : option nat :=
  match e with Started p _ _ _ | Attribute p _ _ | ErrorRecorded p _ | Ended p => Some p | ProviderShutdown => None end.
(** Since [t] only events of spans from number [own] on were recorded. *)
Definition grown (own : nat) (t t' : tracing) : Prop :=
  own ≤ t'.(next_span) ∧
  ∃ new, t'.(events) = t.(events) ++ new ∧ Forall (λ e, ∃ p, span_of e = Some p ∧ own ≤ p) new.
(** A span that may be recorded on. *)
Definition from (own : nat) (span : option nat) : Prop := match span with Some n => own ≤ n | None => True end.

Section grown.
Context (own : nat) (t : tracing).

Lemma grown_record n l :
  own ≤ n → Forall (λ e, span_of e = Some n) l → preserves (grown own t) (record_events l).
Proof.
  intros Hn Hl t' [Hnext (new & He & Hnew)]. split; [done|]. exists (new ++ l). cbn. rewrite He, app_assoc. split; [done|].
  apply Forall_app. split; [done|]. eapply Forall_impl; [exact Hl|]. intros e ->. by exists n.
Qed.
Lemma grown_set_attribute span k v : from own span → preserves (grown own t) (set_attribute span k v).
Proof.
  intros Hs. destruct span as [n|]; [|apply preserves_ret]. apply (grown_record n); [done|]. by repeat constructor.
Qed.
Lemma grown_end_span span e c : from own span → preserves (grown own t) (end_span span e c).
Proof.
  intros Hs. destruct span as [n|]; [|apply preserves_ret]. unfold end_span.
  apply preserves_bind; [|intros _; apply preserves_bind; [|intros _]].
  - destruct c; [apply (grown_record n); [done|by repeat constructor]|apply preserves_ret].
  - destruct e; [apply (grown_record n); [done|by repeat constructor]|apply preserves_ret].
  - apply (grown_record n); [done|by repeat constructor].
Qed.
(** A span that is started is one of them. *)
Lemma grown_start_span name parent kind attrs t1 :
  grown own t t1 →
  let '(t2, r) := start_span name parent kind attrs t1 in grown own t t2 ∧ ∀ n, r = Ok n → own ≤ n.
Proof.
  intros Hg. destruct (tracer t1) eqn:Ht.
  2: { unfold start_span, get_tracer, bind, gets. rewrite Ht. split; [done|]. by intros n [=]. }
  rewrite start_span_eq by done. destruct Hg as [Hnext (new & He & Hnew)]. split; [|by intros n [= <-]].
  split; [cbn; lia|]. eexists. cbn [events]. rewrite He, <-app_assoc. split; [reflexivity|].
  apply Forall_app. split; [done|]. constructor; [by eexists|]. apply Forall_fmap, Forall_true. intros kv. by eexists.
Qed.
End grown.

(** An attempt, as a child of the request's span. *)
Lemma grown_on_snd {S A} own t (m : M tracing A) :
  preserves (grown own t) m → preserves (λ st : S * tracing, grown own t st.2) (on_snd m).
Proof. intros Hm [s t'] Ht. unfold on_snd. cbn. specialize (Hm t' Ht). by destruct (m t'). Qed.
Lemma grown_on_fst {S T A} (P : T → Prop) (m : M S A) : preserves (λ st : S * T, P st.2) (on_fst m).
Proof. intros [s t'] Ht. unfold on_fst. cbn. by destruct (m s). Qed.
Lemma grown_process_request format_g http_method endpoint own t parent j b :
  preserves (λ st, grown own t st.2) (traced_process_request format_g http_method endpoint parent j b).
Proof.
  intros [g t1] Hg. unfold traced_process_request, bind at 1, on_snd. cbn [fst snd].
  assert (Hstart : let '(t2, r) := start_child http_method endpoint parent j t1 in
    grown own t t2 ∧ ∀ span, r = Ok span → from own span).
  { unfold start_child. destruct parent; [|split; [done|]; by intros span [= <-]].
    unfold bind. match goal with |- context [start_span ?name ?up ?kind ?attrs t1] =>
      pose proof (grown_start_span own t name up kind attrs t1 Hg) as H end.
    destruct (start_span _ _ _ _ t1) as [t2 [q|e]]; destruct H as [H1 H2]; (split; [done|]); [|by intros span [=]].
    intros span [= <-]. by apply H2. }
  destruct (start_child _ _ _ _ t1) as [t2 [span|e]]; destruct Hstart as [H2 Hspan]; [|exact H2].
  specialize (Hspan span eq_refl). cbn [fst snd].
  match goal with |- context [bind ?m ?k (g, t2)] =>
    change (grown own t (bind m k (g, t2)).1.2);
    enough (Hk : preserves (λ st : gstate * tracing, grown own t st.2) (bind m k)) by exact (Hk (g, t2) H2)
  end.
  do 2 (apply preserves_bind; [apply preserves_lift|]; intros ?). cbv zeta.
  apply preserves_bind; [apply grown_on_fst|]. intros _.
  apply preserves_bind; [by apply grown_on_snd, grown_set_attribute|]. intros _.
  apply preserves_try_finally; [apply preserves_try_except|].
  - unfold traced_body. destruct b; [apply grown_on_fst|].
    apply preserves_bind; [by apply grown_on_snd, grown_set_attribute|]. intros _. apply grown_on_fst.
  - intros e. unfold traced_except. apply preserves_bind; [|intros _; apply grown_on_fst].
    destruct (is_Exception e || _); [by apply grown_on_snd, grown_end_span|apply preserves_ret].
  - unfold traced_finally. apply preserves_bind; [apply grown_on_fst|]. intros _. by apply grown_on_snd, grown_end_span.
Qed.

Section traced_handler.
Context {R : Type} {HR : Router R} {body : Type} {HJ : JsonCodec body}.
Context (format_g : Q → string) (body_empty : body → bool) (body_length : body → nat).
Context (py_repr : pyval → string) (http_method http_url endpoint router_name : string).
Implicit Types (a : App (body := body)) (i : Incoming (body := body)) (answer : nat → string → Backend).

Definition t_usable (t : tstate) : Prop := has_tracer t.1.
Lemma silent_on_fst {A} (m : M tracing A) : silent has_tracer m → silent t_usable (on_fst m).
Proof.
  intros Hm [t st] Ht. unfold on_fst. cbn. destruct (Hm t Ht) as (t' & x & -> & Ht'). by exists (t', st), x.
Qed.
Lemma erases_tracing {S A B} (q : M tracing A) (kt : A → M (S * tstate) B) m :
  silent has_tracer q → (∀ x, erases t_usable (kt x) m) → erases t_usable (bind (on_tracing q) kt) m.
Proof. intros Hq Hk. apply erases_then; [by apply silent_on_fst|done]. Qed.
Hint Resolve silent_set_attribute silent_end_span silent_start_child silent_start_request erases_on_fst
  erases_lift erases_ret erases_raise : core.

Lemma try_backend_erases span a rid answer quota k u :
  erases t_usable (traced_try_backend (R := R) format_g http_method endpoint span a rid answer quota k u)
    (try_backend format_g a rid answer quota k u).
Proof.
  unfold traced_try_backend, try_backend. apply erases_bind; [auto|]. intros b s [t st] Ht. cbn [fst snd].
  destruct (process_request_erases format_g http_method endpoint span (job_of a b u rid) (answer k u) (g_init quota) t Ht)
    as (t' & -> & Ht').
  destruct (process_request _ _ _ _) as [g r]. cbn. by eexists.
Qed.

Lemma failover_erases span a rid answer quota endpoints by_id fuel k u errs last :
  erases t_usable
    (traced_failover (R := R) format_g http_method endpoint span a rid answer quota endpoints by_id fuel k u errs last)
    (failover format_g a rid answer quota endpoints by_id fuel k u errs last).
Proof.
  revert k u errs last. induction fuel as [|fuel IH]; intros k u errs last; cbn [traced_failover failover]; [auto|].
  apply erases_bind; [auto|]. intros [v|]; [|auto]. apply erases_tracing; [auto|]. intros _.
  apply erases_bind; [apply try_backend_erases|]. intros [x|e]; [auto|].
  assert (Hplain : ∀ e', erases t_usable
    (if is_connect_error e then traced_failover format_g http_method endpoint span a rid answer quota endpoints by_id
                                  fuel (S k) v (v :: errs) (Some e)
     else if is_TimeoutError e then on_tracing (end_span span (Some e) (Some 504%Z)) ;;; ret (TimedOut e)
     else if is_Exception e then traced_failover format_g http_method endpoint span a rid answer quota endpoints by_id
                                  fuel (S k) v (v :: errs) (Some e)
     else raise e')
    (if is_connect_error e then failover format_g a rid answer quota endpoints by_id fuel (S k) v (v :: errs) (Some e)
     else if is_TimeoutError e then ret (TimedOut e)
     else if is_Exception e then failover format_g a rid answer quota endpoints by_id fuel (S k) v (v :: errs) (Some e)
     else raise e')).
  { intros e'. apply erases_if; [apply IH|]. apply erases_if; [apply erases_tracing; auto|].
    apply erases_if; [apply IH|auto]. }
  destruct e; auto; apply Hplain.
Qed.

Lemma respond_erases span a rid v :
  erases t_usable (traced_respond (R := R) format_g span a rid v) (lift (respond format_g a rid v)).
Proof.
  unfold traced_respond. destruct v as [x|e|[e|]].
  - apply erases_then; [|auto]. unfold end_of_stream. intros [t st] Ht.
    destruct (ans_fin x) as [[]|e]; [|destruct (is_Exception e)]; apply silent_on_fst; auto.
  - apply (erases_lift t_usable).
  - apply erases_tracing; auto.
  - apply (erases_lift t_usable).
Qed.

Lemma dispatch_erases span a rid answer quota endpoints by_id :
  erases t_usable
    (traced_dispatch (R := R) format_g body_length http_method endpoint router_name span a rid answer quota endpoints by_id)
    (dispatch format_g body_length a rid answer quota endpoints by_id).
Proof.
  unfold traced_dispatch, dispatch. apply erases_bind; [auto|]. intros u.
  apply erases_bind; [auto|]. intros r. apply erases_bind; [auto|]. intros _. apply erases_tracing; [auto|]. intros _. apply erases_tracing; [auto|]. intros _.
  apply erases_bind; [apply failover_erases|]. intros v. apply respond_erases.
Qed.

Lemma external_erases span a i :
  erases t_usable (traced_external (R := R) span a i) (js <- gets h_json ;; lift (a.(app_external) i js)).
Proof.
  unfold traced_external. apply erases_bind; [auto|]. intros js.
  apply (erases_ext _ _ (try_except (lift (app_external a i js)) raise)); [intros s; unfold try_except, lift; by destruct (app_external a i js)|].
  apply erases_try_except.
  - apply (erases_ext _ _ (bind (lift (app_external a i js)) ret)); [intros s; apply bind_ret_r|].
    apply erases_bind; [auto|]. intros r. apply erases_tracing; auto.
  - intros e. destruct (is_Exception e); [apply erases_tracing; auto|apply (erases_raise t_usable)].
Qed.

Lemma route_model_erases span a i answer quota sd endpoints m :
  erases t_usable
    (traced_route_model (R := R) format_g body_length py_repr http_method endpoint router_name span a i answer quota sd
       endpoints m)
    (route_model format_g body_length py_repr a i answer quota sd endpoints m).
Proof.
  unfold traced_route_model, route_model. apply erases_if; [apply external_erases|].
  apply erases_bind; [auto|]. intros ever. apply erases_bind; [auto|]. intros _.
  destruct (filter _ endpoints); [|apply dispatch_erases]. apply erases_tracing; auto.
Qed.

(** C36: tracing changes nothing: whether it is enabled or not, a request gets the same response
    or raises the same exception, contacts the same backends with the same bodies, and
    leaves the router, the statistics and the counters as without it. *)
Theorem tracing_changes_nothing traced a i answer quota s t :
  has_tracer t.1 →
  ∃ t', traced_route_general_request (R := R) format_g body_empty body_length py_repr http_method http_url endpoint
          router_name traced a i answer quota (s, t) =
        ((route_general_request format_g body_empty body_length py_repr a i answer quota s).1, t',
         (route_general_request format_g body_empty body_length py_repr a i answer quota s).2) ∧
        has_tracer t'.1.
Proof.
  revert s t. change (erases t_usable
    (traced_route_general_request (R := R) format_g body_empty body_length py_repr http_method http_url endpoint
       router_name traced a i answer quota)
    (route_general_request format_g body_empty body_length py_repr a i answer quota)).
  unfold traced_route_general_request, route_general_request. destruct (parse_body _ i) as [x|js]; [auto|].
  apply erases_tracing; [auto|]. intros span. destruct (app_pre_request a i js); [auto|].
  assert (Hgo : ∀ m, erases t_usable
    (on_tracing (set_attribute span "vllm.model" m) ;;; on_fst (set_json js) ;;; on_fst (rewrite a) ;;;
     sd <- lift (get_service_discovery a.(app_discovery)).2 ;;
     endpoints <- lift (get_endpoint_info a.(app_world) sd) ;;
     m <- on_fst (resolve_alias body_length sd m) ;;
     traced_route_model (R := R) format_g body_length py_repr http_method endpoint router_name span a i answer quota sd
       endpoints m)
    (set_json js ;;; rewrite a ;;; sd <- lift (get_service_discovery a.(app_discovery)).2 ;;
     endpoints <- lift (get_endpoint_info a.(app_world) sd) ;; m <- resolve_alias body_length sd m ;;
     route_model format_g body_length py_repr a i answer quota sd endpoints m)).
  { intros m. apply erases_tracing; [auto|]. intros _.
    repeat (apply erases_bind; [auto|]; intros). apply route_model_erases. }
  destruct (dget_or "model" PNone js); try apply Hgo. apply erases_tracing; auto.
Qed.
(* ------------------------------------------------------------------ *)
(** *** The spans of a request *)

Definition span_closed (span : option nat) (t t' : tracing) : Prop := ∃ e c, t' = (end_span span e c t).1.
(** The request's span is ended after everything else, or nothing has ended it and the
    handler raises. *)
Definition finished {A} (span : option nat) (t : tracing) (r : res A) (t' : tracing) : Prop :=
  (is_ok r = false ∧ tidy t t') ∨ ∃ t1, tidy t t1 ∧ span_closed span t1 t'.
Lemma finished_after {A} span t t1 (r : res A) t' : tidy t t1 → finished span t1 r t' → finished span t r t'.
Proof.
  intros Ht [[Hr H]|(t2 & H & Hc)]; [left; split; [done|]|right; exists t2; split; [|done]]; by eapply tidy_trans.
Qed.
Lemma end_span_ok span e c t : ∃ t', end_span span e c t = (t', Ok tt) ∧ span_closed span t t'.
Proof.
  exists (end_span span e c t).1. split; [by destruct span, e, c|]. by exists e, c.
Qed.
Lemma set_attribute_ok span k v t : ready t → ∃ t', set_attribute span k v t = (t', Ok tt) ∧ tidy t t'.
Proof. intros Hr. pose proof (tidy_attribute span k v t Hr). destruct span; by eexists. Qed.

Lemma tracing_step {S A B} (q : M tracing A) (k : A → M (S * tstate) B) s t st t' x :
  q t = (t', Ok x) → bind (on_tracing q) k (s, (t, st)) = k x (s, (t', st)).
Proof. intros E. unfold bind, on_tracing, on_snd, on_fst. cbn [fst snd]. by rewrite E. Qed.

Lemma try_backend_tidy span a rid answer quota k u s t st :
  body_ok s → ready t →
  ∃ l t' st' r, traced_try_backend (R := R) format_g http_method endpoint span a rid answer quota k u (s, (t, st)) =
    ((with_log s l, (t', st')), Ok r) ∧ tidy t t'.
Proof.
  intros [d Hd] Hr. unfold traced_try_backend, bind at 1, on_fst, gets. cbn [fst snd].
  pose proof (attempt_tidy format_g http_method endpoint span (job_of a (h_body s) u rid) (answer k u) d (g_init quota) t
    Hd Hr) as Ha.
  destruct (traced_process_request _ _ _ _ _ _ _) as [[g t'] r]. cbn [fst snd] in Ha.
  unfold bind, log_actions, modify, ret. cbn. by eexists _, t', _, _.
Qed.
Lemma next_server_body a remaining by_id k u (s : hstate (R := R)) :
  (next_server a remaining by_id k u s).1.(h_body) = s.(h_body).
Proof.
  unfold next_server. destruct (k =? 0); [done|]. destruct remaining; [done|]. destruct by_id; [done|].
  unfold bind, call_router. destruct (route_request _ _ _ _ _) as [r' [[v js]|e']]; done.
Qed.

Lemma failover_tidy span a rid answer quota endpoints by_id fuel k u errs last s t st :
  body_ok s → ready t →
  let '((_, (t', _)), r) := traced_failover (R := R) format_g http_method endpoint span a rid answer quota endpoints by_id
                              fuel k u errs last (s, (t, st)) in
  match r with Ok (TimedOut _) => ∃ t1, tidy t t1 ∧ span_closed span t1 t' | _ => tidy t t' end.
Proof.
  revert k u errs last s t st. induction fuel as [|fuel IH]; intros k u errs last s t st Hb Hr; [by apply tidy_refl|].
  cbn [traced_failover]. unfold bind at 1, on_fst at 1. cbn [fst snd].
  pose proof (next_server_body a (filter (λ e, e.(url) ∉ errs) endpoints) by_id k u s) as Hb1.
  destruct (next_server _ _ _ _ _ s) as [s1 [[v|]|e']]; [|by apply tidy_refl..]. cbn in Hb1.
  assert (Hb' : body_ok s1) by (unfold body_ok; by rewrite Hb1).
  destruct (set_attribute_ok (if k =? 0 then None else span) "vllm.backend_url" (PStr v) t Hr) as (t1 & E1 & T1).
  rewrite (tracing_step _ _ _ _ _ _ _ E1).
  unfold bind at 1.
  destruct (try_backend_tidy span a rid answer quota k v s1 t1 st Hb' (tidy_ready _ _ T1)) as (l & t2 & st2 & r & -> & T2).
  assert (T12 : tidy t t2) by (by eapply tidy_trans).
  destruct r as [x|e]; [done|]. pose proof (IH (S k) v (v :: errs) (Some e) (with_log s1 l) t2 st2 Hb' (tidy_ready _ _ T2)) as Hrec.
  assert (Hgo : let '((_, (t', _)), r) := traced_failover (R := R) format_g http_method endpoint span a rid answer quota
      endpoints by_id fuel (S k) v (v :: errs) (Some e) (with_log s1 l, (t2, st2)) in
    match r with Ok (TimedOut _) => ∃ t1, tidy t t1 ∧ span_closed span t1 t' | _ => tidy t t' end).
  { destruct (traced_failover _ _ _ _ _ _ _ _ _ _ _ _ _ _ _ _) as [[s3 [t3 st3]] [[x|e'|o]|e']]; try (by eapply tidy_trans).
    destruct Hrec as (t4 & T4 & Hc). exists t4. split; [by eapply tidy_trans|done]. }
  assert (Htime : let '((_, (t', _)), r) :=
      (on_tracing (end_span span (Some e) (Some 504%Z)) ;;; ret (TimedOut e)) (with_log s1 l, (t2, st2)) in
    match r with Ok (TimedOut _) => ∃ t1, tidy t t1 ∧ span_closed span t1 t' | _ => tidy t t' end).
  { unfold bind, on_tracing, on_snd, on_fst. cbn [fst snd].
    destruct (end_span_ok span (Some e) (Some 504%Z) t2) as (t3 & -> & Hc). cbn. by exists t2. }
  destruct e; try exact T12; cbn [is_connect_error is_TimeoutError is_Exception];
    first [exact Hgo|exact Htime|exact T12|idtac].
  all: repeat case_match; first [exact Hgo|exact Htime|exact T12].
Qed.
Lemma respond_finished span a rid v s t st :
  (∀ e, v ≠ TimedOut e) → ready t →
  let '((_, (t', _)), r) := traced_respond (R := R) format_g span a rid v (s, (t, st)) in finished span t r t'.
Proof.
  intros Hv Hr. unfold traced_respond, bind at 1. destruct v as [x|e|[e|]]; [|by destruct (Hv e)|..].
  - unfold end_of_stream, on_snd. cbn [fst snd].
    destruct (ans_fin x) as [[]|e]; [|destruct (is_Exception e)]; unfold bind, gets, on_fst; cbn [fst snd];
      (edestruct end_span_ok as (t' & -> & Hc)); right; exists t; (split; [by apply tidy_refl|exact Hc]).
  - unfold on_tracing, on_snd, on_fst. cbn [fst snd]. edestruct end_span_ok as (t' & -> & Hc).
    right. exists t. split; [by apply tidy_refl|exact Hc].
  - left. split; [done|]. by apply tidy_refl.
Qed.

Lemma dispatch_finished span a rid answer quota endpoints by_id s t st :
  body_ok s → ready t →
  let '((_, (t', _)), r) := traced_dispatch (R := R) format_g body_length http_method endpoint router_name span a rid answer
                              quota endpoints by_id (s, (t, st)) in finished span t r t'.
Proof.
  intros Hb Hr. unfold traced_dispatch, bind at 1, on_fst at 1. cbn [fst snd].
  set (first := match endpoints with [] => raise IndexError | e0 :: _ => _ end).
  assert (Hfirst : (first s).1.(h_body) = s.(h_body)).
  { unfold first. destruct endpoints as [|e0 es]; [done|]. destruct by_id; [done|]. unfold call_router.
    destruct (route_request _ _ _ _ _) as [r' [[v js]|e']]; done. }
  destruct (first s) as [s1 [u|e]]; cbn in Hfirst; [|left; split; [done|by apply tidy_refl]].
  unfold bind at 1, on_fst at 1, gets at 1. cbn [fst snd].
  unfold bind at 1, on_fst at 1. cbn [fst snd].
  set (inject := if injects_priority _ then _ else _).
  assert (Hinject : ∃ s2, inject s1 = (s2, Ok tt) ∧ body_ok s2).
  { unfold inject. destruct (injects_priority _); [|exists s1; split; [done|]; unfold body_ok; by rewrite Hfirst].
    eexists. split; [reflexivity|]. eexists. apply json_roundtrip. }
  destruct Hinject as (s2 & E & Hb2). rewrite E.
  destruct (set_attribute_ok span "vllm.backend_url" (PStr u) t Hr) as (t1 & E1 & T1).
  destruct (set_attribute_ok span "vllm.routing_logic" (PStr router_name) t1 (tidy_ready _ _ T1)) as (t2 & E2 & T2).
  rewrite (tracing_step _ _ _ _ _ _ _ E1), (tracing_step _ _ _ _ _ _ _ E2).
  assert (T12 : tidy t t2) by (by eapply tidy_trans).
  unfold bind at 1.
  pose proof (failover_tidy span a rid answer quota endpoints by_id (Z.to_nat (a.(app_failover) + 1)) 0 u [] None s2 t2 st
    Hb2 (tidy_ready _ _ T2)) as Hf.
  destruct (traced_failover _ _ _ _ _ _ _ _ _ _ _ _ _ _ _ _) as [[s3 [t3 st3]] [v|e]].
  2:{ left. split; [done|]. by eapply tidy_trans. }
  destruct v as [x|e|o].
  - pose proof (respond_finished span a rid (Answered x) s3 t3 st3 ltac:(done) (tidy_ready _ _ Hf)) as Hp.
    destruct (traced_respond _ _ _ _ _ _) as [[s4 [t4 st4]] r]. eapply finished_after; [|exact Hp]. by eapply tidy_trans.
  - destruct Hf as (t4 & T4 & Hc). right. exists t4. split; [by eapply tidy_trans|done].
  - pose proof (respond_finished span a rid (Exhausted o) s3 t3 st3 ltac:(done) (tidy_ready _ _ Hf)) as Hp.
    destruct (traced_respond _ _ _ _ _ _) as [[s4 [t4 st4]] r]. eapply finished_after; [|exact Hp]. by eapply tidy_trans.
Qed.

Lemma external_finished span a i s t st :
  ready t →
  let '((_, (t', _)), r) := traced_external (R := R) span a i (s, (t, st)) in finished span t r t'.
Proof.
  intros Hr. unfold traced_external, bind at 1, on_fst, gets, try_except, bind at 1, lift. cbn [fst snd].
  destruct (app_external a i (h_json s)) as [x|e].
  - unfold bind, on_tracing, on_snd, on_fst. cbn [fst snd]. edestruct end_span_ok as (t' & -> & Hc).
    right. exists t. split; [by apply tidy_refl|exact Hc].
  - unfold bind, on_tracing, on_snd, on_fst. cbn [fst snd]. destruct (is_Exception e).
    + edestruct end_span_ok as (t' & -> & Hc). right. exists t. split; [by apply tidy_refl|exact Hc].
    + left. split; [done|]. by apply tidy_refl.
Qed.

Lemma route_model_finished span a i answer quota sd endpoints m s t st :
  body_ok s → ready t →
  let '((_, (t', _)), r) := traced_route_model (R := R) format_g body_length py_repr http_method endpoint router_name span a i
                              answer quota sd endpoints m (s, (t, st)) in finished span t r t'.
Proof.
  intros Hb Hr. unfold traced_route_model. destruct (app_is_external a m); [by apply external_finished|].
  unfold bind at 1, lift. destruct (model_ever_existed sd m) as [ever|e]; [|left; split; [done|by apply tidy_refl]].
  unfold bind at 1, on_fst at 1, count_incoming, modify. cbn [fst snd].
  destruct (filter _ endpoints); [|by apply dispatch_finished].
  unfold bind, on_tracing, on_snd, on_fst. cbn [fst snd]. edestruct end_span_ok as (t' & -> & Hc).
  right. exists t. split; [by apply tidy_refl|exact Hc].
Qed.

Lemma resolve_alias_body sd m : preserves (body_ok (R := R)) (resolve_alias (body := body) body_length sd m).
Proof.
  unfold resolve_alias. destruct (aliases_of sd) as [[|kv aliases]|]; try apply preserves_ret.
  destruct (negb _); [apply preserves_raise|]. destruct m; try apply preserves_ret.
  destruct (dget s (kv :: aliases)); [|apply preserves_ret]. intros h _. eexists. apply json_roundtrip.
Qed.
Lemma rewrite_body a : preserves (body_ok (R := R)) (rewrite a).
Proof. intros s Hb. destruct (rewrite_spec a s Hb) as (js & -> & _). exact Hb. Qed.

(** The handler after the request's span was started. *)
Lemma admitted_finished span a i answer quota js m s t st :
  body_ok s → ready t →
  let '((_, (t', _)), r) :=
    (on_tracing (set_attribute span "vllm.model" m) ;;; on_fst (set_json js) ;;; on_fst (rewrite a) ;;;
     sd <- lift (get_service_discovery a.(app_discovery)).2 ;;
     endpoints <- lift (get_endpoint_info a.(app_world) sd) ;;
     m <- on_fst (resolve_alias body_length sd m) ;;
     traced_route_model (R := R) format_g body_length py_repr http_method endpoint router_name span a i answer quota sd
       endpoints m) (s, (t, st)) in finished span t r t'.
Proof.
  intros Hb Hr. destruct (set_attribute_ok span "vllm.model" m t Hr) as (t1 & E1 & T1).
  rewrite (tracing_step _ _ _ _ _ _ _ E1).
  unfold bind at 1, on_fst at 1, set_json, modify. cbn [fst snd]. set (s1 := mkH _ _ _ _ _ _).
  unfold bind at 1, on_fst at 1. cbn [fst snd]. pose proof (rewrite_body a s1 Hb) as Hb2.
  destruct (rewrite a s1) as [s2 [[]|e]]; [|left; by split]. cbn in Hb2.
  unfold bind at 1, lift at 1. destruct (get_service_discovery _).2 as [sd|e]; [|left; by split].
  unfold bind at 1, lift at 1. destruct (get_endpoint_info _ _) as [endpoints|e]; [|left; by split].
  unfold bind at 1, on_fst at 1. cbn [fst snd]. pose proof (resolve_alias_body sd m s2 Hb2) as Hb3.
  destruct (resolve_alias _ _ _ s2) as [s3 [m'|e]]; [|left; by split]. cbn in Hb3.
  pose proof (route_model_finished span a i answer quota sd endpoints m' s3 t1 st Hb3 (tidy_ready _ _ T1)) as Hp.
  destruct (traced_route_model _ _ _ _ _ _ _ _ _ _ _ _ _ _ _) as [[s4 [t4 st4]] r].
  by eapply finished_after.
Qed.
(** What [finished] says of the counts, for a span that was just started. *)
Lemma finished_counts {A} t t1 (r : res A) t' :
  ready t → t1.(next_span) = S t.(next_span) → (∀ p, ends p t1 = ends p t) →
  finished (Some t.(next_span)) t1 r t' →
  t.(next_span) < t'.(next_span) ∧
  (∀ q, t.(next_span) < q → q < t'.(next_span) → 1 ≤ ends q t') ∧
  ends t.(next_span) t' ≤ 1 ∧ (is_ok r = true → ends t.(next_span) t' = 1).
Proof.
  intros Hr Hn1 He1 [[Er [_ Hnext Hold Hnew]]|(t2 & [_ Hnext Hold Hnew] & e & c & ->)].
  - split_and!.
    + lia.
    + intros q Hq Hq'. apply Hnew; lia.
    + rewrite Hold, He1, (proj2 Hr) by lia. lia.
    + by rewrite Er.
  - rewrite next_end_span. split_and!.
    + lia.
    + intros q Hq Hq'. rewrite ends_end_span. specialize (Hnew q ltac:(lia) Hq'). lia.
    + rewrite ends_end_span, decide_True, Hold, He1, (proj2 Hr) by first [lia|done]. lia.
    + intros _. rewrite ends_end_span, decide_True, Hold, He1, (proj2 Hr) by first [lia|done]. lia.
Qed.

Lemma route_finished a i answer quota router js t st :
  parse_body body_empty i = inr js → a.(app_pre_request) i js = None → ready t →
  ∃ t1, t1.(next_span) = S t.(next_span) ∧ (∀ p, ends p t1 = ends p t) ∧
    let '((_, (t', _)), r) := traced_route_general_request (R := R) format_g body_empty body_length py_repr http_method
        http_url endpoint router_name true a i answer quota (h_init router i, (t, st)) in
    finished (Some t.(next_span)) t1 r t'.
Proof.
  intros Ep Hpre Hr. edestruct started_span as (t1 & E1 & Ht1 & Hn1 & He1); [exact Hr|].
  assert (Hr1 : ready t1) by (split; [done|]; intros q Hq; rewrite He1; apply Hr; lia).
  exists t1. split; [done|]. split; [done|]. unfold traced_route_general_request. rewrite Ep.
  erewrite tracing_step by (unfold start_request, bind; rewrite E1; reflexivity). rewrite Hpre.
  assert (Hnone : ∀ x : Response, let '((_, (t', _)), r) :=
      (on_tracing (end_span (Some t.(next_span)) None (Some 400%Z)) ;;; ret x) (h_init router i, (t1, st)) in
    finished (Some t.(next_span)) t1 r t').
  { intros x. destruct (end_span_ok (Some t.(next_span)) None (Some 400%Z) t1) as (t2 & E2 & Hc).
    rewrite (tracing_step _ _ _ _ _ _ _ E2). right. exists t1. split; [by apply tidy_refl|exact Hc]. }
  unfold dget_or. destruct (dget "model" js) as [m|] eqn:Em; [|apply Hnone].
  assert (Hb : body_ok (h_init router i)) by (exists js; by eapply parse_body_inr).
  pose proof (admitted_finished (Some t.(next_span)) a i answer quota js m (h_init router i) t1 st Hb Hr1) as Hm.
  destruct m; first [exact Hm|apply Hnone].
Qed.

(** *** Nothing is recorded on the spans of other requests *)

Definition tgrown (own : nat) (t : tracing) (st : hstate (R := R) (body := body) * tstate) : Prop := grown own t st.2.1.
Lemma tgrown_on_fst {A} own t (m : M hstate A) : preserves (tgrown own t) (on_fst m).
Proof. apply (grown_on_fst (λ ts : tstate, grown own t ts.1)). Qed.
Lemma tgrown_tracing {A} own t (m : M tracing A) : preserves (grown own t) m → preserves (tgrown own t) (on_tracing m).
Proof.
  intros Hm [s [t' x]] Ht. unfold on_tracing, on_snd, on_fst. cbn. specialize (Hm t' Ht). by destruct (m t').
Qed.
Lemma tgrown_attribute own t span k v : from own span → preserves (tgrown own t) (on_tracing (set_attribute span k v)).
Proof. intros Hs. by apply tgrown_tracing, grown_set_attribute. Qed.
Lemma tgrown_end own t span e c : from own span → preserves (tgrown own t) (on_tracing (end_span span e c)).
Proof. intros Hs. by apply tgrown_tracing, grown_end_span. Qed.
Hint Resolve tgrown_on_fst tgrown_attribute tgrown_end preserves_ret preserves_raise preserves_lift : core.

Lemma tgrown_try_backend own t span a rid answer quota k u :
  preserves (tgrown own t) (traced_try_backend (R := R) format_g http_method endpoint span a rid answer quota k u).
Proof.
  unfold traced_try_backend. apply preserves_bind; [auto|]. intros b [s [t1 x]] Ht. cbn [fst snd].
  pose proof (grown_process_request format_g http_method endpoint own t span (job_of a b u rid) (answer k u)
    (g_init quota, t1) Ht) as H.
  by destruct (traced_process_request _ _ _ _ _ _ _) as [[g t2] r].
Qed.
Lemma tgrown_failover own t span a rid answer quota endpoints by_id fuel k u errs last :
  from own span →
  preserves (tgrown own t)
    (traced_failover (R := R) format_g http_method endpoint span a rid answer quota endpoints by_id fuel k u errs last).
Proof.
  intros Hs. revert k u errs last. induction fuel as [|fuel IH]; intros k u errs last; cbn [traced_failover]; [auto|].
  apply preserves_bind; [auto|]. intros [v|]; [|auto].
  apply preserves_bind; [destruct (k =? 0); by apply tgrown_attribute|]. intros _.
  apply preserves_bind; [apply tgrown_try_backend|]. intros [x|e]; [auto|].
  assert (Hend : preserves (tgrown own t) (on_tracing (end_span span (Some e) (Some 504%Z)) ;;; ret (TimedOut e)))
    by (apply preserves_bind; [auto|intros _; auto]).
  destruct e; auto; repeat (apply preserves_if; [by auto|]); auto.
Qed.
Lemma tgrown_respond own t span a rid v :
  from own span → preserves (tgrown own t) (traced_respond (R := R) format_g span a rid v).
Proof.
  intros Hs. unfold traced_respond. apply preserves_bind; [|intros _; auto]. destruct v as [x|e|[e|]]; auto.
  intros [s [t1 st]] Ht. unfold end_of_stream, on_snd. cbn [fst snd].
  assert (H : ∀ e c, grown own t (end_span span e c t1).1) by (intros e c; by apply grown_end_span).
  destruct (ans_fin x) as [[]|e]; [unfold bind, gets|destruct (is_Exception e)]; unfold on_fst; cbn [fst snd].
  - specialize (H st (Some (ans_status x))). by destruct (end_span span st _ t1).
  - specialize (H (Some e) (Some 500%Z)). by destruct (end_span span _ _ t1).
  - specialize (H None (Some 499%Z)). by destruct (end_span span _ _ t1).
Qed.
Lemma tgrown_route_model own t span a i answer quota sd endpoints m :
  from own span →
  preserves (tgrown own t)
    (traced_route_model (R := R) format_g body_length py_repr http_method endpoint router_name span a i answer quota sd
       endpoints m).
Proof.
  intros Hs. unfold traced_route_model. apply preserves_if.
  - unfold traced_external. apply preserves_bind; [auto|]. intros js. apply preserves_try_except.
    + apply preserves_bind; [auto|]. intros x. apply preserves_bind; auto.
    + intros e. apply preserves_bind; [destruct (is_Exception e); auto|auto].
  - apply preserves_bind; [auto|]. intros ever. apply preserves_bind; [auto|]. intros _.
    destruct (filter _ endpoints) as [|e0 es]; [apply preserves_bind; auto|].
    unfold traced_dispatch. apply preserves_bind; [auto|]. intros u. apply preserves_bind; [auto|]. intros r.
    apply preserves_bind; [auto|]. intros _. do 2 (apply preserves_bind; [auto|]; intros _).
    apply preserves_bind; [by apply tgrown_failover|]. intros v. by apply tgrown_respond.
Qed.
Lemma tgrown_route a i answer quota t :
  preserves (tgrown t.(next_span) t)
    (traced_route_general_request (R := R) format_g body_empty body_length py_repr http_method http_url endpoint router_name
       true a i answer quota).
Proof.
  unfold traced_route_general_request. destruct (parse_body _ i) as [x|js]; [auto|]. intros [s [t1 st]] Ht.
  unfold bind at 1. unfold on_tracing at 1, on_snd at 1, on_fst at 1. cbn [fst snd]. unfold start_request at 1, bind at 1.
  pose proof (grown_start_span t.(next_span) t ("router " +:+ endpoint) None SERVER
    [("http.method", PStr http_method); ("http.url", PStr http_url); ("http.target", PStr endpoint);
     ("vllm.request_id", PStr (request_id_of i))] t1 Ht) as H.
  destruct (start_span _ _ _ _ t1) as [t2 [n|e]]; destruct H as [H2 Hn]; [|exact H2]. specialize (Hn n eq_refl).
  unfold ret at 1. cbn [fst snd]. destruct (app_pre_request a i js) as [x|]; [exact H2|].
  assert (Hgo : ∀ m, preserves (tgrown t.(next_span) t)
    (on_tracing (set_attribute (Some n) "vllm.model" m) ;;; on_fst (set_json js) ;;; on_fst (rewrite a) ;;;
     sd <- lift (get_service_discovery a.(app_discovery)).2 ;;
     endpoints <- lift (get_endpoint_info a.(app_world) sd) ;;
     m <- on_fst (resolve_alias body_length sd m) ;;
     traced_route_model (R := R) format_g body_length py_repr http_method endpoint router_name (Some n) a i answer quota sd
       endpoints m)).
  { intros m. do 3 (apply preserves_bind; [auto|]; intros _). do 3 (apply preserves_bind; [auto|]; intros ?).
    by apply tgrown_route_model. }
  assert (Hnone : ∀ x : Response, preserves (tgrown t.(next_span) t) (on_tracing (end_span (Some n) None (Some 400%Z)) ;;; ret x))
    by (intros x; apply preserves_bind; auto).
  destruct (dget_or "model" PNone js); (apply Hgo || apply Hnone); exact H2.
Qed.

(** C38: with tracing on, whatever the backends do, nothing is recorded on the spans of other
    requests: all that is recorded is on spans that the request starts.  A request whose
    body is not an object starts none.  Any other one starts its own span first; the span
    of every attempt, and any other span it starts later, is ended; its own span is ended
    exactly once when the request is answered and at most once when the handler raises,
    except that a request which the user's pre_request callback answers leaves its own span
    open. *)
Theorem answered_requests_end_their_spans a i answer quota router t st :
  ready t →
  let '((_, (t', _)), r) := traced_route_general_request (R := R) format_g body_empty body_length py_repr http_method http_url
                              endpoint router_name true a i answer quota (h_init router i, (t, st)) in
  let own := t.(next_span) in
  (∃ new, t'.(events) = t.(events) ++ new ∧ Forall (λ e, ∃ p, span_of e = Some p ∧ own ≤ p) new) ∧
  match parse_body body_empty i with
  | inl _ => t' = t
  | inr js =>
      own < t'.(next_span) ∧ (∀ q, own < q → q < t'.(next_span) → 1 ≤ ends q t') ∧
      match a.(app_pre_request) i js with
      | Some _ => ends own t' = 0
      | None => ends own t' ≤ 1 ∧ (is_ok r = true → ends own t' = 1)
      end
  end.
Proof.
  intros Hr. pose proof (tgrown_route a i answer quota t (h_init router i, (t, st))) as Hg.
  assert (Hstart : tgrown t.(next_span) t (h_init router i, (t, st))).
  { split; [done|]. exists []. by rewrite app_nil_r. }
  specialize (Hg Hstart). destruct (parse_body body_empty i) as [x|js] eqn:Ep.
  { unfold traced_route_general_request in *. rewrite Ep in *. split; [apply Hg|done]. }
  destruct (app_pre_request a i js) as [x|] eqn:Hpre.
  - unfold traced_route_general_request in *. rewrite Ep in *.
    edestruct started_span as (t1 & E1 & Ht1 & Hn1 & He1); [exact Hr|].
    erewrite tracing_step in Hg |- * by (unfold start_request, bind; rewrite E1; reflexivity). rewrite Hpre in *.
    cbn in Hg |- *. split; [apply Hg|]. rewrite Hn1, He1, (proj2 Hr) by done. split_and!; [lia|lia|done].
  - destruct (route_finished a i answer quota router js t st Ep Hpre Hr) as (t1 & Hn1 & He1 & H).
    destruct (traced_route_general_request _ _ _ _ _ _ _ _ _ _ _ _ _ _) as [[s' [t' st']] r].
    destruct (finished_counts t t1 r t' Hr Hn1 He1 H) as (H1 & H2 & H3 & H4). split; [apply Hg|by split_and!].
Qed.
End traced_handler.

(* ------------------------------------------------------------------ *)
(** ** Witnesses *)

Definition tracing_example : tracing := (initialize_tracing (Ok tt) "vllm-router" "localhost:4317" true tracing_init).1.
Definition traced_example (a : App (body := pyval)) (answer : nat → string → Backend) :=
  traced_route_general_request format_example (λ _ : pyval, false) (λ _, 0) repr_example "POST" "http://router/v1/completions"
    "/v1/completions" "RoundRobinRouter" true a (incoming_example "gpt") answer None
    (h_init RoundRobinRouter.init (incoming_example "gpt"), (tracing_example, None)).
Definition ends_example (a : App (body := pyval)) (answer : nat → string → Backend) : list nat :=
  let t := (traced_example a answer).1.2.1 in (λ p, ends p t) <$> seq 0 t.(next_span).

Lemma tracing_changes_nothing_witness :
  (traced_example app_example answer_example).2 =
    Ok (RStream 200 [("X-Request-Id", "req-1")] "application/json" [IChunk "{}"] (Ok tt)).
Proof.
  destruct (tracing_changes_nothing format_example (λ _ : pyval, false) (λ _, 0) repr_example "POST"
    "http://router/v1/completions" "/v1/completions" "RoundRobinRouter" true app_example (incoming_example "gpt") answer_example
    None (h_init RoundRobinRouter.init (incoming_example "gpt")) (tracing_example, None) eq_refl) as (t' & H & _).
  unfold traced_example. rewrite H. vm_compute. reflexivity.
Defined.

Lemma answered_requests_witness :
  let t := (traced_example app_example answer_example).1.2.1 in
  (∀ q, 0 < q → q < t.(next_span) → 1 ≤ ends q t) ∧ ends 0 t = 1.
Proof.
  pose proof (answered_requests_end_their_spans format_example (λ _ : pyval, false) (λ _, 0) repr_example "POST"
    "http://router/v1/completions" "/v1/completions" "RoundRobinRouter" app_example (incoming_example "gpt") answer_example
    None RoundRobinRouter.init tracing_example None) as H.
  destruct (traced_route_general_request _ _ _ _ _ _ _ _ _ _ _ _ _ _) as [[s' [t' st']] r] eqn:E.
  assert (Et : (traced_example app_example answer_example).1.2.1 = t') by (unfold traced_example; by rewrite E).
  assert (Er : is_ok (traced_example app_example answer_example).2 = true) by (vm_compute; reflexivity).
  unfold traced_example in Er. rewrite E in Er. rewrite Et.
  destruct H as (_ & _ & Hq & _ & Ho); [split; [reflexivity|intros q _; reflexivity]|].
  split; [exact Hq|by apply Ho].
Defined.

(** The alias's first engine refuses the connection: its span is ended by the [except]
    clause and again by [finally]. *)
Example a_failed_attempt_ends_its_span_twice : ends_example app_example answer_example = [1; 2; 1].
Proof. vm_compute. reflexivity. Qed.

(** A request that a user callback answers never ends its span. *)
Definition answering_app : App (body := pyval) :=
  mkApp world_example (mkGlobal (Some static_example) []) ∅ DEFAULT_BACKEND_CLIENT_TIMEOUT
    true (λ _ _, Some (mkJSON 403 PNone [])) (λ _, false) (λ _ _, Err AssertionError) 1 false (Ok tt) (λ _, None).
Example a_callback_leaves_the_span_open : ends_example answering_app answer_example = [0].
Proof. vm_compute. reflexivity. Qed.

(** Nor does one whose client goes away before the response headers. *)
Example a_client_that_leaves_early_leaves_the_span_open :
  (traced_example app_example (λ _ _, BFail CancelledError false)).2 = Err CancelledError ∧
  ends_example app_example (λ _ _, BFail CancelledError false) = [0; 1].
Proof. vm_compute. done. Qed.

(** After a shutdown the tracer and the provider are still there: spans can still be
    started, and another shutdown shuts the provider down again. *)
Example shutdown_keeps_the_provider :
  let t := (shutdown_tracing (shutdown_tracing tracing_example).1).1 in
  t.(tracing_enabled) = false ∧ t.(tracer) = true ∧ t.(events) = [ProviderShutdown; ProviderShutdown].
Proof. done. Qed.
