(* ===== verification/SemanticCache.v ===== *)
(** * Semantic cache (src/src/vllm_router/experimental/semantic_cache/ and
      src/src/vllm_router/experimental/semantic_cache_integration.py)

    A chat completion may be answered from an earlier one whose prompt is similar: the
    prompt is embedded, the nearest stored embedding is looked up, and its responses are
    returned when it is near enough and belongs to the same model.  The embedding model
    and the vector index are parameters; the index finds an entry with the largest inner
    product ([VectorIndex]).  The module experimental/semantic_cache.py is shadowed by the
    package of the same name. *)

From S2P Require Import Prelude PyDict PyStr PyVal HttpBackend RouterInterface ProcessRequest RouteRequest DynamicConfig.

Local Open Scope py_scope.
Set Default Proof Using "Type".

(** [faiss.IndexFlatIP]: vectors with an inner product and the nearest of a list. *)
Class VectorIndex (vec : Type) : Type := {
  inner : vec → vec → Q;
  nearest : list vec → vec → option nat;
  nearest_spec : ∀ l e, match nearest l e with
                        | None => l = []
                        | Some i => ∃ v, l !! i = Some v ∧ ∀ w, w ∈ l → (inner w e <= inner v e)%Q
                        end
}.

Section cache.
Context {vec : Type} {HV : VectorIndex vec}.
(** The embedding of a text, [str(v)], fresh ids and the clock. *)
Context (encode : string → vec) (py_str : pyval → string) (fresh_id : string) (now : Z).

(* ------------------------------------------------------------------ *)
(** ** The vector database (db_adapters/faiss_adapter.py) *)

Record Meta : Type := mkMeta {
  request_messages : pyval;
  response_messages : list pyval;
  model : pyval;
  usage : pyval
}.
Record FAISSAdapter : Type := mkDB {
  index : list vec;
  metadata : list Meta
}.

Record Match : Type := mkMatch {
  m_responses : list pyval;
  m_score : Q;
  m_usage : pyval
}.

Definition db_search (embedding : vec) (wanted : pyval) (similarity_threshold : pyval) (db : FAISSAdapter) :
  res (option Match) :=
  match nearest db.(index) embedding with
  | None => Ok None
  | Some i =>
      rbind (of_option IndexError (db.(index) !! i)) (λ v,
      let distance := inner v embedding in
      rbind (of_option TypeError (as_number similarity_threshold)) (λ threshold,
      if Qle_bool threshold distance then
        rbind (of_option IndexError (db.(metadata) !! i)) (λ m,
        Ok (if py_eq m.(model) wanted then Some (mkMatch m.(response_messages) distance m.(usage)) else None))
      else Ok None))
  end.

(** How far a save gets, each error being logged only: the index is written first, and
    opening the metadata file empties it. *)
Inductive save_outcome : Type :=
| SavedBoth
| IndexUnwritten
| IndexTorn
| MetadataUnwritten
| MetadataTorn.
(** The two files: absent, unreadable, or a content. *)
Record Files : Type := mkFiles {
  index_file : option (option (list vec));
  metadata_file : option (option (list Meta))
}.
Definition save_index (o : save_outcome) (db : FAISSAdapter) (f : Files) : Files :=
  match o with
  | SavedBoth => mkFiles (Some (Some db.(index))) (Some (Some db.(metadata)))
  | IndexUnwritten => f
  | IndexTorn => mkFiles (Some None) f.(metadata_file)
  | MetadataUnwritten => mkFiles (Some (Some db.(index))) f.(metadata_file)
  | MetadataTorn => mkFiles (Some (Some db.(index))) (Some None)
  end.

Definition empty_db : FAISSAdapter := mkDB [] [].
(** Both files readable, or a new index, which is saved. *)
Definition load_index (o : save_outcome) (f : Files) : FAISSAdapter * Files :=
  match f.(index_file), f.(metadata_file) with
  | Some (Some l), Some (Some ms) => (mkDB l ms, f)
  | _, _ => (empty_db, save_index o empty_db f)
  end.
Definition faiss_init (o1 o2 : save_outcome) (f : Files) : FAISSAdapter * Files :=
  let '(db, f) :=
    match f.(index_file), f.(metadata_file) with
    | Some _, Some _ => load_index o1 f
    | _, _ => (empty_db, f)
    end in
  (db, save_index o2 db f).

Definition db_store (embedding : vec) (requests : pyval) (responses : list pyval) (m u : pyval)
    (db : FAISSAdapter) : FAISSAdapter :=
  mkDB (db.(index) ++ [embedding]) (db.(metadata) ++ [mkMeta requests responses m u]).

(* ------------------------------------------------------------------ *)
(** ** The cache (semantic_cache.py) *)

Record pending_search : Type := mkSearch {
  ps_embedding : vec;
  ps_model : pyval;
  ps_threshold : pyval
}.
Record pending_store : Type := mkStore {
  pt_embedding : vec;
  pt_messages : pyval;
  pt_model : pyval
}.
Record SemanticCache : Type := mkCache {
  db : FAISSAdapter;
  files : Files;
  default_similarity_threshold : Q;
  pending_searches : gmap string pending_search;
  pending_stores : gmap string pending_store
}.
Definition with_db (db : FAISSAdapter) (f : Files) (c : SemanticCache) : SemanticCache :=
  mkCache db f c.(default_similarity_threshold) c.(pending_searches) c.(pending_stores).
Definition with_searches (p : gmap string pending_search) (c : SemanticCache) : SemanticCache :=
  mkCache c.(db) c.(files) c.(default_similarity_threshold) p c.(pending_stores).
Definition with_stores (p : gmap string pending_store) (c : SemanticCache) : SemanticCache :=
  mkCache c.(db) c.(files) c.(default_similarity_threshold) c.(pending_searches) p.

Definition cache_init (o1 o2 : save_outcome) (threshold : Q) (f : Files) : SemanticCache :=
  let '(db, f) := faiss_init o1 o2 f in mkCache db f threshold ∅ ∅.

Fixpoint message_texts (l : list pyval) : res (list string) :=
  match l with
  | [] => Ok []
  | msg :: l =>
      rbind (get_method "role" (PStr "user") msg) (λ role,
      rbind (get_method "content" (PStr "") msg) (λ content,
      rbind (message_texts l) (λ ts,
      Ok ((format_value py_str role +:+ ": " +:+ format_value py_str content) :: ts))))
  end.
Definition get_embedding (messages : pyval) : res vec :=
  rbind (iterate messages) (λ l, rbind (message_texts l) (λ ts, Ok (encode (join " " ts)))).

Definition threshold_of (similarity_threshold : pyval) (c : SemanticCache) : pyval :=
  if is_none similarity_threshold then PFloat c.(default_similarity_threshold) else similarity_threshold.

Definition search (messages wanted similarity_threshold : pyval) (c : SemanticCache) : res (option Match) :=
  rbind (get_embedding messages) (λ embedding,
  db_search embedding wanted (threshold_of similarity_threshold c) c.(db)).

(** [self.db.store], which saves. *)
Definition add_entry (o : save_outcome) (embedding : vec) (requests : pyval) (responses : list pyval)
    (m u : pyval) : M SemanticCache unit := modify (λ c,
  let db' := db_store embedding requests responses m u c.(db) in with_db db' (save_index o db' c.(files)) c).

(** Whether the pair was stored; an error is only logged. *)
Definition store (o : save_outcome) (requests : pyval) (responses : list pyval) (m u : pyval) :
  M SemanticCache bool :=
  try_except (embedding <- lift (get_embedding requests) ;;
              add_entry o embedding requests responses m u ;;;
              ret true)
    (λ _, ret false).

(** The two halves of a search and of a store; [request_id] is the fresh id of the first. *)
Definition initiate_search (request_id : string) (messages wanted similarity_threshold : pyval) :
  M SemanticCache string :=
  threshold <- gets (threshold_of similarity_threshold) ;;
  embedding <- lift (get_embedding messages) ;;
  modify (λ c, with_searches (<[request_id := mkSearch embedding wanted threshold]> c.(pending_searches)) c) ;;;
  ret request_id.
Definition complete_search (request_id : string) : M SemanticCache (option Match) :=
  search_data <- gets (λ c, c.(pending_searches) !! request_id) ;;
  modify (λ c, with_searches (delete request_id c.(pending_searches)) c) ;;;
  match search_data with
  | None => ret None
  | Some p =>
      db <- gets db ;;
      lift (db_search p.(ps_embedding) p.(ps_model) p.(ps_threshold) db)
  end.
Definition initiate_store (request_id : string) (requests m : pyval) : M SemanticCache string :=
  embedding <- lift (get_embedding requests) ;;
  modify (λ c, with_stores (<[request_id := mkStore embedding requests m]> c.(pending_stores)) c) ;;;
  ret request_id.
Definition complete_store (o : save_outcome) (request_id : string) (responses : list pyval) (u : pyval) :
  M SemanticCache bool :=
  store_data <- gets (λ c, c.(pending_stores) !! request_id) ;;
  modify (λ c, with_stores (delete request_id c.(pending_stores)) c) ;;;
  match store_data with
  | None => ret false
  | Some p => add_entry o p.(pt_embedding) p.(pt_messages) responses p.(pt_model) u ;;; ret true
  end.

(* ------------------------------------------------------------------ *)
(** ** The integration (semantic_cache_integration.py) *)

(** The cache, when it is initialized, and the hit and miss counters. *)
Record cstate : Type := mkC {
  cache : option SemanticCache;
  hits : nat;
  misses : nat
}.

(** What is logged of a list of messages: [l[0].get("content", "")[:50]], of a
    list that is not empty. *)
Definition sliceable (v : pyval) : res unit := match v with PStr _ | PList _ => Ok tt | _ => Err TypeError end.
Definition log_first (first : pyval) : res unit := rbind (get_method "content" (PStr "") first) sliceable.
Definition log_messages (messages : pyval) : res unit :=
  if negb (truthy messages) then Ok tt
  else match messages with
       | PList (first :: _) => log_first first
       | PStr _ => Err (AttributeError "get")
       | PDict _ => Err (KeyError "0")
       | _ => Err TypeError
       end.

Fixpoint choices_from (i : Z) (l : list pyval) : list pyval :=
  match l with
  | [] => []
  | msg :: l => PDict [("index", PInt i); ("message", msg); ("finish_reason", PStr "stop")] :: choices_from (i + 1) l
  end.
Definition cached_response (wanted : pyval) (m : Match) : JSONResponse := mkJSON 200 (PDict
  [("id", PStr ("chatcmpl-" +:+ fresh_id)); ("object", PStr "chat.completion"); ("created", PInt now);
   ("model", wanted); ("choices", PList (choices_from 0 m.(m_responses))); ("usage", m.(m_usage));
   ("cached", PBool true); ("similarity_score", PFloat m.(m_score))]) [].

Definition count_hit : M cstate unit := modify (λ s, mkC s.(cache) (S s.(hits)) s.(misses)).
Definition count_miss : M cstate unit := modify (λ s, mkC s.(cache) s.(hits) (S s.(misses))).

(** [parsed] is the request's body, [None] when it is not JSON. *)
Definition check_semantic_cache (enabled : bool) (parsed : option pyval) : M cstate (option JSONResponse) :=
  if negb enabled then ret None else
  body <- lift (of_option JSONDecodeError parsed) ;;
  c <- gets cache ;;
  match c with
  | None => ret None
  | Some c =>
      wanted <- lift (get_method "model" (PStr "") body) ;;
      messages <- lift (get_method "messages" (PList []) body) ;;
      similarity_threshold <- lift (get_method "cache_similarity_threshold" PNone body) ;;
      skip_cache <- lift (get_method "skip_cache" (PBool false) body) ;;
      if truthy skip_cache || negb (truthy messages) then ret None
      else
        lift (log_messages messages) ;;;
        result <- lift (search messages wanted similarity_threshold c) ;;
        match result with
        | Some m =>
            count_hit ;;;
            lift (log_messages (PList m.(m_responses))) ;;;
            ret (Some (cached_response wanted m))
        | None => count_miss ;;; ret None
        end
  end.

(** The messages of the response's choices. *)
Fixpoint choice_messages (l : list pyval) : res (list pyval) :=
  match l with
  | [] => Ok []
  | choice :: l =>
      rbind (py_in "message" choice) (λ has,
      if has : bool then
        rbind (match choice with PDict d => of_option (KeyError "message") (dget "message" d) | _ => Err TypeError end)
          (λ msg, rbind (choice_messages l) (λ ms, Ok (msg :: ms)))
      else choice_messages l)
  end.
Definition response_messages_of (response_body : pyval) : res (list pyval) :=
  rbind (py_in "choices" response_body) (λ has,
  if has : bool then
    rbind (match response_body with PDict d => of_option (KeyError "choices") (dget "choices" d) | _ => Err TypeError end)
      (λ choices, rbind (iterate choices) choice_messages)
  else Ok []).

(** What of a request and its response is to be stored, if anything. *)
Definition storable (body chunk : option pyval) : res (option (pyval * list pyval * pyval * pyval)) :=
  rbind (of_option JSONDecodeError body) (λ request_body,
  rbind (get_method "skip_cache" (PBool false) request_body) (λ skip_cache,
  if truthy skip_cache then Ok None else
  rbind (get_method "stream" (PBool false) request_body) (λ stream,
  if truthy stream then Ok None else
  match chunk with
  | None => Ok None
  | Some response_body =>
      rbind (get_method "model" (PStr "") request_body) (λ m,
      rbind (get_method "messages" (PList []) request_body) (λ requests,
      rbind (log_messages requests) (λ _,
      rbind (response_messages_of response_body) (λ responses,
      rbind (get_method "usage" (PDict [("prompt_tokens", PInt 0); ("completion_tokens", PInt 0);
                                        ("total_tokens", PInt 0)]) response_body) (λ u,
      rbind (log_messages (PList responses)) (λ _,
      Ok (Some (requests, responses, m, u))))))))
  end))).

(** [body] and [chunk] are parsed, [None] when they are not JSON; every error is only
    logged. *)
Definition store_in_semantic_cache (o : save_outcome) (enabled : bool) (endpoint method : string)
    (body chunk : option pyval) : M cstate unit := λ s,
  if negb enabled then (s, Ok tt) else
  match s.(cache) with
  | Some c =>
      if bool_decide (endpoint = "/v1/chat/completions") && bool_decide (method = "POST") then
        match storable body chunk with
        | Ok (Some (requests, responses, m, u)) =>
            (mkC (Some (store o requests responses m u c).1) s.(hits) s.(misses), Ok tt)
        | _ => (s, Ok tt)
        end
      else (s, Ok tt)
  | None => (s, Ok tt)
  end.

(* ------------------------------------------------------------------ *)
(** ** Chat completions (main_router.py) *)

(** The cache is asked first, then the request is routed as any other; [parsed] is the
    request's body. *)
Definition route_chat_completion {S : Type} (semantic_cache_available enabled : bool) (parsed : option pyval)
    (route_general_request : M S Response) : M (cstate * S) Response :=
  (if semantic_cache_available then
     cache_response <- on_fst (check_semantic_cache enabled parsed) ;;
     match cache_response with
     | Some response => ret (RJson response)
     | None => on_snd route_general_request
     end
   else on_snd route_general_request).

(* ------------------------------------------------------------------ *)
(** ** The database: one metadata entry per vector *)

Definition aligned (d : FAISSAdapter) : Prop := length d.(index) = length d.(metadata).
(** The entries, in the order they were stored. *)
Definition entries (d : FAISSAdapter) : list (vec * Meta) := zip d.(index) d.(metadata).

Lemma entries_store e requests responses m u d :
  aligned d → entries (db_store e requests responses m u d) = entries d ++ [(e, mkMeta requests responses m u)].
Proof. intros Ha. unfold entries, db_store; simpl. by rewrite zip_with_app by done. Qed.
Lemma aligned_store e requests responses m u d : aligned d → aligned (db_store e requests responses m u d).
Proof. unfold aligned, db_store; simpl. rewrite !length_app. simpl. lia. Qed.
Lemma index_entries d : aligned d → d.(index) = (entries d).*1.
Proof. intros Ha. unfold entries. by rewrite fst_zip by (rewrite Ha; done). Qed.
Lemma elem_entries d i v :
  aligned d → d.(index) !! i = Some v →
  ∃ meta, d.(metadata) !! i = Some meta ∧ (v, meta) ∈ entries d.
Proof.
  intros Ha Hv. destruct (lookup_lt_is_Some_2 d.(metadata) i) as [meta Hm].
  { rewrite <-Ha. by eapply lookup_lt_Some. }
  exists meta. split; [done|]. apply list_elem_of_lookup. exists i. by apply lookup_zip_with_Some; eauto 6.
Qed.

(** An answer of the database is the entry nearest to the embedding, near enough and of the
    wanted model; without an answer, that entry is too far or belongs to another model. *)
Definition nearest_entry (e : vec) (d : FAISSAdapter) (x : vec * Meta) : Prop :=
  x ∈ entries d ∧ ∀ y, y ∈ entries d → (inner y.1 e <= inner x.1 e)%Q.
Lemma db_search_spec e wanted threshold t d :
  aligned d → as_number threshold = Some t →
  (entries d = [] ∧ db_search e wanted threshold d = Ok None) ∨
  ∃ v meta, nearest_entry e d (v, meta) ∧
    db_search e wanted threshold d =
      Ok (if Qle_bool t (inner v e) && py_eq meta.(model) wanted
          then Some (mkMatch meta.(response_messages) (inner v e) meta.(usage)) else None).
Proof.
  intros Ha Ht. unfold db_search. assert (Hn := nearest_spec d.(index) e). destruct (nearest d.(index) e) as [i|].
  - right. destruct Hn as (v & Hv & Hmax). destruct (elem_entries d i v Ha Hv) as (meta & Hm & Hin).
    exists v, meta. split.
    { split; [done|]. intros [w mw] Hw. apply Hmax. rewrite index_entries by done. by apply (list_elem_of_fmap_2 fst) in Hw. }
    rewrite Hv, Ht. cbn [of_option rbind]. by destruct (Qle_bool t (inner v e)); [rewrite Hm|].
  - left. split; [|done]. unfold entries. by rewrite Hn.
Qed.
Lemma nearest_entry_unique_score e d x y :
  nearest_entry e d x → nearest_entry e d y → (inner x.1 e == inner y.1 e)%Q.
Proof. intros [Hx Hx'] [Hy Hy']. apply Qle_antisym; auto. Qed.

(** What the database keeps: aligned entries whose responses can be logged. *)
Definition cache_wf (c : SemanticCache) : Prop :=
  aligned c.(db) ∧ ∀ x, x ∈ entries c.(db) → log_messages (PList x.2.(response_messages)) = Ok tt.

(** A request that reaches the lookup: its messages can be logged and embedded, as [e], and
    its threshold is the number [t]. *)
Record query (c : SemanticCache) (d : dict string pyval) (e : vec) (t : Q) : Prop := {
  q_skip : truthy (dget_or "skip_cache" (PBool false) d) = false;
  q_some : truthy (dget_or "messages" (PList []) d) = true;
  q_log : log_messages (dget_or "messages" (PList []) d) = Ok tt;
  q_embed : get_embedding (dget_or "messages" (PList []) d) = Ok e;
  q_threshold : as_number (threshold_of (dget_or "cache_similarity_threshold" PNone d) c) = Some t
}.

Lemma check_query c d e t h m :
  query c d e t →
  check_semantic_cache true (Some (PDict d)) (mkC (Some c) h m) =
  match db_search e (dget_or "model" (PStr "") d)
          (threshold_of (dget_or "cache_similarity_threshold" PNone d) c) c.(db) with
  | Ok (Some x) => (mkC (Some c) (S h) m,
                    rbind (log_messages (PList x.(m_responses))) (λ _,
                    Ok (Some (cached_response (dget_or "model" (PStr "") d) x))))
  | Ok None => (mkC (Some c) h (S m), Ok None)
  | Err err => (mkC (Some c) h m, Err err)
  end.
Proof.
  intros [Hskip Hsome Hlog He Ht]. unfold check_semantic_cache, bind, lift, gets.
  cbn [negb of_option get_method cache]. rewrite Hskip, Hsome. cbn [negb orb].
  rewrite Hlog. unfold search. rewrite He. cbn [rbind].
  destruct (db_search _ _ _ _) as [[x|]|]; [|done..].
  unfold count_hit, modify. cbn [cache hits misses]. by destruct (log_messages (PList (m_responses x))) as [[]|].
Qed.
(** Nothing is looked up, and nothing counted, when the feature is off, no cache is
    initialized, or the request asks to skip it or has no messages. *)
Lemma check_skips enabled d (s : cstate) :
  enabled = false ∨ s.(cache) = None ∨ truthy (dget_or "skip_cache" (PBool false) d) = true ∨
    truthy (dget_or "messages" (PList []) d) = false →
  check_semantic_cache enabled (Some (PDict d)) s = (s, Ok None).
Proof.
  unfold check_semantic_cache, bind, lift, gets. destruct enabled; [|done]. cbn [negb of_option get_method].
  intros [?|[->|[H|H]]]; [done|done|..]; destruct (cache s); try done; rewrite H; [done|].
  by rewrite orb_true_r.
Qed.

Lemma cached_lookup c d e t h m :
  cache_wf c → query c d e t →
  let wanted := dget_or "model" (PStr "") d in
  let result := check_semantic_cache true (Some (PDict d)) (mkC (Some c) h m) in
  (∃ v meta, nearest_entry e c.(db) (v, meta) ∧ (t <= inner v e)%Q ∧ py_eq meta.(model) wanted = true ∧
     result = (mkC (Some c) (S h) m,
               Ok (Some (cached_response wanted (mkMatch meta.(response_messages) (inner v e) meta.(usage)))))) ∨
  (result = (mkC (Some c) h (S m), Ok None) ∧
   ∀ x, x ∈ entries c.(db) → py_eq x.2.(model) wanted = true →
     (inner x.1 e < t)%Q ∨
     ∃ y, y ∈ entries c.(db) ∧ py_eq y.2.(model) wanted = false ∧ (inner x.1 e <= inner y.1 e)%Q).
Proof.
  intros [Ha Hl] Hq wanted result. unfold result. rewrite (check_query _ _ _ _ _ _ Hq). fold wanted.
  destruct (db_search_spec e wanted _ t c.(db) Ha (q_threshold _ _ _ _ Hq)) as [[He ->]|(v & meta & [Hin Hn] & ->)].
  - right. split; [done|]. rewrite He. intros x Hx. by apply elem_of_nil in Hx.
  - destruct (Qle_bool t (inner v e)) eqn:Hle; [destruct (py_eq meta.(model) wanted) eqn:Hm|]; cbn [andb].
    + left. exists v, meta. rewrite Qle_bool_iff in Hle. cbn [m_responses]. specialize (Hl _ Hin). cbn [snd] in Hl.
      by rewrite Hl.
    + right. split; [done|]. intros x Hx Hxm. right. exists (v, meta). auto.
    + right. split; [done|]. intros x Hx _. left.
      assert (Hlt : (inner v e < t)%Q) by (apply Qltb_lt; unfold Qltb; by rewrite Hle).
      specialize (Hn _ Hx). cbn [fst] in Hn. lra.
Qed.

(* ------------------------------------------------------------------ *)
(** ** Storing *)

Lemma storable_inv body chunk rq rs m u :
  storable body chunk = Ok (Some (rq, rs, m, u)) →
  ∃ d response, body = Some d ∧ chunk = Some response ∧
    get_method "messages" (PList []) d = Ok rq ∧ get_method "model" (PStr "") d = Ok m ∧
    log_messages rq = Ok tt ∧ response_messages_of response = Ok rs ∧ log_messages (PList rs) = Ok tt.
Proof.
  unfold storable. destruct body as [d|]; [|done]. cbn [of_option rbind].
  intros (skip & _ & H)%rbind_Ok. destruct (truthy skip); [done|].
  apply rbind_Ok in H as (stream & _ & H). destruct (truthy stream); [done|]. destruct chunk as [response|]; [|done].
  apply rbind_Ok in H as (m' & Hm & H). apply rbind_Ok in H as (rq' & Hrq & H).
  apply rbind_Ok in H as ([] & Hlog & H). apply rbind_Ok in H as (rs' & Hrs & H).
  apply rbind_Ok in H as (u' & _ & H). apply rbind_Ok in H as ([] & Hlog' & H). injection H as <- <- <- <-.
  exists d, response. auto 10.
Qed.
(** [store] adds one entry, or nothing when the messages cannot be embedded. *)
Lemma store_eq o rq rs m u c :
  store o rq rs m u c =
  match get_embedding rq with
  | Ok e => let d := db_store e rq rs m u c.(db) in (with_db d (save_index o d c.(files)) c, Ok true)
  | Err _ => (c, Ok false)
  end.
Proof. unfold store, try_except, bind, lift. by destruct (get_embedding rq). Qed.
Lemma store_wf o rq rs m u c :
  cache_wf c → log_messages (PList rs) = Ok tt → cache_wf (store o rq rs m u c).1.
Proof.
  intros [Ha Hl] Hrs. rewrite store_eq. destruct (get_embedding rq) as [e|]; [|done].
  split; [by apply aligned_store|]. intros x Hx. change (x ∈ entries (db_store e rq rs m u c.(db))) in Hx.
  rewrite entries_store in Hx by done. revert Hx.
  intros [?| ->%list_elem_of_singleton]%elem_of_app; auto.
Qed.

Definition cstate_wf (s : cstate) : Prop := ∀ c, s.(cache) = Some c → cache_wf c.
Lemma store_in_semantic_cache_wf o enabled endpoint method body chunk :
  preserves cstate_wf (store_in_semantic_cache o enabled endpoint method body chunk).
Proof.
  intros s Hs. unfold store_in_semantic_cache. destruct enabled; [|done]. destruct (cache s) as [c|] eqn:Hc; [|done].
  cbn [negb]. destruct (_ && _); [|done]. destruct (storable body chunk) as [[[[[rq rs] m] u]|]|] eqn:E; [|done..].
  apply storable_inv in E as (d & r & _ & _ & _ & _ & _ & _ & Hrs).
  intros c' [= <-]. apply store_wf; auto.
Qed.
Lemma check_semantic_cache_wf enabled parsed : preserves cstate_wf (check_semantic_cache enabled parsed).
Proof.
  assert (H : ∀ s, (check_semantic_cache enabled parsed s).1.(cache) = s.(cache)).
  { intros s. unfold check_semantic_cache, count_hit, count_miss, bind, lift, gets, modify, ret.
    destruct (negb enabled); [done|]. destruct (of_option _ parsed) as [body|]; [|done].
    destruct (cache s) as [c|] eqn:Hc; [|done]. do 4 (destruct (get_method _ _ body); [|done]).
    destruct (_ || _); [done|]. destruct (log_messages _); [|done].
    destruct (search _ _ _ c) as [[x|]|]; try done. by destruct (log_messages _). }
  intros s Hs c. rewrite H. apply Hs.
Qed.
(** The router never fails because of the cache's bookkeeping. *)
Lemma storing_never_raises o enabled endpoint method body chunk s :
  (store_in_semantic_cache o enabled endpoint method body chunk s).2 = Ok tt.
Proof.
  unfold store_in_semantic_cache. destruct (negb enabled); [done|]. destruct (cache s); [|done].
  destruct (_ && _); [|done]. by destruct (storable body chunk) as [[[[[??]?]?]|]|].
Qed.

Lemma py_eq_str x y : py_eq (PStr x) (PStr y) = bool_decide (x = y).
Proof. done. Qed.

(** A completion that can be stored, and whose messages can be embedded, becomes the last entry. *)
Lemma stored_entry o body chunk rq rs m u c e h ms :
  cache_wf c → storable body chunk = Ok (Some (rq, rs, m, u)) → get_embedding rq = Ok e →
  ∃ c1, (store_in_semantic_cache o true "/v1/chat/completions" "POST" body chunk (mkC (Some c) h ms)).1
          = mkC (Some c1) h ms ∧
    cache_wf c1 ∧ entries c1.(db) = entries c.(db) ++ [(e, mkMeta rq rs m u)] ∧
    c1.(default_similarity_threshold) = c.(default_similarity_threshold).
Proof.
  intros Hwf Hs He. exists (store o rq rs m u c).1.
  unfold store_in_semantic_cache. cbn [negb cache]. rewrite !bool_decide_true by done. cbn [andb]. rewrite Hs.
  split; [done|]. split.
  - apply store_wf; [done|]. by apply storable_inv in Hs as (? & ? & _ & _ & _ & _ & _ & _ & Hrs).
  - rewrite store_eq, He. split; [|done]. apply entries_store, Hwf.
Qed.

(** A stored completion answers the same request when it comes again. *)
Lemma stored_is_found o d chunk rq rs m u c e t h ms :
  cache_wf c → storable (Some (PDict d)) chunk = Ok (Some (rq, rs, PStr m, u)) →
  query c d e t → (t <= inner e e)%Q →
  (∀ x, x ∈ entries c.(db) → x.2.(model) = PStr m) →
  let s := (store_in_semantic_cache o true "/v1/chat/completions" "POST" (Some (PDict d)) chunk (mkC (Some c) h ms)).1 in
  ∃ c1 v meta, s.(cache) = Some c1 ∧ entries c1.(db) = entries c.(db) ++ [(e, mkMeta rq rs (PStr m) u)] ∧
    nearest_entry e c1.(db) (v, meta) ∧
    check_semantic_cache true (Some (PDict d)) s =
      (mkC s.(cache) (S h) ms,
       Ok (Some (cached_response (PStr m) (mkMatch meta.(response_messages) (inner v e) meta.(usage))))).
Proof.
  intros Hwf Hs Hq Ht Hall. destruct (storable_inv _ _ _ _ _ _ Hs) as (d' & r & [= <-] & _ & [= <-] & [= Hm] & _).
  destruct (stored_entry o _ _ _ _ _ _ c e h ms Hwf Hs (q_embed _ _ _ _ Hq)) as (c1 & -> & Hwf1 & Hent & Hthr).
  assert (Hq1 : query c1 d e t).
  { destruct Hq. split; [done..|]. unfold threshold_of. by rewrite Hthr. }
  set (new := (e, _)) in Hent |- *. assert (Hnew : new ∈ entries c1.(db)) by (rewrite Hent; apply elem_of_app; right; by left).
  assert (Hmodel : ∀ x, x ∈ entries c1.(db) → py_eq x.2.(model) (PStr m) = true).
  { intros x Hx. rewrite Hent in Hx. apply elem_of_app in Hx as [Hx|Hx].
    - rewrite (Hall _ Hx), py_eq_str. by apply bool_decide_eq_true_2.
    - apply list_elem_of_singleton in Hx as ->. cbn. by apply bool_decide_eq_true_2. }
  assert (Hc := cached_lookup c1 d e t h ms Hwf1 Hq1). cbn zeta in Hc. rewrite Hm in Hc.
  cbn [cache]. exists c1. destruct Hc as [(v & meta & Hn & _ & _ & ->)|[_ Hmiss]]; [by exists v, meta|].
  exfalso. destruct (Hmiss _ Hnew (Hmodel _ Hnew)) as [H|(y & Hy & Hf & _)].
  - cbn in H. lra.
  - by rewrite (Hmodel _ Hy) in Hf.
Qed.

(* ------------------------------------------------------------------ *)
(** ** The two-phase operations do what the direct ones do *)

Lemma two_phase_search request_id messages wanted threshold c :
  c.(pending_searches) !! request_id = None →
  (_ <- initiate_search request_id messages wanted threshold ;; complete_search request_id) c =
  (c, search messages wanted threshold c).
Proof.
  intros Hid. unfold initiate_search, complete_search, search, bind, gets, lift, modify, ret.
  destruct (get_embedding messages) as [e|]; [|done]. cbn [rbind with_searches pending_searches].
  rewrite lookup_insert_eq. f_equal. cbn. rewrite delete_insert_id by done. by destruct c.
Qed.
Lemma two_phase_store o request_id rq rs m u c e :
  c.(pending_stores) !! request_id = None → get_embedding rq = Ok e →
  (_ <- initiate_store request_id rq m ;; complete_store o request_id rs u) c = store o rq rs m u c.
Proof.
  intros Hid He. rewrite store_eq, He. unfold initiate_store, complete_store, bind, gets, lift, modify, ret. rewrite He.
  cbn [with_stores pending_stores]. rewrite lookup_insert_eq. cbn. unfold add_entry, modify, with_db, with_stores.
  cbn. rewrite delete_insert_id by done. by destruct c.
Qed.
(** A half that never began answers nothing, and a pending id is used up. *)
Lemma unknown_search_id request_id c :
  c.(pending_searches) !! request_id = None → (complete_search request_id c).2 = Ok None.
Proof. intros H. unfold complete_search, bind, gets, modify, ret. by rewrite H. Qed.
Lemma completed_search_is_forgotten request_id c :
  (complete_search request_id c).1.(pending_searches) !! request_id = None.
Proof.
  unfold complete_search, bind, gets, modify, lift, ret. destruct (pending_searches c !! request_id);
    cbn; by rewrite lookup_delete_eq.
Qed.

(* ------------------------------------------------------------------ *)
(** ** Restarts: what a save that got that far leaves to the next start *)

Lemma restart_outcomes o o1 o2 d f l ms :
  f = mkFiles (Some (Some l)) (Some (Some ms)) →
  (faiss_init o1 o2 (save_index o d f)).1 =
  match o with
  | SavedBoth => d
  | IndexUnwritten => mkDB l ms
  | IndexTorn | MetadataTorn => empty_db
  | MetadataUnwritten => mkDB d.(index) ms
  end.
Proof. intros ->. by destruct o, d. Qed.
(** When only the metadata could not be written, the next start has a vector without
    metadata, and looking it up raises. *)
Lemma torn_save_raises e rq rs m u o1 o2 v wanted threshold t d :
  aligned d → as_number threshold = Some t →
  nearest (d.(index) ++ [e]) v = Some (length d.(index)) → (t <= inner e v)%Q →
  db_search v wanted threshold (faiss_init o1 o2
    (save_index MetadataUnwritten (db_store e rq rs m u d) (mkFiles (Some (Some d.(index))) (Some (Some d.(metadata)))))).1
  = Err IndexError.
Proof.
  intros Ha Ht Hn Hle. rewrite (restart_outcomes _ _ _ _ _ _ _ eq_refl). unfold db_search, db_store; cbn [index metadata].
  rewrite Hn. rewrite lookup_app_r, Nat.sub_diag by done. rewrite Ht. cbn [list_lookup rbind of_option lookup].
  apply Qle_bool_iff in Hle. rewrite Hle. rewrite lookup_ge_None_2; [done|]. by rewrite Ha.
Qed.

(* ------------------------------------------------------------------ *)
(** ** In front of the engines *)

(** A hit reaches no engine, and a miss is answered as the request alone would be; what
    the cache raises fails the request. *)
Lemma chat_completion_spec {S : Type} available enabled parsed (route : M S Response) s :
  route_chat_completion available enabled parsed route s =
  if available then
    let '(c, r) := check_semantic_cache enabled parsed s.1 in
    match r with
    | Ok (Some response) => ((c, s.2), Ok (RJson response))
    | Ok None => ((c, (route s.2).1), (route s.2).2)
    | Err e => ((c, s.2), Err e)
    end
  else ((s.1, (route s.2).1), (route s.2).2).
Proof.
  unfold route_chat_completion, on_fst, on_snd, bind, ret. destruct available; [|by destruct (route s.2)].
  destruct (check_semantic_cache enabled parsed s.1) as [c [[r|]|]]; [done| |done]. cbn. by destruct (route s.2).
Qed.

(** What requests lead a fresh cache to. *)
Inductive reachable (threshold : Q) : cstate → Prop :=
| reach_init o1 o2 : reachable threshold (mkC (Some (cache_init o1 o2 threshold (mkFiles None None))) 0 0)
| reach_check enabled parsed s :
    reachable threshold s → reachable threshold (check_semantic_cache enabled parsed s).1
| reach_store o enabled endpoint method body chunk s :
    reachable threshold s → reachable threshold (store_in_semantic_cache o enabled endpoint method body chunk s).1.
Lemma reachable_wf threshold s : reachable threshold s → cstate_wf s.
Proof.
  induction 1 as [o1 o2|enabled parsed s _ IH|o enabled ep me bo ch s _ IH].
  - intros c [= <-]. split; [done|]. intros x Hx. by apply elem_of_nil in Hx.
  - by apply check_semantic_cache_wf.
  - by apply store_in_semantic_cache_wf.
Qed.


(** C22. A completion of a model that is the only one cached, once stored, answers the same
    request when it comes again, without reaching an engine, if the request's embedding is
    similar enough to itself: the answer holds the responses, the score and the usage of an
    entry whose embedding is nearest to the request's among those stored before and the new
    one; when every earlier entry is less near than the request itself, that is the stored
    completion. *)
Theorem stored_completions_are_answered {S : Type} (threshold : Q) (o : save_outcome) (d : dict string pyval)
    (chunk : option pyval) (rq : pyval) (rs : list pyval) (m : string) (u : pyval) (c : SemanticCache) (e : vec) (t : Q)
    (h ms : nat) (route : M S Response) (s : S) :
  reachable threshold (mkC (Some c) h ms) →
  storable (Some (PDict d)) chunk = Ok (Some (rq, rs, PStr m, u)) →
  query c d e t → (t <= inner e e)%Q → (∀ x, x ∈ entries c.(db) → x.2.(model) = PStr m) →
  let c1 := (store_in_semantic_cache o true "/v1/chat/completions" "POST" (Some (PDict d)) chunk (mkC (Some c) h ms)).1 in
  let new := (e, mkMeta rq rs (PStr m) u) in
  ∃ v meta, (v, meta) ∈ entries c.(db) ++ [new] ∧
    (∀ y, y ∈ entries c.(db) ++ [new] → (inner y.1 e <= inner v e)%Q) ∧
    ((∀ y, y ∈ entries c.(db) → (inner y.1 e < inner e e)%Q) → (v, meta) = new) ∧
    route_chat_completion true true (Some (PDict d)) route (c1, s) =
      ((mkC c1.(cache) (1 + h) ms, s),
       Ok (RJson (cached_response (PStr m) (mkMatch meta.(response_messages) (inner v e) meta.(usage))))).
Proof.
  intros Hr Hs Hq Ht Hall c1 new.
  destruct (stored_is_found o d chunk rq rs m u c e t h ms (reachable_wf _ _ Hr _ eq_refl) Hs Hq Ht Hall)
    as (c2 & v & meta & _ & Hent & [Hin Hmax] & Hc). exists v, meta. rewrite Hent in Hin, Hmax. fold new in Hin, Hmax.
  split; [done|]. split; [done|]. split.
  - intros Hless. apply elem_of_app in Hin as [Hin|Hin]; [exfalso|by apply list_elem_of_singleton in Hin].
    assert (Hnew : (inner e e <= inner v e)%Q) by (apply (Hmax new), elem_of_app; right; by left).
    specialize (Hless _ Hin). cbn in Hless. lra.
  - rewrite chat_completion_spec. cbn [fst snd]. fold c1 in Hc. by rewrite Hc.
Qed.
End cache.

(* ------------------------------------------------------------------ *)
(** ** Concrete runs: texts as their own embeddings *)

Definition same (a b : string) : Q := if decide (a = b) then 1%Q else 0%Q.
Fixpoint position (l : list string) (e : string) : option nat :=
  match l with [] => None | x :: l => if decide (x = e) then Some 0 else S <$> position l e end.
Lemma position_Some l e i : position l e = Some i → l !! i = Some e.
Proof.
  revert i. induction l as [|x l IH]; intros i; [done|]. simpl. case_decide as Hx; [by intros [= <-]; subst|].
  intros (j & Hj & ->)%fmap_Some. simpl. auto.
Qed.
Lemma position_None l e : position l e = None → e ∉ l.
Proof.
  induction l as [|x l IH]; simpl; [set_solver|]. case_decide; [done|]. intros Hn%fmap_None. set_solver.
Qed.
Definition nearest_text (l : list string) (e : string) : option nat :=
  match l with [] => None | _ => Some (default 0 (position l e)) end.
Lemma same_refl e : same e e = 1%Q.
Proof. unfold same. by rewrite decide_True. Qed.
Lemma same_le a b e : (b = e ∨ a ≠ e) → (same a e <= same b e)%Q.
Proof. unfold same. intros H. repeat case_decide; try lra; naive_solver. Qed.
Lemma nearest_text_spec l e :
  match nearest_text l e with
  | None => l = []
  | Some i => ∃ v, l !! i = Some v ∧ ∀ w, w ∈ l → (same w e <= same v e)%Q
  end.
Proof.
  destruct l as [|x l]; [done|]. unfold nearest_text. destruct (position (x :: l) e) as [i|] eqn:E; cbn [default].
  - apply position_Some in E. exists e. split; [done|]. intros w _. apply same_le. auto.
  - apply position_None in E. exists x. split; [done|]. intros w Hw. apply same_le. right. by intros ->.
Qed.
#[export] Instance text_index : VectorIndex string := {
  inner := same;
  nearest := nearest_text;
  nearest_spec := nearest_text_spec
}.

Section example.
Let encode (s : string) : string := s.
Let py_str (v : pyval) : string := "".
Definition message (text : string) : pyval := PDict [("role", PStr "user"); ("content", PStr text)].
Definition request_example (text : string) : dict string pyval :=
  [("model", PStr "m"); ("messages", PList [message text])].
Definition reply_example : pyval := PDict
  [("choices", PList [PDict [("message", PDict [("role", PStr "assistant"); ("content", PStr "4")])]])].
Definition error_example : pyval := PDict [("error", PDict [("message", PStr "overloaded"); ("code", PInt 503)])].
Definition fresh_cache : cstate (vec := string) := mkC (Some (cache_init SavedBoth SavedBoth (9 # 10) (mkFiles None None))) 0 0.
Definition stored (reply : pyval) : cstate := (store_in_semantic_cache encode py_str SavedBoth true
  "/v1/chat/completions" "POST" (Some (PDict (request_example "2+2?"))) (Some reply) fresh_cache).1.

(** The response of an engine that failed is stored like any other, and answers the next
    request with status 200 and no choice. *)
Example error_responses_are_cached :
  (check_semantic_cache encode py_str "id" 7 true (Some (PDict (request_example "2+2?"))) (stored error_example)).2
  = Ok (Some (mkJSON 200 (PDict
      [("id", PStr "chatcmpl-id"); ("object", PStr "chat.completion"); ("created", PInt 7); ("model", PStr "m");
       ("choices", PList []); ("usage", PDict [("prompt_tokens", PInt 0); ("completion_tokens", PInt 0); ("total_tokens", PInt 0)]);
       ("cached", PBool true); ("similarity_score", PFloat 1)]) [])).
Proof. reflexivity. Qed.
(** A first message without content (a tool call) raises instead of being forwarded. *)
Example null_content_raises (route : M unit Response) :
  (route_chat_completion encode py_str "id" 7 true true
     (Some (PDict [("model", PStr "m"); ("messages", PList [PDict [("role", PStr "user"); ("content", PNone)]])]))
     route (fresh_cache, tt)).2 = Err TypeError.
Proof. reflexivity. Qed.
(** A request that asks for a stream is answered with a JSON document on a hit. *)
Example streams_get_documents :
  is_ok (check_semantic_cache encode py_str "id" 7 true
     (Some (PDict (("stream", PBool true) :: request_example "2+2?"))) (stored reply_example)).2 = true ∧
  (check_semantic_cache encode py_str "id" 7 true
     (Some (PDict (("stream", PBool true) :: request_example "2+2?"))) (stored reply_example)).1.(hits) = 1.
Proof. split; reflexivity. Qed.

Definition cache_example (reply : pyval) : SemanticCache (vec := string) :=
  match (stored reply).(cache) with Some c => c | None => cache_init SavedBoth SavedBoth 0 (mkFiles None None) end.
Lemma query_example c : c.(default_similarity_threshold) = (9 # 10)%Q →
  query encode py_str c (request_example "2+2?") "user: 2+2?" (9 # 10)%Q.
Proof. intros H. split; [reflexivity..|]. unfold threshold_of. cbn. by rewrite H. Qed.


Lemma stored_completions_are_answered_witness :
  reachable encode py_str "id" 7 (9 # 10)%Q fresh_cache ∧
  ∃ s, (route_chat_completion encode py_str "id" 7 true true (Some (PDict (request_example "2+2?")))
          (ret (RJson (mkJSON 200 PNone []))) (stored reply_example, tt)) =
    (s, Ok (RJson (cached_response "id" 7 (PStr "m")
       (mkMatch [PDict [("role", PStr "assistant"); ("content", PStr "4")]] 1
          (PDict [("prompt_tokens", PInt 0); ("completion_tokens", PInt 0); ("total_tokens", PInt 0)]))))).
Proof.
  split; [apply reach_init|].
  destruct (stored_completions_are_answered encode py_str "id" 7 (9 # 10)%Q SavedBoth (request_example "2+2?")
    (Some reply_example) (PList [message "2+2?"]) [PDict [("role", PStr "assistant"); ("content", PStr "4")]] "m"
    (PDict [("prompt_tokens", PInt 0); ("completion_tokens", PInt 0); ("total_tokens", PInt 0)])
    (cache_init SavedBoth SavedBoth (9 # 10)%Q (mkFiles None None)) "user: 2+2?" (9 # 10)%Q 0 0
    (ret (RJson (mkJSON 200 PNone []))) tt) as (v & meta & _ & _ & Hnew & H).
  - apply reach_init.
  - reflexivity.
  - by apply query_example.
  - apply Qle_bool_iff. reflexivity.
  - intros x Hx. by apply elem_of_nil in Hx.
  - injection (Hnew ltac:(intros y Hy; by apply elem_of_nil in Hy)) as -> ->. eexists. exact H.
Defined.
End example.
