(* ===== verification/Pii.v ===== *)
(** * PII detection (src/src/vllm_router/experimental/pii/)

    A middleware function that refuses requests whose body, printed as JSON, holds
    personal information.  Analyzers implement one interface ([PIIAnalyzer]): the regular
    expressions of the repository, and Presidio, whose engine is a parameter.  No route
    installs the middleware.  Where a match is and how it scores only reach logs and
    histograms, and are left out.  The analyzed texts are ASCII ([dumps_printable]), so the
    character classes are those of ASCII. *)

From S2P Require Import Prelude PyDict PyStr PyVal Regex Json HttpBackend.
From Stdlib Require Import Ascii.

Local Open Scope py_scope.
Set Default Proof Using "Type".

(* ------------------------------------------------------------------ *)
(** ** Types and configuration (types.py, config.py) *)

Inductive PIIType : Type :=
| EMAIL | PHONE | SSN | CREDIT_CARD | IP_ADDRESS | API_KEY | BANK_ACCOUNT | PASSPORT | DRIVERS_LICENSE | TAX_ID
| MEDICAL_RECORD | HEALTH_INFO | MAC_ADDRESS | NAME | DOB | PASSWORD | USERNAME | ADDRESS.
#[global] Instance PIIType_eq_dec : EqDecision PIIType.
Proof. solve_decision. Defined.
Definition value (t : PIIType) : string :=
  match t with
  | EMAIL => "email" | PHONE => "phone" | SSN => "ssn" | CREDIT_CARD => "credit_card" | IP_ADDRESS => "ip_address"
  | API_KEY => "api_key" | BANK_ACCOUNT => "bank_account" | PASSPORT => "passport"
  | DRIVERS_LICENSE => "drivers_license" | TAX_ID => "tax_id" | MEDICAL_RECORD => "medical_record"
  | HEALTH_INFO => "health_info" | MAC_ADDRESS => "mac_address" | NAME => "name" | DOB => "date_of_birth"
  | PASSWORD => "password" | USERNAME => "username" | ADDRESS => "address"
  end.
Definition all_types : list PIIType :=
  [EMAIL; PHONE; SSN; CREDIT_CARD; IP_ADDRESS; API_KEY; BANK_ACCOUNT; PASSPORT; DRIVERS_LICENSE; TAX_ID;
   MEDICAL_RECORD; HEALTH_INFO; MAC_ADDRESS; NAME; DOB; PASSWORD; USERNAME; ADDRESS].
(** [PIIType(v)]. *)
Definition PIIType_of (v : pyval) : res PIIType :=
  of_option (ValueError "not a valid PIIType") (find (λ t, eq_str v (value t)) all_types).
#[global] Instance PIIType_countable : Countable PIIType.
Proof.
  refine (inj_countable value (λ s, find (λ t, bool_decide (value t = s)) all_types) _). by intros [].
Defined.

Record PIIConfig : Type := mkConfig {
  enabled : pyval;
  pii_types : option (gset PIIType);
  score_threshold : pyval
}.
Definition config_from_dict (d : dict string pyval) : res PIIConfig :=
  let enabled := dget_or "enabled" (PBool true) d in
  rbind (match dget "pii_types" d with
         | Some v => rbind (iterate v) (λ l, rbind (mapM_res PIIType_of l) (λ ts, Ok (Some (list_to_set ts))))
         | None => Ok None
         end) (λ pii_types,
  Ok (mkConfig enabled pii_types (dget_or "score_threshold" (PFloat (1 # 2)) d))).
(** The types of a set come in an unspecified order. *)
Definition to_dict (c : PIIConfig) : dict string pyval :=
  [("enabled", c.(enabled));
   ("pii_types", match c.(pii_types) with
                 | Some ts => if decide (ts = ∅) then PNone else PList ((λ t, PStr (value t)) <$> elements ts)
                 | None => PNone
                 end);
   ("score_threshold", c.(score_threshold))].

(* ------------------------------------------------------------------ *)
(** ** Analyzers (analyzers/base.py) *)

(** [PIIAnalysisResult], without the locations: [has_pii] and the types detected. *)
Record PIIAnalysisResult : Type := mkResult {
  has_pii : bool;
  detected_types : gset PIIType
}.
Definition result_of (ts : gset PIIType) : PIIAnalysisResult := mkResult (bool_decide (ts ≠ ∅)) ts.

(** What the middleware needs of an analyzer. *)
Class PIIAnalyzer (A : Type) : Type := {
  analyze : string → option (gset PIIType) → pyval → A → res PIIAnalysisResult;
  initialize : A → res A;
  shutdown : A → A
}.
(** An analyzer keeps its contract: a result says it found something exactly when it names
    a type. *)
Definition honest {A} `{PIIAnalyzer A} (a : A) : Prop :=
  ∀ text types threshold r, analyze text types threshold a = Ok r → (has_pii r = true ↔ detected_types r ≠ ∅).

Definition runtime_error : exn := OtherException "RuntimeError".
Definition as_runtime_error {A} (r : res A) : res A :=
  match r with Err e => if is_Exception e then Err runtime_error else Err e | Ok a => Ok a end.

(* ------------------------------------------------------------------ *)
(** ** Regular expressions (analyzers/regex.py) *)

Definition among (cs : list ascii) : re := RChar (λ c, bool_decide (c ∈ cs)).
Definition digit : re := RChar is_digit.
Definition mail_char (more : list ascii) (c : ascii) : bool := is_alpha c || is_digit c || bool_decide (c ∈ more).
Definition PII_PATTERNS : dict PIIType pattern :=
  [(EMAIL, mkPattern false
      (RSeq (RPlus (RChar (mail_char ["."; "_"; "%"; "+"; "-"]%char))) (RSeq (RLit "@")
      (RSeq (RPlus (RChar (mail_char ["."; "-"]%char))) (RSeq (RLit ".")
      (RSeq (RTimes 2 (RChar is_alpha)) (RStar (RChar is_alpha))))))));
   (PHONE, mkPattern true
      (RSeq (ROpt (RSeq (ROpt (RLit "+")) (RSeq (RLit "1") (ROpt (among ["-"; "."]%char)))))
      (RSeq (RStar (RChar is_blank))
      (RSeq (RAlt (RSeq (RLit "(") (RSeq (RTimes 3 digit) (RLit ")"))) (RTimes 3 digit))
      (RSeq (ROpt (among ["-"; "."]%char)) (RSeq (RTimes 3 digit)
      (RSeq (ROpt (among ["-"; "."]%char)) (RTimes 4 digit))))))));
   (SSN, mkPattern true
      (RSeq (RTimes 3 digit) (RSeq (ROpt (among ["-"; "."]%char)) (RSeq (RTimes 2 digit)
      (RSeq (ROpt (among ["-"; "."]%char)) (RTimes 4 digit))))));
   (CREDIT_CARD, mkPattern true (RRange 13 16 (RSeq digit (RStar (among [" "; "-"]%char)))));
   (IP_ADDRESS, mkPattern true
      (RSeq (RTimes 3 (RSeq (RRange 1 3 digit) (RLit "."))) (RRange 1 3 digit)))].

(** The analyzer: its compiled patterns, none before it is initialized. *)
Record RegexAnalyzer : Type := mkRegex { patterns : dict PIIType pattern }.
(** The patterns of the types asked for; a set's order is unspecified and not observed. *)
Definition patterns_to_check (types : option (gset PIIType)) (a : RegexAnalyzer) : dict PIIType pattern :=
  match types with
  | Some ts => if decide (ts = ∅) then a.(patterns)
               else omap (λ t, (λ p, (t, p)) <$> dget t a.(patterns)) (elements ts)
  | None => a.(patterns)
  end.
Definition regex_analyze (text : string) (types : option (gset PIIType)) (threshold : pyval) (a : RegexAnalyzer) :
  res PIIAnalysisResult :=
  match a.(patterns) with
  | [] => Err runtime_error
  | _ => Ok (result_of (list_to_set (fst <$> filter (λ tp, occurs tp.2 text = true) (patterns_to_check types a))))
  end.
Definition regex_initialize (a : RegexAnalyzer) : res RegexAnalyzer := Ok (mkRegex PII_PATTERNS).
Definition regex_shutdown (a : RegexAnalyzer) : RegexAnalyzer := mkRegex [].
#[export] Instance regex_analyzer : PIIAnalyzer RegexAnalyzer := {
  analyze := regex_analyze;
  initialize := regex_initialize;
  shutdown := regex_shutdown
}.

(* ------------------------------------------------------------------ *)
(** ** Presidio (analyzers/presidio.py) *)

Section presidio.
(** Presidio's engine: the entity types it finds in a text, among those asked for. *)
Context {engine : Type} (run : engine → string → option (list string) → pyval → res (list string)).
(** The dependencies that are missing, and building the engine. *)
Context (MISSING_DEPS : list string) (create_engine : res engine).

Definition PII_TO_PRESIDIO : dict PIIType string :=
  [(EMAIL, "EMAIL_ADDRESS"); (PHONE, "PHONE_NUMBER"); (SSN, "US_SSN"); (CREDIT_CARD, "CREDIT_CARD");
   (IP_ADDRESS, "IP_ADDRESS"); (API_KEY, "API_KEY")].
Definition PRESIDIO_TO_PII : dict string PIIType := (λ kv, (kv.2, kv.1)) <$> PII_TO_PRESIDIO.

Record PresidioAnalyzer : Type := mkPresidio { analyzer : option engine }.
Definition entities_of (types : option (gset PIIType)) : option (list string) :=
  match types with
  | Some ts => if decide (ts = ∅) then None else Some (omap (λ t, dget t PII_TO_PRESIDIO) (elements ts))
  | None => None
  end.
Definition presidio_analyze (text : string) (types : option (gset PIIType)) (threshold : pyval) (a : PresidioAnalyzer) :
  res PIIAnalysisResult :=
  match a.(analyzer) with
  | None => Err runtime_error
  | Some e => as_runtime_error (rbind (run e text (entities_of types) threshold) (λ found,
      Ok (result_of (list_to_set (omap (λ entity, dget entity PRESIDIO_TO_PII) found)))))
  end.
Definition presidio_initialize (a : PresidioAnalyzer) : res PresidioAnalyzer :=
  match MISSING_DEPS with
  | _ :: _ => Err runtime_error
  | [] => as_runtime_error (rbind create_engine (λ e, Ok (mkPresidio (Some e))))
  end.
Definition presidio_shutdown (a : PresidioAnalyzer) : PresidioAnalyzer := mkPresidio None.
#[export] Instance presidio_analyzer : PIIAnalyzer PresidioAnalyzer := {
  analyze := presidio_analyze;
  initialize := presidio_initialize;
  shutdown := presidio_shutdown
}.
(* ------------------------------------------------------------------ *)
(** ** Creating and holding the analyzer (analyzers/factory.py, __init__.py) *)

(** An analyzer the factory can make. *)
Inductive Analyzer : Type :=
| APresidio (a : PresidioAnalyzer)
| ARegex (a : RegexAnalyzer).
#[export] Instance any_analyzer : PIIAnalyzer Analyzer := {
  analyze text types threshold a :=
    match a with
    | APresidio a => analyze text types threshold a
    | ARegex a => analyze text types threshold a
    end;
  initialize a :=
    match a with
    | APresidio a => rbind (initialize a) (λ a, Ok (APresidio a))
    | ARegex a => rbind (initialize a) (λ a, Ok (ARegex a))
    end;
  shutdown a :=
    match a with APresidio a => APresidio (shutdown a) | ARegex a => ARegex (shutdown a) end
}.
Definition ANALYZERS : dict string Analyzer :=
  [("presidio", APresidio (mkPresidio None)); ("regex", ARegex (mkRegex []))].
Definition create_analyzer (analyzer_type : string) : res Analyzer :=
  match dget analyzer_type ANALYZERS with
  | None => Err (ValueError "Unsupported analyzer type")
  | Some a => as_runtime_error (initialize a)
  end.

(** The module's [_analyzer]. *)
Definition initialize_pii_detection (analyzer_type : string) : M (option Analyzer) unit :=
  a <- lift (create_analyzer analyzer_type) ;; modify (λ _, Some a).
(** The result is the analyzer that was shut down, as whoever still holds it sees it. *)
Definition shutdown_pii_detection : M (option Analyzer) (option Analyzer) :=
  a <- gets id ;; modify (λ _, None) ;;; ret (shutdown <$> a).
Definition is_pii_detection_enabled : M (option Analyzer) bool := gets (λ a, bool_decide (is_Some a)).
End presidio.

(* ------------------------------------------------------------------ *)
(** ** The middleware (middleware.py) *)

(** The counters, as the labels they were incremented with. *)
Record counters : Type := mkCounters {
  pii_detected_total : list (string * PIIType);
  pii_analyzer_errors : list exn
}.
Definition count_detected (path : string) (ts : gset PIIType) : M counters unit := modify (λ s,
  mkCounters (s.(pii_detected_total) ++ ((λ t, (path, t)) <$> elements ts)) s.(pii_analyzer_errors)).
Definition count_error (e : exn) : M counters unit := modify (λ s,
  mkCounters s.(pii_detected_total) (s.(pii_analyzer_errors) ++ [e])).

Section middleware.
Context {A : Type} {HA : PIIAnalyzer A}.
Context (float_repr : Q → string).

Definition check_pii_content (text : string) (a : A) (c : PIIConfig) : M counters (option (bool * gset PIIType)) :=
  if decide (text = "") then ret None else
  try_except
    (result <- lift (analyze text c.(pii_types) c.(score_threshold) a) ;;
     ret (if has_pii result then Some (true, detected_types result) else None))
    (λ e, if is_Exception e then count_error e ;;; ret (Some (true, ∅)) else raise e).

Definition blocked (ts : gset PIIType) : JSONResponse := mkJSON 400 (PDict
  [("error", PDict [("message", PStr "PII detected in request"); ("types", PList ((λ t, PStr (value t)) <$> elements ts))])]) [].

(** [body] is what reading the request's JSON gives. *)
Definition check_pii (path : string) (body : res pyval) (a : A) (config : option PIIConfig) :
  M counters (option JSONResponse) :=
  match config with
  | None => ret None
  | Some c =>
      if negb (truthy c.(enabled)) then ret None else
      try_except
        (body <- lift body ;;
         result <- check_pii_content (dumps float_repr body) a c ;;
         match result with
         | None => ret None
         | Some (should_block, types) =>
             if should_block : bool then count_detected path types ;;; ret (Some (blocked types)) else ret None
         end)
        (λ e, if is_Exception e then count_error e ;;; ret None else raise e)
  end.
End middleware.

(* ------------------------------------------------------------------ *)
(** ** Analyzers keep their contract *)

Lemma result_of_honest ts : has_pii (result_of ts) = true ↔ detected_types (result_of ts) ≠ ∅.
Proof. apply bool_decide_eq_true. Qed.

(** The types a pattern of the repository exists for. *)
Lemma pattern_lookup t p : (t, p) ∈ PII_PATTERNS ↔ dget t PII_PATTERNS = Some p.
Proof. split; [apply elem_dget; apply (bool_decide_unpack _); vm_compute; exact I|apply dget_elem]. Qed.

(** The types a configuration asks for: all of them when it names none. *)
Definition requested (types : option (gset PIIType)) (t : PIIType) : Prop :=
  match types with Some ts => ts = ∅ ∨ t ∈ ts | None => True end.
(** The text holds a match of a type's pattern. *)
Definition holds (text : string) (t : PIIType) : Prop :=
  ∃ p pre m post, (t, p) ∈ PII_PATTERNS ∧ text = pre +:+ m +:+ post ∧ matches_at p None pre m post.

Lemma patterns_to_check_spec types t p :
  (t, p) ∈ patterns_to_check types (mkRegex PII_PATTERNS) ↔ requested types t ∧ (t, p) ∈ PII_PATTERNS.
Proof.
  unfold patterns_to_check, requested. destruct types as [ts|]; [|naive_solver].
  case_decide as Hts; [naive_solver|]. rewrite list_elem_of_omap, pattern_lookup. setoid_rewrite elem_of_elements.
  split.
  - intros (t' & Ht & E). apply fmap_Some in E as (p' & E & [= -> ->]). naive_solver.
  - intros [[?|Ht] E]; [done|]. exists t. cbn [patterns]. by rewrite E.
Qed.

(** Once initialized, the expressions find a requested type exactly when the text holds
    one. *)
Lemma regex_analyze_spec text types threshold :
  ∃ ts, regex_analyze text types threshold (mkRegex PII_PATTERNS) = Ok (result_of ts) ∧
    ∀ t, t ∈ ts ↔ requested types t ∧ holds text t.
Proof.
  eexists. split; [reflexivity|]. intros t. rewrite elem_of_list_to_set, list_elem_of_fmap.
  setoid_rewrite list_elem_of_filter. unfold holds. split.
  - intros ([t' p] & -> & Ho & Hp). apply patterns_to_check_spec in Hp as [Hr Hp]. split; [done|].
    apply occurs_spec in Ho as (pre & m & post & E & Hm). by exists p, pre, m, post.
  - intros [Hr (p & pre & m & post & Hp & E & Hm)]. exists (t, p). split; [done|].
    rewrite patterns_to_check_spec. split; [|done]. apply occurs_spec. by exists pre, m, post.
Qed.

(* ------------------------------------------------------------------ *)
(** ** The middleware, against any analyzer *)

Section contract.
Context {A : Type} {HA : PIIAnalyzer A} (float_repr : Q → string).

(** What the middleware does with a request it can read: it passes the request exactly
    when the analyzer answers that it found nothing, blocks it with the detected types
    when it found some, and blocks it with none when the analyzer fails. *)
Theorem check_pii_spec path body (a : A) c s :
  truthy c.(enabled) = true → (∀ q, float_repr q ≠ "") →
  check_pii float_repr path (Ok body) a (Some c) s =
  match analyze (dumps float_repr body) c.(pii_types) c.(score_threshold) a with
  | Ok r => if has_pii r
            then (mkCounters (s.(pii_detected_total) ++ ((λ t, (path, t)) <$> elements (detected_types r)))
                    s.(pii_analyzer_errors), Ok (Some (blocked (detected_types r))))
            else (s, Ok None)
  | Err e => if is_Exception e
             then (mkCounters s.(pii_detected_total) (s.(pii_analyzer_errors) ++ [e]), Ok (Some (blocked ∅)))
             else (s, Err e)
  end.
Proof.
  intros He Hq. unfold check_pii. rewrite He. cbn [negb].
  unfold try_except at 1, bind at 1, lift at 1, check_pii_content.
  rewrite decide_False by by apply dumps_nonempty.
  unfold bind, try_except, lift, ret, bind, raise, count_error, count_detected, modify.
  destruct (analyze _ _ _ _) as [r|e]; [by destruct (has_pii r)|].
  destruct (is_Exception e) eqn:Ee; [|by rewrite Ee].
  rewrite elements_empty. cbn. by rewrite app_nil_r.
Qed.

(** A body that is not JSON, or that cannot be read, is passed on unchecked. *)
Theorem check_pii_fails_open path e (a : A) c s :
  truthy c.(enabled) = true → is_Exception e = true →
  check_pii float_repr path (Err e) a (Some c) s =
  (mkCounters s.(pii_detected_total) (s.(pii_analyzer_errors) ++ [e]), Ok None).
Proof. intros He Hx. unfold check_pii. rewrite He. cbn. by rewrite Hx. Qed.
End contract.

(** With the repository's expressions: a request is blocked exactly when its printed body
    holds a match of a requested type, the answer and the counters name exactly those
    types, and other requests pass without a trace. *)
Theorem regex_middleware_blocks_matches float_repr path body c s :
  truthy c.(enabled) = true → (∀ q, float_repr q ≠ "") →
  let text := dumps float_repr body in
  ∃ ts, (∀ t, t ∈ ts ↔ requested c.(pii_types) t ∧ holds text t) ∧
    check_pii float_repr path (Ok body) (mkRegex PII_PATTERNS) (Some c) s =
    if decide (ts = ∅) then (s, Ok None)
    else (mkCounters (s.(pii_detected_total) ++ ((λ t, (path, t)) <$> elements ts)) s.(pii_analyzer_errors),
          Ok (Some (blocked ts))).
Proof.
  intros He Hq text. destruct (regex_analyze_spec text c.(pii_types) c.(score_threshold)) as (ts & E & Hts).
  exists ts. split; [done|]. rewrite check_pii_spec by done. cbn [analyze regex_analyzer]. fold text. rewrite E.
  unfold result_of. cbn [has_pii detected_types]. case_decide; case_bool_decide; naive_solver.
Qed.

(** An analyzer that was shut down blocks every request. *)
Lemma shut_down_blocks_everything float_repr path body c s :
  truthy c.(enabled) = true → (∀ q, float_repr q ≠ "") →
  (check_pii float_repr path (Ok body) (shutdown (mkRegex PII_PATTERNS)) (Some c) s).2 = Ok (Some (blocked ∅)).
Proof. intros. by rewrite check_pii_spec. Qed.

(* ------------------------------------------------------------------ *)
(** ** Configuration *)

Lemma value_of t : PIIType_of (PStr (value t)) = Ok t.
Proof. by destruct t. Qed.
Lemma config_types_roundtrip (l : list PIIType) :
  mapM_res PIIType_of ((λ t, PStr (value t)) <$> l) = Ok l.
Proof. induction l as [|t l IH]; [done|]. rewrite fmap_cons. cbn [mapM_res]. by rewrite value_of, IH. Qed.

(** A configuration that names types survives [to_dict] and [from_dict]. *)
Theorem config_roundtrip c ts :
  c.(pii_types) = Some ts → ts ≠ ∅ → config_from_dict (to_dict c) = Ok c.
Proof.
  intros E Hts. destruct c as [en ty th]. cbn in E. subst ty. unfold config_from_dict, to_dict.
  cbn [enabled pii_types score_threshold]. rewrite decide_False by done.
  change (rbind (rbind (mapM_res PIIType_of ((λ t, PStr (value t)) <$> elements ts)) (λ ts, Ok (Some (list_to_set ts))))
    (λ types, Ok (mkConfig en types th)) = Ok (mkConfig en (Some ts) th)).
  rewrite config_types_roundtrip. cbn -[elements].
  by rewrite list_to_set_elements_L.
Qed.

(* ------------------------------------------------------------------ *)
(** ** Examples *)

Definition found_in (prompt : string) : list PIIType :=
  fst <$> filter (λ tp, occurs tp.2 (dumps (λ _, "0.5") (PDict [("prompt", PStr prompt)])) = true) PII_PATTERNS.

Example a_number_is_found : found_in "ssn 123-45-6789" = [SSN].
Proof. vm_compute. reflexivity. Qed.
(** The body is printed before it is searched, and a newline prints as a backslash and the
    letter n: a number at the start of a line follows a word character, so the boundary its
    pattern asks for is not there. *)
Example a_number_on_its_own_line_passes : found_in ("ssn" +:+ newline +:+ "123-45-6789") = [].
Proof. vm_compute. reflexivity. Qed.

(** The default configuration prints [null] for the types, which [from_dict] iterates. *)
Example default_config_does_not_load :
  config_from_dict (to_dict (mkConfig (PBool true) None (PFloat (1 # 2)))) = Err TypeError.
Proof. reflexivity. Qed.

Example unknown_analyzer {engine} run deps (e : res engine) :
  create_analyzer run deps e "spacy" = Err (ValueError "Unsupported analyzer type").
Proof. reflexivity. Qed.
(** Without its dependencies Presidio cannot be created, and the module keeps what it had. *)
Example presidio_needs_its_packages {engine} run (e : res engine) held :
  initialize_pii_detection run ["presidio-analyzer>=2.2.0"] e "presidio" held = (held, Err runtime_error).
Proof. reflexivity. Qed.
