(* ===== verification/MainRouter.v ===== *)
(** * The router's own endpoints (src/src/vllm_router/routers/main_router.py and the
      response models of src/src/vllm_router/protocols.py)

    The list of models, the list of engines and the health check are answered by the
    router itself, from the service discovery, the external providers, the scraper and
    the configuration watcher; the rerank endpoint rewrites the request before it is
    routed.  The other endpoints pass the request to [route_general_request],
    [route_multipart_request], [route_general_transcriptions] and
    [route_sleep_wakeup_request] as it is. *)

From S2P Require Import Prelude PyDict PyStr PyVal Endpoint Routing Utils.
From S2P Require Import ServiceDiscovery ServiceDiscoveryK8s DiscoveryRegistry HttpBackend ProcessRequest RouteRequest.
From S2P Require EngineStats ExternalProviders RouterInterface.
From Stdlib Require Import Ascii.



(* ------------------------------------------------------------------ *)
(** ** Model cards *)

Record ModelCard : Type := mkCard {
  card_id : string;
  card_object : string;
  card_created : Z;
  card_owned_by : string;
  card_root : option string;
  card_parent : option string;
  card_extra : dict string pyval
}.

Definition opt_json (o : option string) : pyval := match o with Some s => PStr s | None => PNone end.
(** [model_dump()]: the declared fields, then the extra ones. *)
Definition model_dump (c : ModelCard) : pyval := PDict
  ([("id", PStr c.(card_id)); ("object", PStr c.(card_object)); ("created", PInt c.(card_created));
    ("owned_by", PStr c.(card_owned_by)); ("root", opt_json c.(card_root)); ("parent", opt_json c.(card_parent))]
   ++ c.(card_extra)).
Definition ModelList (cards : list ModelCard) : pyval :=
  PDict [("object", PStr "list"); ("data", PList (model_dump <$> cards))].

Definition ValidationError : exn := OtherException "ValidationError".

Section models.
(** Pydantic's conversion of a value to an integer field; [now] is [int(time.time())]. *)
Context (as_int : pyval → option Z) (now : Z).

Definition str_field (v : pyval) : res string :=
  match v with PStr s => Ok s | _ => Err ValidationError end.
Definition opt_field (v : pyval) : res (option string) :=
  match v with PNone => Ok None | PStr s => Ok (Some s) | _ => Err ValidationError end.
(** [ModelCard] on the keyword arguments [d]: the validation of the declared fields; other keys are kept. *)
Definition model_card (d : dict string pyval) : res ModelCard :=
  rbind (of_option ValidationError (dget "id" d)) (λ v,
  rbind (str_field v) (λ id,
  rbind (str_field (dget_or "object" (PStr "model") d)) (λ object,
  rbind (of_option ValidationError (as_int (dget_or "created" (PInt now) d))) (λ created,
  rbind (str_field (dget_or "owned_by" (PStr "vllm") d)) (λ owned_by,
  rbind (opt_field (dget_or "root" PNone d)) (λ root,
  rbind (opt_field (dget_or "parent" PNone d)) (λ parent,
  Ok (mkCard id object created owned_by root parent (unknown_fields d))))))))).

(* ------------------------------------------------------------------ *)
(** ** [show_models] *)

(** The body of its loops: a card for every name that is not listed yet. *)
Fixpoint add_cards (items : list (string * res ModelCard)) (st : gset string * list ModelCard) :
  res (gset string * list ModelCard) :=
  match items with
  | [] => Ok st
  | (model_id, card) :: items =>
      let '(existing_models, model_cards) := st in
      if decide (model_id ∈ existing_models) then add_cards items st
      else rbind card (λ c, add_cards items ({[model_id]} ∪ existing_models, model_cards ++ [c]))
  end.

(** What each loop goes through: the models of the engines, the external models, and the
    aliases of static discovery. *)
Definition engine_items (endpoints : list EndpointInfo) : list (string * res ModelCard) :=
  mjoin ((λ e, (λ kv, (kv.1, model_card (to_dict kv.2))) <$> default [] e.(model_info)) <$> endpoints).
Definition external_items (registry : option ExternalProviders.manager) : list (string * res ModelCard) :=
  match registry with
  | None => []
  | Some m =>
      (λ model_id, (model_id, model_card
         [("id", PStr model_id); ("object", PStr "model");
          ("owned_by", opt_json (ExternalProviders.get_provider_name model_id m))]))
      <$> ExternalProviders.get_all_external_model_ids m
  end.
Definition alias_items (aliases : option (dict string string)) : list (string * res ModelCard) :=
  (λ kv, (kv.1, model_card [("id", PStr kv.1); ("object", PStr "model"); ("owned_by", PStr "vllm");
                            ("root", PStr kv.2)])) <$> default [] aliases.

Definition show_models (endpoints : list EndpointInfo) (registry : option ExternalProviders.manager)
    (aliases : option (dict string string)) : res (list ModelCard) :=
  rbind (add_cards (engine_items endpoints) (∅, [])) (λ st,
  rbind (add_cards (external_items registry) st) (λ st,
  rbind (add_cards (alias_items aliases) st) (λ st,
  Ok st.2))).

(** The handler, on the installed discovery. *)
Definition route_models (w : SDWorld) (g : sd_global) (registry : option ExternalProviders.manager) :
  res JSONResponse :=
  rbind (get_service_discovery g).2 (λ sd,
  rbind (get_endpoint_info w sd) (λ endpoints,
  rbind (show_models endpoints registry (aliases_of sd)) (λ cards,
  Ok (mkJSON 200 (ModelList cards) [])))).

(** The names the loops go through, in order. *)
Definition all_items endpoints registry aliases : list (string * res ModelCard) :=
  engine_items endpoints ++ external_items registry ++ alias_items aliases.

Lemma add_cards_app l k st : add_cards (l ++ k) st = rbind (add_cards l st) (add_cards k).
Proof.
  revert st. induction l as [|[m c] l IH]; intros [ex cs]; [done|]. cbn [app add_cards].
  case_decide; [apply IH|]. destruct c as [c|e]; cbn [rbind]; [apply IH|done].
Qed.
Lemma show_models_eq endpoints registry aliases :
  show_models endpoints registry aliases =
    rbind (add_cards (all_items endpoints registry aliases) (∅, [])) (λ st, Ok st.2).
Proof.
  unfold show_models, all_items. rewrite add_cards_app.
  destruct (add_cards (engine_items endpoints) _) as [st|e]; cbn [rbind]; [|done].
  rewrite add_cards_app. by destruct (add_cards (external_items registry) st).
Qed.

(** The cards of the names not listed yet, each the first of its name. *)
Lemma add_cards_spec items ex cs ex' cs' :
  add_cards items (ex, cs) = Ok (ex', cs') →
  ∃ keys new, cs' = cs ++ new ∧ NoDup keys ∧
    (∀ k, k ∈ keys ↔ (k ∉ ex) ∧ k ∈ dkeys items) ∧
    Forall2 (λ k c, (k ∉ ex) ∧ dget k items = Some (Ok c)) keys new.
Proof.
  revert ex cs. induction items as [|[m c] items IH]; intros ex cs; cbn [add_cards].
  { intros [= -> ->]. exists [], []. rewrite app_nil_r. repeat split; try constructor; set_solver. }
  case_decide as Hm.
  - intros (keys & new & -> & Hnd & Hk & H2)%IH. exists keys, new. split_and!; [done..| |].
    + intros k. rewrite Hk, dkeys_cons, elem_of_cons. simpl. split; [intros [? ?]; auto|]. intros [? [->|?]]; [done|auto].
    + eapply Forall2_impl; [exact H2|]. intros k c' [Hn Hd]. split; [done|]. simpl. rewrite decide_False; [done|].
      by intros ->.
  - destruct c as [c|e]; cbn [rbind]; [|done]. intros (keys & new & -> & Hnd & Hk & H2)%IH.
    exists (m :: keys), (c :: new). rewrite <-app_assoc. split_and!; [done| | |].
    + constructor; [|done]. rewrite Hk. set_solver.
    + intros k. rewrite dkeys_cons, !elem_of_cons, Hk. simpl. destruct (decide (k = m)) as [->|]; set_solver.
    + constructor.
      * split; [done|]. simpl. by rewrite decide_True.
      * eapply Forall2_impl; [exact H2|]. intros k c' [Hn Hd]. split; [set_solver|]. simpl.
        rewrite decide_False; [done|]. set_solver.
Qed.

Context (as_int_int : ∀ z, as_int (PInt z) = Some z).

Lemma add_cards_ok items st :
  Forall (λ x, is_ok x.2 = true) items → is_ok (add_cards items st) = true.
Proof.
  intros H. revert st. induction H as [|[m c] items Hc H IH]; intros [ex cs]; [done|]. cbn [add_cards].
  case_decide; [apply IH|]. simpl in Hc. destruct c as [c|e]; [apply IH|done].
Qed.
Lemma model_card_id d c : model_card d = Ok c → dget "id" d = Some (PStr c.(card_id)).
Proof.
  unfold model_card. intros (v & Hv & (id & Hid & H)%rbind_Ok)%rbind_Ok.
  destruct (dget "id" d) as [v'|]; [|done]. injection Hv as ->.
  destruct v; try done. injection Hid as ->.
  do 5 (apply rbind_Ok in H as (? & _ & H)). by injection H as <-.
Qed.

(** The names the router answers to. *)
Definition offered (endpoints : list EndpointInfo) (registry : option ExternalProviders.manager)
    (aliases : option (dict string string)) (k : string) : Prop :=
  (∃ e mi, e ∈ endpoints ∧ e.(model_info) = Some mi ∧ k ∈ dkeys mi) ∨
  (∃ m, registry = Some m ∧ ExternalProviders.is_external_model k m = true) ∨
  k ∈ dkeys (default [] aliases).

Definition well_keyed (endpoints : list EndpointInfo) : Prop :=
  ∀ e mi k i, e ∈ endpoints → e.(model_info) = Some mi → (k, i) ∈ mi → dget "id" (to_dict i) = Some (PStr k).

Lemma elem_of_engine_items endpoints x :
  x ∈ engine_items endpoints ↔
    ∃ e mi k i, e ∈ endpoints ∧ e.(model_info) = Some mi ∧ (k, i) ∈ mi ∧ x = (k, model_card (to_dict i)).
Proof.
  unfold engine_items. rewrite list_elem_of_join. split.
  - intros (l & Hx & (e & -> & He)%list_elem_of_fmap). destruct (model_info e) as [mi|] eqn:E.
    + apply list_elem_of_fmap in Hx as ([k i] & -> & Hi). by exists e, mi, k, i.
    + by apply not_elem_of_nil in Hx.
  - intros (e & mi & k & i & He & Hmi & Hi & ->). eexists. split; [|by apply list_elem_of_fmap_2].
    simpl. rewrite Hmi. simpl. apply list_elem_of_fmap. by exists (k, i).
Qed.

Lemma external_items_keys registry k :
  k ∈ dkeys (external_items registry) ↔
    ∃ m, registry = Some m ∧ ExternalProviders.is_external_model k m = true.
Proof.
  unfold external_items, ExternalProviders.is_external_model, ExternalProviders.get_all_external_model_ids.
  destruct registry as [m|]; simpl; [|split; [by intros ?%not_elem_of_nil|by intros (m & ? & _)]].
  unfold dkeys at 1. rewrite <-list_fmap_compose, list_elem_of_fmap. split.
  - intros (x & -> & Hx). exists m. split; [done|]. by apply din_spec.
  - intros (m' & [= <-] & Hk). exists k. split; [done|]. by apply din_spec.
Qed.
Lemma external_items_ok registry : Forall (λ x, is_ok x.2 = true) (external_items registry).
Proof.
  unfold external_items. destruct registry as [m|]; [|constructor]. apply Forall_fmap, Forall_forall.
  intros k Hk. unfold model_card, dget_or. simpl. rewrite as_int_int.
  unfold ExternalProviders.get_all_external_model_ids in Hk. apply dget_is_Some in Hk as [e He].
  unfold ExternalProviders.get_provider_name. by rewrite He.
Qed.
Lemma alias_items_keys aliases : dkeys (alias_items aliases) = dkeys (default [] aliases).
Proof. unfold alias_items, dkeys. by rewrite <-list_fmap_compose. Qed.
Lemma alias_items_ok aliases : Forall (λ x, is_ok x.2 = true) (alias_items aliases).
Proof.
  unfold alias_items. apply Forall_fmap, Forall_forall. intros [k v] _. unfold model_card, dget_or. simpl.
  by rewrite as_int_int.
Qed.

Lemma all_items_keys endpoints registry aliases k :
  k ∈ dkeys (all_items endpoints registry aliases) ↔ offered endpoints registry aliases k.
Proof.
  unfold all_items, offered, dkeys. rewrite !fmap_app, !elem_of_app.
  fold (dkeys (external_items registry)) (dkeys (alias_items aliases)).
  rewrite external_items_keys, alias_items_keys.
  assert (k ∈ (engine_items endpoints).*1 ↔
          ∃ e mi, e ∈ endpoints ∧ e.(model_info) = Some mi ∧ k ∈ mi.*1) as ->; [|done].
  rewrite list_elem_of_fmap. split.
  - intros (x & -> & (e & mi & k' & i & He & Hmi & Hi & ->)%elem_of_engine_items). exists e, mi.
    split_and!; [done..|]. apply list_elem_of_fmap. by exists (k', i).
  - intros (e & mi & He & Hmi & ([k' i] & -> & Hi)%list_elem_of_fmap). exists (k', model_card (to_dict i)).
    split; [done|]. apply elem_of_engine_items. by exists e, mi, k', i.
Qed.

(** A card of the list bears the name it is listed under. *)
Lemma all_items_id endpoints registry aliases k c :
  well_keyed endpoints → (k, Ok c) ∈ all_items endpoints registry aliases → c.(card_id) = k.
Proof.
  intros Hw. unfold all_items. rewrite !elem_of_app. intros [Hx|[Hx|Hx]].
  - apply elem_of_engine_items in Hx as (e & mi & k' & i & He & Hmi & Hi & [= -> Hc]).
    symmetry in Hc. apply model_card_id in Hc. rewrite (Hw e mi k' i He Hmi Hi) in Hc. by injection Hc.
  - unfold external_items in Hx. destruct registry as [m|]; [|by apply not_elem_of_nil in Hx].
    apply list_elem_of_fmap in Hx as (k' & [= -> Hc] & _). symmetry in Hc. apply model_card_id in Hc.
    by injection Hc.
  - unfold alias_items in Hx. apply list_elem_of_fmap in Hx as ([k' v] & [= -> Hc] & _).
    symmetry in Hc. apply model_card_id in Hc. by injection Hc.
Qed.

(** C32: the list of models names every model once: when the engines' model descriptions are
    valid, the answer lists exactly the models some engine serves, the external models
    and the aliases, with distinct ids, and a name that several of them have is described
    by the first: an engine before a provider before an alias. *)
Theorem models_are_listed_once endpoints registry aliases :
  well_keyed endpoints → Forall (λ x, is_ok x.2 = true) (engine_items endpoints) →
  ∃ cards, show_models endpoints registry aliases = Ok cards ∧ NoDup (card_id <$> cards) ∧
    (∀ k, k ∈ card_id <$> cards ↔ offered endpoints registry aliases k) ∧
    (∀ c, c ∈ cards → dget c.(card_id) (all_items endpoints registry aliases) = Some (Ok c)).
Proof.
  intros Hw Hok. rewrite show_models_eq. set (items := all_items endpoints registry aliases).
  assert (Hall : Forall (λ x, is_ok x.2 = true) items).
  { unfold items, all_items. rewrite !Forall_app. auto using external_items_ok, alias_items_ok. }
  apply (add_cards_ok items (∅, [])) in Hall.
  destruct (add_cards items (∅, [])) as [[ex cards]|e] eqn:E; [|done]. simpl. exists cards. split; [done|].
  apply add_cards_spec in E as (keys & new & -> & Hnd & Hk & H2). simpl.
  assert (Hids : card_id <$> new = keys).
  { clear Hnd Hk Hall. induction H2 as [|k c keys new [_ Hd] _ IH]; [done|]. rewrite fmap_cons, IH.
    apply dget_elem in Hd. by rewrite (all_items_id endpoints registry aliases k c Hw Hd). }
  rewrite Hids. split_and!; [done| |].
  - intros k. rewrite Hk, <-all_items_keys. fold items. set_solver.
  - intros c (i & Hi)%list_elem_of_lookup. destruct (Forall2_lookup_r _ _ _ _ _ H2 Hi) as (k & Hki & _ & Hd).
    rewrite <-Hids in Hki. rewrite list_lookup_fmap, Hi in Hki. injection Hki as <-. done.
Qed.
End models.

(* ------------------------------------------------------------------ *)
(** ** [get_engine_instances] *)

Definition engine_card (e : EndpointInfo) : pyval := PDict
  [("engine_id", PStr e.(Id)); ("serving_models", PList (PStr <$> e.(model_names)));
   ("created", PInt e.(added_timestamp))].
Fixpoint engine_loop (endpoints : list EndpointInfo) (existing_engines : gset string) : list EndpointInfo :=
  match endpoints with
  | [] => []
  | e :: endpoints =>
      if decide (e.(Id) ∈ existing_engines) then engine_loop endpoints existing_engines
      else e :: engine_loop endpoints ({[e.(Id)]} ∪ existing_engines)
  end.
Definition get_engine_instances (endpoints : list EndpointInfo) : JSONResponse :=
  mkJSON 200 (PList (engine_card <$> engine_loop endpoints ∅)) [].

Lemma engine_loop_spec endpoints seen :
  let l := engine_loop endpoints seen in
  NoDup (Id <$> l) ∧ sublist l endpoints ∧
  (∀ i, i ∈ Id <$> l ↔ (i ∉ seen) ∧ i ∈ Id <$> endpoints).
Proof.
  revert seen. induction endpoints as [|e endpoints IH]; intros seen; cbn [engine_loop].
  { split_and!; [constructor|constructor|set_solver]. }
  case_decide as He.
  - destruct (IH seen) as (H1 & H2 & H3). split_and!; [done|by constructor|].
    intros i. rewrite H3, fmap_cons, elem_of_cons. split; [tauto|]. intros [? [->|?]]; [done|tauto].
  - destruct (IH ({[Id e]} ∪ seen)) as (H1 & H2 & H3). rewrite !fmap_cons. split_and!.
    + constructor; [|done]. rewrite H3. set_solver.
    + by constructor.
    + intros i. rewrite !elem_of_cons, H3. destruct (decide (i = Id e)) as [->|]; set_solver.
Qed.

(* ------------------------------------------------------------------ *)
(** ** [health] *)

(** [DynamicRouterConfig.to_json_str] read back: keys in order at every depth. *)
Fixpoint sort_keys (v : pyval) : pyval :=
  match v with
  | PDict d => PDict (py_sorted fst ((λ kv, (kv.1, sort_keys kv.2)) <$> d))
  | PList l => PList (sort_keys <$> l)
  | _ => v
  end.

(** [get_health] of the installed discovery; [alive] says whether the watcher's thread is. *)
Definition sd_get_health (alive : bool) (sd : SD) : bool :=
  match sd with
  | SDStatic _ => true
  | SDExternalOnly => ExternalOnly.get_health
  | SDPodIP _ | SDServiceName _ => alive
  end.

(** [watcher] is the current configuration of the watcher, when there is one. *)
Definition health (alive : bool) (sd : SD) (scraper : EngineStats.scraper) (watcher : option (dict string pyval)) :
  JSONResponse :=
  if negb (sd_get_health alive sd) then
    mkJSON 503 (PDict [("status", PStr "Service discovery module is down.")]) []
  else if negb (EngineStats.get_health scraper) then
    mkJSON 503 (PDict [("status", PStr "Engine stats scraper is down.")]) []
  else match watcher with
       | Some config =>
           mkJSON 200 (PDict [("status", PStr "healthy"); ("dynamic_config", sort_keys (PDict config))]) []
       | None => mkJSON 200 (PDict [("status", PStr "healthy")]) []
       end.

Lemma health_spec alive sd scraper watcher :
  (health alive sd scraper watcher).(status_code) = 200%Z ↔
  sd_get_health alive sd = true ∧ EngineStats.get_health scraper = true.
Proof.
  unfold health. destruct (sd_get_health alive sd), (EngineStats.get_health scraper), watcher; simpl; split; try done.
  all: by intros [??].
Qed.

(* ------------------------------------------------------------------ *)
(** ** [route_v1_rerank] *)

(** A double quote, a backslash and the letter n. *)
Definition dq : string := String "034" "".
Definition slash_n : string := "\n".

Section rerank.
Context {R : Type} {HR : RouterInterface.Router R} {body : Type} {HJ : JsonCodec body}.
Context (format_g : Q → string) (body_empty : body → bool) (body_length : body → nat)
        (py_repr : pyval → string).
(** [str(v)] of a value that is no string. *)
Context (py_str : pyval → string).

Definition apply_template (query documents : pyval) : res (string * list string) :=
  let instruction := "Given a web search query, retrieve relevant passages that answer the query" in
  let prefix := "<|im_start|>system" +:+ slash_n +:+
    "Judge whether the Document meets the requirements based on the Query and the Instruct provided. Note that the answer can only be "
    +:+ dq +:+ "yes" +:+ dq +:+ " or " +:+ dq +:+ "no" +:+ dq +:+ ".<|im_end|>" +:+ slash_n
    +:+ "<|im_start|>user" +:+ slash_n in
  let suffix := "<|im_end|>" +:+ slash_n +:+ "<|im_start|>assistant" +:+ slash_n +:+ "<think>" +:+ slash_n
    +:+ slash_n +:+ "</think>" +:+ slash_n +:+ slash_n in
  rbind (iterate documents) (λ docs,
  Ok (prefix +:+ "<Instruct>: " +:+ instruction +:+ slash_n +:+ "<Query>: " +:+ format_value py_str query +:+ slash_n,
      (λ doc, "<Document>: " +:+ format_value py_str doc +:+ suffix) <$> docs)).

Definition reranker : string := "Qwen/Qwen3-Reranker-0.6B".

(** The payload that is passed on. *)
Definition rerank_payload (payload : dict string pyval) : res (dict string pyval) :=
  let model := dget_or "model" PNone payload in
  let query := dget_or "query" (PStr "") payload in
  let documents := dget_or "documents" (PStr "") payload in
  if eq_str model reranker && truthy query && truthy documents then
    rbind (apply_template query documents) (λ '(query, documents),
    Ok (dset "documents" (PList (PStr <$> documents)) (dset "query" (PStr query) payload)))
  else Ok payload.

(** The request that is routed: a body that is no JSON object goes on as it is. *)
Definition rerank_request (i : Incoming (body := body)) : res (Incoming (body := body)) :=
  match json_loads i.(in_body) with
  | Some (PDict payload) =>
      rbind (rerank_payload payload) (λ payload,
      let modified_body := json_dumps (PDict payload) in
      let raw_headers := filter (λ kv, lower kv.1 ≠ "content-length") i.(in_request).(req_headers)
                         ++ [("content-length", str_of_int (Z.of_nat (body_length modified_body)))] in
      Ok (mkIncoming (mkRequest raw_headers) i.(in_uuid) modified_body i.(in_query)))
  | _ => Ok i
  end.

Definition route_v1_rerank (a : App) (i : Incoming) (answer : nat → string → Backend) (quota : option nat)
    (router : R) : hstate * res Response :=
  match rerank_request i with
  | Ok i => route_general_request format_g body_empty body_length py_repr a i answer quota (h_init router i)
  | Err e => (h_init router i, Err e)
  end.

Lemma filter_filter_none {A} (P Q : A → Prop) `{∀ x, Decision (P x)} `{∀ x, Decision (Q x)} (l : list A) :
  (∀ x, Q x → ¬ P x) → filter P (filter Q l) = [].
Proof.
  intros H1. induction l as [|x l IH]; [done|]. rewrite (filter_cons Q x l). case_decide; [|done].
  rewrite filter_cons_False by auto. done.
Qed.
Lemma filter_filter_idem {A} (P : A → Prop) `{∀ x, Decision (P x)} (l : list A) : filter P (filter P l) = filter P l.
Proof.
  induction l as [|x l IH]; [done|]. rewrite (filter_cons P x l). case_decide; [|done].
  rewrite filter_cons_True by done. by rewrite IH.
Qed.

Definition content_lengths (hs : dict string string) : list string :=
  snd <$> filter (λ kv, lower kv.1 = "content-length") hs.

(** The rerank endpoint passes on what it was given: the routed request has the same
    fields but the query and the documents, which only change for the reranker model,
    where every document becomes one templated document; its one Content-Length header
    is the length of its body, every other header is kept in order; and it is refused
    only when the documents cannot be iterated over. *)
Theorem rerank_rewrites_only_the_prompt i payload :
  json_loads i.(in_body) = Some (PDict payload) →
  match rerank_request i with
  | Ok i' =>
      ∃ payload', json_loads i'.(in_body) = Some (PDict payload') ∧
        (∀ k, k ≠ "query" → k ≠ "documents" → dget k payload' = dget k payload) ∧
        (eq_str (dget_or "model" PNone payload) reranker = false → payload' = payload) ∧
        (payload' ≠ payload → ∃ docs docs', iterate (dget_or "documents" (PStr "") payload) = Ok docs ∧
           dget "documents" payload' = Some (PList docs') ∧ length docs' = length docs) ∧
        content_lengths i'.(in_request).(req_headers) = [str_of_int (Z.of_nat (body_length i'.(in_body)))] ∧
        filter (λ kv, lower kv.1 ≠ "content-length") i'.(in_request).(req_headers) =
          filter (λ kv, lower kv.1 ≠ "content-length") i.(in_request).(req_headers) ∧
        i'.(in_query) = i.(in_query)
  | Err e => e = TypeError ∧ eq_str (dget_or "model" PNone payload) reranker = true
  end.
Proof.
  intros Hp. unfold rerank_request. rewrite Hp.
  assert (Hh : ∀ n, content_lengths (filter (λ kv, lower kv.1 ≠ "content-length") i.(in_request).(req_headers)
    ++ [("content-length", n)]) = [n]).
  { intros n. unfold content_lengths. by rewrite filter_app, filter_filter_none by (intros x H1 H2; done). }
  assert (Hk : ∀ n, filter (λ kv, lower kv.1 ≠ "content-length") (filter (λ kv, lower kv.1 ≠ "content-length")
    i.(in_request).(req_headers) ++ [("content-length", n)]) =
    filter (λ kv, lower kv.1 ≠ "content-length") i.(in_request).(req_headers)).
  { intros n. rewrite filter_app, filter_filter_idem. rewrite (filter_cons_False _ ("content-length", n)) by (intros H; by apply H).
    by rewrite filter_nil, app_nil_r. }
  unfold rerank_payload, apply_template. cbv zeta.
  destruct (eq_str _ reranker) eqn:Em; cbn [andb]; [destruct (truthy _); cbn [andb]; [destruct (truthy _)|]|].
  all: try (simpl; exists payload; rewrite json_roundtrip, Hh, Hk; split_and!; done).
  destruct (iterate (dget_or "documents" (PStr "") payload)) as [docs|e] eqn:Ed; simpl.
  - eexists. rewrite json_roundtrip, Hh, Hk. split_and!; [done| |done| |done..].
    + intros k Hq Hdoc. by rewrite !dget_dset_ne.
    + intros _. exists docs. eexists. rewrite dget_dset_eq. split_and!; [done..|]. by rewrite !length_fmap.
  - split; [|done]. destruct (dget_or "documents" _ _); simpl in Ed; congruence.
Qed.
End rerank.

(* ------------------------------------------------------------------ *)
(** ** Witnesses *)

Definition as_int_example (v : pyval) : option Z :=
  match v with PInt z => Some z | PBool b => Some (if b then 1 else 0)%Z | _ => None end.

(** Two engines with a model in common, two providers, and an alias that is also the
    name of an external model. *)
Definition endpoints_example : list EndpointInfo :=
  [endpoint_example;
   mkEndpoint "http://b:8000" ["base"; "o3"] "id2" 0 None false true None None None
     (Some [("base", from_dict 5 [("id", PStr "base")]); ("o3", from_dict 5 [("id", PStr "o3")])])].
Definition aliases_example : option (dict string string) := Some [("gpt", "base"); ("small", "base")].

Lemma models_witness :
  ∃ cards, show_models as_int_example 9 endpoints_example (Some ExternalProviders.manager_example) aliases_example
             = Ok cards ∧ NoDup (card_id <$> cards).
Proof.
  destruct (models_are_listed_once as_int_example 9 (λ z, eq_refl) endpoints_example
    (Some ExternalProviders.manager_example) aliases_example) as (cards & Hc & Hnd & _).
  - intros e mi k i He Hmi Hi.
    repeat (apply elem_of_cons in He as [->|He]; [injection Hmi as <-;
      repeat (apply elem_of_cons in Hi as [[= -> ->]|Hi]; [reflexivity|]); by apply not_elem_of_nil in Hi|]).
    by apply not_elem_of_nil in He.
  - vm_compute. repeat constructor.
  - by exists cards.
Defined.
Example models_example :
  match show_models as_int_example 9 endpoints_example (Some ExternalProviders.manager_example) aliases_example with
  | Ok cards => (λ c, (c.(card_id), c.(card_owned_by), c.(card_root))) <$> cards
  | Err _ => []
  end =
  [("base", "vllm", None); ("lora", "vllm", None); ("o3", "vllm", None); ("gpt-4o", "openai", None);
   ("gpt", "openai", None); ("best", "openai", None); ("claude", "other", None); ("small", "vllm", Some "base")].
Proof. vm_compute. reflexivity. Qed.

Definition rerank_example : Incoming (body := pyval) :=
  mkIncoming (mkRequest [("Content-Length", "12"); ("X-A", "1")]) "uuid"
    (PDict [("model", PStr reranker); ("documents", PList [PStr "d1"; PInt 2]); ("query", PStr "q"); ("top_n", PInt 1)]) [].
Definition length_example (v : pyval) : nat := match v with PDict d => length d | _ => 0 end.
Lemma rerank_witness :
  ∃ i' payload', rerank_request length_example (λ _, "2") rerank_example = Ok i' ∧
    i'.(in_body) = PDict payload' ∧ dget "top_n" payload' = Some (PInt 1) ∧
    content_lengths i'.(in_request).(req_headers) = ["4"].
Proof.
  pose proof (rerank_rewrites_only_the_prompt length_example (λ _, "2") rerank_example _ eq_refl) as H.
  destruct (rerank_request length_example (λ _, "2") rerank_example) as [i'|e] eqn:E; [|exfalso; revert E; discriminate].
  destruct H as (payload' & Hp & Hk & _ & _ & Hc & _). exists i', payload'. split; [done|].
  injection Hp as Hp. split; [done|]. split; [by rewrite Hk|]. rewrite Hc.
  revert E. vm_compute. intros [= <-]. reflexivity.
Defined.
