(* ===== verification/Routes.v ===== *)
(** * The routes (src/src/vllm_router/routers/)

    Which handler answers which method and path.  The handlers that pass a request on
    name the endpoint of the engine they pass it to; a table of them, router by router as
    [app.py] includes them, shows that this is the path the client asked for.  Matching a
    request against the table is the web framework's. *)

From S2P Require Import Prelude PyDict PyStr PyVal HttpBackend RouterInterface RouteRequest.
Set Default Proof Using "Type".

(** The handlers: those that pass the request to [route_general_request],
    [route_sleep_wakeup_request], [route_multipart_request] and
    [route_general_transcriptions] under an endpoint, and the router's own. *)
Inductive handler : Type :=
| General (endpoint : string)
| ChatCompletion (endpoint : string)
| Rerank (endpoint : string)
| SleepWakeup (endpoint : string)
| MultipartForm (endpoint : string)
| Transcription (endpoint : string)
| ShowVersion | ShowModels | EngineInstances | HealthCheck | Metrics
| UploadFile | GetFile | GetFileContent
| CreateBatch | GetBatch | ListBatches | CancelBatch.
Record route : Type := mkRoute {
  r_method : string;
  r_path : string;
  r_handler : handler
}.
Definition post (path : string) (h : handler) : route := mkRoute "POST" path h.
Definition get (path : string) (h : handler) : route := mkRoute "GET" path h.
Definition delete (path : string) (h : handler) : route := mkRoute "DELETE" path h.

Definition completion_routes : list route :=
  [post "/v1/chat/completions" (ChatCompletion "/v1/chat/completions");
   post "/v1/completions" (General "/v1/completions");
   post "/v1/embeddings" (General "/v1/embeddings");
   post "/pooling" (General "/pooling");
   post "/tokenize" (General "/tokenize");
   post "/detokenize" (General "/detokenize")].
Definition scoring_routes : list route :=
  [post "/v1/rerank" (Rerank "/v1/rerank");
   post "/rerank" (General "/rerank");
   post "/v1/score" (General "/v1/score");
   post "/score" (General "/score")].
Definition sleep_routes : list route :=
  [post "/sleep" (SleepWakeup "/sleep");
   post "/wake_up" (SleepWakeup "/wake_up");
   get "/is_sleeping" (SleepWakeup "/is_sleeping")].
Definition status_routes : list route :=
  [get "/version" ShowVersion; get "/v1/models" ShowModels; get "/engines" EngineInstances; get "/health" HealthCheck].
Definition media_routes : list route :=
  [post "/v1/audio/transcriptions" (Transcription "/v1/audio/transcriptions");
   post "/v1/responses" (General "/v1/responses");
   post "/v1/audio/speech" (General "/v1/audio/speech");
   post "/v1/audio/translations" (MultipartForm "/v1/audio/translations");
   get "/v1/audio/voices" (General "/v1/audio/voices");
   post "/v1/images/generations" (General "/v1/images/generations");
   post "/v1/images/edits" (MultipartForm "/v1/images/edits");
   post "/v1/messages" (General "/v1/messages")].
Definition main_router : list route :=
  completion_routes ++ scoring_routes ++ sleep_routes ++ status_routes ++ media_routes.
Definition files_router : list route :=
  [post "/v1/files" UploadFile; get "/v1/files/{file_id}" GetFile; get "/v1/files/{file_id}/content" GetFileContent].
Definition batches_router : list route :=
  [post "/v1/batches" CreateBatch; get "/v1/batches/{batch_id}" GetBatch; get "/v1/batches" ListBatches;
   delete "/v1/batches/{batch_id}" CancelBatch].
Definition metrics_router : list route := [get "/metrics" Metrics].
(** [app.include_router], in order. *)
Definition app_routes : list route := main_router ++ files_router ++ batches_router ++ metrics_router.

(** [show_version]. *)
Definition show_version (version : string) : JSONResponse := mkJSON 200 (PDict [("version", PStr version)]) [].

(* ------------------------------------------------------------------ *)
(** ** Properties *)

(** The endpoint a request is passed on to. *)
Definition forwards (h : handler) : option string :=
  match h with
  | General e | ChatCompletion e | Rerank e | SleepWakeup e | MultipartForm e | Transcription e => Some e
  | _ => None
  end.

(** A request that is passed on reaches the engine under the path the client asked for. *)
Lemma requests_keep_their_path r e : r ∈ app_routes → forwards r.(r_handler) = Some e → e = r.(r_path).
Proof.
  assert (H : Forall (λ r, match forwards r.(r_handler) with Some e => e = r.(r_path) | None => True end) app_routes)
    by (repeat constructor).
  intros Hr He. rewrite Forall_forall in H. specialize (H r Hr). by rewrite He in H.
Qed.

(** No method and path have two handlers. *)
Lemma routes_are_distinct : NoDup ((λ r, (r.(r_method), r.(r_path))) <$> app_routes).
Proof. apply (bool_decide_unpack _). vm_compute. exact I. Qed.

(** A request without a body is answered with a 400, as it names no model: so is a plain
    GET of the voices. *)
Lemma empty_bodies_name_no_model {R} {HR : Router R} {body} {HJ : JsonCodec body} format_g body_empty body_length py_repr
    a (i : Incoming (body := body)) answer quota (s : hstate (R := R)) :
  body_empty i.(in_body) = true → a.(app_pre_request) i [] = None →
  (route_general_request format_g body_empty body_length py_repr a i answer quota s).2 =
    Ok (RJson (error_json 400 "Invalid request: missing 'model' in request body." (request_id_of i))).
Proof. intros He Hp. unfold route_general_request, parse_body. by rewrite He, Hp. Qed.
