(* ===== verification/Startup.v ===== *)
(** * Startup (src/src/vllm_router/app.py, the checks of
      src/src/vllm_router/parsers/parser.py, and
      src/src/vllm_router/experimental/feature_gates.py)

    [validate_args] refuses command lines that no router can serve; [initialize_all]
    builds the components in order and attaches them to the application's state.  The
    arguments are a dictionary with a value for every flag. *)

From S2P Require Import Prelude PyDict PyStr PyVal Endpoint RequestStats Routing RoutingPriority RoutingRegistry Utils.
From S2P Require Import ServiceDiscovery ServiceDiscoveryK8s DiscoveryRegistry HttpBackend DynamicConfig.
From S2P Require EngineStats ExternalProviders.

Local Open Scope py_scope.

Definition SystemExit : exn := OtherException "SystemExit".
Definition require (b : bool) (msg : string) : res unit := if b then Ok tt else Err (ValueError msg).

(* ------------------------------------------------------------------ *)
(** ** The checks of the command line *)

Abbreviation args_t := (dict string pyval).

(** A missing flag is looked up as [None]. *)
Definition verify_required_args_provided : M args_t unit := λ a,
  if negb (truthy (cfg "routing_logic" a)) then (a, Err SystemExit)
  else if truthy (cfg "service_discovery" a) then (a, Ok tt)
  else if truthy (cfg "external_providers_config" a)
       then (dset "service_discovery" (PStr "external-only") a, Ok tt)
       else (a, Err SystemExit).

Definition validate_static_model_types (model_types : pyval) : res unit :=
  match model_types with
  | PNone => Err (ValueError "Static model types must be provided when using the backend healthcheck.")
  | PStr s =>
      let all_models := get_all_fields in
      require (forallb (λ t, bool_decide (t ∈ all_models)) (split "," s)) "The model type is not supported."
  | _ => Err (AttributeError "split")
  end.

(** [0 < v] as it is written, [v <= 0] raising. *)
Definition positive_arg (v : pyval) (msg : string) : res unit :=
  match as_number v with Some q => require (negb (Qle_bool q 0)) msg | None => Err TypeError end.
Definition rate_arg (v : pyval) (msg : string) : res unit :=
  match as_number v with Some q => require (Qle_bool 0 q && Qle_bool q 1) msg | None => Err TypeError end.

Definition check_static (a : args_t) : res unit :=
  if eq_str (cfg "service_discovery" a) "static" then
    rbind (require (negb (is_none (cfg "static_backends" a)))
             "Static backends must be provided when using static service discovery.") (λ _,
    rbind (require (negb (is_none (cfg "static_models" a)))
             "Static models must be provided when using static service discovery.") (λ _,
    if truthy (cfg "static_backend_health_checks" a)
    then validate_static_model_types (cfg "static_model_types" a) else Ok tt))
  else Ok tt.
Definition check_k8s (a : args_t) : res unit :=
  require (negb (eq_str (cfg "service_discovery" a) "k8s" && is_none (cfg "k8s_port" a)))
    "K8s port must be provided when using K8s service discovery.".
Definition check_session (a : args_t) : res unit :=
  require (negb (eq_str (cfg "routing_logic" a) "session" && is_none (cfg "session_key" a)))
    "Session key must be provided when using session routing logic.".
Definition check_intervals (a : args_t) : res unit :=
  rbind (if truthy (cfg "log_stats" a)
         then positive_arg (cfg "log_stats_interval" a) "Log stats interval must be greater than 0."
         else Ok tt) (λ _,
  rbind (positive_arg (cfg "engine_stats_interval" a) "Engine stats interval must be greater than 0.") (λ _,
  positive_arg (cfg "request_stats_window" a) "Request stats window must be greater than 0.")).
Definition check_rates (a : args_t) : res unit :=
  rbind (rate_arg (cfg "sentry_traces_sample_rate" a)
           "Sentry traces sample rate must be between 0.0 and 1.0.") (λ _,
  rate_arg (cfg "sentry_profile_session_sample_rate" a)
    "Sentry profile session sample rate must be between 0.0 and 1.0.").

Definition validate_args : M args_t unit :=
  verify_required_args_provided ;;;
  a <- gets (λ a, a) ;;
  lift (check_static a) ;;; lift (check_k8s a) ;;; lift (check_session a) ;;;
  lift (check_intervals a) ;;; lift (check_rates a).

(** What the checks promise the rest of the program. *)
Definition positive_number (v : pyval) : Prop := ∃ q, as_number v = Some q ∧ (0 < q)%Q.
Definition unit_number (v : pyval) : Prop := ∃ q, as_number v = Some q ∧ (0 <= q)%Q ∧ (q <= 1)%Q.
Record well_formed (a : args_t) : Prop := {
  wf_logic : truthy (cfg "routing_logic" a) = true;
  wf_discovery : truthy (cfg "service_discovery" a) = true;
  wf_static : cfg "service_discovery" a = PStr "static" →
    cfg "static_backends" a ≠ PNone ∧ cfg "static_models" a ≠ PNone ∧
    (truthy (cfg "static_backend_health_checks" a) = true →
     ∃ s, cfg "static_model_types" a = PStr s ∧ Forall (λ t, is_ok (ModelType_of t) = true) (split "," s));
  wf_k8s : cfg "service_discovery" a = PStr "k8s" → cfg "k8s_port" a ≠ PNone;
  wf_session : cfg "routing_logic" a = PStr "session" → cfg "session_key" a ≠ PNone;
  wf_log : truthy (cfg "log_stats" a) = true → positive_number (cfg "log_stats_interval" a);
  wf_engine : positive_number (cfg "engine_stats_interval" a);
  wf_window : positive_number (cfg "request_stats_window" a);
  wf_traces : unit_number (cfg "sentry_traces_sample_rate" a);
  wf_profile : unit_number (cfg "sentry_profile_session_sample_rate" a)
}.

Lemma require_Ok b msg : require b msg = Ok tt ↔ b = true.
Proof. by destruct b. Qed.
Lemma rbind_unit (m k : res unit) : rbind m (λ _, k) = Ok tt ↔ m = Ok tt ∧ k = Ok tt.
Proof. destruct m as [[]|e]; simpl; naive_solver. Qed.
Lemma eq_str_true v s : eq_str v s = true ↔ v = PStr s.
Proof.
  destruct v; simpl; split; try done.
  - by intros ->%bool_decide_eq_true.
  - intros [= ->]. by apply bool_decide_eq_true.
Qed.
Lemma is_none_false v : is_none v = false ↔ v ≠ PNone.
Proof. by destruct v. Qed.
Lemma model_type_ok t : bool_decide (t ∈ get_all_fields) = is_ok (ModelType_of t).
Proof.
  unfold ModelType_of, get_all_fields. destruct (list_find _ all_model_types) as [[i m]|] eqn:E.
  - apply list_find_Some in E as (Hi & <- & _). apply bool_decide_eq_true.
    apply (list_elem_of_fmap_2 ModelType_name). by eapply list_elem_of_lookup_2.
  - apply list_find_None in E. apply bool_decide_eq_false. intros (m & -> & Hm)%list_elem_of_fmap.
    rewrite Forall_forall in E. by apply (E m Hm).
Qed.

Lemma validate_static_model_types_spec v :
  validate_static_model_types v = Ok tt ↔
    ∃ s, v = PStr s ∧ Forall (λ t, is_ok (ModelType_of t) = true) (split "," s).
Proof.
  destruct v; simpl; try (split; [done|by intros (? & [=] & _)]). rewrite require_Ok, forallb_forall. split.
  - intros H. exists s. split; [done|]. apply Forall_forall. intros t Ht. rewrite <-model_type_ok.
    by apply H, list_elem_of_In.
  - intros (? & [= <-] & H) t Ht%list_elem_of_In. rewrite Forall_forall in H. rewrite model_type_ok. by apply H.
Qed.
Lemma positive_arg_spec v msg : positive_arg v msg = Ok tt ↔ positive_number v.
Proof.
  unfold positive_arg, positive_number. destruct (as_number v) as [q|]; [|split; [done|by intros (? & [=] & _)]].
  rewrite require_Ok. change (negb (Qle_bool q 0)) with (Qltb 0 q). rewrite Qltb_lt. split; [by exists q|].
  by intros (? & [= <-] & H).
Qed.
Lemma rate_arg_spec v msg : rate_arg v msg = Ok tt ↔ unit_number v.
Proof.
  unfold rate_arg, unit_number. destruct (as_number v) as [q|]; [|split; [done|by intros (? & [=] & _)]].
  rewrite require_Ok, andb_true_iff, !Qle_bool_iff. split; [by exists q|]. by intros (? & [= <-] & H).
Qed.
Lemma if_Ok (b : bool) (m : res unit) : (if b then m else Ok tt) = Ok tt ↔ (b = true → m = Ok tt).
Proof. destruct b; naive_solver. Qed.

Lemma check_static_spec a : check_static a = Ok tt ↔
  (cfg "service_discovery" a = PStr "static" →
    cfg "static_backends" a ≠ PNone ∧ cfg "static_models" a ≠ PNone ∧
    (truthy (cfg "static_backend_health_checks" a) = true →
     ∃ s, cfg "static_model_types" a = PStr s ∧ Forall (λ t, is_ok (ModelType_of t) = true) (split "," s))).
Proof.
  unfold check_static. rewrite if_Ok, eq_str_true, !rbind_unit, !require_Ok, !negb_true_iff, !is_none_false, if_Ok.
  by rewrite validate_static_model_types_spec.
Qed.
Lemma check_pair_spec v w s msg :
  require (negb (eq_str v s && is_none w)) msg = Ok tt ↔ (v = PStr s → w ≠ PNone).
Proof.
  rewrite require_Ok, negb_true_iff, andb_false_iff, is_none_false. rewrite <-not_true_iff_false, eq_str_true.
  split; [tauto|]. intros H. destruct (decide (eq_str v s = true)) as [E|E]; rewrite eq_str_true in E; auto.
Qed.

Lemma checks_spec a :
  truthy (cfg "routing_logic" a) = true → truthy (cfg "service_discovery" a) = true →
  rbind (check_static a) (λ _, rbind (check_k8s a) (λ _, rbind (check_session a) (λ _,
    rbind (check_intervals a) (λ _, check_rates a)))) = Ok tt ↔ well_formed a.
Proof.
  intros Hl Hd. unfold check_k8s, check_session, check_intervals, check_rates.
  rewrite !rbind_unit, check_static_spec, !check_pair_spec, if_Ok, !positive_arg_spec, !rate_arg_spec.
  split; [intros; destruct_and!; by constructor|]. intros []; split_and!; done.
Qed.
Lemma validate_args_eq a :
  validate_args a =
    match verify_required_args_provided a with
    | (a', Ok _) => (a', rbind (check_static a') (λ _, rbind (check_k8s a') (λ _, rbind (check_session a') (λ _,
                           rbind (check_intervals a') (λ _, check_rates a')))))
    | (a', Err e) => (a', Err e)
    end.
Proof.
  unfold validate_args, bind at 1. destruct (verify_required_args_provided a) as [a' [[]|e]]; [|done].
  unfold bind, gets, lift. cbv beta iota.
  destruct (check_static a') as [[]|]; [|done]. destruct (check_k8s a') as [[]|]; [|done].
  destruct (check_session a') as [[]|]; [|done]. by destruct (check_intervals a') as [[]|].
Qed.

Lemma validate_args_spec a :
  let '(a', r) := validate_args a in
  (r = Ok tt ↔ well_formed a') ∧
  (a' = a ∨ truthy (cfg "service_discovery" a) = false ∧ truthy (cfg "external_providers_config" a) = true ∧
            a' = dset "service_discovery" (PStr "external-only") a).
Proof.
  rewrite validate_args_eq. unfold verify_required_args_provided.
  destruct (truthy (cfg "routing_logic" a)) eqn:Hl; cbn [negb].
  2: { split; [|by left]. split; [done|]. intros [H _]. congruence. }
  destruct (truthy (cfg "service_discovery" a)) eqn:Hd.
  { split; [by apply checks_spec|by left]. }
  destruct (truthy (cfg "external_providers_config" a)) eqn:He.
  - split; [|by right]. apply checks_spec; unfold cfg, dget_or in *.
    + by rewrite dget_dset_ne.
    + by rewrite dget_dset_eq.
  - split; [|by left]. split; [done|]. intros [_ H _]. congruence.
Qed.

(** C28: the command line's checks are exact: they accept precisely the well-formed arguments,
    in which every flag the chosen discovery and router depend on is present, every
    declared model type exists, and the intervals and rates are numbers in range; they
    change nothing but the discovery that a deployment with external providers alone did
    not name. *)
Theorem validated_arguments_are_well_formed a :
  let '(a', r) := validate_args a in
  (r = Ok tt ↔ well_formed a') ∧
  (a' = a ∨ truthy (cfg "service_discovery" a) = false ∧ truthy (cfg "external_providers_config" a) = true ∧
            a' = dset "service_discovery" (PStr "external-only") a).
Proof. apply validate_args_spec. Qed.

(* ------------------------------------------------------------------ *)
(** ** Feature gates *)

(** [item.split("=", 1)] of an item with an equals sign. *)
Fixpoint split_once (c : Ascii.ascii) (s : string) : option (string * string) :=
  match s with
  | EmptyString => None
  | String x s' => if decide (x = c) then Some ("", s')
                   else (λ p, (String x p.1, p.2)) <$> split_once c s'
  end.
Definition equals_sign : Ascii.ascii := Ascii.ascii_of_nat 61.

Abbreviation gates := (gset string).
Definition enable (feature : string) (g : gates) : gates := {[feature]} ∪ g.
Definition disable (feature : string) (g : gates) : gates := g ∖ {[feature]}.
Definition is_enabled (feature : string) (g : gates) : bool := bool_decide (feature ∈ g).
Definition configure (config : dict string bool) (g : gates) : gates :=
  foldl (λ g kv, if kv.2 : bool then enable kv.1 g else disable kv.1 g) g config.

(** The last setting of a feature counts. *)
Definition parse_features (config : string) : dict string bool :=
  dict_of (omap (λ item, (λ p, (strip p.1, bool_decide (lower (strip p.2) = "true")))
                         <$> split_once equals_sign item) (split "," config)).
Definition initialize_feature_gates (config : string) (g : gates) : gates :=
  if decide (config = "") then g else configure (parse_features config) g.

(** After configuring, a feature that the text names is on exactly when it says true, and
    the others are as they were. *)
Lemma configure_spec config g k :
  dict_wf config →
  is_enabled k (configure config g) = default (is_enabled k g) (dget k config).
Proof.
  unfold configure, dict_wf, dkeys. revert g. induction config as [|[k' b] config IH]; intros g Hwf; [done|].
  simpl. apply NoDup_cons in Hwf as [Hn Hwf]. rewrite IH by done. case_decide as E.
  - subst k'. apply dget_None in Hn. simpl in Hn. rewrite Hn. simpl. unfold is_enabled, enable, disable.
    destruct b; [apply bool_decide_eq_true|apply bool_decide_eq_false]; set_solver.
  - destruct (dget k config); [done|]. simpl. unfold is_enabled, enable, disable.
    destruct b; apply bool_decide_ext; set_solver.
Qed.
Lemma feature_gates_spec config g k :
  config ≠ "" →
  is_enabled k (initialize_feature_gates config g) = default (is_enabled k g) (dget k (parse_features config)).
Proof.
  intros Hc. unfold initialize_feature_gates. rewrite decide_False by done. apply configure_spec, dict_of_wf.
Qed.

(* ------------------------------------------------------------------ *)
(** ** [initialize_all] *)

(** The labels of a pool go to the constructors as they come from the command line. *)
Definition labels_arg (v : pyval) : res (option labels) :=
  match v with
  | PNone => Ok None
  | PStr s => Ok (Some (LabelText s))
  | PList l => rbind (mapM_res as_str l) (λ l, Ok (Some (LabelList l)))
  | _ => Err ill_typed
  end.
Definition listed_arg (v : pyval) : res (option (list string)) := if truthy v then comma_arg v else Ok None.
Definition opt_float (v : pyval) : res (option Q) :=
  match v with PNone => Ok None | v => rbind (of_option ill_typed (as_number v)) (λ q, Ok (Some q)) end.

Definition startup_discovery (a : args_t) : res SDRequest :=
  if eq_str (cfg "service_discovery" a) "static" then
    rbind (str_arg (cfg "static_backends" a)) (λ backends,
    rbind (comma_arg (cfg "static_models" a)) (λ models,
    rbind (aliases_arg (cfg "static_aliases" a)) (λ aliases,
    rbind (listed_arg (cfg "static_model_types" a)) (λ types,
    rbind (listed_arg (cfg "static_model_labels" a)) (λ model_labels,
    rbind (labels_arg (cfg "prefill_model_labels" a)) (λ prefill,
    rbind (labels_arg (cfg "decode_model_labels" a)) (λ decode,
    Ok (STATIC (parse_static_urls backends) models aliases model_labels types prefill decode))))))))
  else if eq_str (cfg "service_discovery" a) "k8s" then
    rbind (opt_str (cfg "k8s_service_discovery_type" a)) (λ ty,
    rbind (needed (opt_str (cfg "k8s_namespace" a))) (λ ns,
    rbind (port_arg (cfg "k8s_port" a)) (λ port,
    rbind (labels_arg (cfg "prefill_model_labels" a)) (λ prefill,
    rbind (labels_arg (cfg "decode_model_labels" a)) (λ decode,
    Ok (K8S ty ns port prefill decode))))))
  else if eq_str (cfg "service_discovery" a) "external-only" then Ok EXTERNAL_ONLY
  else Err (ValueError "Invalid service discovery type").

Definition startup_kwargs (a : args_t) : res Kwargs :=
  rbind (opt_str (cfg "session_key" a)) (λ session_key,
  rbind (labels_arg (cfg "prefill_model_labels" a)) (λ prefill,
  rbind (labels_arg (cfg "decode_model_labels" a)) (λ decode,
  rbind (opt_int (cfg "kv_aware_threshold" a)) (λ threshold,
  rbind (opt_float (cfg "loadaware_beta" a)) (λ beta,
  rbind (opt_int (cfg "prefix_min_match_length" a)) (λ prefix,
  rbind (needed (opt_str (cfg "priority_header" a))) (λ header,
  rbind (needed (opt_str (cfg "priority_field" a))) (λ field,
  rbind (needed (opt_int (cfg "priority_default" a))) (λ dflt,
  rbind (opt_int (cfg "priority_threshold" a)) (λ priority_threshold,
  rbind (needed (opt_int (cfg "max_instance_failover_reroute_attempts" a))) (λ attempts,
  Ok (mkKwargs session_key threshold beta prefix prefill decode (Some header) (Some field) (Some dflt)
        priority_threshold (Some attempts))))))))))))).

Section startup.
Context {ring : Type} {HR : HashRing ring}.

(** What startup meets outside the process, beside the reconfigurations' world: importing
    the batch processor, the providers listed in the file, and the environment. *)
Record SWorld : Type := mkSWorld {
  sw_world : World;
  sw_import_batch : res unit;
  sw_providers : res (list pyval);
  sw_getenv : string → option string
}.

(** The process: the part that reconfigurations touch, the scraper and the request
    monitor, the batch service's directory, the gates and the external providers.  The
    watcher runs when [d_running] holds. *)
Record astate : Type := mkA {
  a_core : dstate (ring := ring);
  a_scraper : option EngineStats.scraper;
  a_monitor : option RequestStatsMonitor;
  a_batch : option pyval;
  a_gates : gates;
  a_external : option ExternalProviders.manager;
  a_timeout : option ClientTimeout
}.
Definition a_init : astate :=
  mkA (mkD (mkGlobal None []) [] None None [] false) None None None ∅ None None.

Definition on_core {A} (m : M dstate A) : M astate A := λ s,
  let '(c, r) := m s.(a_core) in
  (mkA c s.(a_scraper) s.(a_monitor) s.(a_batch) s.(a_gates) s.(a_external) s.(a_timeout), r).

Definition initialize_monitors (window : Q) : M astate unit := modify (λ s,
  mkA s.(a_core) (Some EngineStats.scraper_init) (Some (RequestStatsMonitor_init window)) s.(a_batch)
    s.(a_gates) s.(a_external) s.(a_timeout)).

Definition initialize_storage (storage_type : pyval) : res unit :=
  if eq_str storage_type "local_file" then Ok tt else Err (ValueError "Unsupported storage type").
Definition initialize_batch_processor (w : SWorld) (name : pyval) : res unit :=
  if eq_str name "local" then w.(sw_import_batch) else Err (ValueError "Unknown batch processor").
Definition initialize_batch (w : SWorld) (a : args_t) : M astate unit :=
  if truthy (cfg "enable_batch_api" a) then
    lift (initialize_storage (cfg "file_storage_class" a)) ;;;
    lift (initialize_batch_processor w (cfg "batch_processor" a)) ;;;
    modify (λ s, mkA s.(a_core) s.(a_scraper) s.(a_monitor) (Some (cfg "file_storage_path" a)) s.(a_gates)
                   s.(a_external) s.(a_timeout))
  else ret tt.

Definition initialize_watcher (a : args_t) : M astate unit :=
  if truthy (cfg "dynamic_config_yaml" a) || truthy (cfg "dynamic_config_json" a)
  then on_core (modify (λ c, mkD c.(d_discovery) c.(d_routers) c.(d_router) c.(d_callbacks) (from_args a) true))
  else ret tt.

Definition initialize_callbacks (w : SWorld) (a : args_t) : M astate unit :=
  if truthy (cfg "callbacks" a)
  then location <- lift (str_arg (cfg "callbacks" a)) ;;
       on_core (configure_custom_callbacks w.(sw_world) location)
  else ret tt.

Definition initialize_router (w : SWorld) (a : args_t) : M astate unit :=
  kw <- lift (startup_kwargs a) ;;
  rl <- lift (of_option (ValueError "Invalid routing logic") (RoutingLogic_of (cfg "routing_logic" a))) ;;
  on_core (with_routers (initialize_routing_logic w.(sw_world).(w_env) rl kw)) ;;;
  ret tt.

Definition initialize_gates (a : args_t) : M astate unit :=
  if truthy (cfg "feature_gates" a)
  then config <- lift (str_arg (cfg "feature_gates" a)) ;;
       modify (λ s, mkA s.(a_core) s.(a_scraper) s.(a_monitor) s.(a_batch)
                      (initialize_feature_gates config s.(a_gates)) s.(a_external) s.(a_timeout))
  else ret tt.

Definition initialize_external (w : SWorld) (a : args_t) : M astate unit :=
  registry <- (if truthy (cfg "external_providers_config" a)
               then provider_configs <- lift w.(sw_providers) ;;
                    m <- lift (ExternalProviders.create_external_provider_manager w.(sw_getenv) provider_configs) ;;
                    ret (Some m)
               else ret None) ;;
  modify (λ s, mkA s.(a_core) s.(a_scraper) s.(a_monitor) s.(a_batch) s.(a_gates) registry s.(a_timeout)).

(** The router and the timeouts on the application's state. *)
Definition attach_router : M astate unit :=
  cls <- on_core (with_routers get_routing_logic) ;;
  reg <- gets (λ s, s.(a_core).(d_routers)) ;;
  on_core (set_router (dget cls reg)).
Definition attach_timeout (a : args_t) : M astate unit :=
  connect <- lift (opt_float (cfg "backend_connect_timeout" a)) ;;
  read <- lift (opt_float (cfg "backend_read_timeout" a)) ;;
  modify (λ s, mkA s.(a_core) s.(a_scraper) s.(a_monitor) s.(a_batch) s.(a_gates) s.(a_external)
                 (Some (build_backend_client_timeout connect read))).
Definition attach (a : args_t) : M astate unit := attach_router ;;; attach_timeout a.

(** [initialize_all] up to the feature gates, and as a whole; error reporting, tracing, the
    semantic cache and the request rewriter are added in Application.v. *)
Definition initialize_services (w : SWorld) (a : args_t) : M astate unit :=
  request <- lift (startup_discovery a) ;;
  on_core (with_discovery (initialize_service_discovery w.(sw_world).(w_sd) request)) ;;;
  window <- lift (of_option ill_typed (as_number (cfg "request_stats_window" a))) ;;
  initialize_monitors window ;;;
  initialize_batch w a ;;;
  initialize_watcher a ;;;
  initialize_callbacks w a ;;;
  initialize_router w a ;;;
  initialize_gates a.
Definition initialize_all (w : SWorld) (a : args_t) : M astate unit :=
  initialize_services w a ;;;
  initialize_external w a ;;;
  attach a.

(* ------------------------------------------------------------------ *)
(** ** What startup builds *)

(** A step that leaves the reconfigurable part alone. *)
Definition frames (m : M astate unit) : Prop := ∀ s, (m s).1.(a_core) = s.(a_core).

Lemma on_core_inv {A} (m : M dstate A) s s' x :
  on_core m s = (s', Ok x) → ∃ c, m s.(a_core) = (c, Ok x) ∧ s'.(a_core) = c.
Proof. unfold on_core. destruct (m (a_core s)) as [c r]. intros [= <- ->]. by exists c. Qed.
Lemma lift_inv {S A} (r : res A) (s s' : S) x : lift r s = (s', Ok x) → r = Ok x ∧ s' = s.
Proof. unfold lift. by intros [= <- ->]. Qed.

Lemma frames_monitors window : frames (initialize_monitors window).
Proof. done. Qed.
Lemma frames_batch w a : frames (initialize_batch w a).
Proof.
  intros s. unfold initialize_batch. destruct (truthy _); [|done]. unfold bind, lift.
  destruct (initialize_storage _); [|done]. by destruct (initialize_batch_processor _ _).
Qed.
Lemma frames_gates a : frames (initialize_gates a).
Proof.
  intros s. unfold initialize_gates. destruct (truthy _); [|done]. unfold bind, lift. by destruct (str_arg _).
Qed.
Lemma frames_external w a : frames (initialize_external w a).
Proof.
  intros s. unfold initialize_external, bind. destruct (truthy _); [|done]. unfold lift.
  destruct (sw_providers w); [|done]. by destruct (ExternalProviders.create_external_provider_manager _ _).
Qed.
Lemma callbacks_core w a s s' :
  initialize_callbacks w a s = (s', Ok tt) →
  ∃ cb, s'.(a_core) = mkD s.(a_core).(d_discovery) s.(a_core).(d_routers) s.(a_core).(d_router) cb
                        s.(a_core).(d_current) s.(a_core).(d_running).
Proof.
  unfold initialize_callbacks. destruct (truthy _); intros H.
  - apply bind_inv_Ok in H as (s1 & loc & [_ ->]%lift_inv & (c & Hc & ->)%on_core_inv).
    unfold configure_custom_callbacks in Hc. apply bind_inv_Ok in Hc as (c1 & h & [_ ->]%lift_inv & Hc).
    injection Hc as <-. by eexists.
  - injection H as <-. exists s.(a_core).(d_callbacks). by destruct (a_core s).
Qed.
Lemma router_core w a s s' :
  initialize_router w a s = (s', Ok tt) → s.(a_core).(d_routers) = [] →
  ∃ rl kw st, startup_kwargs a = Ok kw ∧ RoutingLogic_of (cfg "routing_logic" a) = Some rl ∧
    construct w.(sw_world).(w_env) rl kw = Ok st ∧
    s'.(a_core) = mkD s.(a_core).(d_discovery) [(router_class rl, fresh_router rl kw st)] s.(a_core).(d_router)
                    s.(a_core).(d_callbacks) s.(a_core).(d_current) s.(a_core).(d_running).
Proof.
  intros H Hempty. unfold initialize_router in H.
  apply bind_inv_Ok in H as (s1 & kw & [Hkw ->]%lift_inv & H).
  apply bind_inv_Ok in H as (s1 & rl & [Hrl ->]%lift_inv & H).
  apply bind_inv_Ok in H as (s1 & cls & (c & Hc & Hs1)%on_core_inv & H). injection H as <-.
  destruct (RoutingLogic_of _) as [rl'|] eqn:Erl; simpl in Hrl; [|done]. injection Hrl as ->.
  unfold with_routers in Hc. rewrite Hempty in Hc.
  destruct (construct (w_env (sw_world w)) rl kw) as [st|e] eqn:Ec.
  - rewrite (initialize_fresh _ _ _ _ Ec) in Hc. injection Hc as <- _. by exists rl, kw, st.
  - unfold initialize_routing_logic, bind, singleton_call in Hc. simpl in Hc. by rewrite Ec in Hc.
Qed.
Lemma get_routing_logic_single cls (r : Router ring) :
  get_routing_logic [(cls, r)] = ([(cls, r)], Ok cls).
Proof. by destruct cls. Qed.
Lemma attach_core a s s' cls r :
  attach a s = (s', Ok tt) → s.(a_core).(d_routers) = [(cls, r)] →
  s'.(a_core) = mkD s.(a_core).(d_discovery) [(cls, r)] (Some r) s.(a_core).(d_callbacks)
                  s.(a_core).(d_current) s.(a_core).(d_running).
Proof.
  intros Hall Hr. unfold attach in Hall. apply bind_inv_Ok in Hall as (s0 & [] & Ha & H). unfold attach_router in Ha.
  apply bind_inv_Ok in Ha as (s1 & cls' & (c & Hc & Hs1)%on_core_inv & Ha).
  unfold with_routers in Hc. rewrite Hr, get_routing_logic_single in Hc. injection Hc as <- <-.
  apply bind_inv_Ok in Ha as (s2 & reg & Hg & Ha). injection Hg as <- <-.
  apply on_core_inv in Ha as (c & Hc & Hs2). unfold attach_timeout in H.
  unfold set_router, modify in Hc. injection Hc as <-. rewrite Hs1 in Hs2. simpl in Hs2.
  rewrite decide_True in Hs2 by done.
  apply bind_inv_Ok in H as (s3 & connect & [_ ->]%lift_inv & H).
  apply bind_inv_Ok in H as (s3 & read & [_ ->]%lift_inv & H). injection H as <-. exact Hs2.
Qed.

Lemma startup_spec w a s :
  initialize_all w a a_init = (s, Ok tt) →
  ∃ request sd rl kw st,
    startup_discovery a = Ok request ∧ create_service_discovery w.(sw_world).(w_sd) request = Ok sd ∧
    s.(a_core).(d_discovery) = mkGlobal (Some sd) [] ∧
    RoutingLogic_of (cfg "routing_logic" a) = Some rl ∧ startup_kwargs a = Ok kw ∧
    construct w.(sw_world).(w_env) rl kw = Ok st ∧
    s.(a_core).(d_routers) = [(router_class rl, fresh_router rl kw st)] ∧
    s.(a_core).(d_router) = Some (fresh_router rl kw st) ∧
    (if truthy (cfg "dynamic_config_yaml" a) || truthy (cfg "dynamic_config_json" a)
     then s.(a_core).(d_current) = from_args a ∧ s.(a_core).(d_running) = true
     else s.(a_core).(d_running) = false).
Proof.
  intros Hall. unfold initialize_all in Hall. apply bind_inv_Ok in Hall as (s7 & [] & H & Hrest).
  apply bind_inv_Ok in H as (s0 & request & [Hreq ->]%lift_inv & H).
  apply bind_inv_Ok in H as (s1 & sd & (c & Hc & Hs1)%on_core_inv & H).
  unfold with_discovery, initialize_service_discovery in Hc. cbn [a_init a_core d_discovery current] in Hc.
  destruct (create_service_discovery (w_sd (sw_world w)) request) as [sd'|] eqn:Esd; [|done].
  injection Hc as Hc _. subst c. cbn [d_routers d_router d_callbacks d_current d_running closed] in Hs1.
  apply bind_inv_Ok in H as (s2 & window & [_ ->]%lift_inv & H).
  apply bind_inv_Ok in H as (s2 & [] & Hm & H).
  assert (Hs2 : a_core s2 = a_core s1) by (rewrite <-(frames_monitors window s1); by rewrite Hm).
  apply bind_inv_Ok in H as (s3 & [] & Hb & H).
  assert (Hs3 : a_core s3 = a_core s1) by (rewrite <-Hs2, <-(frames_batch w a s2); by rewrite Hb).
  apply bind_inv_Ok in H as (s4 & [] & Hw & H).
  assert (Hs4 : ∃ cur run, a_core s4 = mkD (mkGlobal (Some sd') []) [] None None cur run ∧
    if truthy (cfg "dynamic_config_yaml" a) || truthy (cfg "dynamic_config_json" a)
    then cur = from_args a ∧ run = true else run = false).
  { unfold initialize_watcher in Hw. destruct (_ || _).
    - apply on_core_inv in Hw as (c & Hc & ->). injection Hc as <-. rewrite Hs3, Hs1. by eexists _, _.
    - injection Hw as <-. rewrite Hs3, Hs1. by eexists _, _. }
  destruct Hs4 as (cur & run & Hs4 & Hcur).
  apply bind_inv_Ok in H as (s5 & [] & (cb & Hs5)%callbacks_core & H). rewrite Hs4 in Hs5. simpl in Hs5.
  apply bind_inv_Ok in H as (s6 & [] & Hr & H).
  apply router_core in Hr as (rl & kw & st & Hkw & Hrl & Hst & Hs6); [|by rewrite Hs5].
  rewrite Hs5 in Hs6. simpl in Hs6.
  assert (Hs7 : a_core s7 = a_core s6) by (rewrite <-(frames_gates a s6); by rewrite H). clear H.
  apply bind_inv_Ok in Hrest as (s8 & [] & He & H).
  assert (Hs8 : a_core s8 = a_core s6) by (rewrite <-Hs7, <-(frames_external w a s7); by rewrite He).
  rewrite Hs6 in Hs8. apply (attach_core _ _ _ (router_class rl) (fresh_router rl kw st)) in H; [|by rewrite Hs8].
  rewrite Hs8 in H. simpl in H. exists request, sd', rl, kw, st. rewrite H. done.
Qed.

(** A startup that succeeds has built exactly what was asked for: the discovery of the
    arguments is the installed one, the only router is the one of the configured kind
    with the configured options and it is the one attached, and with a configuration
    file the watcher starts from the configuration of the arguments. *)
Theorem startup_builds_what_was_asked w a s :
  initialize_all w a a_init = (s, Ok tt) →
  ∃ request sd rl kw st,
    startup_discovery a = Ok request ∧ create_service_discovery w.(sw_world).(w_sd) request = Ok sd ∧
    s.(a_core).(d_discovery) = mkGlobal (Some sd) [] ∧
    RoutingLogic_of (cfg "routing_logic" a) = Some rl ∧ startup_kwargs a = Ok kw ∧
    construct w.(sw_world).(w_env) rl kw = Ok st ∧
    s.(a_core).(d_routers) = [(router_class rl, fresh_router rl kw st)] ∧
    s.(a_core).(d_router) = Some (fresh_router rl kw st) ∧
    (if truthy (cfg "dynamic_config_yaml" a) || truthy (cfg "dynamic_config_json" a)
     then s.(a_core).(d_current) = from_args a ∧ s.(a_core).(d_running) = true
     else s.(a_core).(d_running) = false).
Proof. apply startup_spec. Qed.

(** The second half of [lifespan]: the components are closed in order. *)
Definition close_scraper : M astate unit := modify (λ s,
  mkA s.(a_core) (EngineStats.close <$> s.(a_scraper)) s.(a_monitor) s.(a_batch) s.(a_gates) s.(a_external)
    s.(a_timeout)).
Definition close_discovery : M (dstate (ring := ring)) unit :=
  sd <- with_discovery get_service_discovery ;;
  with_discovery (modify (λ g, mkGlobal (Some (sd_close sd)) g.(closed))).
Definition close_watcher : M (dstate (ring := ring)) unit :=
  r <- gets d_running ;; if r : bool then DynamicConfig.close else ret tt.
Definition close_external : M astate unit := modify (λ s,
  mkA s.(a_core) s.(a_scraper) s.(a_monitor) s.(a_batch) s.(a_gates) (ExternalProviders.close <$> s.(a_external))
    s.(a_timeout)).
Definition shutdown (w : SWorld) : M astate unit :=
  close_scraper ;;;
  on_core close_discovery ;;;
  on_core close_watcher ;;;
  on_core (with_routers (cleanup_routing_logic w.(sw_world).(w_env))) ;;;
  close_external.

(** What the watcher keeps true of the process: a discovery is installed, and a router
    class is registered at most once. *)
Definition core_ok (c : dstate (ring := ring)) : Prop :=
  (∃ sd, c.(d_discovery).(current) = Some sd) ∧ dict_wf c.(d_routers).

Lemma startup_core_ok w a s : initialize_all w a a_init = (s, Ok tt) → core_ok s.(a_core).
Proof.
  intros H. apply startup_spec in H as (request & sd & rl & kw & st & _ & _ & Hd & _ & _ & _ & Hr & _ & _).
  split; [exists sd; by rewrite Hd|]. rewrite Hr. unfold dict_wf, dkeys. apply NoDup_singleton.
Qed.

Lemma reconfigure_discovery_core_ok w c : preserves core_ok (reconfigure_discovery w c).
Proof.
  intros s [[sd Hsd] Hwf]. rewrite (reconfigure_discovery_spec w c s sd Hsd).
  destruct (built_discovery w c) as [sd'|e]; [|by split; [exists sd|]]. split; [by exists sd'|done].
Qed.
Lemma reconfigure_router_core_ok w c : manager_closes w.(w_env) → preserves core_ok (reconfigure_router w c).
Proof.
  intros Hm s [Hsd Hwf]. rewrite reconfigure_router_spec by done.
  destruct (built_router w c) as [[cls r]|e]; split; [exact Hsd| |exact Hsd|apply dict_wf_nil].
  unfold dict_wf, dkeys. apply NoDup_singleton.
Qed.
Lemma reconfigure_callbacks_core_ok w c : preserves core_ok (reconfigure_callbacks w c).
Proof.
  intros s [Hsd Hwf]. rewrite reconfigure_callbacks_spec. by destruct (loaded_callbacks w c).
Qed.
Lemma watch_tick_core_ok w load : manager_closes w.(w_env) → preserves core_ok (watch_tick w load).
Proof.
  intros Hm. unfold watch_tick. apply preserves_try_except.
  - apply preserves_bind; [apply preserves_lift|]. intros file. apply preserves_bind; [apply preserves_lift|]. intros c.
    apply preserves_bind; [apply preserves_gets|]. intros cur. apply preserves_if; [apply preserves_ret|].
    apply preserves_bind; [|intros _; by apply preserves_modify].
    unfold reconfigure_all. apply preserves_bind; [apply reconfigure_discovery_core_ok|]. intros _.
    apply preserves_bind; [by apply reconfigure_router_core_ok|]. intros _. apply reconfigure_callbacks_core_ok.
  - intros e. apply preserves_if; [apply preserves_ret|apply preserves_raise].
Qed.

(** Shutting down stops everything, whatever the watcher has reconfigured since startup:
    the discovery no longer runs, the watcher and the scraper are stopped, no router is
    registered and the external providers are gone. *)
Lemma shutdown_closes w s :
  manager_closes w.(sw_world).(w_env) → core_ok s.(a_core) →
  ∃ s', shutdown w s = (s', Ok tt) ∧
    (∃ sd, s'.(a_core).(d_discovery).(current) = Some sd ∧ (sd = SDExternalOnly ∨ sd_running sd = false)) ∧
    s'.(a_core).(d_running) = false ∧ s'.(a_core).(d_routers) = [] ∧
    (∀ sc, s'.(a_scraper) = Some sc → EngineStats.get_health sc = false) ∧
    (∀ m, s'.(a_external) = Some m → m = ExternalProviders.manager_init).
Proof.
  intros Hm [[sd Hd] Hwf]. destruct s as [c sc mo ba ga ex ti]. destruct c as [d rs r cb cur run]. simpl in Hd, Hwf.
  destruct d as [o cl]. simpl in Hd. subst o. pose proof (cleanup_empties _ rs Hm Hwf) as Hc.
  eexists. split.
  - unfold shutdown, close_scraper, close_external, close_discovery, close_watcher, DynamicConfig.close, on_core, bind,
      with_discovery, with_routers, get_service_discovery, modify, gets, ret.
    destruct run; simpl; rewrite Hc; reflexivity.
  - simpl. split; [eexists; split; [reflexivity|destruct sd; auto]|].
    split; [done|]. split; [done|]. split; [by intros ? (? & _ & ->)%fmap_Some|by intros ? (? & _ & ->)%fmap_Some].
Qed.

(** What is started is stopped. *)
Corollary shutdown_closes_everything w a s :
  manager_closes w.(sw_world).(w_env) → initialize_all w a a_init = (s, Ok tt) →
  ∃ s', shutdown w s = (s', Ok tt) ∧
    (∃ sd, s'.(a_core).(d_discovery).(current) = Some sd ∧ (sd = SDExternalOnly ∨ sd_running sd = false)) ∧
    s'.(a_core).(d_running) = false ∧ s'.(a_core).(d_routers) = [] ∧
    (∀ sc, s'.(a_scraper) = Some sc → EngineStats.get_health sc = false) ∧
    (∀ m, s'.(a_external) = Some m → m = ExternalProviders.manager_init).
Proof. intros Hm H. apply shutdown_closes; [done|]. by eapply startup_core_ok. Qed.

(** As long as the batch processor cannot be imported, enabling the batch API ends
    startup. *)
Lemma batch_api_needs_its_module w a s e :
  w.(sw_import_batch) = Err e → truthy (cfg "enable_batch_api" a) = true →
  eq_str (cfg "file_storage_class" a) "local_file" = true → eq_str (cfg "batch_processor" a) "local" = true →
  initialize_batch w a s = (s, Err e).
Proof.
  intros Hw Hb Hs Hl. unfold initialize_batch, initialize_storage, initialize_batch_processor.
  rewrite Hb, Hs, Hl. unfold bind, lift. by rewrite Hw.
Qed.
End startup.

(* ------------------------------------------------------------------ *)
(** ** Witnesses *)

Definition command_line : dict string pyval :=
  [("service_discovery", PStr "static"); ("routing_logic", PStr "disaggregated_prefill");
   ("static_backends", PStr "http://a:1,http://b:1"); ("static_models", PStr "m,m");
   ("static_model_labels", PStr "large,pre"); ("prefill_model_labels", PStr "pre"); ("decode_model_labels", PStr "large-pre");
   ("request_stats_window", PInt 60); ("engine_stats_interval", PInt 30); ("log_stats", PBool false);
   ("sentry_traces_sample_rate", PFloat 0.1); ("sentry_profile_session_sample_rate", PInt 1);
   ("priority_header", PStr "x-request-priority"); ("priority_field", PStr "priority"); ("priority_default", PInt 0);
   ("max_instance_failover_reroute_attempts", PInt 2); ("dynamic_config_yaml", PStr "/etc/router.yaml");
   ("feature_gates", PStr "SemanticCache=true, PIIDetection = False"); ("backend_read_timeout", PFloat 300)].
Definition sworld_example : SWorld :=
  mkSWorld dworld_example (Err (OtherException "ModuleNotFoundError")) (Ok []) (λ _, None).

Example command_line_is_accepted : validate_args command_line = (command_line, Ok tt).
Proof. vm_compute. reflexivity. Qed.
Example session_needs_a_key :
  (validate_args (dset "routing_logic" (PStr "session") command_line)).2 =
    Err (ValueError "Session key must be provided when using session routing logic.").
Proof. vm_compute. reflexivity. Qed.
Example gates_example :
  is_enabled "SemanticCache" (initialize_feature_gates "SemanticCache=true, PIIDetection = False" {["PIIDetection"]}) = true ∧
  is_enabled "PIIDetection" (initialize_feature_gates "SemanticCache=true, PIIDetection = False" {["PIIDetection"]}) = false.
Proof. vm_compute. done. Qed.

Definition started : astate (ring := gset string) := (initialize_all sworld_example command_line a_init).1.
Lemma start_succeeds :
  initialize_all (ring := gset string) sworld_example command_line a_init = (started, Ok tt).
Proof.
  assert (E : (initialize_all (ring := gset string) sworld_example command_line a_init).2 = Ok tt)
    by (vm_compute; reflexivity).
  unfold started. rewrite <-E. apply surjective_pairing.
Qed.
Lemma startup_witness :
  started.(a_core).(d_current) = from_args command_line ∧ started.(a_core).(d_running) = true ∧
  length started.(a_core).(d_routers) = 1.
Proof.
  destruct (startup_builds_what_was_asked sworld_example command_line started start_succeeds)
    as (request & sd & rl & kw & st & _ & _ & _ & _ & _ & _ & Hrs & _ & [Hc Hr]).
  split; [exact Hc|]. split; [exact Hr|]. by rewrite Hrs.
Defined.

(** The labels of the command line are one text: a label that is a part of it is taken
    for one of the pool's, and a list would not. *)
Example startup_labels_are_substrings :
  let e := labelled_ep "http://a" "pre" in
  with_label (LabelText "large-pre,small") [e] = Ok [e] ∧
  with_label (LabelList (split "," "large-pre,small")) [e] = Ok [].
Proof. vm_compute. done. Qed.
