(* ===== verification/RouterInUse.v ===== *)
(** * The router in use (request.app.state.router, which
      src/src/vllm_router/services/request_service/request.py reads,
      src/src/vllm_router/app.py sets and src/src/vllm_router/dynamic_config.py replaces)

    A request does not keep the router it began with: every attempt of the failover loop
    asks the one attached to the application at that moment, and between two attempts other
    requests may have asked it and the configuration watcher, which runs in a thread of its
    own, may have put another one in its place, of another kind even.  Here the handler of
    RouteRequest.v runs on the application's state, with any such steps ([dstep]) before
    each of its calls, between the test of the router's class, which decides how it is
    called, and the call, and after it; the invariant is that the state can be reached from
    the one that startup left, and the contract of a request is proved for all of these
    runs.  A call of
    a router is one step. *)

From S2P Require Import Prelude PyDict PyStr PyVal Endpoint RequestStats HashTrie Routing.
From S2P Require Import RoutingPriority RoutingKv RoutingPrefix RoutingRegistry Utils.
From S2P Require Import ServiceDiscovery ServiceDiscoveryK8s DiscoveryRegistry HttpBackend.
From S2P Require Import RouterInterface ProcessRequest RouteRequest DynamicConfig Startup.

Local Open Scope py_scope.
Set Default Proof Using "Type".

(** The moments around a call at which others may act. *)
Inductive moment : Type := BeforeTest | BeforeCall | AfterCall.
#[global] Instance moment_eq_dec : EqDecision moment.
Proof. solve_decision. Defined.

Section router_in_use.
Context {ring : Type} {HR : HashRing ring}.
Context (sv : nat → Services) (sched : nat → list EndpointInfo → list EndpointInfo).
Context (xxh64 : string → Z) (choice : gset string → string).
Context (choice_elem : ∀ X : gset string, X ≠ ∅ → choice X ∈ X).
#[local] Abbreviation State := (RouterState ring).
#[local] Abbreviation Core := (dstate (ring := ring)).

(* ------------------------------------------------------------------ *)
(** ** A router of any kind *)

Definition on_state {S A} (wrap : S → State) (m : M S A) (s : S) : State * res A :=
  let '(s', r) := m s in (wrap s', r).
Definition on_kv {A} (wrap : kv_state ring → State) (m : M (kv_state ring * nat) A) (s : kv_state ring) (n : nat) :
  State * res A :=
  let '((s', _), r) := m (s, n) in (wrap s', r).

(** [isinstance(router, (KvawareRouter, PrefixAwareRouter, SessionRouter, PriorityRouter))]:
    the handler gives these the parsed body and awaits them, and it does neither for the
    others.  The load-aware router is a kvaware one. *)
Definition takes_json (cls : RouterClass) : bool :=
  match cls with CSession | CKvaware | CLoadAware | CPrefixAware | CPriority => true | _ => false end.

(** The call, with the convention [json] of the router that was tested: a router that is
    called with an argument too many or too few refuses, and what the disaggregated router
    returns cannot be awaited.  [n] counts the calls. *)
Definition call (json : bool) (n : nat) (endpoints : list EndpointInfo) (stats : gmap string RequestStats) (request : Request)
    (js : dict string pyval) (st : State) : State * res (string * dict string pyval) :=
  if json then
    match st with
    | SSession s => on_state SSession (route_request endpoints stats request js) s
    | SRoundRobin _ => (st, Err TypeError)
    | SKvaware s => on_kv SKvaware (route_request (Router := kvaware_router sv) endpoints stats request js) s n
    | SLoadAware s beta =>
        on_kv (λ s, SLoadAware s beta) (route_request (Router := loadaware_router sv sched beta) endpoints stats request js) s n
    | SPrefixAware s =>
        on_state SPrefixAware (route_request (Router := prefix_router xxh64 choice choice_elem) endpoints stats request js) s
    | SPriority s => on_state SPriority (route_request endpoints stats request js) s
    | SDisaggregatedPrefill s =>
        on_state SDisaggregatedPrefill (x <- route_request endpoints stats request js ;; raise TypeError) s
    | SDisaggregatedPrefillOrchestrated s =>
        on_state SDisaggregatedPrefillOrchestrated (route_request endpoints stats request js) s
    end
  else
    match st with
    | SRoundRobin s => on_state SRoundRobin (route_request endpoints stats request js) s
    | _ => (st, Err TypeError)
    end.

Definition state_inv (st : State) : Prop :=
  match st with
  | SRoundRobin s => RoundRobinRouter.inv s
  | SKvaware s | SLoadAware s _ => ∃ th, kv_inv th s
  | SPrefixAware s => prefix_router_inv s
  | _ => True
  end.

Lemma on_state_listed {S} (wrap : S → State) (I : RouterInterface.Router S) endpoints stats request js s :
  endpoints ≠ [] → router_inv s → (∀ s', router_inv s' → state_inv (wrap s')) →
  let '(st', r) := on_state wrap (route_request endpoints stats request js) s in
  state_inv st' ∧ match r with Ok (u, _) => u ∈ url <$> endpoints | Err _ => True end.
Proof.
  intros Hne Hs Hw. unfold on_state. pose proof (route_request_listed endpoints stats request js s Hne Hs) as H.
  destruct (route_request _ _ _ _ s) as [s' r]. destruct H. auto.
Qed.
Lemma on_kv_listed wrap (I : RouterInterface.Router (kv_state ring * nat)) endpoints stats request js s n :
  endpoints ≠ [] → router_inv (s, n) → (∀ p, router_inv p → state_inv (wrap p.1)) →
  let '(st', r) := on_kv wrap (route_request endpoints stats request js) s n in
  state_inv st' ∧ match r with Ok (u, _) => u ∈ url <$> endpoints | Err _ => True end.
Proof.
  intros Hne Hs Hw. unfold on_kv. pose proof (route_request_listed endpoints stats request js (s, n) Hne Hs) as H.
  destruct (route_request _ _ _ _ (s, n)) as [[s' n'] r]. destruct H as [Hs' ?]. split; [exact (Hw _ Hs')|done].
Qed.

Lemma call_listed json n endpoints stats request js st :
  endpoints ≠ [] → state_inv st →
  let '(st', r) := call json n endpoints stats request js st in
  state_inv st' ∧ match r with Ok (u, _) => u ∈ url <$> endpoints | Err _ => True end.
Proof using Type.
  intros Hne Hs. destruct json, st as [s|s|s|s beta|s|s|s|s]; cbn [call]; try done.
  all: try by apply on_state_listed.
  - by apply on_kv_listed.
  - by apply on_kv_listed.
  - unfold on_state, bind. by destruct (route_request _ _ _ _ s) as [s' [x|e]].
Qed.

Lemma call_class json n endpoints stats request js st :
  class_of (call json n endpoints stats request js st).1 = class_of st.
Proof.
  destruct json, st; cbn [call]; unfold on_state, on_kv, bind; try reflexivity.
  all: first [destruct (route_request _ _ _ _ (_, _)) as [[??]?]|destruct (route_request _ _ _ _ _) as [??]];
    repeat case_match; reflexivity.
Qed.

(** The routers that always answer, when they are called their way. *)
Definition always_answers (cls : RouterClass) : bool :=
  match cls with CRoundRobin | CSession | CPriority => true | _ => false end.
Lemma call_total n endpoints stats request js st :
  endpoints ≠ [] → state_inv st → always_answers (class_of st) = true →
  is_ok (call (takes_json (class_of st)) n endpoints stats request js st).2 = true.
Proof.
  intros Hne Hs Ha. destruct st as [s|s|s|s beta|s|s|s|s]; try done; cbn [call class_of takes_json]; unfold on_state.
  all: pose proof (route_request_total endpoints stats request js s Hne) as H.
  all: destruct (route_request _ _ _ _ s); by apply H.
Qed.

(** What the constructors build keeps its contract. *)
Lemma construct_inv env rl kw st : construct (ring := ring) env rl kw = Ok st → state_inv (fresh_router rl kw st).(r_state).
Proof.
  destruct rl; cbn [construct]; intros H.
  - injection H as <-. exact RoundRobinRouter.inv_init.
  - by apply rbind_Ok in H as (s & _ & [= <-]).
  - apply rbind_Ok in H as (? & _ & [= <-]). eexists. split; [apply dict_wf_nil|reflexivity].
  - apply rbind_Ok in H as (? & _ & [= <-]). eexists. split; [apply dict_wf_nil|reflexivity].
  - injection H as <-. exists [], 128. by eexists.
  - by injection H as <-.
  - by injection H as <-.
  - by injection H as <-.
Qed.

(* ------------------------------------------------------------------ *)
(** ** The application's state *)

(** The test of the attached router's class, and [request.app.state.router.route_request(...)]. *)
Definition tested (s : Core) : bool :=
  match s.(d_router) with Some r => takes_json (class_of r.(r_state)) | None => false end.
Definition app_call (json : bool) (n : nat) (endpoints : list EndpointInfo) (stats : gmap string RequestStats) (request : Request)
    (js : dict string pyval) : M Core (string * dict string pyval) := λ s,
  match s.(d_router) with
  | None => (s, Err (AttributeError "route_request"))
  | Some r =>
      let '(st, o) := call json n endpoints stats request js r.(r_state) in
      (mkD s.(d_discovery) s.(d_routers) (Some (mkRouter st r.(RoutingRegistry.failover))) s.(d_callbacks) s.(d_current)
         s.(d_running), o)
  end.

(** The kinds of router that may be attached. *)
Context (w : World) (kinds : RouterClass → bool).
Definition allowed (s : Core) : Prop := ∀ r, s.(d_router) = Some r → kinds (class_of r.(r_state)) = true.

(** A turn of the watcher, or another request's call. *)
Inductive dstep (s : Core) : Core → Prop :=
| Turn load : allowed (watch_tick w load s).1 → dstep s (watch_tick w load s).1
| Called json n endpoints stats request js :
    endpoints ≠ [] → dstep s (app_call json n endpoints stats request js s).1.

(** The router that is attached keeps its contract. *)
Definition attached (s : Core) : Prop := ∃ r, s.(d_router) = Some r ∧ state_inv r.(r_state).
Definition app_inv (s : Core) : Prop := core_ok s ∧ attached s ∧ allowed s.

Lemma app_call_inv json n endpoints stats request js s :
  endpoints ≠ [] → app_inv s →
  let '(s', r) := app_call json n endpoints stats request js s in
  app_inv s' ∧ match r with Ok (u, _) => u ∈ url <$> endpoints | Err _ => True end.
Proof.
  intros Hne (Hok & (r & Hr & Hs) & Hk). unfold app_call. rewrite Hr.
  pose proof (call_listed json n endpoints stats request js r.(r_state) Hne Hs) as H.
  pose proof (call_class json n endpoints stats request js r.(r_state)) as Hc.
  destruct (call _ _ _ _ _ _ _) as [st o]. destruct H as [Hst Ho]. split; [|done]. split; [done|].
  split; [by eexists|]. intros ? [= <-]. cbn in *. rewrite Hc. by apply Hk.
Qed.

(** The watcher attaches only what the constructors build. *)
Definition watched (s : Core) : Prop := core_ok s ∧ attached s.
Context (Hm : manager_closes w.(w_env)).
Lemma reconfigure_router_watched c : preserves watched (reconfigure_router w c).
Proof using Hm.
  intros s [Hok Ha]. pose proof (reconfigure_router_core_ok w c Hm s Hok) as Hok'. split; [exact Hok'|]. clear Hok'.
  rewrite reconfigure_router_spec by first [done|apply Hok]. unfold built_router.
  destruct (rbind (of_option _ _) _) as [[cls r]|e] eqn:E; [|exact Ha].
  apply rbind_Ok in E as (rl & _ & E). apply rbind_Ok in E as (kw & _ & E).
  apply rbind_Ok in E as (st & Hst & [= _ <-]). eexists. split; [reflexivity|]. by eapply construct_inv.
Qed.
Lemma watch_tick_watched load : preserves watched (watch_tick w load).
Proof using Hm.
  unfold watch_tick. apply preserves_try_except.
  - do 2 (apply preserves_bind; [apply preserves_lift|]; intros ?).
    apply preserves_bind; [apply preserves_gets|]. intros cur. apply preserves_if; [apply preserves_ret|].
    apply preserves_bind; [|intros _; by apply preserves_modify].
    unfold reconfigure_all. apply preserves_bind; [|intros _; apply preserves_bind; [apply reconfigure_router_watched|intros _]].
    + intros s [Hok Ha]. split; [by apply reconfigure_discovery_core_ok|]. destruct Hok as [[sd Hsd] _].
      rewrite (reconfigure_discovery_spec _ _ _ _ Hsd). by destruct (built_discovery _ _).
    + intros s [Hok Ha]. split; [by apply reconfigure_callbacks_core_ok|].
      rewrite reconfigure_callbacks_spec. by destruct (loaded_callbacks _ _).
  - intros e. apply preserves_if; [apply preserves_ret|apply preserves_raise].
Qed.

Lemma dstep_inv s s' : app_inv s → dstep s s' → app_inv s'.
Proof using Hm.
  intros Hs [load Hk|json n endpoints stats request js Hne].
  - destruct (watch_tick_watched load s) as [Hok Ha]; [split; apply Hs|]. by split.
  - pose proof (app_call_inv json n endpoints stats request js s Hne Hs) as H.
    by destruct (app_call _ _ _ _ _ _ s) as [s1 r], H.
Qed.
Lemma reachable_inv s s' : app_inv s → rtc dstep s s' → app_inv s'.
Proof using Hm. intros Hs H. induction H as [|x y z Hxy _ IH]; [done|]. by apply IH, (dstep_inv x). Qed.

(** The first request finds what startup attached. *)
Lemma startup_app_inv sw a s :
  initialize_all sw a a_init = (s, Ok tt) →
  allowed s.(a_core) → app_inv s.(a_core).
Proof.
  intros H Hk. split; [by eapply startup_core_ok|].
  apply startup_spec in H as (? & ? & rl & kw & st & _ & _ & _ & _ & _ & Hst & _ & Hr & _).
  split; [|exact Hk]. eexists. split; [exact Hr|]. by eapply construct_inv.
Qed.

(* ------------------------------------------------------------------ *)
(** ** The handler on it *)

Section request.
Context (start : Core) (Hstart : app_inv start).
(** What happens before the [n]-th call of the request, before the test of the class and
    between it and the call, and between the call and the next test. *)
Context (meanwhile : nat → moment → Core → Core) (Hmean : ∀ n m s, rtc dstep s (meanwhile n m s)).

Definition live_call (n : nat) (endpoints : list EndpointInfo) (stats : gmap string RequestStats) (request : Request)
    (js : dict string pyval) : M Core (string * dict string pyval) :=
  modify (meanwhile n BeforeTest) ;;;
  json <- gets tested ;;
  modify (meanwhile n BeforeCall) ;;;
  x <- app_call json n endpoints stats request js ;;
  modify (meanwhile n AfterCall) ;;;
  ret x.

Lemma live_call_reached n endpoints stats request js s :
  endpoints ≠ [] → rtc dstep start s →
  let '(s', r) := live_call n endpoints stats request js s in
  rtc dstep start s' ∧ match r with Ok (u, _) => u ∈ url <$> endpoints | Err _ => True end.
Proof using Hm Hmean Hstart.
  intros Hne Hs. unfold live_call, bind, modify, gets, ret.
  set (s1 := meanwhile n BeforeTest s). set (s2 := meanwhile n BeforeCall s1).
  assert (Hs2 : rtc dstep start s2) by (etrans; [exact Hs|]; etrans; [apply (Hmean n BeforeTest)|apply Hmean]).
  pose proof (app_call_inv (tested s1) n endpoints stats request js s2 Hne (reachable_inv _ _ Hstart Hs2)) as H.
  pose proof (Called s2 (tested s1) n endpoints stats request js Hne) as Hstep.
  destruct (app_call _ _ _ _ _ _ s2) as [s3 [[u js']|e]]; destruct H as [_ Hr]; (split; [|done]).
  - etrans; [by eapply rtc_r|apply Hmean].
  - by eapply rtc_r.
Qed.

#[local] Instance app_router : RouterInterface.Router (Core * nat).
Proof using All.
  refine {|
    route_request := λ endpoints stats request js p,
      let '(s, r) := live_call p.2 endpoints stats request js p.1 in ((s, S p.2), r);
    injects_priority := λ p, match p.1.(d_router) with
                             | Some r => match r.(r_state) with SPriority _ => true | _ => false end
                             | None => false
                             end;
    router_inv := λ p, rtc dstep start p.1
  |}.
  intros endpoints stats request js [s n] Hne Hs. cbn [fst snd].
  pose proof (live_call_reached n endpoints stats request js s Hne Hs) as H.
  by destruct (live_call _ _ _ _ _ _) as [s' r].
Defined.

(** When all routers that may be attached always answer and are called in the same way. *)
Lemma app_router_total (json : bool) :
  (∀ cls, kinds cls = true → always_answers cls = true ∧ takes_json cls = json) → TotalRouter (Core * nat).
Proof using All.
  intros Hall endpoints stats request js [s n] Hne Hs. cbn [route_request app_router fst snd].
  unfold live_call, bind, modify, gets, ret. set (s1 := meanwhile n BeforeTest s). set (s2 := meanwhile n BeforeCall s1).
  assert (Hs1 : rtc dstep start s1) by (etrans; [exact Hs|apply Hmean]).
  assert (Hs2 : rtc dstep start s2) by (etrans; [exact Hs1|apply Hmean]).
  destruct (reachable_inv _ _ Hstart Hs1) as (_ & (r1 & Hr1 & _) & Hk1).
  destruct (reachable_inv _ _ Hstart Hs2) as (_ & (r2 & Hr2 & Hst) & Hk2).
  destruct (Hall _ (Hk1 r1 Hr1)) as [_ Hj1]. destruct (Hall _ (Hk2 r2 Hr2)) as [Ha Hj2].
  unfold tested. rewrite Hr1, Hj1, <-Hj2. unfold app_call. rewrite Hr2.
  pose proof (call_total n endpoints stats request js r2.(r_state) Hne Hst Ha) as H.
  by destruct (call _ _ _ _ _ _ _) as [st [x|e]].
Qed.
End request.
End router_in_use.

(* ------------------------------------------------------------------ *)
(** ** Requests among reloads and other requests *)

Section requests.
Context {ring : Type} {HR : HashRing ring} {body : Type} {HJ : JsonCodec body}.
Context (sv : nat → Services) (sched : nat → list EndpointInfo → list EndpointInfo).
Context (xxh64 : string → Z) (choice : gset string → string).
Context (choice_elem : ∀ X : gset string, X ≠ ∅ → choice X ∈ X).
Context (format_g : Q → string) (body_empty : body → bool) (body_length : body → nat) (py_repr : pyval → string).

(** The router has started; [kinds] are the kinds of router that may be attached. *)
Context (sw : SWorld) (args : args_t) (s0 : astate (ring := ring)) (kinds : RouterClass → bool).
Context (Hm : manager_closes sw.(sw_world).(w_env)) (Hrun : initialize_all sw args a_init = (s0, Ok tt)).
Context (Hkinds : allowed kinds s0.(a_core)).
#[local] Abbreviation step := (dstep sv sched xxh64 choice choice_elem sw.(sw_world) kinds).
Context (meanwhile : nat → moment → dstate (ring := ring) → dstate (ring := ring)).
Context (Hmean : ∀ n m s, rtc step s (meanwhile n m s)).

(** The router that a request meets. *)
#[local] Instance running : RouterInterface.Router (dstate (ring := ring) * nat) :=
  app_router sv sched xxh64 choice choice_elem sw.(sw_world) kinds Hm s0.(a_core)
    (startup_app_inv kinds sw args s0 Hrun Hkinds) meanwhile Hmean.

Lemma reached_inv c : rtc step s0.(a_core) c → app_inv kinds c.
Proof using Hm Hrun Hkinds. apply reachable_inv; [done|]. by apply (startup_app_inv kinds sw args). Qed.

(** C26: requests survive reloads: whatever the configuration watcher and other requests do
    before and between the attempts of a request, and between the test of the router's class
    and its call, also when they replace the router by one of another kind or leave it in
    place after a failed reload, the request keeps its contract.  It contacts only engines
    that were discovered, awake and serving its model when it arrived, none twice and at
    most as many as its attempts; it goes on only after an error that allows it; what the
    client gets is what the last engine contacted did.  The state it leaves is again one
    the next request can start from. *)
Theorem requests_survive_reloads a (i : Incoming (body := body)) answer quota c js m :
  rtc step s0.(a_core) c → a.(app_discovery) = c.(d_discovery) →
  parse_body body_empty i = inr js → a.(app_pre_request) i js = None → dget "model" js = Some (PStr m) →
  ∃ sd, c.(d_discovery).(current) = Some sd ∧
    ∀ endpoints, get_endpoint_info a.(app_world) sd = Ok endpoints →
    a.(app_is_external) (PStr (unalias sd m)) = false →
    let engines := filter (λ e, serves (PStr (unalias sd m)) (request_endpoint i) e = true) endpoints in
    let '(h, r) := route_general_request format_g body_empty body_length py_repr a i answer quota (h_init (c, 0) i) in
    rtc step s0.(a_core) h.(h_router).1 ∧ attached h.(h_router).1 ∧
    contract format_g a (request_id_of i) answer (url <$> engines) (attempted h.(h_log)) r.
Proof using Type.
  intros Hc Ha Hp Hpre Hmod. destruct (reached_inv c Hc) as ([[sd Hsd] _] & _). exists sd. split; [done|].
  intros endpoints Heps Hext engines. rewrite <-Ha in Hsd.
  destruct (admission format_g body_empty body_length py_repr a i answer quota (c, 0) js m sd endpoints Hp Hpre Hmod Hsd
    Heps) as (s & -> & Hr & Hl & _ & Hb).
  pose proof (route_model_contract format_g body_length py_repr a i answer quota sd endpoints (PStr (unalias sd m)) s) as H.
  destruct (route_model _ _ _ _ _ _ _ _ _ _ s) as [h r].
  destruct H as (Hreach & us & Hat & Hcon); [by rewrite Hr|done|done|]. rewrite Hl in Hat. rewrite Hat.
  split; [exact Hreach|]. split; [|exact Hcon]. by apply (reached_inv _ Hreach).
Qed.

(** A live engine is found across reloads: as long as the routers that are attached are of
    kinds that always answer and that are called in the same way, a request with attempts
    enough gets a stream when some engine that serves its model answers and the others fail
    in ways that are retried. *)
Theorem live_engines_are_found_across_reloads a (i : Incoming (body := body)) answer quota c js m sd endpoints ever live json :
  (∀ cls, kinds cls = true → always_answers cls = true ∧ takes_json cls = json) →
  rtc step s0.(a_core) c → a.(app_discovery).(current) = Some sd →
  parse_body body_empty i = inr js → a.(app_pre_request) i js = None → dget "model" js = Some (PStr m) →
  get_endpoint_info a.(app_world) sd = Ok endpoints → a.(app_is_external) (PStr (unalias sd m)) = false →
  model_ever_existed sd (PStr (unalias sd m)) = Ok ever →
  let engines := filter (λ e, serves (PStr (unalias sd m)) (request_endpoint i) e = true) endpoints in
  (∀ k u, u ∈ url <$> engines → kind_of (answer k u) = KAnswer ∨ kind_of (answer k u) = KRetry) →
  live ∈ url <$> engines → (∀ k, kind_of (answer k live) = KAnswer) →
  (Z.of_nat (size (url_set engines)) <= a.(app_failover) + 1)%Z →
  ∃ st hs mt items fin,
    (route_general_request format_g body_empty body_length py_repr a i answer quota (h_init (c, 0) i)).2 =
      Ok (RStream st hs mt items fin).
Proof using Type.
  intros Hall Hc Hsd Hp Hpre Hmod Heps Hext Hever engines Hk Hlive Hl Hn.
  destruct (admission format_g body_empty body_length py_repr a i answer quota (c, 0) js m sd endpoints Hp Hpre Hmod Hsd
    Heps) as (s & -> & Hr & _ & _ & Hb).
  assert (Htot : TotalRouter (dstate (ring := ring) * nat)) by (by eapply app_router_total).
  eapply route_model_live; try done. by rewrite Hr.
Qed.
End requests.

(* ------------------------------------------------------------------ *)
(** ** Witnesses *)

Definition rr_command_line : dict string pyval := dset "routing_logic" (PStr "roundrobin") command_line.
Definition rr_started : astate (ring := gset string) := (initialize_all sworld_example rr_command_line a_init).1.
Lemma rr_start_succeeds :
  initialize_all (ring := gset string) sworld_example rr_command_line a_init = (rr_started, Ok tt).
Proof.
  assert (E : (initialize_all (ring := gset string) sworld_example rr_command_line a_init).2 = Ok tt)
    by (vm_compute; reflexivity).
  unfold rr_started. rewrite <-E. apply surjective_pairing.
Qed.

Definition choice_example (X : gset string) : string := default "" (head (elements X)).
Lemma choice_example_elem (X : gset string) : X ≠ ∅ → choice_example X ∈ X.
Proof.
  intros Hne. unfold choice_example. destruct (elements X) as [|x l] eqn:E.
  - by apply elements_empty_inv, leibniz_equiv in E.
  - apply elem_of_elements. rewrite E. by left.
Qed.

Definition only_round_robin (cls : RouterClass) : bool := match cls with CRoundRobin => true | _ => false end.
Lemma rr_start_answers : allowed (ring := gset string) only_round_robin rr_started.(a_core).
Proof.
  assert (E : (λ r, class_of r.(r_state)) <$> rr_started.(a_core).(d_router) = Some CRoundRobin) by (vm_compute; reflexivity).
  intros r Hr. rewrite Hr in E. cbn in E. by injection E as ->.
Qed.

(** Before the second attempt the file's routing logic becomes another one. *)
Definition reload_to (logic : string) (at_ : moment) (n : nat) (m : moment) (s : dstate (ring := gset string)) : dstate (ring := gset string) :=
  if (n =? 1) && bool_decide (m = at_) then (watch_tick dworld_example (Ok (file_example logic)) s).1 else s.
Definition kinds_example (cls : RouterClass) : bool := true.
#[local] Abbreviation step_example := (dstep (λ _, sv_example) (λ _ l, l) (λ _, 0%Z) choice_example choice_example_elem
  sworld_example.(sw_world) kinds_example).
Lemma reload_to_steps logic at_ n m s : rtc step_example s (reload_to logic at_ n m s).
Proof. unfold reload_to. destruct (_ && _); [|done]. apply rtc_once, Turn. by intros r _. Qed.
Lemma kinds_example_allowed s : allowed (ring := gset string) kinds_example s.
Proof. by intros r _. Qed.

Definition live_app : App (body := pyval) :=
  mkApp world_example rr_started.(a_core).(d_discovery) ∅ DEFAULT_BACKEND_CLIENT_TIMEOUT
    true (λ _ _, None) (λ _, false) (λ _ _, Err AssertionError) 1 false (Ok tt) (λ _, None).
Definition live_example (logic : string) (at_ : moment) :=
  route_general_request (HR := running (λ _, sv_example) (λ _ l, l) (λ _, 0%Z) choice_example choice_example_elem
      sworld_example rr_command_line rr_started kinds_example (or_intror eq_refl) rr_start_succeeds
      (kinds_example_allowed _) (reload_to logic at_) (reload_to_steps logic at_))
    format_example (λ _, false) (λ _, 0) repr_example live_app (incoming_example "m") answer_example None
    (h_init (rr_started.(a_core), 0) (incoming_example "m")).
Definition class_in_use (s : dstate (ring := gset string)) : option RouterClass :=
  (λ r, class_of r.(r_state)) <$> s.(d_router).

(** The first engine refuses the connection, the router becomes the priority router, and
    the second engine's answer is streamed. *)
Example reload_between_attempts :
  attempted (live_example "priority" BeforeTest).1.(h_log) = ["http://a:1"; "http://b:1"] ∧
  class_in_use (live_example "priority" BeforeTest).1.(h_router).1 = Some CPriority ∧
  (live_example "priority" BeforeTest).2 =
    Ok (RStream 200 [("X-Request-Id", "req-1")] "application/json" [IChunk "{}"] (Ok tt)).
Proof. vm_compute. split_and!; reflexivity. Qed.

(** A request that began under a router of the general kind raises when its next attempt
    meets a disaggregated one. *)
Example reload_to_disaggregated_prefill :
  attempted (live_example "disaggregated_prefill" BeforeTest).1.(h_log) = ["http://a:1"] ∧
  (live_example "disaggregated_prefill" BeforeTest).2 = Err TypeError.
Proof. vm_compute. split; reflexivity. Qed.

(** So does one that is tested under one router and asked under another. *)
Example reload_between_test_and_call :
  (live_example "priority" BeforeCall).2 = Err TypeError ∧
  attempted (live_example "priority" BeforeCall).1.(h_log) = ["http://a:1"].
Proof. vm_compute. split; reflexivity. Qed.

(** The cache-aware router that a reload builds has no threshold, and raises as soon as the
    controller knows a live engine that holds the prompt. *)
Example reload_to_kvaware :
  match built_router (ring := gset string) dworld_example (config_of (file_example "kvaware")) with
  | Ok (_, r) => (call (λ _, sv_example) (λ _ l, l) (λ _, 0%Z) choice_example choice_example_elem true 0 kv_eps ∅ (mkRequest []) []
                    r.(r_state)).2 = Err TypeError
  | Err _ => False
  end.
Proof. vm_compute. reflexivity. Qed.

Lemma requests_survive_reloads_witness :
  ∃ sd, rr_started.(a_core).(d_discovery).(current) = Some sd ∧
    ∀ endpoints, get_endpoint_info world_example sd = Ok endpoints →
    let engines := filter (λ e, serves (PStr (unalias sd "m")) None e = true) endpoints in
    contract format_example live_app "req-1" answer_example (url <$> engines)
      (attempted (live_example "priority" BeforeTest).1.(h_log)) (live_example "priority" BeforeTest).2.
Proof.
  destruct (requests_survive_reloads (λ _, sv_example) (λ _ l, l) (λ _, 0%Z) choice_example choice_example_elem
    format_example (λ _, false) (λ _, 0) repr_example sworld_example rr_command_line rr_started kinds_example
    (or_intror eq_refl) rr_start_succeeds (kinds_example_allowed _) (reload_to "priority" BeforeTest) (reload_to_steps "priority" BeforeTest)
    live_app (incoming_example "m") answer_example None rr_started.(a_core) [("model", PStr "m")] "m")
    as (sd & Hsd & H); [done|reflexivity|reflexivity|reflexivity|reflexivity|].
  exists sd. split; [exact Hsd|]. intros endpoints Heps engines. specialize (H endpoints Heps eq_refl).
  unfold live_example. destruct (route_general_request _ _ _ _ _ _ _ _ _) as [h r]. apply H.
Defined.

Lemma live_engines_witness :
  ∃ st hs mt items fin,
    (route_general_request (HR := running (λ _, sv_example) (λ _ l, l) (λ _, 0%Z) choice_example choice_example_elem
        sworld_example rr_command_line rr_started only_round_robin (or_intror eq_refl) rr_start_succeeds
        rr_start_answers (λ _ _ s, s) (λ _ _ s, rtc_refl _ s))
      format_example (λ _, false) (λ _, 0) repr_example live_app (incoming_example "m") answer_example None
      (h_init (rr_started.(a_core), 0) (incoming_example "m"))).2 = Ok (RStream st hs mt items fin).
Proof.
  assert (Hd : ∃ sd endpoints, rr_started.(a_core).(d_discovery).(current) = Some sd ∧
    get_endpoint_info world_example sd = Ok endpoints ∧ model_ever_existed sd (PStr (unalias sd "m")) = Ok true ∧
    (url_set (filter (λ e, serves (PStr (unalias sd "m")) None e = true) endpoints) = {["http://a:1"; "http://b:1"]} ∧
     "http://b:1" ∈ url <$> filter (λ e, serves (PStr (unalias sd "m")) None e = true) endpoints)).
  { eexists _, _. split; [vm_compute; reflexivity|]. split; [vm_compute; reflexivity|]. split; [vm_compute; reflexivity|].
    split; [vm_compute; reflexivity|]. apply (bool_decide_unpack _). vm_compute. exact I. }
  destruct Hd as (sd & endpoints & Hsd & Heps & Hever & Hset & Hin).
  apply (live_engines_are_found_across_reloads (λ _, sv_example) (λ _ l, l) (λ _, 0%Z) choice_example choice_example_elem
    format_example (λ _, false) (λ _, 0) repr_example sworld_example rr_command_line rr_started only_round_robin
    (or_intror eq_refl) rr_start_succeeds rr_start_answers (λ _ _ s, s) (λ _ _ s, rtc_refl _ s) live_app (incoming_example "m")
    answer_example None rr_started.(a_core) [("model", PStr "m")] "m" sd endpoints true "http://b:1" false); try done.
  - by intros [].
  - intros k u _. unfold answer_example. case_decide; [by left|by right].
  - change (request_endpoint (incoming_example "m")) with (@None string). rewrite Hset. vm_compute. discriminate.
Defined.
