(* ===== verification/CommandLine.v ===== *)
(** * The command line (src/src/vllm_router/parsers/parser.py)

    The flags the router declares, what parsing makes of the flags given, and how the
    initial configuration file takes part: its values become the defaults of a second
    parse.  Splitting the words of the command line into flags and values is argparse's;
    the model starts from the flags in the order they are given.  Text for a float that
    Python reads as infinite or as no number is left out. *)

From S2P Require Import Prelude PyDict PyStr PyVal Routing RoutingRegistry ServiceDiscovery DiscoveryRegistry DynamicConfig ConfigFile Startup.
From Stdlib Require Import Ascii.

Local Open Scope py_scope.
Set Default Proof Using "Type".

(* ------------------------------------------------------------------ *)
(** ** The flags *)

Inductive flag_type : Type := TStr | TInt | TFloat.
(** A flag that stores a value, one that stores a text among some choices, one that stores
    true, and one that prints something and exits. *)
Inductive Flag : Type :=
| Store (option_string : string) (ty : flag_type) (dflt : pyval)
| Choice (option_string : string) (dflt : pyval) (choices : list string)
| StoreTrue (option_string : string)
| Exiting (option_string : string).
Definition option_string (f : Flag) : string :=
  match f with Store o _ _ | Choice o _ _ | StoreTrue o | Exiting o => o end.
(** argparse's destination: the option without its dashes, the others as underscores. *)
Fixpoint underscores (s : string) : string :=
  match s with
  | EmptyString => ""
  | String c s => String (if decide (c = "-"%char) then "_"%char else c) (underscores s)
  end.
Definition dest (f : Flag) : string := underscores (sdrop 2 (option_string f)).
Definition default_of (f : Flag) : pyval :=
  match f with Store _ _ d => d | Choice _ d _ => d | StoreTrue _ => PBool false | Exiting _ => PNone end.

Definition add_semantic_cache_args : list Flag :=
  [Store "--semantic-cache-model" TStr (PStr "all-MiniLM-L6-v2");
   Store "--semantic-cache-dir" TStr (PStr "semantic_cache");
   Store "--semantic-cache-threshold" TFloat (PFloat (95 # 100))].
(** The flags in the order they are added, by subject. *)
Definition server_args : list Flag :=
  [Store "--host" TStr (PStr "0.0.0.0");
   Store "--port" TInt (PInt 8080);
   Store "--root-path" TStr (PStr "");
   Store "--timeout-keep-alive" TInt (PInt 5);
   Store "--backend-connect-timeout" TFloat (PFloat 10);
   Store "--backend-read-timeout" TFloat (PFloat 300)].
Definition discovery_args : list Flag :=
  [Choice "--service-discovery" PNone ["static"; "k8s"; "external-only"];
   Choice "--k8s-service-discovery-type" PNone ["pod-ip"; "service-name"];
   Store "--static-backends" TStr PNone;
   Store "--static-models" TStr PNone;
   Store "--static-aliases" TStr PNone;
   Store "--static-model-types" TStr PNone;
   Store "--static-model-labels" TStr PNone;
   StoreTrue "--static-backend-health-checks";
   Store "--static-backend-health-check-interval" TInt (PInt 60);
   Store "--static-backend-health-check-timeout-seconds" TInt (PInt 10);
   Store "--k8s-port" TInt (PInt 8000);
   Store "--k8s-namespace" TStr (PStr "default");
   Store "--k8s-label-selector" TStr (PStr "");
   Store "--k8s-watcher-timeout-seconds" TInt (PInt 0);
   Store "--backend-health-check-timeout-seconds" TInt (PInt 10)].
Definition routing_args : list Flag :=
  [Choice "--routing-logic" PNone ["roundrobin"; "session"; "kvaware"; "loadaware"; "prefixaware"; "disaggregated_prefill"; "disaggregated_prefill_orchestrated"; "priority"];
   Store "--lmcache-controller-port" TInt (PInt 9000);
   Store "--lmcache-controller-reply-port" TInt PNone;
   Store "--lmcache-controller-heartbeat-port" TInt PNone;
   Store "--session-key" TStr PNone;
   Store "--callbacks" TStr PNone].
Definition rewriter_args : list Flag :=
  [Choice "--request-rewriter" (PStr "noop") ["noop"]].
Definition batch_args : list Flag :=
  [StoreTrue "--enable-batch-api";
   Choice "--file-storage-class" (PStr "local_file") ["local_file"];
   Store "--file-storage-path" TStr (PStr "/tmp/vllm_files");
   Choice "--batch-processor" (PStr "local") ["local"]].
Definition stats_args : list Flag :=
  [Store "--engine-stats-interval" TInt (PInt 30);
   Store "--request-stats-window" TInt (PInt 60);
   StoreTrue "--log-stats";
   Store "--log-stats-interval" TInt (PInt 10)].
Definition config_args : list Flag :=
  [Store "--dynamic-config-yaml" TStr PNone;
   Store "--dynamic-config-json" TStr PNone].
Definition version_args : list Flag :=
  [Exiting "--version"].
Definition log_args : list Flag :=
  [Store "--feature-gates" TStr (PStr "");
   Choice "--log-level" (PStr "info") ["critical"; "error"; "warning"; "info"; "debug"; "trace"];
   Choice "--log-format" (PStr "text") ["text"; "json"]].
Definition tracing_args : list Flag :=
  [Store "--sentry-dsn" TStr PNone;
   Store "--sentry-traces-sample-rate" TFloat (PFloat (1 # 10));
   Store "--sentry-profile-session-sample-rate" TFloat (PFloat 1);
   Store "--otel-endpoint" TStr PNone;
   Store "--otel-service-name" TStr (PStr "vllm-router");
   StoreTrue "--otel-secure"].
Definition pool_args : list Flag :=
  [Store "--prefill-model-labels" TStr PNone;
   Store "--decode-model-labels" TStr PNone;
   Store "--kv-aware-threshold" TInt (PInt 2000);
   Store "--loadaware-beta" TFloat PNone;
   Store "--prefix-min-match-length" TInt (PInt 0)].
Definition priority_args : list Flag :=
  [Store "--priority-header" TStr (PStr "x-request-priority");
   Store "--priority-field" TStr (PStr "priority");
   Store "--priority-default" TInt (PInt 0);
   Store "--priority-threshold" TInt PNone].
Definition recovery_args : list Flag :=
  [Store "--max-instance-failover-reroute-attempts" TInt (PInt 0);
   Store "--lmcache-health-check-interval" TInt (PInt 5);
   Store "--lmcache-worker-timeout" TInt (PInt 30);
   Store "--external-providers-config" TStr PNone].
(** The parser's actions, [--help] first. *)
Definition build_parser (semantic_cache_available : bool) : list Flag :=
  Exiting "--help" :: server_args ++ discovery_args ++ routing_args ++ rewriter_args ++
  batch_args ++ stats_args ++ config_args ++ version_args ++
  (if semantic_cache_available then add_semantic_cache_args else []) ++
  log_args ++ tracing_args ++ pool_args ++ priority_args ++ recovery_args.

(* ------------------------------------------------------------------ *)
(** ** Parsing *)

Definition convert (ty : flag_type) (raw : string) : option pyval :=
  match ty with
  | TStr => Some (PStr raw)
  | TInt => PInt <$> int_of_str raw
  | TFloat => PFloat <$> float_of_str raw
  end.
(** The value a flag takes from the command line: a type error, a text that is no choice,
    and a missing or superfluous value exit. *)
Definition take (f : Flag) (raw : option string) : res pyval :=
  match f, raw with
  | Store _ ty _, Some raw => of_option SystemExit (convert ty raw)
  | Choice _ _ choices, Some raw => if decide (raw ∈ choices) then Ok (PStr raw) else Err SystemExit
  | StoreTrue _, None => Ok (PBool true)
  | _, _ => Err SystemExit
  end.
(** A default: a text goes through the type, but not through the choices. *)
Definition take_default (f : Flag) (v : pyval) : res pyval :=
  match f, v with
  | Store _ ty _, PStr raw => of_option SystemExit (convert ty raw)
  | _, v => Ok v
  end.

(** The flags given, in order: the destination and the value's text. *)
Abbreviation argv := (list (string * option string)).
Fixpoint take_all (flags : list Flag) (given : argv) : res (dict string pyval) :=
  match given with
  | [] => Ok []
  | (d, raw) :: given =>
      rbind (of_option SystemExit (find (λ f, bool_decide (dest f = d)) flags)) (λ f,
      rbind (take f raw) (λ v,
      rbind (take_all flags given) (λ ns,
      Ok (if din d ns then ns else dset d v ns))))
  end.
(** The two configuration files exclude each other. *)
Definition exclusive (ns : dict string pyval) : bool := din "dynamic_config_yaml" ns && din "dynamic_config_json" ns.

(** [parser.parse_args()] after [parser.set_defaults(...)]: a flag not given has its default,
    and a default that belongs to no flag is added as it is. *)
Definition fill (ns defaults : dict string pyval) (f : Flag) : res (list (string * pyval)) :=
  match f with
  | Exiting _ => Ok []
  | _ =>
      match dget (dest f) ns with
      | Some v => Ok [(dest f, v)]
      | None => rbind (take_default f (dget_or (dest f) (default_of f) defaults)) (λ v, Ok [(dest f, v)])
      end
  end.
Definition parse (flags : list Flag) (defaults : dict string pyval) (given : argv) : res (dict string pyval) :=
  rbind (take_all flags given) (λ ns,
  if exclusive ns then Err SystemExit else
  rbind (mapM_res (fill ns defaults) flags) (λ values,
  Ok (mjoin values ++ filter (λ kv, kv.1 ∉ dest <$> flags) defaults))).

(* ------------------------------------------------------------------ *)
(** ** The configuration file *)

Section files.
(** What reading and parsing a file gives: a YAML document, a JSON document. *)
Context (py_str : pyval → string) (read_yaml read_json : pyval → res pyval).

Definition load_initial_config_from_config_file_if_required (flags : list Flag) (given : argv) (args : dict string pyval) :
  res (dict string pyval) :=
  if truthy (cfg "dynamic_config_yaml" args) then
    rbind (read_yaml (cfg "dynamic_config_yaml" args)) (λ doc,
    rbind (process_yaml_config py_str doc) (λ yaml_config,
    parse flags yaml_config given))
  else if truthy (cfg "dynamic_config_json" args) then
    rbind (read_json (cfg "dynamic_config_json" args)) (λ doc,
    match doc with PDict d => parse flags d given | _ => Err TypeError end)
  else Ok args.

Definition parse_args (semantic_cache_available : bool) (given : argv) : res (dict string pyval) :=
  let flags := build_parser semantic_cache_available in
  rbind (parse flags [] given) (λ args,
  rbind (load_initial_config_from_config_file_if_required flags given args) (λ args,
  let '(args, r) := validate_args args in rbind r (λ _, Ok args))).
End files.

(* ------------------------------------------------------------------ *)
(** ** The table against the watcher's view of it *)

Definition table (sc : bool) : dict string pyval :=
  (λ f, (dest f, default_of f)) <$> build_parser sc.
Lemma dests_are_distinct sc : NoDup (dest <$> build_parser sc).
Proof. apply (bool_decide_unpack _). destruct sc; vm_compute; exact I. Qed.
(** The destinations the watcher recognises are those of the parser. *)
Lemma recognized_dests_agree sc k : k ∈ recognized_arg_dests sc ↔ k ∈ dest <$> build_parser sc.
Proof.
  assert (H : Forall (λ k, k ∈ dest <$> build_parser sc) (recognized_arg_dests sc) ∧
              Forall (λ k, k ∈ recognized_arg_dests sc) (dest <$> build_parser sc)).
  { split; apply (bool_decide_unpack _); destruct sc; vm_compute; exact I. }
  rewrite !Forall_forall in H. destruct H as [H1 H2]. split; auto.
Qed.

(* ------------------------------------------------------------------ *)
(** ** What parsing gives *)

Definition exits (f : Flag) : bool := match f with Exiting _ => true | _ => false end.
(** The text a flag was last given on the command line, if it was. *)
Definition last_given (d : string) (given : argv) : option (option string) :=
  snd <$> last (filter (λ x, x.1 = d) given).

Lemma last_given_cons d d' raw given :
  last_given d ((d', raw) :: given) =
  match last_given d given with Some r => Some r | None => if decide (d' = d) then Some raw else None end.
Proof.
  unfold last_given. destruct (decide (d' = d)) as [->|Hne].
  - rewrite filter_cons_True by done. rewrite last_cons. by destruct (last (filter _ given)) as [[]|].
  - rewrite filter_cons_False by done. by destruct (last (filter _ given)).
Qed.

Section parse.
Context (flags : list Flag) (Hnd : NoDup (dest <$> flags)).

Lemma find_dest f : f ∈ flags → find (λ g, bool_decide (dest g = dest f)) flags = Some f.
Proof using Hnd.
  intros Hf. destruct (find _ flags) as [g|] eqn:E.
  - apply find_some in E as [Hg Hd]. apply bool_decide_eq_true in Hd. apply list_elem_of_In in Hg.
    f_equal. apply list_elem_of_lookup in Hf as [i Hi], Hg as [j Hj].
    assert (i = j) as ->; [|congruence]. eapply NoDup_lookup; [exact Hnd|..]; rewrite list_lookup_fmap.
    + by rewrite Hi.
    + by rewrite Hj, <-Hd.
  - apply list_elem_of_In in Hf. apply (find_none _ _ E) in Hf. by apply bool_decide_eq_false in Hf.
Qed.

(** Every flag given has its value, the last one counting; no other flag has one. *)
Lemma take_all_spec given ns f :
  take_all flags given = Ok ns → f ∈ flags →
  match last_given (dest f) given with
  | Some raw => ∃ v, take f raw = Ok v ∧ dget (dest f) ns = Some v
  | None => dget (dest f) ns = None
  end.
Proof using Hnd.
  intros Ht Hf. revert ns Ht. induction given as [|[d raw] given IH]; intros ns; cbn [take_all].
  { by intros [= <-]. }
  intros (g & Hg & Ht)%rbind_Ok. apply rbind_Ok in Ht as (v & Hv & Ht). apply rbind_Ok in Ht as (ns' & Hns & Ht).
  injection Ht as <-. specialize (IH ns' Hns). rewrite last_given_cons.
  destruct (last_given (dest f) given) as [r|].
  - destruct IH as (v' & H1 & H2). exists v'. split; [done|]. destruct (din d ns') eqn:Ed; [done|].
    rewrite dget_dset_ne; [done|]. intros <-. apply din_false in Ed. congruence.
  - case_decide as Hd.
    + subst d. rewrite find_dest in Hg by done. injection Hg as <-. exists v. split; [done|].
      apply din_false in IH. rewrite IH. apply dget_dset_eq.
    + destruct (din d ns'); [done|]. by rewrite dget_dset_ne.
Qed.

(** The value of each flag: as given, or its default. *)
Definition value_of (defaults : dict string pyval) (given : argv) (f : Flag) : res pyval :=
  match last_given (dest f) given with
  | Some raw => take f raw
  | None => take_default f (dget_or (dest f) (default_of f) defaults)
  end.
Lemma fill_spec given ns defaults f :
  take_all flags given = Ok ns → f ∈ flags → exits f = false →
  fill ns defaults f = rbind (value_of defaults given f) (λ v, Ok [(dest f, v)]).
Proof using Hnd.
  intros Ht Hf He. assert (H := take_all_spec given ns f Ht Hf). unfold value_of, fill.
  destruct (last_given (dest f) given) as [raw|].
  - destruct H as (v & Hv & Hd). rewrite Hd, Hv. by destruct f.
  - rewrite H. by destruct f.
Qed.
Lemma dget_app {V} (k : string) (l m : dict string V) :
  dget k (l ++ m) = match dget k l with Some v => Some v | None => dget k m end.
Proof. induction l as [|[k' v] l IH]; [done|]. cbn. by case_decide. Qed.

Lemma parse_lookup defaults given args f :
  parse flags defaults given = Ok args → f ∈ flags → exits f = false →
  ∃ v, value_of defaults given f = Ok v ∧ dget (dest f) args = Some v.
Proof using Hnd.
  intros (ns & Ht & Hp)%rbind_Ok Hf He. destruct (exclusive ns); [done|].
  apply rbind_Ok in Hp as (values & Hv & Hp). injection Hp as <-.
  assert (Hgo : ∀ l values, mapM_res (fill ns defaults) l = Ok values → (∀ g, g ∈ l → g ∈ flags) → f ∈ l →
    ∃ v, value_of defaults given f = Ok v ∧ dget (dest f) (mjoin values) = Some v).
  { clear Hv Hf values. induction l as [|g l IH]; intros values; cbn [mapM_res]; [intros _ _ []%elem_of_nil|].
    intros (x & Hx & Hl)%rbind_Ok Hin Hf. apply rbind_Ok in Hl as (xs & Hxs & Hl). injection Hl as <-.
    rewrite mjoin_cons, dget_app. destruct (decide (dest g = dest f)) as [Hd|Hd].
    - assert (g = f) as ->.
      { assert (Hgf : g ∈ flags) by (apply Hin; by left). apply find_dest in Hgf as H1.
        assert (f ∈ flags) as H2%find_dest by by apply Hin. rewrite Hd in H1. congruence. }
      rewrite (fill_spec given) in Hx by (done || apply Hin; by left). apply rbind_Ok in Hx as (v & Hv & Hx).
      injection Hx as <-. exists v. split; [done|]. cbn. by rewrite decide_True.
    - assert (dget (dest f) x = None) as ->.
      { unfold fill in Hx. destruct g; try (injection Hx as <-; done);
          (destruct (dget _ ns); [injection Hx as <-|apply rbind_Ok in Hx as (? & _ & Hx); injection Hx as <-]);
          cbn; by rewrite decide_False. }
      apply IH; [done|intros; apply Hin; by right|]. apply elem_of_cons in Hf as [->|?]; done. }
  destruct (Hgo flags values Hv) as (v & H1 & H2); [done|done|]. exists v. split; [done|]. by rewrite dget_app, H2.
Qed.
(** A default that belongs to no flag ends up among the arguments. *)
Lemma parse_unknown defaults given args k :
  parse flags defaults given = Ok args → k ∉ dest <$> flags → dget k args = dget k defaults.
Proof using Hnd.
  intros (ns & Ht & Hp)%rbind_Ok Hk. destruct (exclusive ns); [done|].
  apply rbind_Ok in Hp as (values & Hv & Hp). injection Hp as <-. rewrite dget_app.
  assert (dget k (mjoin values) = None) as ->.
  { revert values Hv Hk. clear -k. generalize flags. intros l. induction l as [|g l IH]; intros values; cbn [mapM_res]; [by intros [= <-]|].
    intros (x & Hx & Hl)%rbind_Ok. apply rbind_Ok in Hl as (xs & Hxs & Hl). injection Hl as <-. rewrite fmap_cons, not_elem_of_cons.
    intros [Hd Hk]. rewrite mjoin_cons, dget_app, (IH xs) by done.
    unfold fill in Hx. destruct g; try (injection Hx as <-; done);
      (destruct (dget _ ns); [injection Hx as <-|apply rbind_Ok in Hx as (? & _ & Hx); injection Hx as <-]);
      cbn; by rewrite decide_False. }
  clear Hv. induction defaults as [|[k' v] l IH]; [done|]. destruct (decide (k' ∉ dest <$> flags)) as [H|H].
  - rewrite filter_cons_True by done. cbn [dget]. by case_decide.
  - rewrite filter_cons_False by done. cbn [dget]. rewrite decide_False; [done|]. by intros ->.
Qed.
End parse.

(** The checks leave every other flag alone. *)
Lemma validate_args_other a k : k ≠ "service_discovery" → cfg k (validate_args a).1 = cfg k a.
Proof.
  intros Hk. rewrite validate_args_eq. unfold verify_required_args_provided.
  destruct (negb _); [done|]. destruct (truthy _); [done|]. destruct (truthy _); [|done].
  unfold cfg, dget_or. cbn [fst]. by rewrite dget_dset_ne.
Qed.

(** What a default amounts to, for the fields that the watcher compares at its first turn. *)
Lemma known_flag sc k d :
  (k, d) ∈ parser_defaults →
  ∃ f, f ∈ build_parser sc ∧ dest f = k ∧ exits f = false ∧ default_of f = d ∧
    ∀ v, rbind (take_default f v) (λ v, Ok (k, v)) =
         match v with
         | PStr raw => if bool_decide (k ∈ int_flags)
                       then rbind (of_option SystemExit (int_of_str raw)) (λ z, Ok (k, PInt z)) else Ok (k, PStr raw)
         | v => Ok (k, v)
         end.
Proof.
  assert (Hin : ∀ f, find (λ g, bool_decide (dest g = k)) (build_parser sc) = Some f → f ∈ build_parser sc)
    by (intros f [H _]%find_some; by apply list_elem_of_In).
  unfold parser_defaults. intros Hk.
  repeat (apply elem_of_cons in Hk as [Hk|Hk];
    [injection Hk as -> ->; eexists; split; [apply Hin; destruct sc; vm_compute; reflexivity|];
     split; [vm_compute; reflexivity|]; split; [reflexivity|]; split; [reflexivity|];
     intros []; try reflexivity; cbn [take_default convert];
     match goal with |- context [bool_decide ?P] => let b := eval vm_compute in (bool_decide P) in
       change (bool_decide P) with b end;
     reflexivity || by destruct (int_of_str _) |]).
  by apply elem_of_nil in Hk.
Qed.

(** Without watched flags on the command line, parsing with a file's values gives the watched
    fields what [startup_args] gives them. *)
Lemma startup_args_is_the_parse sc file given args :
  parse (build_parser sc) file given = Ok args → (∀ k, k ∈ known_fields → last_given k given = None) →
  ∃ st, startup_args file = Ok st ∧ ∀ k, k ∈ known_fields → cfg k args = cfg k st.
Proof.
  intros Hp Hg. assert (Hv : ∀ kd, kd ∈ parser_defaults → startup_value file kd = Ok (kd.1, cfg kd.1 args)).
  { intros [k d] Hk. destruct (known_flag sc k d Hk) as (f & Hf & Hd & He & Hdf & Hv). cbn [fst].
    destruct (parse_lookup _ (dests_are_distinct sc) _ _ _ f Hp Hf He) as (v & Hval & Hget). rewrite Hd in Hget.
    unfold value_of in Hval. rewrite Hd, Hg, Hdf in Hval.
    2: { apply (list_elem_of_fmap_2 fst) in Hk. revert Hk. generalize k. apply Forall_forall.
         apply (bool_decide_unpack _). vm_compute. exact I. }
    unfold cfg, dget_or at 1. rewrite Hget. cbn [default id]. specialize (Hv (dget_or k d file)).
    rewrite Hval in Hv. cbn [rbind] in Hv. unfold startup_value. cbn [fst snd]. destruct (dget_or k d file); exact (eq_sym Hv). }
  exists ((λ kd, (kd.1, cfg kd.1 args)) <$> parser_defaults). split.
  - unfold startup_args. revert Hv. generalize parser_defaults. induction l as [|kd l IH]; intros Hv; [done|].
    cbn [mapM_res]. rewrite Hv by (by left). cbn [rbind]. rewrite IH by (intros; apply Hv; by right). done.
  - intros k Hk. unfold known_fields, FIELDS in Hk. simpl in Hk.
    repeat (apply elem_of_cons in Hk as [->|Hk]; [reflexivity|]). by apply elem_of_nil in Hk.
Qed.

Section startup.
Context (py_str : pyval → string) (read_yaml read_json : pyval → res pyval).

(** The values of the initial configuration file, none without one. *)
Definition initial_file (sc : bool) (given : argv) : res (dict string pyval) :=
  rbind (parse (build_parser sc) [] given) (λ args,
  if truthy (cfg "dynamic_config_yaml" args) then
    rbind (read_yaml (cfg "dynamic_config_yaml" args)) (process_yaml_config py_str)
  else if truthy (cfg "dynamic_config_json" args) then
    rbind (read_json (cfg "dynamic_config_json" args)) (λ doc, match doc with PDict d => Ok d | _ => Err TypeError end)
  else Ok []).
Lemma parse_args_eq sc given :
  parse_args py_str read_yaml read_json sc given =
  rbind (initial_file sc given) (λ file,
  rbind (parse (build_parser sc) file given) (λ args,
  let '(args, r) := validate_args args in rbind r (λ _, Ok args))).
Proof.
  unfold parse_args, initial_file, load_initial_config_from_config_file_if_required.
  destruct (parse (build_parser sc) [] given) as [a|e] eqn:Ep; [|done]. cbn [rbind].
  destruct (truthy (cfg "dynamic_config_yaml" a)).
  { destruct (read_yaml _) as [doc|]; [|done]. cbn [rbind]. by destruct (process_yaml_config py_str doc). }
  destruct (truthy (cfg "dynamic_config_json" a)); cbn [rbind]; [|by rewrite Ep].
  destruct (read_json _) as [[]|]; done.
Qed.

(** C21. A successful start gives every flag one value: the one last given on the command
    line, converted and among the flag's choices; without one, the configuration file's;
    without either, the flag's default.  (The discovery of a deployment with external
    providers alone is filled in afterwards.) *)
Theorem command_line_beats_file_beats_default sc given args :
  parse_args py_str read_yaml read_json sc given = Ok args →
  ∃ file, initial_file sc given = Ok file ∧
    ∀ f, f ∈ build_parser sc → exits f = false → dest f ≠ "service_discovery" →
      match last_given (dest f) given with
      | Some raw => take f raw = Ok (cfg (dest f) args)
      | None => take_default f (dget_or (dest f) (default_of f) file) = Ok (cfg (dest f) args)
      end.
Proof.
  rewrite parse_args_eq. intros (file & Hfile & H)%rbind_Ok. exists file. split; [done|].
  apply rbind_Ok in H as (a & Hp & H). intros f Hf He Hd.
  destruct (parse_lookup _ (dests_are_distinct sc) _ _ _ f Hp Hf He) as (v & Hv & Hg).
  assert (Hc : cfg (dest f) args = v).
  { assert (Ho := validate_args_other a (dest f) Hd). destruct (validate_args a) as [a' [[]|]]; [|done].
    injection H as <-. cbn [fst] in Ho. rewrite Ho. unfold cfg, dget_or. by rewrite Hg. }
  rewrite Hc. unfold value_of in Hv. by destruct (last_given (dest f) given).
Qed.

(** C18. The watcher's first turn is quiet: when the router was started from a file and none
    of the watched fields was given on the command line, a file of scalars that names its
    discovery and writes integers as integers gives back the configuration the process was
    started with, so the first turn reconfigures nothing. *)
Theorem first_turn_after_start_is_quiet {ring : Type} {HR : HashRing ring} (w : World) given args file c
    (s : dstate (ring := ring)) :
  parse_args py_str read_yaml read_json w.(w_semantic_cache) given = Ok args →
  initial_file w.(w_semantic_cache) given = Ok file →
  (∀ k, k ∈ known_fields → last_given k given = None) →
  from_config_dict w.(w_semantic_cache) file = Ok c →
  (∀ k v, dget k file = Some v → scalar v = true) →
  (∀ k v, k ∈ int_flags → dget k file ≠ Some (PStr v)) →
  truthy (dget_or "service_discovery" PNone file) = true →
  s.(d_current) = from_args args →
  watch_tick w (Ok file) s = (s, Ok tt).
Proof.
  rewrite parse_args_eq. intros Hp Hf Hg Hc Hs Hi Hd Hcur. rewrite Hf in Hp. cbn [rbind] in Hp.
  apply rbind_Ok in Hp as (a & Hp & Hval).
  destruct (startup_args_is_the_parse _ _ _ _ Hp Hg) as (st & Hst & Heq).
  apply (quiet_first_turn w file c st s Hc Hs Hi Hst). rewrite Hcur. unfold from_args.
  apply list_fmap_ext. intros i k Hk%list_elem_of_lookup_2. f_equal. rewrite <-Heq by done.
  assert (Hsame : args = a ∨ truthy (cfg "service_discovery" a) = false).
  { revert Hval. rewrite validate_args_eq. unfold verify_required_args_provided.
    destruct (negb _); [done|]. destruct (truthy (cfg "service_discovery" a)); [|by right].
    intros (? & _ & [= ->])%rbind_Ok. by left. }
  destruct Hsame as [->|Hfalse]; [done|]. exfalso.
  rewrite (Heq "service_discovery") in Hfalse by (unfold known_fields, FIELDS; simpl; by left).
  rewrite startup_args_spec in Hst by done. injection Hst as <-.
  change (truthy (dget_or "service_discovery" PNone file) = false) in Hfalse. congruence.
Qed.
End startup.

(* ------------------------------------------------------------------ *)
(** ** Concrete runs *)

Definition no_str (v : pyval) : string := "".
Definition yaml_at (doc : dict string pyval) (path : pyval) : res pyval := Ok (PDict doc).
Definition no_file (path : pyval) : res pyval := Err (OtherException "FileNotFoundError").
Definition given_example : argv := [("dynamic_config_yaml", Some "/etc/router.yaml"); ("port", Some "9000")].
Definition started (doc : dict string pyval) (given : argv) : dict string pyval :=
  match parse_args no_str (yaml_at doc) no_file false given with Ok a => a | Err _ => [] end.
Definition file_of (doc : dict string pyval) : dict string pyval :=
  match process_yaml_config no_str (PDict doc) with Ok d => d | Err _ => [] end.

(** A text from the file is not held against the flag's choices, and a key that is no flag
    is accepted: the watcher refuses it, on every turn. *)
Example file_values_are_unchecked :
  is_ok (parse_args no_str (yaml_at (dset "routing_logic" (PStr "random") doc_example)) no_file false given_example) = true ∧
  parse_args no_str (yaml_at doc_example) no_file false (("routing_logic", Some "random") :: given_example) = Err SystemExit.
Proof. split; vm_compute; reflexivity. Qed.
Example typos_are_accepted_at_startup :
  let doc := dset "callback" (PStr "x.y") doc_example in
  cfg "callback" (started doc given_example) = PStr "x.y" ∧
  is_ok (from_config_dict false (file_of doc)) = false.
Proof. split; vm_compute; reflexivity. Qed.
(** What the command line says against the file holds until the watcher's first turn, which
    installs what the file says. *)
Example overrides_last_until_the_first_turn :
  let given := [("routing_logic", Some "session"); ("session_key", Some "x-user")] ++ given_example in
  let args := started doc_example given in
  let s := mkD (mkGlobal (Some SDExternalOnly) []) [(CSession, mkRouter (SSession (SessionRouter.mkState "x-user" ∅)) (Some 0%Z))]
             None None (from_args args) true in
  cfg "routing_logic" args = PStr "session" ∧
  (watch_tick (ring := gset string) dworld_example (Ok (file_of doc_example)) s).1.(d_routers)
    = [(CRoundRobin, mkRouter (SRoundRobin RoundRobinRouter.init) (Some 0%Z))].
Proof. split; vm_compute; reflexivity. Qed.

Lemma command_line_witness :
  cfg "port" (started doc_example given_example) = PInt 9000 ∧
  cfg "routing_logic" (started doc_example given_example) = PStr "roundrobin" ∧
  cfg "host" (started doc_example given_example) = PStr "0.0.0.0".
Proof.
  destruct (command_line_beats_file_beats_default no_str (yaml_at doc_example) no_file false given_example
    (started doc_example given_example) ltac:(vm_compute; reflexivity)) as (file & Hf & H).
  assert (Hfile : file = file_of doc_example).
  { vm_compute in Hf. injection Hf as <-. vm_compute. reflexivity. }
  subst file. clear Hf.
  split; [|split].
  - pose proof (H (Store "--port" TInt (PInt 8080)) (list_elem_of_lookup_2 (build_parser false) 2 _ eq_refl) eq_refl ltac:(discriminate)) as H1.
    exact (eq_sym (Ok_inj _ _ H1)).
  - pose proof (H (Choice "--routing-logic" PNone ["roundrobin"; "session"; "kvaware"; "loadaware"; "prefixaware";
      "disaggregated_prefill"; "disaggregated_prefill_orchestrated"; "priority"])
      (list_elem_of_lookup_2 (build_parser false) 22 _ eq_refl) eq_refl ltac:(discriminate)) as H1.
    exact (eq_sym (Ok_inj _ _ H1)).
  - pose proof (H (Store "--host" TStr (PStr "0.0.0.0")) (list_elem_of_lookup_2 (build_parser false) 1 _ eq_refl) eq_refl ltac:(discriminate)) as H1.
    exact (eq_sym (Ok_inj _ _ H1)).
Defined.

Lemma first_turn_after_start_witness :
  let s := mkD (mkGlobal (Some SDExternalOnly) []) [] None None (from_args (started doc_example given_example)) true in
  watch_tick (ring := gset string) dworld_example (Ok (file_of doc_example)) s = (s, Ok tt).
Proof.
  intros s.
  apply (first_turn_after_start_is_quiet no_str (yaml_at doc_example) no_file dworld_example given_example
    (started doc_example given_example) (file_of doc_example) (config_of (file_of doc_example)) s).
  - vm_compute. reflexivity.
  - vm_compute. reflexivity.
  - intros k Hk. unfold known_fields, FIELDS in Hk. simpl in Hk.
    repeat (apply elem_of_cons in Hk as [->|Hk]; [reflexivity|]). by apply elem_of_nil in Hk.
  - vm_compute. reflexivity.
  - intros k v Hk. apply dget_elem in Hk. vm_compute in Hk.
    repeat (apply elem_of_cons in Hk as [[= _ ->]|Hk]; [reflexivity|]). by apply elem_of_nil in Hk.
  - intros k v Hin Hk. unfold int_flags in Hin.
    repeat (apply elem_of_cons in Hin as [->|Hin]; [vm_compute in Hk; discriminate|]).
    by apply elem_of_nil in Hin.
  - vm_compute. reflexivity.
  - reflexivity.
Defined.
