(* ===== verification/Application.v ===== *)
(** * The application (src/src/vllm_router/app.py, aiohttp_client.py and
      services/request_service/rewriter.py)

    What the other files model is put together the way [main] does: the command line is
    parsed, logging configured, every component built ([initialize_all], which adds error
    reporting, tracing, the semantic cache and the request rewriter to Startup.v), the
    logging thread started, the limit on open files raised, and the server told how to run
    the application; the application opens its HTTP client and starts what needs the event
    loop before the first request ([lifespan_start]) and closes the components after the
    last one ([lifespan_stop]), all but the prefill and decode clients' sessions.  The routes are in Routes.v. *)

From S2P Require Import Prelude PyDict PyStr PyVal Utils ServiceDiscovery ServiceDiscoveryK8s DiscoveryRegistry HttpBackend.
From S2P Require Import Routing RoutingRegistry DynamicConfig Tracing Startup CommandLine.
From S2P Require EngineStats ExternalProviders SemanticCache Logging.
From Stdlib Require Import Ascii.

Local Open Scope py_scope.
Set Default Proof Using "Type".

(* ------------------------------------------------------------------ *)
(** ** The HTTP client (aiohttp_client.py) *)

(** [AiohttpClientWrapper]: the sessions made so far, open or closed, and the one it wraps. *)
Record AiohttpClientWrapper : Type := mkWrapper {
  sessions : list bool;
  async_client : option nat
}.
Definition wrapper_init : AiohttpClientWrapper := mkWrapper [] None.
Definition start : M AiohttpClientWrapper unit := modify (λ w,
  mkWrapper (w.(sessions) ++ [true]) (Some (length w.(sessions)))).
Definition stop : M AiohttpClientWrapper unit :=
  c <- gets async_client ;;
  match c with
  | None => raise (AttributeError "closed")
  | Some n => modify (λ w, mkWrapper (<[n := false]> w.(sessions)) None)
  end.
(** [wrapper()]. *)
Definition get_client : M AiohttpClientWrapper nat :=
  c <- gets async_client ;; lift (of_option AssertionError c).

(* ------------------------------------------------------------------ *)
(** ** The request rewriter (rewriter.py) *)

Inductive RequestRewriter : Type := NoopRequestRewriter.
(** The module's instance; the kind asked for is not looked at. *)
Definition initialize_request_rewriter (rewriter_type : string) : M (option RequestRewriter) RequestRewriter :=
  modify (λ _, Some NoopRequestRewriter) ;;; ret NoopRequestRewriter.
Definition is_request_rewriter_initialized (r : option RequestRewriter) : bool := bool_decide (is_Some r).
Definition get_request_rewriter : M (option RequestRewriter) RequestRewriter :=
  r <- gets id ;;
  match r with
  | Some r => ret r
  | None => modify (λ _, Some NoopRequestRewriter) ;;; ret NoopRequestRewriter
  end.

(* ------------------------------------------------------------------ *)
(** ** The limit on open files (utils.py) *)

(** [limits] is what [getrlimit] gives, the soft and the hard limit; no limit is -1. *)
Definition RLIM_INFINITY : Z := -1.
Definition set_ulimit (setrlimit : Z → Z → res unit) (target_soft_limit : Z) (limits : Z * Z) : (Z * Z) * res unit :=
  let '(current_soft, current_hard) := limits in
  if (current_soft <? target_soft_limit)%Z then
    match setrlimit target_soft_limit current_hard with
    | Ok _ => ((target_soft_limit, current_hard), Ok tt)
    | Err (ValueError _) => (limits, Ok tt)
    | Err e => (limits, Err e)
    end
  else (limits, Ok tt).

(* ------------------------------------------------------------------ *)
(** ** The web server's arguments *)

(** The keyword arguments of [uvicorn.run]; the last one is the level of its JSON loggers,
    when it logs JSON. *)
Record uvicorn_kwargs : Type := mkUvicorn {
  u_host : pyval;
  u_port : pyval;
  u_log_level : pyval;
  u_root_path : pyval;
  u_timeout_keep_alive : pyval;
  u_log_config : option string
}.
Definition upper_ascii (c : ascii) : ascii :=
  let n := nat_of_ascii c in
  if (97 <=? n)%nat && (n <=? 122)%nat then ascii_of_nat (n - 32) else c.
Fixpoint upper (s : string) : string :=
  match s with EmptyString => "" | String c s' => String (upper_ascii c) (upper s') end.
Definition uvicorn_log_level (log_level : string) : string :=
  if decide (log_level = "trace") then "DEBUG" else upper log_level.
Definition uvicorn_args (a : args_t) : res uvicorn_kwargs :=
  let kwargs := mkUvicorn (cfg "host" a) (cfg "port" a) (cfg "log_level" a) (cfg "root_path" a) (cfg "timeout_keep_alive" a) in
  if eq_str (cfg "log_format" a) "json"
  then rbind (str_arg (cfg "log_level" a)) (λ level, Ok (kwargs (Some (uvicorn_log_level level))))
  else Ok (kwargs None).

(* ------------------------------------------------------------------ *)
(** ** The process *)

Section application.
Context {ring : Type} {HR : HashRing ring} {vec : Type}.
#[local] Abbreviation Cache := (SemanticCache.SemanticCache (vec := vec)).

(** What the process meets outside, beside the services' world: which optional packages
    are installed and what setting them up comes to, and the operating system. *)
Record AWorld : Type := mkAWorld {
  aw_services : SWorld;
  aw_otel_available : bool;
  aw_exporter : res unit;
  aw_sentry : res unit;
  aw_cache_available : bool;
  aw_embedding : string → res unit;
  aw_saves : SemanticCache.save_outcome * SemanticCache.save_outcome;
  aw_cache_files : SemanticCache.Files (vec := vec);
  aw_setup_db : res unit;
  aw_fetch : ExternalProviders.adapter → res (list pyval);
  aw_setrlimit : Z → Z → res unit
}.

(** The semantic cache's globals: the switch, the instance and the size it reported. *)
Record cache_state : Type := mkCacheState {
  semantic_cache_enabled : bool;
  semantic_cache_instance : option Cache;
  semantic_cache_size : option nat
}.

Record process : Type := mkProcess {
  p_app : astate (ring := ring);
  p_client : AiohttpClientWrapper;
  p_clients : Clients;
  p_batch_initialized : bool;
  p_tracing : tracing;
  p_otel_enabled : bool;
  p_sentry : bool;
  p_rewriter : option RequestRewriter;
  p_cache : cache_state;
  p_logging : Logging.logging;
  p_log_stats : option pyval;
  p_limits : Z * Z
}.
(** The modules as they are imported; [logging] holds their loggers. *)
Definition p_init (logging : Logging.logging) (limits : Z * Z) : process :=
  mkProcess a_init wrapper_init no_clients false tracing_init false false None
    (mkCacheState false None None) logging None limits.

Definition on_app {A} (m : M astate A) : M process A := λ p,
  let '(s, r) := m p.(p_app) in
  (mkProcess s p.(p_client) p.(p_clients) p.(p_batch_initialized) p.(p_tracing) p.(p_otel_enabled) p.(p_sentry)
     p.(p_rewriter) p.(p_cache) p.(p_logging) p.(p_log_stats) p.(p_limits), r).
Definition on_client {A} (m : M AiohttpClientWrapper A) : M process A := λ p,
  let '(c, r) := m p.(p_client) in
  (mkProcess p.(p_app) c p.(p_clients) p.(p_batch_initialized) p.(p_tracing) p.(p_otel_enabled) p.(p_sentry)
     p.(p_rewriter) p.(p_cache) p.(p_logging) p.(p_log_stats) p.(p_limits), r).
Definition on_clients {A} (m : M Clients A) : M process A := λ p,
  let '(c, r) := m p.(p_clients) in
  (mkProcess p.(p_app) p.(p_client) c p.(p_batch_initialized) p.(p_tracing) p.(p_otel_enabled) p.(p_sentry)
     p.(p_rewriter) p.(p_cache) p.(p_logging) p.(p_log_stats) p.(p_limits), r).
Definition on_otel {A} (m : M tracing A) : M process A := λ p,
  let '(t, r) := m p.(p_tracing) in
  (mkProcess p.(p_app) p.(p_client) p.(p_clients) p.(p_batch_initialized) t p.(p_otel_enabled) p.(p_sentry)
     p.(p_rewriter) p.(p_cache) p.(p_logging) p.(p_log_stats) p.(p_limits), r).
Definition set_otel_enabled (b : bool) : M process unit := modify (λ p,
  mkProcess p.(p_app) p.(p_client) p.(p_clients) p.(p_batch_initialized) p.(p_tracing) b p.(p_sentry)
    p.(p_rewriter) p.(p_cache) p.(p_logging) p.(p_log_stats) p.(p_limits)).
Definition on_rewriter {A} (m : M (option RequestRewriter) A) : M process A := λ p,
  let '(w, r) := m p.(p_rewriter) in
  (mkProcess p.(p_app) p.(p_client) p.(p_clients) p.(p_batch_initialized) p.(p_tracing) p.(p_otel_enabled) p.(p_sentry)
     w p.(p_cache) p.(p_logging) p.(p_log_stats) p.(p_limits), r).
Definition on_cache (f : cache_state → cache_state) : M process unit := modify (λ p,
  mkProcess p.(p_app) p.(p_client) p.(p_clients) p.(p_batch_initialized) p.(p_tracing) p.(p_otel_enabled) p.(p_sentry)
    p.(p_rewriter) (f p.(p_cache)) p.(p_logging) p.(p_log_stats) p.(p_limits)).
Definition on_logging (f : Logging.logging → Logging.logging) : M process unit := modify (λ p,
  mkProcess p.(p_app) p.(p_client) p.(p_clients) p.(p_batch_initialized) p.(p_tracing) p.(p_otel_enabled) p.(p_sentry)
    p.(p_rewriter) p.(p_cache) (f p.(p_logging)) p.(p_log_stats) p.(p_limits)).

(* ------------------------------------------------------------------ *)
(** ** [initialize_all] *)

Definition initialize_sentry (w : AWorld) (a : args_t) : M process unit :=
  if truthy (cfg "sentry_dsn" a) then
    lift w.(aw_sentry) ;;;
    modify (λ p, mkProcess p.(p_app) p.(p_client) p.(p_clients) p.(p_batch_initialized) p.(p_tracing) p.(p_otel_enabled)
                   true p.(p_rewriter) p.(p_cache) p.(p_logging) p.(p_log_stats) p.(p_limits))
  else ret tt.

Definition initialize_otel (w : AWorld) (a : args_t) : M process unit :=
  if w.(aw_otel_available) && truthy (cfg "otel_endpoint" a) then
    service <- lift (needed (opt_str (cfg "otel_service_name" a))) ;;
    endpoint <- lift (needed (opt_str (cfg "otel_endpoint" a))) ;;
    on_otel (initialize_tracing w.(aw_exporter) service endpoint (negb (truthy (cfg "otel_secure" a)))) ;;;
    enabled <- on_otel is_tracing_enabled ;;
    set_otel_enabled enabled
  else ret tt.

(** [initialize_semantic_cache]: the instance there is, or a new one. *)
Definition initialize_semantic_cache (w : AWorld) (model : string) (threshold : Q) : M process unit :=
  existing <- gets (λ p, p.(p_cache).(semantic_cache_instance)) ;;
  match existing with
  | Some _ => ret tt
  | None =>
      lift (w.(aw_embedding) model) ;;;
      on_cache (λ c, mkCacheState c.(semantic_cache_enabled)
        (Some (SemanticCache.cache_init w.(aw_saves).1 w.(aw_saves).2 threshold w.(aw_cache_files))) c.(semantic_cache_size))
  end.
Definition initialize_cache (w : AWorld) (a : args_t) : M process unit :=
  gates <- gets (λ p, p.(p_app).(a_gates)) ;;
  if w.(aw_cache_available) && is_enabled "SemanticCache" gates then
    on_cache (λ c, mkCacheState true c.(semantic_cache_instance) c.(semantic_cache_size)) ;;;
    if truthy (cfg "semantic_cache_model" a) then
      model <- lift (str_arg (cfg "semantic_cache_model" a)) ;;
      threshold <- lift (needed (opt_float (cfg "semantic_cache_threshold" a))) ;;
      initialize_semantic_cache w model threshold ;;;
      on_cache (λ c, mkCacheState c.(semantic_cache_enabled) c.(semantic_cache_instance)
        ((λ i : Cache, length i.(SemanticCache.db).(SemanticCache.index)) <$> c.(semantic_cache_instance)))
    else ret tt
  else ret tt.

Definition initialize_all (w : AWorld) (a : args_t) : M process unit :=
  initialize_sentry w a ;;;
  initialize_otel w a ;;;
  on_app (initialize_services w.(aw_services) a) ;;;
  initialize_cache w a ;;;
  on_app (initialize_external w.(aw_services) a) ;;;
  on_app attach_router ;;;
  on_rewriter get_request_rewriter ;;;
  on_app (attach_timeout a).

(* ------------------------------------------------------------------ *)
(** ** [main] *)

Section main.
Context (py_str : pyval → string) (read_yaml read_json : pyval → res pyval).

Definition start_log_stats (a : args_t) : M process unit :=
  if truthy (cfg "log_stats" a) then modify (λ p,
    mkProcess p.(p_app) p.(p_client) p.(p_clients) p.(p_batch_initialized) p.(p_tracing) p.(p_otel_enabled) p.(p_sentry)
      p.(p_rewriter) p.(p_cache) p.(p_logging) (Some (cfg "log_stats_interval" a)) p.(p_limits))
  else ret tt.
Definition raise_ulimit (w : AWorld) : M process unit := λ p,
  let '(limits, r) := set_ulimit w.(aw_setrlimit) 65535 p.(p_limits) in
  (mkProcess p.(p_app) p.(p_client) p.(p_clients) p.(p_batch_initialized) p.(p_tracing) p.(p_otel_enabled) p.(p_sentry)
     p.(p_rewriter) p.(p_cache) p.(p_logging) p.(p_log_stats) limits, r).

Definition main (w : AWorld) (given : argv) : M process uvicorn_kwargs :=
  a <- lift (parse_args py_str read_yaml read_json w.(aw_cache_available) given) ;;
  level <- lift (str_arg (cfg "log_level" a)) ;;
  on_logging (Logging.set_log_level level) ;;;
  format <- lift (str_arg (cfg "log_format" a)) ;;
  on_logging (Logging.set_log_format format) ;;;
  initialize_all w a ;;;
  start_log_stats a ;;;
  raise_ulimit w ;;;
  lift (uvicorn_args a).
End main.

(* ------------------------------------------------------------------ *)
(** ** The lifespan *)

Definition sd_set_event_loop (sd : SD) : SD :=
  match sd with SDPodIP s => SDPodIP (PodIP.set_event_loop s) | sd => sd end.
(** [initialize_client_sessions] of the discoveries that have it. *)
Definition sd_client_sessions (w : SDWorld) (sd : SD) : M Clients unit :=
  match sd with
  | SDStatic s =>
      endpoints <- lift (get_endpoint_info w sd) ;;
      initialize_client_sessions s.(Static.prefill_model_labels) s.(Static.decode_model_labels) endpoints
  | SDPodIP s =>
      initialize_client_sessions s.(PodIP.prefill_labels) s.(PodIP.decode_labels) (PodIP.get_endpoint_info s)
  | SDServiceName s =>
      initialize_client_sessions s.(ServiceName.prefill_labels) s.(ServiceName.decode_labels)
        (ServiceName.get_endpoint_info s)
  | SDExternalOnly => ret tt
  end.

Definition initialize_batch_processor_db (w : AWorld) : M process unit :=
  batch <- gets (λ p, p.(p_app).(a_batch)) ;;
  done <- gets p_batch_initialized ;;
  match batch with
  | Some _ =>
      if done : bool then ret tt
      else
        lift w.(aw_setup_db) ;;;
        modify (λ p, mkProcess p.(p_app) p.(p_client) p.(p_clients) true p.(p_tracing) p.(p_otel_enabled) p.(p_sentry)
                       p.(p_rewriter) p.(p_cache) p.(p_logging) p.(p_log_stats) p.(p_limits))
  | None => ret tt
  end.
Definition attach_event_loop : M (dstate (ring := ring)) SD :=
  sd <- with_discovery get_service_discovery ;;
  let sd := sd_set_event_loop sd in
  with_discovery (modify (λ g, mkGlobal (Some sd) g.(closed))) ;;;
  ret sd.
Definition validate_external (w : AWorld) : M (astate (ring := ring)) unit := λ s,
  match s.(a_external) with
  | None => (s, Ok tt)
  | Some m =>
      let '(m', r) := ExternalProviders.validate_models w.(aw_fetch) m in
      (mkA s.(a_core) s.(a_scraper) s.(a_monitor) s.(a_batch) s.(a_gates) (Some m') s.(a_timeout), r)
  end.

(** Before the [yield] of [lifespan] and after it. *)
Definition lifespan_start (w : AWorld) : M process unit :=
  on_client start ;;;
  initialize_batch_processor_db w ;;;
  sd <- on_app (on_core attach_event_loop) ;;
  on_clients (sd_client_sessions w.(aw_services).(sw_world).(w_sd) sd) ;;;
  on_app (validate_external w).
Definition lifespan_stop (w : AWorld) : M process unit :=
  on_client stop ;;;
  on_app (shutdown w.(aw_services)) ;;;
  enabled <- gets p_otel_enabled ;;
  if w.(aw_otel_available) && enabled then on_otel shutdown_tracing else ret tt.
End application.

(* ------------------------------------------------------------------ *)
(** ** From the command line to the last request *)

Section lifecycle.
Context {ring : Type} {HR : HashRing ring} {vec : Type}.
Implicit Types (w : AWorld (vec := vec)) (p : process (ring := ring) (vec := vec)).

Lemma on_app_inv {A} (m : M astate A) p p' x :
  on_app m p = (p', Ok x) → m p.(p_app) = (p'.(p_app), Ok x) ∧ p'.(p_client) = p.(p_client) ∧ p'.(p_rewriter) = p.(p_rewriter).
Proof. unfold on_app. destruct (m (p_app p)) as [s r]. by intros [= <- ->]. Qed.

(** Steps that leave the services and the HTTP client alone. *)
Definition aside (s : astate (ring := ring)) (c : AiohttpClientWrapper) p : Prop := p.(p_app) = s ∧ p.(p_client) = c.
Lemma aside_inv s c m p p' :
  preserves (aside s c) m → aside s c p → m p = (p', @Ok unit tt) → aside s c p'.
Proof. intros Hm Hp E. specialize (Hm p Hp). by rewrite E in Hm. Qed.
Lemma aside_sentry s c w a : preserves (aside s c) (initialize_sentry w a).
Proof.
  apply preserves_if; [|apply preserves_ret]. apply preserves_bind; [apply preserves_lift|]. intros _.
  by apply preserves_modify.
Qed.
Lemma aside_on_otel s c {A} (m : M tracing A) : preserves (aside s c) (on_otel m).
Proof. intros p Hp. unfold on_otel. by destruct (m (p_tracing p)). Qed.
Lemma aside_otel s c w a : preserves (aside s c) (initialize_otel w a).
Proof.
  apply preserves_if; [|apply preserves_ret]. do 2 (apply preserves_bind; [apply preserves_lift|]; intros ?).
  do 2 (apply preserves_bind; [apply aside_on_otel|]; intros ?). by apply preserves_modify.
Qed.
Lemma aside_cache s c w a : preserves (aside s c) (initialize_cache w a).
Proof.
  apply preserves_bind; [apply preserves_gets|]. intros gates. apply preserves_if; [|apply preserves_ret].
  apply preserves_bind; [by apply preserves_modify|]. intros _. apply preserves_if; [|apply preserves_ret].
  do 2 (apply preserves_bind; [apply preserves_lift|]; intros ?).
  apply preserves_bind; [|intros _; by apply preserves_modify].
  apply preserves_bind; [apply preserves_gets|]. intros [x|]; [apply preserves_ret|].
  apply preserves_bind; [apply preserves_lift|]. intros _. by apply preserves_modify.
Qed.

(** The whole startup runs the services' own, and the rewriter is in place after it
    whatever the command line says. *)
Lemma initialize_all_services w a p p' :
  initialize_all w a p = (p', Ok tt) →
  Startup.initialize_all w.(aw_services) a p.(p_app) = (p'.(p_app), Ok tt) ∧ p'.(p_client) = p.(p_client) ∧
  is_request_rewriter_initialized p'.(p_rewriter) = true.
Proof.
  intros H. unfold initialize_all in H.
  apply bind_inv_Ok in H as (p1 & [] & H1 & H).
  apply (aside_inv p.(p_app) p.(p_client)) in H1; [|apply aside_sentry|done].
  apply bind_inv_Ok in H as (p2 & [] & H2 & H). apply (aside_inv _ _ _ _ _ (aside_otel _ _ w a) H1) in H2 as [A2 C2].
  apply bind_inv_Ok in H as (p3 & [] & (H3 & C3 & _)%on_app_inv & H). rewrite A2 in H3. rewrite C2 in C3.
  apply bind_inv_Ok in H as (p4 & [] & H4 & H).
  apply (aside_inv p3.(p_app) p.(p_client)) in H4 as [A4 C4]; [|apply aside_cache|done].
  apply bind_inv_Ok in H as (p5 & [] & (H5 & C5 & _)%on_app_inv & H). rewrite A4 in H5. rewrite C4 in C5.
  apply bind_inv_Ok in H as (p6 & [] & (H6 & C6 & _)%on_app_inv & H).
  apply bind_inv_Ok in H as (p7 & r & H7 & H).
  assert (Hr : p7.(p_app) = p6.(p_app) ∧ p7.(p_client) = p6.(p_client) ∧ is_request_rewriter_initialized p7.(p_rewriter) = true).
  { unfold on_rewriter, get_request_rewriter, bind, gets, modify, ret, id in H7.
    destruct (p_rewriter p6); injection H7 as <- _; by split_and!. }
  destruct Hr as (A7 & C7 & R7). apply on_app_inv in H as (H8 & C8 & R8). rewrite A7 in H8.
  split; [|split; [congruence|by rewrite R8]].
  unfold Startup.initialize_all, attach, bind. rewrite H3, H5, H6. exact H8.
Qed.

Lemma main_inv py_str read_yaml read_json w given logging limits p kw :
  main py_str read_yaml read_json w given (p_init logging limits) = (p, Ok kw) →
  ∃ a s, parse_args py_str read_yaml read_json w.(aw_cache_available) given = Ok a ∧ well_formed a ∧
    uvicorn_args a = Ok kw ∧ Startup.initialize_all w.(aw_services) a a_init = (s, Ok tt) ∧ p.(p_app) = s ∧
    p.(p_client) = wrapper_init ∧ is_request_rewriter_initialized p.(p_rewriter) = true.
Proof.
  intros H. unfold main in H. apply bind_inv_Ok in H as (p1 & a & [Ha ->]%lift_inv & H).
  apply bind_inv_Ok in H as (p1 & level & [_ ->]%lift_inv & H).
  apply bind_inv_Ok in H as (p2 & [] & [= <-] & H).
  apply bind_inv_Ok in H as (p3 & format & [_ ->]%lift_inv & H).
  apply bind_inv_Ok in H as (p4 & [] & [= <-] & H).
  apply bind_inv_Ok in H as (p5 & [] & (Hi & Hc & Hr)%initialize_all_services & H).
  apply bind_inv_Ok in H as (p6 & [] & Hs & H). apply bind_inv_Ok in H as (p7 & [] & Hu & [Hk ->]%lift_inv).
  assert (H6 : p6.(p_app) = p5.(p_app) ∧ p6.(p_client) = p5.(p_client) ∧ p6.(p_rewriter) = p5.(p_rewriter)).
  { unfold start_log_stats in Hs. destruct (truthy _); injection Hs as <-; done. }
  assert (H7 : p7.(p_app) = p6.(p_app) ∧ p7.(p_client) = p6.(p_client) ∧ p7.(p_rewriter) = p6.(p_rewriter)).
  { unfold raise_ulimit in Hu. destruct (set_ulimit _ _ _) as [l r]. injection Hu as <- _. done. }
  destruct H6 as (A6 & C6 & R6), H7 as (A7 & C7 & R7). exists a, p7.(p_app).
  split; [done|]. split.
  { rewrite parse_args_eq in Ha. apply rbind_Ok in Ha as (file & _ & Ha). apply rbind_Ok in Ha as (args & _ & Ha).
    pose proof (validate_args_spec args) as Hv. destruct (validate_args args) as [a' [[]|e]]; [|done].
    apply Ok_inj in Ha as <-. by apply Hv. }
  split; [done|]. rewrite A7, A6, C7, C6, R7, R6. split_and!; try done.
Qed.
(** *** While it serves *)

(** The HTTP client is open, is the only one that is, and the services can be shut down. *)
Definition serving p : Prop :=
  core_ok p.(p_app).(a_core) ∧ ∃ n, p.(p_client).(async_client) = Some n ∧
    p.(p_client).(sessions) !! n = Some true ∧
    ∀ k b, p.(p_client).(sessions) !! k = Some b → k ≠ n → b = false.

Lemma attach_event_loop_ok : preserves (core_ok (ring := ring)) attach_event_loop.
Proof.
  intros c [[sd Hsd] Hwf]. unfold attach_event_loop, bind at 1, with_discovery, get_service_discovery. cbn. rewrite Hsd.
  split; [by eexists|exact Hwf].
Qed.
Lemma serving_on_app {A} (m : M (astate (ring := ring)) A) :
  preserves (λ s, core_ok s.(a_core)) m → preserves serving (on_app m).
Proof. intros Hm p [Hc Hn]. unfold on_app. specialize (Hm _ Hc). by destruct (m (p_app p)). Qed.
Lemma core_on_core {A} (m : M (dstate (ring := ring)) A) :
  preserves (core_ok (ring := ring)) m → preserves (λ s : astate, core_ok s.(a_core)) (on_core m).
Proof. intros Hm s Hs. unfold on_core. specialize (Hm _ Hs). by destruct (m (a_core s)). Qed.

Lemma core_validate_external w : preserves (λ s : astate, core_ok (ring := ring) s.(a_core)) (validate_external w).
Proof. intros s Hs. unfold validate_external. destruct (a_external s) as [m|]; [|done]. by destruct (ExternalProviders.validate_models _ m). Qed.

Lemma lifespan_start_serves w p p' :
  p.(p_client) = wrapper_init → core_ok p.(p_app).(a_core) → lifespan_start w p = (p', Ok tt) → serving p'.
Proof.
  intros Hc Hok H. unfold lifespan_start in H. apply bind_inv_Ok in H as (p1 & [] & H1 & H).
  assert (Hs1 : serving p1).
  { unfold on_client, start, modify in H1. rewrite Hc in H1. injection H1 as <-. split; [done|].
    exists 0. split; [done|]. split; [done|]. intros [|k] b; [done|]. by destruct k. }
  assert (Hrest : preserves serving (initialize_batch_processor_db w ;;;
    sd <- on_app (on_core attach_event_loop) ;;
    on_clients (sd_client_sessions w.(aw_services).(sw_world).(w_sd) sd) ;;; on_app (validate_external w))).
  { apply preserves_bind.
    - apply preserves_bind; [apply preserves_gets|]. intros batch. apply preserves_bind; [apply preserves_gets|].
      intros done_. destruct batch; [|apply preserves_ret]. apply preserves_if; [apply preserves_ret|].
      apply preserves_bind; [apply preserves_lift|]. intros _. by apply preserves_modify.
    - intros _. apply preserves_bind; [apply serving_on_app, core_on_core, attach_event_loop_ok|]. intros sd.
      apply preserves_bind; [|intros _; apply serving_on_app, core_validate_external].
      intros p2 Hp2. unfold on_clients. by destruct (sd_client_sessions _ _ _). }
  specialize (Hrest p1 Hs1). by rewrite H in Hrest.
Qed.

Lemma watching_keeps_serving w loads :
  manager_closes w.(aw_services).(sw_world).(w_env) →
  preserves serving (on_app (on_core (watch_worker w.(aw_services).(sw_world) loads))).
Proof.
  intros Hm. apply serving_on_app, core_on_core, preserves_for_each. intros load.
  apply preserves_bind; [apply preserves_gets|]. intros r.
  apply preserves_if; [by apply watch_tick_core_ok|apply preserves_ret].
Qed.

(** A reload leaves the prefill and decode clients as they were: the sessions for the new
    engines are opened at startup only, so a disaggregated deployment goes on talking to
    the engines it was started with. *)
Lemma watching_keeps_clients sw loads p : (on_app (on_core (watch_worker sw loads)) p).1.(p_clients) = p.(p_clients).
Proof. unfold on_app. by destruct (on_core _ _). Qed.

(** What stopping closes; the prefill and decode clients are not among it. *)
Record closed_down w p : Prop := {
  cd_sessions : Forall (λ b, b = false) p.(p_client).(sessions) ∧ p.(p_client).(async_client) = None;
  cd_discovery : ∃ sd, p.(p_app).(a_core).(d_discovery).(current) = Some sd ∧ (sd = SDExternalOnly ∨ sd_running sd = false);
  cd_watcher : p.(p_app).(a_core).(d_running) = false;
  cd_routers : p.(p_app).(a_core).(d_routers) = [];
  cd_scraper : ∀ sc, p.(p_app).(a_scraper) = Some sc → EngineStats.get_health sc = false;
  cd_external : ∀ m, p.(p_app).(a_external) = Some m → m = ExternalProviders.manager_init;
  cd_tracing : w.(aw_otel_available) && p.(p_otel_enabled) = true → p.(p_tracing).(tracing_enabled) = false
}.

Lemma lifespan_stop_closes w p :
  manager_closes w.(aw_services).(sw_world).(w_env) → serving p →
  ∃ p', lifespan_stop w p = (p', Ok tt) ∧ closed_down w p' ∧ p'.(p_clients) = p.(p_clients).
Proof.
  intros Hm [Hok (n & Hn & Hopen & Hrest)]. destruct (shutdown_closes w.(aw_services) p.(p_app) Hm Hok) as
    (s' & Hs & Hsd & Hrun & Hrs & Hsc & Hex).
  unfold lifespan_stop, bind at 1, on_client, stop, bind, gets. rewrite Hn. cbn -[shutdown].
  unfold on_app. cbn -[shutdown]. rewrite Hs. cbn.
  assert (Hall : Forall (λ b, b = false) (<[n:=false]> p.(p_client).(sessions))).
  { apply Forall_lookup. intros k b. rewrite list_lookup_insert. case_decide as E.
    - destruct E as [-> ?]. by intros [= <-].
    - intros Hk. apply (Hrest k b Hk). intros ->. apply E. split; [done|]. by eapply lookup_lt_Some. }
  destruct (aw_otel_available w && p_otel_enabled p) eqn:Eo.
  - unfold on_otel, shutdown_tracing, bind, gets. cbn. destruct (provider (p_tracing p)); cbn;
      (eexists; split; [reflexivity|split; [by constructor|done]]).
  - eexists. split; [reflexivity|]. split; [|done]. constructor; try done. cbn. by rewrite Eo.
Qed.

(** C25: a run of the router: when [main] accepts the command line and the application starts,
    the arguments are well formed, the discovery and the router in use are the ones they
    ask for, and the server is told to run with their host and port; from then on, whatever
    the configuration file becomes, the handlers find one open HTTP client; and stopping
    does not fail and closes that client, the discovery in use, the watcher, the routers,
    the scraper, the external providers and tracing, but leaves the prefill and decode
    clients, whose sessions the start opened, as they were: nothing closes them.  Provided
    that closing a router's cluster monitor does not fail. *)
Theorem a_run_starts_what_was_asked_and_stops_it py_str read_yaml read_json w given logging limits p kw p1 loads :
  manager_closes w.(aw_services).(sw_world).(w_env) →
  main py_str read_yaml read_json w given (p_init logging limits) = (p, Ok kw) →
  lifespan_start w p = (p1, Ok tt) →
  (∃ a sd rl kws st,
     parse_args py_str read_yaml read_json w.(aw_cache_available) given = Ok a ∧ well_formed a ∧
     kw.(u_host) = cfg "host" a ∧ kw.(u_port) = cfg "port" a ∧
     rbind (startup_discovery a) (create_service_discovery w.(aw_services).(sw_world).(w_sd)) = Ok sd ∧
     p.(p_app).(a_core).(d_discovery).(current) = Some sd ∧
     RoutingLogic_of (cfg "routing_logic" a) = Some rl ∧ startup_kwargs a = Ok kws ∧
     construct w.(aw_services).(sw_world).(w_env) rl kws = Ok st ∧
     p.(p_app).(a_core).(d_router) = Some (fresh_router rl kws st)) ∧
  let p2 := (on_app (on_core (watch_worker w.(aw_services).(sw_world) loads)) p1).1 in
  (∃ n, (on_client get_client p2).2 = Ok n ∧ p2.(p_client).(sessions) !! n = Some true) ∧
  ∃ p3, lifespan_stop w p2 = (p3, Ok tt) ∧ closed_down w p3 ∧ p3.(p_clients) = p1.(p_clients).
Proof.
  intros Hm H H1. apply main_inv in H as (a & s & Ha & Hwf & Hkw & Hs & Hp & Hc & _).
  assert (Hok : core_ok p.(p_app).(a_core)) by (rewrite Hp; by eapply startup_core_ok).
  split.
  - apply startup_spec in Hs as (request & sd & rl & kws & st & Hreq & Hsd & Hd & Hrl & Hk & Hst & _ & Hr & _).
    exists a, sd, rl, kws, st. rewrite Hp, Hd, Hreq. split; [done|]. split; [done|].
    assert (Hu : kw.(u_host) = cfg "host" a ∧ kw.(u_port) = cfg "port" a).
    { unfold uvicorn_args in Hkw. destruct (eq_str _ _); [apply rbind_Ok in Hkw as (l & _ & Hkw)|]; by injection Hkw as <-. }
    destruct Hu. by split_and!.
  - assert (Hsv : serving (on_app (on_core (watch_worker w.(aw_services).(sw_world) loads)) p1).1).
    { apply watching_keeps_serving; [done|]. by eapply lifespan_start_serves. }
    split.
    2: { rewrite <-(watching_keeps_clients w.(aw_services).(sw_world) loads p1). by apply lifespan_stop_closes. }
    destruct Hsv as [_ (n & Hn & Hopen & _)]. exists n.
    unfold on_client at 1, get_client, bind, gets, lift. rewrite Hn. done.
Qed.

(** Before the application starts there is no client, and stopping twice fails. *)
Lemma no_client_before_start p : p.(p_client) = wrapper_init → (on_client get_client p).2 = Err AssertionError.
Proof. intros Hc. unfold on_client. by rewrite Hc. Qed.
Lemma stopping_twice_fails c : ((start ;;; stop ;;; stop) c).2 = Err (AttributeError "closed").
Proof. done. Qed.
End lifecycle.

(* ------------------------------------------------------------------ *)
(** ** The limit on open files *)

(** A finite soft limit is never lowered, and the hard limit is kept. *)
Lemma set_ulimit_raises setrlimit target soft hard limits r :
  set_ulimit setrlimit target (soft, hard) = (limits, r) → (soft <= limits.1)%Z ∧ limits.2 = hard.
Proof.
  unfold set_ulimit. destruct (soft <? target)%Z eqn:E; [apply Z.ltb_lt in E|intros [= <- _]; cbn; lia].
  destruct (setrlimit target hard) as [|e]; [intros [= <- _]; cbn; lia|].
  destruct e; intros [= <- _]; cbn; lia.
Qed.
(** No limit at all is the number -1, which is below every target: it is lowered. *)
Example no_limit_is_lowered : (set_ulimit (λ _ _, Ok tt) 65535 (RLIM_INFINITY, RLIM_INFINITY)).1 = (65535, -1)%Z.
Proof. reflexivity. Qed.

(* ------------------------------------------------------------------ *)
(** ** Witnesses *)

Definition aworld_example : AWorld (vec := string) :=
  mkAWorld sworld_example true (Ok tt) (Ok tt) true (λ _, Ok tt) (SemanticCache.SavedBoth, SemanticCache.SavedBoth)
    (SemanticCache.mkFiles None None) (Ok tt) (λ _, Ok []) (λ _ _, Ok tt).
Definition argv_example : argv :=
  [("service_discovery", Some "static"); ("routing_logic", Some "roundrobin"); ("static_backends", Some "http://a:1,http://b:1");
   ("static_models", Some "m,m"); ("otel_endpoint", Some "localhost:4317"); ("feature_gates", Some "SemanticCache=true");
   ("semantic_cache_model", Some "all-MiniLM-L6-v2"); ("log_format", Some "json"); ("request_rewriter", Some "noop");
   ("port", Some "9000")].
Definition logging_example : Logging.logging := Logging.init_logger "vllm_router.app" None Logging.logging_init.
Definition main_example : process (ring := gset string) (vec := string) * res uvicorn_kwargs :=
  main no_str no_file no_file aworld_example argv_example (p_init logging_example (1024, 4096)%Z).
Definition kwargs_example : uvicorn_kwargs :=
  mkUvicorn (PStr "0.0.0.0") (PInt 9000) (PStr "info") (PStr "") (PInt 5) (Some "INFO").
Lemma main_example_runs : main_example = (main_example.1, Ok kwargs_example).
Proof.
  assert (E : main_example.2 = Ok kwargs_example) by (vm_compute; reflexivity).
  rewrite <-E. apply surjective_pairing.
Qed.
Definition started_example : process (ring := gset string) (vec := string) :=
  (lifespan_start aworld_example main_example.1).1.
Lemma lifespan_example_starts : lifespan_start aworld_example main_example.1 = (started_example, Ok tt).
Proof.
  assert (E : (lifespan_start aworld_example main_example.1).2 = Ok tt) by (vm_compute; reflexivity).
  unfold started_example. rewrite <-E. apply surjective_pairing.
Qed.

Lemma a_run_witness :
  ∃ p3, lifespan_stop aworld_example
      (on_app (on_core (watch_worker sworld_example.(sw_world) [Err (OtherException "FileNotFoundError")])) started_example).1
    = (p3, Ok tt) ∧ closed_down aworld_example p3 ∧ p3.(p_clients) = started_example.(p_clients).
Proof.
  pose proof (a_run_starts_what_was_asked_and_stops_it no_str no_file no_file aworld_example argv_example logging_example
    (1024, 4096)%Z main_example.1 kwargs_example started_example [Err (OtherException "FileNotFoundError")]) as H.
  apply H; [right; reflexivity|exact main_example_runs|exact lifespan_example_starts].
Defined.

(** The optional parts are in place: tracing, the cache with its size reported, the
    rewriter, the limit on open files. *)
Example optional_parts :
  let p := main_example.1 in
  p.(p_otel_enabled) = true ∧ p.(p_cache).(semantic_cache_size) = Some 0 ∧
  is_request_rewriter_initialized p.(p_rewriter) = true ∧ p.(p_limits) = (65535, 4096)%Z ∧ p.(p_log_stats) = None.
Proof. vm_compute. split_and!; reflexivity. Qed.
